(* ===== verification/_CoqProject ===== *)
-Q . S2P
Prelude.v
Sorting.v
Utf8.v
Proto.v
Duration.v
Io.v
Commands.v
Acl.v
AclTests.v
Topic.v
Token.v
Pubsub.v
Reference.v
PubsubSpec.v
Passwords.v
Keys.v
Server.v
ServerSpec.v
Control.v
ControlSpec.v
Session.v
SessionSpec.v
Udp.v
UdpSpec.v
Interleave.v
Broker.v
System.v
Receivers.v
Progress.v
Client.v
ClientSpec.v
Board.v
Delivery.v
LoginSpec.v
ConnectSpec.v
ReplicationSpec.v
Queues.v
Frames.v
Runs.v
ClientSystem.v
Races.v
ExecuteSpec.v
Cli.v
CliSpec.v
Http.v
Launch.v
Start.v
StartSpec.v
Psrtd.v
Eva.v
Main.v
Examples.v
