(* ===== verification/Prelude.v ===== *)
(** * PSRT: a verification library for the publish/subscribe server and client

    PSRT is a message broker. A client opens a control stream, logs in, subscribes to topics and
    publishes to them; it may open a data stream, on which the server delivers the messages of its
    subscriptions. Datagrams publish without a connection. The development models the crate
    src/src/*.rs in Rocq and proves what makes it correct; a definition has the name of the function
    it translates wherever Rocq allows it.

    ** How the program is modelled

    Bytes are the Standard Library's [byte]; a string is the list of the bytes of its UTF-8 encoding.
    Integers are [N] with [wrap w] where the code casts or where its arithmetic wraps. Fallible code
    returns [result A E], and [let? x := m in k] is the [?] operator. An [async fn] is a value of
    [prog St A] (Io.v): a tree of the effects it awaits (reads and writes of its connection under a
    timeout, the clock, sleeping, critical sections on the shared state, waiting for a channel). [run]
    executes one task alone on a timed connection; Interleave.v lets any number of programs take
    their steps in any order, System.v those of the server, ClientSystem.v those of a client. Mutable
    objects that the code shares (a client's data channel and tasks, the channels) live in a store,
    by identity: the type [Hub] of Pubsub.v. A client object counts its [Arc]s; the last one that
    goes takes the tasks and the sender of the data channel along, as [Drop] does. A panic of a task
    is the program [Crash], of which [run] and the machines have no step.

    Loops that wait for input have fuel; [None] means that the loop still turns. Theorems say how
    much fuel is enough: one more round than the peer sends bytes for a control stream, one more
    round than there are items for a data stream. The theorem on progress is about executions whose
    tasks have more fuel than the execution has steps, so that no loop ends for the want of it.

    Code outside src/ is a parameter: the crate submap ([SubMapOps] with its laws), async_channel
    ([ChannelOps]), SHA-256, bcrypt, AES-GCM ([AeadOps]), hexadecimal, base64, YAML and files,
    one-shot channels, the TLS handshake, sockets, the parser of the command line, and the replication of the cluster edition, whose
    module is not in the repository. Their laws state their documentation; Reference.v and the
    instances next to each class show that the laws can hold.

    ** The files

    - Prelude.v: results, bytes, integers of machine width, slices, tactics. Sorting.v: stable sorts,
      and the order of a [BTreeMap]. Utf8.v: [str::from_utf8]. Proto.v: lib.rs (constants, errors,
      messages). Duration.v: seconds of type [f64] as durations. Io.v: comm.rs, and the language of
      programs.
    - Token.v, Acl.v, Topic.v, Passwords.v, Keys.v: token.rs, acl.rs, [prepare_topic] of pubsub.rs,
      passwords.rs, keys.rs. AclTests.v: the unit tests of acl.rs, run on the model. Commands.v: the
      commands of client.rs and their encoding.
    - Pubsub.v: the database of clients of pubsub.rs, with its interfaces. Reference.v: instances of
      them. PubsubSpec.v: the invariant [hub_ok] (the two indexes hold the same clients, every client
      has its own cell, every data channel one owner) and the effect of each operation.
    - Server.v: the statics of server.rs as one record, the counters, [push_to_subscribers];
      ServerSpec.v: delivery as a function of the hub.
    - Control.v, ControlSpec.v: [process_control] and its operations.
    - Session.v, SessionSpec.v: [handle_unix_stream], [handle_tcp_stream], the data streams.
    - Udp.v, UdpSpec.v: [process_udp_packet], the UDP listener, the UDP client of client.rs.
    - Interleave.v: programs side by side; a logic for what a program keeps, under a ghost state that
      only grows. Broker.v: the abstract broker. System.v: connections, datagram listeners and
      spawned tasks together, with aborts, the clock and the reloads of the configuration.
      Receivers.v, Progress.v: what the programs wait for, and for whom. Queues.v:
      what the operations of the hub do to the messages in the data channels; the ghost there says
      which client a channel was made for. Frames.v: what the data channels hold in every execution.
      Runs.v: concrete executions. Races.v: executions that go wrong.
    - Client.v: the client of client.rs. ExecuteSpec.v: one command and all its outcomes.
      ClientSpec.v, Delivery.v, LoginSpec.v, ReplicationSpec.v: both ends of the protocol together.
      Board.v: an executable specification of what the sessions of the server do together, and that
      the programs of the server refine it.
      ConnectSpec.v: programs with a deadline, and how long [connect] takes.
      ClientSystem.v: the tasks and the callers of a client together.
    - Cli.v, CliSpec.v: the command line client, cli.rs.
    - Http.v: the status pages, the module [stats] of server.rs.
    - Launch.v: the configuration of the server, its databases at start-up and their reload. Start.v,
      StartSpec.v: options, sockets, PID file, certificates, signals and the end of psrtd. Psrtd.v:
      the loops that accept connections, and the executions of a process that [main] has started as
      executions of System.v. Eva.v: the EVA ICS service, eva_svc.rs. Main.v: the command line of psrtd,
      its logger, and [main], which becomes the one or the other. Examples.v: the sample programs.

    ** What is proved

    - The whole server: [system_invariant] (the database and the counters under every interleaving),
      [server_refines_board] (what clients are answered, what they receive and who is subscribed to
      what, for any sequence of their requests, is what an interpreter of the requests says),
      [server_refines_broker] (mailboxes are first-in first-out in every interleaving),
      [queued_frames_typed] (what the mailboxes hold is well formed), from which
      [reachable_stream_delivery] (the client reads back every mailbox that the server can reach).
    - The whole client: [client_answers] (at most one answer for every caller, its own, and final),
      [execute_outcomes] (every outcome of a command, and when).
    - The database: [hub_invariant] under every sequence of operations; registration, subscription,
      data channels ([subscribe_spec] and its neighbours in PubsubSpec.v).
    - Both ends of the protocol: a login ([login_exchange]), a data stream ([data_stream_exchange]), a
      publication with its answer ([publish_exchange]), and from the publisher to the subscriber's
      client ([publication_arrives]), a subscription ([client_subscribe_effect]), the replication of
      a message ([replication_exchange]), datagrams plain and encrypted ([udp_plain_exchange],
      [udp_encrypted_exchange]).
    - Access: nothing is published without permission, in one operation
      ([control_publishes_permitted], [udp_datagram_safe]) and in every execution ([publications_permitted]); no message waits for a
      client that may not read it ([deliveries_permitted]); both hold of every server that [main]
      starts ([psrtd_permissions]). Nobody logs in without credentials ([tcp_login_required]), the
      status pages are for administrators ([stats_access]). What an access list means
      ([allow_read_covers]), its written form ([mask_list_roundtrip]), and two ways around it
      ([allow_read_wildcard_escape], [subscribe_acl_bypass]): the theorems on executions are about
      rules without them, which a hypothesis on the lists says.
    - Delivery: every subscriber once, nobody else ([push_delivers]); what the command line prints
      ([listener_shows_stream], [top_table_spec]).
    - Time and termination: [control_step_bounded], [process_control_terminates],
      [session_unregisters], [connect_bounded]; no thread of the server waits for good
      ([publisher_progress]).
    - The process: a start of psrtd to its end ([server_lifecycle]), how [main] ends at all
      ([psrtd_main_ends]), the EVA ICS service runs the same server ([eva_runs_psrtd]), reloads replace the tables or leave them ([hangup_spec]).

    ** What is not modelled

    The replication module, which is not in the repository (its push is a parameter); the text
    of log messages; what hyper does with the connections of the status pages; the
    measurements of the benchmark and the reset of the terminal. In System.v and ClientSystem.v time
    does not pass, so a timer may fire at any time; the timeouts themselves are exact for a task
    alone ([run]). When a thread of a client is stopped, which sender of an answer it held is left
    open. Of a pattern with [#] before its last level the crate submap documents nothing, so the laws
    and the broker only say that it concerns no other client.

    ** Plan

    Next: the sample program pubsub.rs and the command line client over ClientSystem.v, and the
    progress of the callers of a client. *)

From Stdlib Require Export Strings.Byte.
From Stdlib Require Import NArith Lia.
From stdpp Require Export base prelude gmap strings numbers.
From stdpp Require Export list.

(** ** Results: Rust's [Result<A, E>] and the [?] operator *)

Inductive result (A E : Type) : Type :=
| Ok (a : A)
| Err (e : E).
Arguments Ok {A E} a.
Arguments Err {A E} e.

Definition rbind {A B E} (m : result A E) (f : A -> result B E) : result B E :=
  match m with Ok a => f a | Err e => Err e end.

Definition map_err {A E F} (f : E -> F) (m : result A E) : result A F :=
  match m with Ok a => Ok a | Err e => Err (f e) end.

Definition ok_or {A E} (o : option A) (e : E) : result A E :=
  match o with Some a => Ok a | None => Err e end.

Definition is_ok {A E} (m : result A E) : bool :=
  match m with Ok _ => true | Err _ => false end.

Definition is_err {A E} (m : result A E) : bool := negb (is_ok m).

Declare Scope psrt_scope.
Delimit Scope psrt_scope with psrt.
Open Scope psrt_scope.

Notation "'let?' x ':=' m 'in' k" := (rbind m (fun x => k))
  (at level 10, x pattern, m at level 100, k at level 200) : psrt_scope.

#[export] Instance result_eq_dec {A E} `{EqDecision A, EqDecision E} : EqDecision (result A E).
Proof. solve_decision. Defined.

(** ** Bytes and strings

    A [u8] is Stdlib's [byte]; a [&str] / [String] is the list of the bytes of its UTF-8 encoding,
    which is what [str::as_bytes], [str::len] and every ASCII-separator operation of the program
    look at. *)

#[export] Instance byte_eq_decision : EqDecision byte := byte_eq_dec.

Lemma byte_of_to_N (b : byte) : default x00 (of_N (to_N b)) = b.
Proof. by rewrite of_to_N. Qed.

#[export] Instance byte_countable : Countable byte :=
  inj_countable' to_N (fun n => default x00 (of_N n)) byte_of_to_N.

Abbreviation bytes := (list byte).

(** Text literals of the source, as bytes. *)
Definition bs (s : string) : bytes := String.list_byte_of_string s.

Definition len {A} (l : list A) : N := N.of_nat (length l).

Definition slash : byte := x2f.
Definition NUL : byte := x00.

(** ** Machine integers

    A value of a [w]-bit unsigned type is an [N] below [2 ^ w]; [wrap w] is the truncation done by
    the [as] casts and by the arithmetic of a build without overflow checks (the profile of
    Cargo.toml, dev and release alike). *)

Definition wrap (w n : N) : N := (n mod 2 ^ w)%N.

(** [a - b] on [w] bits for [a], [b] below [2 ^ w]. *)
Definition wsub (w a b : N) : N := ((a + 2 ^ w - b) mod 2 ^ w)%N.

Definition byte_of_N (n : N) : byte := default x00 (of_N (n mod 256)%N).

(** [to_le_bytes] of a [w]-byte integer and its inverse [from_le_bytes]. *)
Fixpoint to_le_bytes (w : nat) (n : N) : bytes :=
  match w with
  | O => []
  | S w' => byte_of_N n :: to_le_bytes w' (n / 256)%N
  end.

Fixpoint from_le_bytes (l : bytes) : N :=
  match l with
  | [] => 0
  | b :: l' => to_N b + 256 * from_le_bytes l'
  end%N.

(** ** Slices: the operations of [core::slice] and [core::str] the program uses *)

(** [slice.iter().position(|n| *n == c)]. *)
Fixpoint position (c : byte) (l : bytes) : option nat :=
  match l with
  | [] => None
  | b :: l' => if decide (b = c) then Some O else S <$> position c l'
  end.

(** [slice.split(|n| *n == c)] and [str.split(c)] run to the end: the pieces between the
    separators, one more than there are separators. *)
Fixpoint split_on (c : byte) (l : bytes) : list bytes :=
  match l with
  | [] => [[]]
  | b :: l' =>
      if decide (b = c) then [] :: split_on c l'
      else match split_on c l' with
           | [] => [[b]]
           | p :: ps => (b :: p) :: ps
           end
  end.

(** [slice.splitn(2, |n| *n == c)]: the piece before the first separator and, when there is one,
    all that follows it. *)
Fixpoint splitn2 (c : byte) (l : bytes) : bytes * option bytes :=
  match l with
  | [] => ([], None)
  | b :: l' =>
      if decide (b = c) then ([], Some l')
      else let '(p, r) := splitn2 c l' in (b :: p, r)
  end.

(** [join(sep)] of a vector of strings. *)
Fixpoint join (sep : bytes) (ps : list bytes) : bytes :=
  match ps with
  | [] => []
  | [p] => p
  | p :: ps' => p ++ sep ++ join sep ps'
  end.

Definition starts_with (p l : bytes) : bool := bool_decide (p = take (length p) l).

Definition ends_with (p l : bytes) : bool := starts_with (reverse p) (reverse l).

Definition count (c : byte) (l : bytes) : nat := length (filter (fun b => b = c) l).

(** ** Automation *)

Create HintDb psrt.
Create Rewrite HintDb psrt.

(** Destruct the scrutinee of a [match] of the goal or of a hypothesis, keeping the equation. *)
Ltac case_match_eq :=
  match goal with
  | |- context [match ?x with _ => _ end] => let E := fresh "E" in destruct x eqn:E
  | H : context [match ?x with _ => _ end] |- _ => let E := fresh "E" in destruct x eqn:E
  end.

(** Open the results and pairs of the hypotheses and discharge the impossible cases. *)
Ltac crush :=
  repeat first
    [ done
    | progress simplify_eq/=
    | progress destruct_and?
    | case_match_eq ].

(** An equation of closed terms, by evaluating both sides in the virtual machine, without reading
    the normal forms back. *)
Ltac vm_refl := lazymatch goal with |- _ = ?y => vm_cast_no_check (eq_refl y) end.

Lemma len_app {A} (l k : list A) : len (l ++ k) = (len l + len k)%N.
Proof. unfold len. rewrite length_app. lia. Qed.

Lemma len_cons {A} (x : A) (l : list A) : len (x :: l) = (1 + len l)%N.
Proof. unfold len. simpl. lia. Qed.

Lemma len_nil {A} : len (@nil A) = 0%N.
Proof. done. Qed.

#[export] Hint Rewrite @len_app @len_cons @len_nil : psrt.

Lemma to_N_lt (b : byte) : (to_N b < 256)%N.
Proof. pose proof (to_N_bounded b). lia. Qed.

Lemma to_N_byte_of_N (n : N) : to_N (byte_of_N n) = (n mod 256)%N.
Proof.
  unfold byte_of_N.
  destruct (of_N (n mod 256)%N) as [b|] eqn:E; simpl.
  - by apply to_of_N.
  - apply of_N_None_iff in E.
    pose proof (N.mod_lt n 256). lia.
Qed.

Lemma byte_of_N_to_N (b : byte) : byte_of_N (to_N b) = b.
Proof.
  unfold byte_of_N. rewrite N.mod_small by apply to_N_lt. by rewrite of_to_N.
Qed.

Lemma wrap_small (w n : N) : (n < 2 ^ w)%N -> wrap w n = n.
Proof. apply N.mod_small. Qed.

Lemma wrap_lt (w n : N) : (wrap w n < 2 ^ w)%N.
Proof. apply N.mod_lt. by apply N.pow_nonzero. Qed.

Lemma wrap_add_l (w a b : N) : wrap w (wrap w a + b) = wrap w (a + b).
Proof. apply N.Div0.add_mod_idemp_l. Qed.

Lemma wrap_add_r (w a b : N) : wrap w (a + wrap w b) = wrap w (a + b).
Proof. apply N.Div0.add_mod_idemp_r. Qed.

Lemma length_to_le_bytes w n : length (to_le_bytes w n) = w.
Proof. revert n; induction w as [|w IH]; intros n; simpl; [done|]. by rewrite IH. Qed.

Lemma from_to_le_bytes w n : from_le_bytes (to_le_bytes w n) = wrap (8 * N.of_nat w) n.
Proof.
  revert n; induction w as [|w IH]; intros n; simpl.
  - unfold wrap. change (2 ^ (8 * N.of_nat 0))%N with 1%N. by rewrite N.mod_1_r.
  - rewrite to_N_byte_of_N, IH. unfold wrap.
    replace (2 ^ (8 * N.of_nat (S w)))%N with (256 * 2 ^ (8 * N.of_nat w))%N.
    + rewrite N.Div0.mod_mul_r. lia.
    + replace (8 * N.of_nat (S w))%N with (8 + 8 * N.of_nat w)%N by lia.
      by rewrite N.pow_add_r.
Qed.

Lemma from_to_le_bytes_small w n :
  (n < 2 ^ (8 * N.of_nat w))%N -> from_le_bytes (to_le_bytes w n) = n.
Proof. intros. by rewrite from_to_le_bytes, wrap_small. Qed.

Lemma from_le_bytes_lt l : (from_le_bytes l < 2 ^ (8 * len l))%N.
Proof.
  induction l as [|b l IH]; [done|].
  rewrite len_cons. simpl from_le_bytes.
  replace (8 * (1 + len l))%N with (8 + 8 * len l)%N by lia.
  rewrite N.pow_add_r. change (2 ^ 8)%N with 256%N.
  pose proof (to_N_lt b). nia.
Qed.

Lemma to_from_le_bytes l : to_le_bytes (length l) (from_le_bytes l) = l.
Proof.
  induction l as [|b l IH]; [done|]. cbn [length to_le_bytes from_le_bytes].
  pose proof (to_N_lt b). f_equal.
  - transitivity (byte_of_N (to_N b)); [|apply byte_of_N_to_N]. unfold byte_of_N. do 2 f_equal.
    rewrite (N.mul_comm 256), N.Div0.mod_add. done.
  - rewrite (N.mul_comm 256), N.div_add, N.div_small, N.add_0_l by lia. done.
Qed.

#[export] Hint Rewrite length_to_le_bytes : psrt.

(** *** Positions, splits and joins *)

Lemma position_None c l : position c l = None <-> c ∉ l.
Proof.
  induction l as [|b l IH]; simpl.
  - split; [intros _; apply not_elem_of_nil | done].
  - rewrite not_elem_of_cons. case_decide; simplify_eq; [naive_solver|].
    rewrite fmap_None, IH. naive_solver.
Qed.

Lemma position_app c p r : c ∉ p -> position c (p ++ c :: r) = Some (length p).
Proof.
  induction p as [|b p IH]; simpl; intros Hp.
  - by rewrite decide_True.
  - apply not_elem_of_cons in Hp as [Hne Hp].
    rewrite decide_False by congruence. by rewrite IH.
Qed.

Lemma position_Some c l n :
  position c l = Some n ->
  exists p r, l = p ++ c :: r /\ length p = n /\ c ∉ p.
Proof.
  revert n; induction l as [|b l IH]; intros n; simpl; [done|].
  case_decide as D; intros H.
  - simplify_eq. exists [], l. split_and!; [done..|apply not_elem_of_nil].
  - apply fmap_Some in H as (m & Hm & ->).
    destruct (IH m Hm) as (p & r & -> & Hl & Hp).
    exists (b :: p), r. split_and!; simpl; [done|by rewrite Hl|].
    apply not_elem_of_cons. naive_solver.
Qed.

Lemma splitn2_app c p r : c ∉ p -> splitn2 c (p ++ c :: r) = (p, Some r).
Proof.
  induction p as [|b p IH]; simpl; intros Hp.
  - by rewrite decide_True.
  - apply not_elem_of_cons in Hp as [Hne Hp].
    rewrite decide_False by congruence. by rewrite IH.
Qed.

Lemma splitn2_not_in c p : c ∉ p -> splitn2 c p = (p, None).
Proof.
  induction p as [|b p IH]; simpl; intros Hp; [done|].
  apply not_elem_of_cons in Hp as [Hne Hp].
  rewrite decide_False by congruence. by rewrite IH.
Qed.

Lemma splitn2_spec c l p r :
  splitn2 c l = (p, r) ->
  c ∉ p /\ l = p ++ match r with Some q => c :: q | None => [] end.
Proof.
  revert p r; induction l as [|b l IH]; intros p r; simpl.
  - intros [= <- <-]. split; [apply not_elem_of_nil|done].
  - case_decide as D.
    + intros [= <- <-]. subst. split; [apply not_elem_of_nil|done].
    + destruct (splitn2 c l) as [p' r'] eqn:E. intros [= <- <-].
      destruct (IH p' r' eq_refl) as [Hp ->].
      split; [apply not_elem_of_cons; naive_solver|done].
Qed.

Lemma split_on_nonempty c l : split_on c l <> [].
Proof. destruct l; simpl; [done|]. repeat case_match; done. Qed.

Lemma split_on_not_in c p : c ∉ p -> split_on c p = [p].
Proof.
  induction p as [|b p IH]; simpl; intros Hp; [done|].
  apply not_elem_of_cons in Hp as [Hne Hp].
  rewrite decide_False by congruence. by rewrite IH.
Qed.

Lemma split_on_app c p r : c ∉ p -> split_on c (p ++ c :: r) = p :: split_on c r.
Proof.
  induction p as [|b p IH]; simpl; intros Hp.
  - by rewrite decide_True.
  - apply not_elem_of_cons in Hp as [Hne Hp].
    rewrite decide_False by congruence. by rewrite IH.
Qed.

(** Split at the first separator, or report that there is none. *)
Lemma first_sep c (l : bytes) :
  c ∉ l \/ exists p r, l = p ++ c :: r /\ c ∉ p.
Proof.
  destruct (position c l) as [n|] eqn:E.
  - right. apply position_Some in E as (p & r & ? & _ & ?). eauto.
  - left. by apply position_None.
Qed.

(** Induction on a byte string piece by piece. *)
Lemma sep_ind c (P : bytes -> Prop) :
  (forall p, c ∉ p -> P p) ->
  (forall p r, c ∉ p -> P r -> P (p ++ c :: r)) ->
  forall l, P l.
Proof.
  intros Hlast Hcons l.
  remember (length l) as n eqn:Hn. revert l Hn.
  induction n as [n IH] using lt_wf_ind; intros l Hn.
  destruct (first_sep c l) as [|(p & r & -> & Hp)]; [auto|].
  apply Hcons; [done|]. eapply IH; [|reflexivity].
  subst n. rewrite length_app. simpl. lia.
Qed.

Lemma join_split_on c l : join [c] (split_on c l) = l.
Proof.
  induction l as [p Hp|p r Hp IH] using (sep_ind c).
  - by rewrite split_on_not_in.
  - rewrite split_on_app by done. simpl.
    pose proof (split_on_nonempty c r).
    destruct (split_on c r) eqn:E; [done|]. rewrite <- IH. done.
Qed.

Lemma split_on_join c ps :
  ps <> [] -> Forall (fun p => c ∉ p) ps -> split_on c (join [c] ps) = ps.
Proof.
  intros Hne Hps. induction Hps as [|p ps Hp Hps IH]; [done|].
  destruct ps as [|q ps]; simpl.
  - by apply split_on_not_in.
  - rewrite split_on_app by done. f_equal. apply IH. done.
Qed.

Lemma split_on_pieces c l : Forall (fun p => c ∉ p) (split_on c l).
Proof.
  induction l as [p Hp|p r Hp IH] using (sep_ind c).
  - rewrite split_on_not_in by done. auto.
  - rewrite split_on_app by done. auto.
Qed.

Lemma length_split_on c l : length (split_on c l) = S (count c l).
Proof.
  unfold count. induction l as [|b l IH]; [done|]. simpl.
  case_decide.
  - rewrite filter_cons_True by done. simpl. by rewrite IH.
  - rewrite filter_cons_False by done. rewrite <- IH.
    pose proof (split_on_nonempty c l). by destruct (split_on c l).
Qed.

#[export] Hint Rewrite split_on_app split_on_not_in using done : psrt.

(** ** Lexicographic order *)

Fixpoint lex {A} (c : A -> A -> comparison) (l1 l2 : list A) : comparison :=
  match l1, l2 with
  | [], [] => Eq
  | [], _ :: _ => Lt
  | _ :: _, [] => Gt
  | a :: l1', b :: l2' => match c a b with Eq => lex c l1' l2' | o => o end
  end.

Lemma lex_opp {A} (c : A -> A -> comparison) l1 l2 :
  (forall a b, c b a = CompOpp (c a b)) -> lex c l2 l1 = CompOpp (lex c l1 l2).
Proof.
  intros Hc. revert l2; induction l1 as [|a l1 IH]; intros [|b l2]; simpl; [done..|].
  rewrite Hc. destruct (c a b); [apply IH|done..].
Qed.

Lemma lex_eq {A} (c : A -> A -> comparison) l1 l2 :
  (forall a b, c a b = Eq <-> a = b) -> lex c l1 l2 = Eq <-> l1 = l2.
Proof.
  intros Hc. revert l2; induction l1 as [|a l1 IH]; intros [|b l2]; simpl; [done..|].
  specialize (IH l2). pose proof (Hc a b) as Ha. destruct (c a b); naive_solver.
Qed.

(** Of texts: byte by byte. *)
Definition bytes_cmp : bytes -> bytes -> comparison :=
  lex (fun a b => N.compare (to_N a) (to_N b)).

Lemma bytes_cmp_opp a b : bytes_cmp b a = CompOpp (bytes_cmp a b).
Proof. apply lex_opp. intros x y. apply N.compare_antisym. Qed.

Lemma bytes_cmp_eq a b : bytes_cmp a b = Eq <-> a = b.
Proof.
  apply lex_eq. intros x y. rewrite N.compare_eq_iff. split; [|by intros ->].
  intros E. apply (f_equal of_N) in E. rewrite !of_to_N in E. by injection E.
Qed.
