(* ===== verification/Sorting.v ===== *)
(** * Stable sorting

    The result of [slice::sort_by] for a comparison that is a total preorder, as a function: the
    elements in order, equal ones as they were. [BTreeMap::values] is the values in the order of the
    keys. *)

From Stdlib Require Export Sorted.
From stdpp Require Import sorting.
From S2P Require Import Prelude.

Section sort.
Context {A : Type}.
(** [le a b]: the comparison of [a] with [b] does not give [Greater]. *)
Variable le : A -> A -> bool.

Fixpoint insert_by (x : A) (l : list A) : list A :=
  match l with
  | [] => [x]
  | y :: l' => if le x y then x :: y :: l' else y :: insert_by x l'
  end.

Definition sort_by (l : list A) : list A := foldr insert_by [] l.

Lemma insert_by_perm x l : insert_by x l ≡ₚ x :: l.
Proof.
  induction l as [|y l IH]; [done|]. simpl. destruct (le x y); [done|].
  rewrite IH. constructor.
Qed.

Lemma sort_by_perm l : sort_by l ≡ₚ l.
Proof. induction l as [|x l IH]; [done|]. simpl. by rewrite insert_by_perm, IH. Qed.

Class TotalPreorder : Prop := {
  le_total x y : le x y = true \/ le y x = true;
  le_trans x y z : le x y = true -> le y z = true -> le x z = true;
}.

Context `{!TotalPreorder}.

(** The order refined by [R] among equal elements. *)
Definition refined (R : A -> A -> Prop) (x y : A) : Prop :=
  le x y = true /\ (le y x = true -> R x y).

Lemma insert_by_sorted R x l :
  Forall (R x) l -> StronglySorted (refined R) l -> StronglySorted (refined R) (insert_by x l).
Proof.
  intros Hx Hl. induction Hl as [|y l Hl IH Hy]; simpl; [by repeat constructor|].
  apply Forall_cons in Hx as [Hxy Hx]. destruct (le x y) eqn:E.
  - constructor; [by constructor|]. constructor; [by split|].
    rewrite Forall_forall in Hx, Hy |- *. intros z Hz. destruct (Hy z Hz) as [Hyz _].
    split; [by eapply le_trans|auto].
  - constructor; [auto|]. rewrite insert_by_perm. constructor; [|done].
    destruct (le_total x y) as [?|Hyx]; [congruence|]. by split; [|congruence].
Qed.

(** Sorting is stable: an order that the list had before decides among equal elements. *)
Lemma sort_by_sorted R l : StronglySorted R l -> StronglySorted (refined R) (sort_by l).
Proof.
  induction 1 as [|x l Hl IH Hx]; simpl; [constructor|].
  apply insert_by_sorted; [|done]. by rewrite sort_by_perm.
Qed.
End sort.

Lemma sorted_weaken {A} (R S : A -> A -> Prop) l :
  (forall x y, R x y -> S x y) -> StronglySorted R l -> StronglySorted S l.
Proof. intros H. induction 1; constructor; [done|]. by eapply Forall_impl; [|apply H]. Qed.

Lemma sorted_fmap {A B} (f : A -> B) (R : B -> B -> Prop) l :
  StronglySorted (fun x y => R (f x) (f y)) l -> StronglySorted R (f <$> l).
Proof. induction 1 as [|x l Hl IH Hx]; simpl; constructor; [done|]. by apply Forall_fmap. Qed.

Lemma sorted_trivial {A} (l : list A) : StronglySorted (fun _ _ => True) l.
Proof. induction l; constructor; [done|]. by apply Forall_true. Qed.

(** The first elements of a sorted list come before all the others. *)
Lemma sorted_take {A} (R : A -> A -> Prop) n l :
  StronglySorted R l ->
  StronglySorted R (take n l) /\ forall x y, x ∈ take n l -> y ∈ drop n l -> R x y.
Proof.
  intros H. rewrite <- (take_drop n l) in H. apply StronglySorted_app in H as (H1 & H2 & _). auto.
Qed.

(** ** [Ord for String]: lexicographic, by byte *)

Fixpoint bytes_le (a b : bytes) : bool :=
  match a, b with
  | [], _ => true
  | _ :: _, [] => false
  | x :: a', y :: b' =>
      if (to_N x =? to_N y)%N then bytes_le a' b' else (to_N x <? to_N y)%N
  end.

#[export] Instance bytes_le_preorder : TotalPreorder bytes_le.
Proof.
  split.
  - intros x; induction x as [|a x IH]; intros [|b y]; simpl; [auto..|].
    rewrite (N.eqb_sym (to_N b)). destruct (N.eqb_spec (to_N a) (to_N b)); [apply IH|].
    rewrite !N.ltb_lt. lia.
  - intros x; induction x as [|a x IH]; intros [|b y] [|c z]; simpl; try done.
    destruct (N.eqb_spec (to_N a) (to_N b)) as [E|E], (N.eqb_spec (to_N b) (to_N c)) as [F|F];
      rewrite ?E, <- ?F; rewrite ?N.eqb_refl.
    + apply IH.
    + destruct (N.eqb_spec (to_N b) (to_N c)); [done|auto].
    + destruct (N.eqb_spec (to_N a) (to_N b)); [done|auto].
    + rewrite !N.ltb_lt. destruct (N.eqb_spec (to_N a) (to_N c)); [lia|]. rewrite N.ltb_lt. lia.
Qed.

Lemma bytes_le_antisym a b : bytes_le a b = true -> bytes_le b a = true -> a = b.
Proof.
  revert b; induction a as [|x a IH]; intros [|y b]; simpl; try done.
  rewrite (N.eqb_sym (to_N y)). destruct (N.eqb_spec (to_N x) (to_N y)) as [E|E].
  - intros H1 H2. f_equal; [|auto]. rewrite <- (byte_of_N_to_N x), E. apply byte_of_N_to_N.
  - rewrite !N.ltb_lt. lia.
Qed.

(** ** [BTreeMap<String, V>::values] *)

Definition entry_le {V} (a b : bytes * V) : bool := bytes_le a.1 b.1.

#[export] Instance entry_le_preorder {V} : TotalPreorder (@entry_le V).
Proof.
  split; [intros x y; apply (@le_total _ bytes_le _)|].
  intros x y z; exact (@le_trans _ bytes_le _ x.1 y.1 z.1).
Qed.

Definition btree_values {V} (m : gmap bytes V) : list V :=
  snd <$> sort_by entry_le (map_to_list m).

Lemma elem_of_btree_values {V} (m : gmap bytes V) v :
  v ∈ btree_values m <-> exists k, m !! k = Some v.
Proof.
  unfold btree_values. rewrite list_elem_of_fmap. split.
  - intros ([k w] & -> & H). rewrite sort_by_perm, elem_of_map_to_list in H. eauto.
  - intros [k H]. exists (k, v). by rewrite sort_by_perm, elem_of_map_to_list.
Qed.

(** With distinct keys that the values show, the values come in strictly ascending order. *)
Lemma btree_values_sorted {V} (key : V -> bytes) (m : gmap bytes V) :
  (forall k v, m !! k = Some v -> key v = k) ->
  StronglySorted (fun a b => bytes_le (key a) (key b) = true) (btree_values m).
Proof.
  intros Hk. unfold btree_values. apply sorted_fmap.
  assert (Forall (fun e => key e.2 = e.1) (sort_by entry_le (map_to_list m))) as Hall.
  { rewrite sort_by_perm, Forall_forall. intros [k v] H%elem_of_map_to_list. by apply Hk. }
  pose proof (sort_by_sorted entry_le _ _ (sorted_trivial (map_to_list m))) as Ht. revert Hall Ht.
  generalize (sort_by entry_le (map_to_list m)). intros l. induction 2 as [|x l Hl IH Hx]; [constructor|].
  apply Forall_cons in Hall as [Ex Hl']. constructor; [auto|].
  rewrite Forall_forall in Hx, Hl' |- *. intros y Hy. rewrite Ex, (Hl' y Hy). apply (Hx y Hy).
Qed.

Lemma btree_values_keys {V} (key : V -> bytes) (m : gmap bytes V) :
  (forall k v, m !! k = Some v -> key v = k) -> NoDup (key <$> btree_values m).
Proof.
  intros Hk. unfold btree_values. rewrite sort_by_perm. rewrite <- list_fmap_compose.
  assert (key ∘ snd <$> map_to_list m = fst <$> map_to_list m) as ->.
  { apply list_fmap_ext. intros i [k v] H. apply list_elem_of_lookup_2, elem_of_map_to_list in H.
    by apply Hk. }
  apply NoDup_fst_map_to_list.
Qed.
