(* ===== verification/Utf8.v ===== *)
(** * UTF-8: [std::str::from_utf8] and the operations of [str] on valid text

    The validation of the standard library ([core::str::validations::run_utf8_validation]), with
    the position and the length of the error, [str::trim] and [str::lines], and the lemmas that say
    how validity behaves under cutting and joining at ASCII separators, which is all the program
    does to text. *)

From S2P Require Import Prelude.

(** ** Validation *)

(** [core::str::Utf8Error]. *)
Record Utf8Error : Type := mkUtf8Error {
  valid_up_to : N;
  error_len : option N;
}.

(** A continuation byte: [(b as i8) < -64]. *)
Definition is_cont (b : byte) : bool := (128 <=? to_N b)%N && (to_N b <=? 191)%N.

Definition in_range (lo hi : N) (b : byte) : bool := (lo <=? to_N b)%N && (to_N b <=? hi)%N.

(** [utf8_char_width] of a lead byte. *)
Definition char_width (b : byte) : N :=
  if (to_N b <? 128)%N then 1
  else if in_range 0xC2 0xDF b then 2
  else if in_range 0xE0 0xEF b then 3
  else if in_range 0xF0 0xF4 b then 4
  else 0.

(** The second byte a three-byte lead allows. *)
Definition second3 (b0 b1 : byte) : bool :=
  if (to_N b0 =? 0xE0)%N then in_range 0xA0 0xBF b1
  else if (to_N b0 =? 0xED)%N then in_range 0x80 0x9F b1
  else in_range 0x80 0xBF b1.

(** The second byte a four-byte lead allows. *)
Definition second4 (b0 b1 : byte) : bool :=
  if (to_N b0 =? 0xF0)%N then in_range 0x90 0xBF b1
  else if (to_N b0 =? 0xF4)%N then in_range 0x80 0x8F b1
  else in_range 0x80 0xBF b1.

Fixpoint utf8_check (v : bytes) (i : N) : result unit Utf8Error :=
  match v with
  | [] => Ok tt
  | b0 :: v1 =>
      match char_width b0 with
      | 1%N => utf8_check v1 (i + 1)
      | 2%N =>
          match v1 with
          | [] => Err (mkUtf8Error i None)
          | b1 :: v2 =>
              if is_cont b1 then utf8_check v2 (i + 2)
              else Err (mkUtf8Error i (Some 1%N))
          end
      | 3%N =>
          match v1 with
          | [] => Err (mkUtf8Error i None)
          | b1 :: v2 =>
              if second3 b0 b1 then
                match v2 with
                | [] => Err (mkUtf8Error i None)
                | b2 :: v3 =>
                    if is_cont b2 then utf8_check v3 (i + 3)
                    else Err (mkUtf8Error i (Some 2%N))
                end
              else Err (mkUtf8Error i (Some 1%N))
          end
      | 4%N =>
          match v1 with
          | [] => Err (mkUtf8Error i None)
          | b1 :: v2 =>
              if second4 b0 b1 then
                match v2 with
                | [] => Err (mkUtf8Error i None)
                | b2 :: v3 =>
                    if is_cont b2 then
                      match v3 with
                      | [] => Err (mkUtf8Error i None)
                      | b3 :: v4 =>
                          if is_cont b3 then utf8_check v4 (i + 4)
                          else Err (mkUtf8Error i (Some 3%N))
                      end
                    else Err (mkUtf8Error i (Some 2%N))
                end
              else Err (mkUtf8Error i (Some 1%N))
          end
      | _ => Err (mkUtf8Error i (Some 1%N))
      end
  end%N.

(** [std::str::from_utf8]. *)
Definition from_utf8 (v : bytes) : result bytes Utf8Error :=
  match utf8_check v 0 with Ok _ => Ok v | Err e => Err e end.

Definition is_utf8 (v : bytes) : bool := is_ok (from_utf8 v).

(** ** Trimming and lines *)

(** The UTF-8 encodings of the characters of Unicode property White_Space. *)
Definition white_space : list bytes :=
  [ [x09]; [x0a]; [x0b]; [x0c]; [x0d]; [x20]; [xc2; x85]; [xc2; xa0]; [xe1; x9a; x80];
    [xe2; x80; x80]; [xe2; x80; x81]; [xe2; x80; x82]; [xe2; x80; x83]; [xe2; x80; x84];
    [xe2; x80; x85]; [xe2; x80; x86]; [xe2; x80; x87]; [xe2; x80; x88]; [xe2; x80; x89];
    [xe2; x80; x8a]; [xe2; x80; xa8]; [xe2; x80; xa9]; [xe2; x80; xaf]; [xe2; x81; x9f];
    [xe3; x80; x80] ].

(** Drop the first of the patterns that is a prefix. *)
Fixpoint strip_one (pats : list bytes) (s : bytes) : option bytes :=
  match pats with
  | [] => None
  | p :: pats' => if starts_with p s then Some (drop (length p) s) else strip_one pats' s
  end.

Fixpoint strip_all (fuel : nat) (pats : list bytes) (s : bytes) : bytes :=
  match fuel with
  | O => s
  | S fuel' => match strip_one pats s with
               | Some s' => strip_all fuel' pats s'
               | None => s
               end
  end.

Definition trim_start (s : bytes) : bytes := strip_all (length s) white_space s.

Definition trim_end (s : bytes) : bytes :=
  reverse (strip_all (length s) (map reverse white_space) (reverse s)).

(** [str::trim]. *)
Definition trim (s : bytes) : bytes := trim_end (trim_start s).

(** A line without its terminator: [\r] goes only before a [\n]. *)
Definition strip_cr (l : bytes) : bytes :=
  if ends_with [x0d] l then take (length l - 1) l else l.

(** The pieces of [split('\n')] that [str::lines] yields: every piece but the last had a [\n], an
    empty last piece is not a line. *)
Fixpoint lines_of (ps : list bytes) : list bytes :=
  match ps with
  | [] => []
  | [p] => if decide (p = []) then [] else [p]
  | p :: ps' => strip_cr p :: lines_of ps'
  end.

(** [str::lines]. *)
Definition lines (s : bytes) : list bytes := lines_of (split_on x0a s).

(** ** Validity without the index *)

(** Well-formed UTF-8, character by character. *)
Inductive utf8 : bytes -> Prop :=
| utf8_nil : utf8 []
| utf8_1 b v : char_width b = 1%N -> utf8 v -> utf8 (b :: v)
| utf8_2 b b1 v : char_width b = 2%N -> is_cont b1 = true -> utf8 v -> utf8 (b :: b1 :: v)
| utf8_3 b b1 b2 v : char_width b = 3%N -> second3 b b1 = true -> is_cont b2 = true ->
    utf8 v -> utf8 (b :: b1 :: b2 :: v)
| utf8_4 b b1 b2 b3 v : char_width b = 4%N -> second4 b b1 = true -> is_cont b2 = true ->
    is_cont b3 = true -> utf8 v -> utf8 (b :: b1 :: b2 :: b3 :: v).
#[export] Hint Constructors utf8 : psrt.

(** An ASCII byte. *)
Definition ascii (b : byte) : bool := (to_N b <? 128)%N.

Lemma utf8_check_sound v i : utf8_check v i = Ok tt -> utf8 v.
Proof.
  revert i. remember (length v) as n eqn:Hn. revert v Hn.
  induction n as [n IH] using lt_wf_ind; intros v Hn i H.
  destruct v as [|b v]; [constructor|]. simpl in H.
  assert (Hrec : forall w j, length w < n -> utf8_check w j = Ok tt -> utf8 w)
    by eauto.
  destruct (char_width b) as [|[[|?|]|[?|[|?|]|]|]] eqn:Hw; simplify_eq/=;
    repeat (case_match; simplify_eq/=); eauto 6 with psrt lia.
  all: first [apply utf8_1|apply utf8_2|apply utf8_3|apply utf8_4]; try done;
    eapply Hrec; try eassumption; simpl; lia.
Qed.

Lemma utf8_check_complete v i : utf8 v -> utf8_check v i = Ok tt.
Proof.
  intros Hv. revert i.
  induction Hv as [|b v Hw ? IH|b b1 v Hw H1 ? IH|b b1 b2 v Hw H1 H2 ? IH
                  |b b1 b2 b3 v Hw H1 H2 H3 ? IH]; intros i; cbn [utf8_check]; try done;
    rewrite Hw, ?H1, ?H2, ?H3; apply IH.
Qed.

Lemma from_utf8_iff v : from_utf8 v = Ok v <-> utf8 v.
Proof.
  unfold from_utf8. split.
  - destruct (utf8_check v 0) as [[]|] eqn:E; [|done]. intros _. by eapply utf8_check_sound.
  - intros Hv. by rewrite utf8_check_complete.
Qed.

Lemma from_utf8_Ok v s : from_utf8 v = Ok s -> s = v /\ utf8 v.
Proof.
  unfold from_utf8. destruct (utf8_check v 0) as [[]|] eqn:E; [|done].
  intros [= <-]. split; [done|]. by eapply utf8_check_sound.
Qed.

(** [is_utf8] decides validity. *)
Lemma is_utf8_iff v : is_utf8 v = true <-> utf8 v.
Proof.
  unfold is_utf8. split.
  - destruct (from_utf8 v) eqn:E; [|done]. intros _. by apply from_utf8_Ok in E as [_ ?].
  - intros Hv. by rewrite (proj2 (from_utf8_iff v) Hv).
Qed.

#[export] Instance utf8_dec v : Decision (utf8 v).
Proof.
  refine (cast_if (decide (is_utf8 v = true))); by rewrite <- is_utf8_iff.
Defined.

(** ** Cutting and joining *)

Lemma utf8_app v w : utf8 v -> utf8 w -> utf8 (v ++ w).
Proof. intros Hv Hw. induction Hv; simpl; auto with psrt. Qed.

Lemma char_width_ascii b : ascii b = true -> char_width b = 1%N.
Proof. unfold ascii, char_width. by intros ->. Qed.

Lemma ascii_not_cont b : ascii b = true -> is_cont b = false.
Proof.
  unfold ascii, is_cont. rewrite andb_false_iff, N.ltb_lt, N.leb_gt. auto.
Qed.

Lemma in_range_high lo hi b : (128 <= lo)%N -> in_range lo hi b = true -> ascii b = false.
Proof.
  unfold in_range, ascii. rewrite andb_true_iff, !N.leb_le, N.ltb_ge. lia.
Qed.

Lemma second3_high b b1 : second3 b b1 = true -> ascii b1 = false.
Proof. unfold second3. repeat case_match; apply in_range_high; lia. Qed.

Lemma second4_high b b1 : second4 b b1 = true -> ascii b1 = false.
Proof. unfold second4. repeat case_match; apply in_range_high; lia. Qed.

Lemma is_cont_high b : is_cont b = true -> ascii b = false.
Proof. destruct (ascii b) eqn:E; [|done]. by rewrite ascii_not_cont. Qed.
#[export] Hint Resolve second3_high second4_high is_cont_high : psrt.

Lemma utf8_ascii_cons c v : ascii c = true -> utf8 (c :: v) <-> utf8 v.
Proof.
  intros Hc. split; [|auto using utf8_1, char_width_ascii].
  apply char_width_ascii in Hc. inversion 1; simplify_eq; congruence.
Qed.

(** UTF-8 synchronises at ASCII bytes: a text is valid exactly when the two sides of an ASCII byte
    of it are. *)
Lemma utf8_split_ascii c v w :
  ascii c = true -> utf8 (v ++ c :: w) <-> utf8 v /\ utf8 w.
Proof.
  intros Hc. split.
  - remember (v ++ c :: w) as s eqn:Hs. intros H. revert v Hs.
    induction H as [|b s Hw H IH|b b1 s Hw H1 H IH|b b1 b2 s Hw H1 H2 H IH
                   |b b1 b2 b3 s Hw H1 H2 H3 H IH]; intros v Hs.
    + by destruct v.
    + destruct v as [|? v]; simplify_eq/=; [split; [constructor|done]|].
      destruct (IH v eq_refl). split; auto with psrt.
    + assert (ascii b1 = false) by auto with psrt.
      destruct v as [|? [|? v]]; simplify_eq/=; try congruence.
      * by apply char_width_ascii in Hc; congruence.
      * destruct (IH v eq_refl). split; auto with psrt.
    + assert (ascii b1 = false /\ ascii b2 = false) as [??] by (split; eauto with psrt).
      destruct v as [|? [|? [|? v]]]; simplify_eq/=; try congruence.
      * by apply char_width_ascii in Hc; congruence.
      * destruct (IH v eq_refl). split; auto with psrt.
    + assert (ascii b1 = false /\ ascii b2 = false /\ ascii b3 = false) as (?&?&?)
        by (split_and!; eauto with psrt).
      destruct v as [|? [|? [|? [|? v]]]]; simplify_eq/=; try congruence.
      * by apply char_width_ascii in Hc; congruence.
      * destruct (IH v eq_refl). split; auto with psrt.
  - intros [Hv Hw]. apply utf8_app; [done|]. by apply utf8_ascii_cons.
Qed.

(** The pieces of a split at an ASCII byte are valid exactly when the text is. *)
Lemma utf8_split_on c l : ascii c = true -> utf8 l <-> Forall utf8 (split_on c l).
Proof.
  intros Hc. induction l as [p Hp|p r Hp IH] using (sep_ind c).
  - by rewrite split_on_not_in, Forall_singleton by done.
  - rewrite split_on_app, Forall_cons, <- IH by done. by apply utf8_split_ascii.
Qed.
