(* ===== verification/Proto.v ===== *)
(** * The protocol crate root: src/src/lib.rs

    The protocol's constants, the crate's [Error] with its conversions and its [Display], the
    [Message] a client receives, the time budget of an operation ([reduce_timeout]) and the test
    that tells a UNIX socket path from a network address. *)

From Stdlib Require Import DecimalString HexadecimalString.
From S2P Require Import Prelude Utf8.

(** ** Constants *)

Definition VERSION : bytes := bs "0.3.8".

Definition DEFAULT_PRIORITY : byte := x7f.

Definition CONTROL_HEADER : bytes := [xee; xaa].
Definition DATA_HEADER : bytes := [xee; xab].

Definition PROTOCOL_VERSION : N := 1.

Definition OP_NOP : byte := x00.
Definition RESPONSE_OK : byte := x01.
Definition RESPONSE_OK_WAITING : byte := x02.
Definition RESPONSE_NOT_REQUIRED : byte := xe0.
Definition RESPONSE_ERR : byte := xff.
Definition RESPONSE_ERR_ACCESS : byte := xfe.

Definition OP_PUBLISH : byte := x01.
Definition OP_PUBLISH_REPL : byte := x11.
Definition OP_PUBLISH_NO_ACK : byte := x21.
Definition OP_SUBSCRIBE : byte := x02.
Definition OP_UNSUBSCRIBE : byte := x03.
Definition OP_BYE : byte := xff.

Definition COMM_INSECURE : byte := x00.
Definition COMM_TLS : byte := x01.

Definition AUTH_LOGIN_PASS : byte := x00.
Definition AUTH_KEY_AES128_GCM : byte := x02.
Definition AUTH_KEY_AES256_GCM : byte := x03.

(** ** Formatting: the [Display] of integers and [{:x}], [{:x?}] *)

Definition show_N (n : N) : bytes := bs (DecimalString.NilZero.string_of_uint (N.to_uint n)).

Definition show_hex (n : N) : bytes :=
  bs (HexadecimalString.NilZero.string_of_uint (N.to_hex_uint n)).

Definition show_hex_slice (l : bytes) : bytes :=
  bs "[" ++ join (bs ", ") (map (fun b => show_hex (to_N b)) l) ++ bs "]".

(** ** Errors *)

Inductive ErrorKind : Type :=
| AccessDenied
| InvalidData
| Io
| Eof
| Timeout
| Internal
| TryLater.

#[export] Instance ErrorKind_eq_dec : EqDecision ErrorKind.
Proof. solve_decision. Defined.

Definition show_ErrorKind (k : ErrorKind) : bytes :=
  match k with
  | AccessDenied => bs "Access denied"
  | InvalidData => bs "Invalid data"
  | Io => bs "I/O error"
  | Eof => bs "EOF"
  | Internal => bs "Internal error"
  | Timeout => bs "Timeout"
  | TryLater => bs "Will try later"
  end.

Record Error : Type := mkError {
  kind : ErrorKind;
  message : option bytes;
}.

#[export] Instance Error_eq_dec : EqDecision Error.
Proof. solve_decision. Defined.

(** The constructors of [impl Error]. *)
Definition access (m : bytes) : Error := mkError AccessDenied (Some m).
Definition io (m : bytes) : Error := mkError Io (Some m).
Definition eof (m : bytes) : Error := mkError Eof (Some m).
Definition invalid_data (m : bytes) : Error := mkError InvalidData (Some m).
Definition internal (m : bytes) : Error := mkError Internal (Some m).
Definition later : Error := mkError TryLater None.
Definition timeout_error (m : bytes) : Error := mkError Timeout (Some m).

Definition show_Error (e : Error) : bytes :=
  match message e with
  | Some m => show_ErrorKind (kind e) ++ bs ": " ++ m
  | None => show_ErrorKind (kind e)
  end.

(** [std::io::Error]: its kind, as far as the program looks at it, and its [Display]. *)
Inductive IoKind : Type :=
| UnexpectedEof
| BrokenPipe
| NotFound
| OtherIo.

Record IoError : Type := mkIoError {
  io_kind : IoKind;
  io_display : bytes;
}.

Definition from_io_error (e : IoError) : Error :=
  match io_kind e with
  | UnexpectedEof | BrokenPipe => eof (io_display e)
  | NotFound | OtherIo => io (io_display e)
  end.

(** [Display] of [std::str::Utf8Error]. *)
Definition show_Utf8Error (e : Utf8Error) : bytes :=
  match error_len e with
  | Some n =>
      bs "invalid utf-8 sequence of " ++ show_N n ++ bs " bytes from index "
        ++ show_N (valid_up_to e)
  | None => bs "incomplete utf-8 byte sequence from index " ++ show_N (valid_up_to e)
  end.

Definition from_utf8_error (e : Utf8Error) : Error := invalid_data (show_Utf8Error e).

(** [Display] of [std::array::TryFromSliceError]. *)
Definition from_slice_error : Error := invalid_data (bs "could not convert slice to array").

(** Errors of other crates arrive as their [Display] text. *)
Definition from_elapsed (display : bytes) : Error := timeout_error display.
Definition from_hex_error (display : bytes) : Error := invalid_data display.
Definition from_serde_error (display : bytes) : Error := invalid_data display.
Definition from_error_stack (display : bytes) : Error := io display.
Definition from_tls_error (display : bytes) : Error := io display.

(** [std::str::from_utf8(..)?] in a function returning the crate's [Error]. *)
Definition str_from_utf8 (v : bytes) : result bytes Error := map_err from_utf8_error (from_utf8 v).

(** ** Time budget of an operation

    Instants and durations are nanoseconds; [now] is the instant [op_start.elapsed()] reads. *)
Definition reduce_timeout (timeout op_start now : N) : N :=
  let spent := (now - op_start)%N in
  if (timeout <? spent)%N then 0%N else (timeout - spent)%N.

(** ** Messages *)

Record Message : Type := mkMessage {
  priority : byte;
  topic : bytes;
  data : bytes;
}.

Definition data_as_str (m : Message) : result bytes Utf8Error := from_utf8 (data m).

(** [Message::from_buf(&mut buf, priority)]: what is left in [buf], and the message. *)
Definition from_buf (buf : bytes) (prio : byte) : bytes * result Message Error :=
  match position NUL buf with
  | None => (buf, Err (invalid_data (bs "Invalid msg frame")))
  | Some npos =>
      let data := drop (npos + 1) buf in
      let buf := take (npos + 1) buf in
      (buf,
       let? topic := str_from_utf8 (take (length buf - 1) buf) in
       Ok (mkMessage prio topic data))
  end.

Definition is_unix_socket (path : bytes) : bool :=
  ends_with (bs ".sock") path || ends_with (bs ".socket") path.

(** ** Lemmas *)

Lemma str_from_utf8_Ok v s : str_from_utf8 v = Ok s -> s = v /\ utf8 v.
Proof.
  unfold str_from_utf8. destruct (from_utf8 v) eqn:E; simpl; [|done].
  intros [= <-]. by apply from_utf8_Ok.
Qed.

Lemma str_from_utf8_valid v : utf8 v -> str_from_utf8 v = Ok v.
Proof. intros Hv. unfold str_from_utf8. by rewrite (proj2 (from_utf8_iff v) Hv). Qed.

Lemma str_from_utf8_Err v e : str_from_utf8 v = Err e -> kind e = InvalidData.
Proof. unfold str_from_utf8. destruct (from_utf8 v); simpl; [done|]. by intros [= <-]. Qed.

#[export] Hint Resolve str_from_utf8_valid : psrt.

Lemma from_buf_app t d p :
  NUL ∉ t ->
  from_buf (t ++ NUL :: d) p =
    (t ++ [NUL], (let? topic := str_from_utf8 t in Ok (mkMessage p topic d))).
Proof.
  intros Ht. unfold from_buf. rewrite position_app by done.
  replace (length t + 1) with (length (t ++ [NUL])) by by rewrite length_app.
  replace (t ++ NUL :: d) with ((t ++ [NUL]) ++ d) by by rewrite <- app_assoc.
  rewrite take_app_length, drop_app_length, length_app. simpl.
  by rewrite Nat.add_sub, take_app_length.
Qed.

Lemma from_buf_inv buf p b m :
  from_buf buf p = (b, Ok m) ->
  buf = topic m ++ NUL :: data m /\ NUL ∉ topic m /\ utf8 (topic m) /\ priority m = p.
Proof.
  destruct (first_sep NUL buf) as [Hb|(t & d & -> & Ht)].
  - unfold from_buf. rewrite (proj2 (position_None _ _) Hb). by intros [= _].
  - rewrite from_buf_app by done. destruct (str_from_utf8 t) as [s|] eqn:E; simpl; [|done].
    intros [= <- <-]. apply str_from_utf8_Ok in E as [-> ?]. done.
Qed.

(** [reduce_timeout] leaves exactly what remains before [op_start + timeout]. *)
Lemma reduce_timeout_eq t s now : reduce_timeout t s now = (t - (now - s))%N.
Proof. unfold reduce_timeout. destruct (N.ltb_spec t (now - s)); lia. Qed.

Lemma reduce_timeout_deadline t s now :
  (s <= now)%N -> (now + reduce_timeout t s now = N.max now (s + t))%N.
Proof. rewrite reduce_timeout_eq. lia. Qed.
