(* ===== verification/Duration.v ===== *)
(** * Seconds as floating point numbers: [std::time::Duration]

    The timeouts of configuration files and of the command line are numbers of seconds of type [f64].
    [Duration::from_secs_f64] makes a number of nanoseconds of them, the nearest one, and panics
    where there is none. The floating point numbers are those of the Standard Library, a sign, a
    mantissa and an exponent of two. *)

From Stdlib Require Import Floats.SpecFloat.
From S2P Require Import Prelude.

#[local] Open Scope Z_scope.

Definition f64 : Type := spec_float.

(** The quotient, rounded to the nearest integer, to the even one of two. *)
Definition round_even (n d : Z) : Z :=
  let q := n / d in
  let r := n mod d in
  if 2 * r <? d then q
  else if d <? 2 * r then q + 1
  else if Z.even q then q else q + 1.

(** The value of a finite number, as a fraction. *)
Definition numerator (m : positive) (e : Z) : Z := Z.pos m * 2 ^ Z.max e 0.
Definition denominator (e : Z) : Z := 2 ^ Z.max (- e) 0.

Definition NANOS_PER_SEC : Z := 10 ^ 9.

(** [Duration::from_secs_f64], in nanoseconds; [None] is a panic: the number is negative, not a
    number, or its seconds do not fit 64 bits. *)
Definition from_secs_f64 (secs : f64) : option N :=
  match secs with
  | S754_zero _ => Some 0%N
  | S754_finite false m e =>
      if numerator m e <? 2 ^ 64 * denominator e
      then Some (Z.to_N (round_even (numerator m e * NANOS_PER_SEC) (denominator e)))
      else None
  | _ => None
  end.

(** ** Rounding *)

Lemma round_even_spec n d : 0 < d -> Z.abs (2 * (round_even n d * d - n)) <= d.
Proof.
  intros Hd. unfold round_even. pose proof (Z.div_mod n d ltac:(lia)) as E.
  pose proof (Z.mod_pos_bound n d Hd) as B.
  set (q := n / d) in *. set (r := n mod d) in *.
  repeat case_match; rewrite ?Z.ltb_lt, ?Z.ltb_ge in *; nia.
Qed.

Lemma round_even_exact k d : 0 < d -> round_even (k * d) d = k.
Proof.
  intros Hd. unfold round_even. rewrite Z.div_mul, Z.mod_mul by lia.
  by rewrite (proj2 (Z.ltb_lt (2 * 0) d)) by lia.
Qed.

Lemma round_even_nonneg n d : 0 <= n -> 0 < d -> 0 <= round_even n d.
Proof.
  intros Hn Hd. unfold round_even. pose proof (Z.div_pos n d Hn Hd).
  repeat case_match; lia.
Qed.

Lemma round_even_mono n n' d : 0 < d -> n <= n' -> round_even n d <= round_even n' d.
Proof.
  intros Hd Hn. unfold round_even.
  pose proof (Z.div_mod n d ltac:(lia)) as E. pose proof (Z.div_mod n' d ltac:(lia)) as E'.
  pose proof (Z.mod_pos_bound n d Hd) as B. pose proof (Z.mod_pos_bound n' d Hd) as B'.
  pose proof (Z.div_le_mono n n' d Hd Hn) as Hq.
  set (q := n / d) in *. set (r := n mod d) in *. set (q' := n' / d) in *. set (r' := n' mod d) in *.
  destruct (decide (q = q')) as [<-|]; [|repeat case_match; lia].
  assert (r <= r') as Hr by nia.
  repeat case_match; rewrite ?Z.ltb_lt, ?Z.ltb_ge in *; congruence || lia.
Qed.

Lemma denominator_pos e : 0 < denominator e.
Proof. apply Z.pow_pos_nonneg; lia. Qed.

Lemma numerator_pos m e : 0 < numerator m e.
Proof. unfold numerator. pose proof (Z.pow_pos_nonneg 2 (Z.max e 0)). lia. Qed.

#[local] Hint Resolve denominator_pos numerator_pos : core.

Lemma scaled_nonneg m e d : 0 < d -> 0 <= round_even (numerator m e * NANOS_PER_SEC) d.
Proof.
  intros Hd. apply round_even_nonneg; [|done]. pose proof (numerator_pos m e).
  unfold NANOS_PER_SEC. lia.
Qed.

(** ** [from_secs_f64] *)

(** The numbers that stand for a duration. *)
Definition duration_of (secs : f64) (num den : Z) : Prop :=
  match secs with
  | S754_zero _ => num = 0 /\ den = 1
  | S754_finite false m e => num = numerator m e /\ den = denominator e
  | _ => False
  end.

(** There is a result exactly for the numbers that are not negative and below two to the power of 64;
    it is never further than half a nanosecond from the number. *)
Theorem from_secs_f64_spec secs num den :
  duration_of secs num den ->
  match from_secs_f64 secs with
  | Some ns => num < 2 ^ 64 * den /\ Z.abs (2 * (Z.of_N ns * den - num * NANOS_PER_SEC)) <= den
  | None => 2 ^ 64 * den <= num
  end.
Proof.
  destruct secs as [?|?| |[] m e]; try done; intros [-> ->]; [done|]. cbn [from_secs_f64].
  destruct (Z.ltb_spec (numerator m e) (2 ^ 64 * denominator e)); [|done]. split; [done|].
  rewrite Z2N.id by by apply scaled_nonneg.
  by apply round_even_spec.
Qed.

(** No other number has one. *)
Lemma from_secs_f64_panics secs : (forall num den, ~ duration_of secs num den) -> from_secs_f64 secs = None.
Proof.
  destruct secs as [?|?| |[] m e]; simpl; intros H; try done; exfalso; by eapply H.
Qed.

(** Whole seconds are exact. *)
Lemma from_secs_f64_whole (n : N) m e :
  numerator m e = Z.of_N n * denominator e -> (n < 2 ^ 64)%N ->
  from_secs_f64 (S754_finite false m e) = Some (n * 10 ^ 9)%N.
Proof.
  intros E Hn. cbn [from_secs_f64]. rewrite E. pose proof (denominator_pos e).
  rewrite (proj2 (Z.ltb_lt _ _)) by (apply Z.mul_lt_mono_pos_r; lia).
  replace (Z.of_N n * denominator e * NANOS_PER_SEC)
    with (Z.of_N n * NANOS_PER_SEC * denominator e) by lia.
  rewrite round_even_exact by done. f_equal. unfold NANOS_PER_SEC. lia.
Qed.

(** The seconds of the result fit 64 bits: a number with 53 bits that is as large as that is whole, so
    that no rounding carries over the limit. *)
Lemma from_secs_f64_secs m e ns :
  Z.pos m < 2 ^ 53 -> from_secs_f64 (S754_finite false m e) = Some ns -> (ns < 2 ^ 64 * 10 ^ 9)%N.
Proof.
  intros Hm. cbn [from_secs_f64].
  destruct (Z.ltb_spec (numerator m e) (2 ^ 64 * denominator e)) as [H|]; [|done]. intros [= <-].
  set (x := round_even _ _). cut (x < 2 ^ 64 * 10 ^ 9).
  { intros Hx. apply N2Z.inj_lt. rewrite Z2N.id; [exact Hx|].
    by apply scaled_nonneg. }
  subst x. destruct (decide (0 <= e)).
  - unfold denominator in *. rewrite Z.max_r in * by lia.
    rewrite <- (Z.mul_1_r (_ * NANOS_PER_SEC)), round_even_exact by done. unfold NANOS_PER_SEC. lia.
  - eapply Z.le_lt_trans; [apply (round_even_mono _ (2 ^ 53 * NANOS_PER_SEC * denominator e)); [done|]|].
    + unfold numerator. rewrite Z.max_r, Z.mul_1_r by lia. pose proof (denominator_pos e).
      unfold NANOS_PER_SEC. nia.
    + by rewrite round_even_exact.
Qed.

(** A greater number of the same exponent is no shorter a duration. *)
Lemma from_secs_f64_mono m m' e ns ns' :
  (m <= m')%positive -> from_secs_f64 (S754_finite false m e) = Some ns ->
  from_secs_f64 (S754_finite false m' e) = Some ns' -> (ns <= ns')%N.
Proof.
  intros Hm. cbn [from_secs_f64]. do 2 case_match; try done. intros [= <-] [= <-].
  apply Z2N.inj_le; [by apply scaled_nonneg..|].
  apply round_even_mono; [done|]. unfold numerator, NANOS_PER_SEC.
  pose proof (Z.pow_pos_nonneg 2 (Z.max e 0)). nia.
Qed.

(** Concrete numbers: 5.0, 0.5, a little more than half a nanosecond; two to the power of 64, -1.0 and
    what is not a number. *)
Example from_secs_f64_examples :
  from_secs_f64 (S754_finite false (5 * 2 ^ 50)%positive (-50)) = Some 5000000000%N /\
  from_secs_f64 (S754_finite false (2 ^ 52)%positive (-53)) = Some 500000000%N /\
  from_secs_f64 (S754_finite false 4951760157141521 (-83)) = Some 1%N /\
  from_secs_f64 (S754_finite false 1 64) = None /\
  from_secs_f64 (S754_finite true (2 ^ 52)%positive (-52)) = None /\ from_secs_f64 S754_nan = None.
Proof. by vm_compute. Qed.
