(* ===== verification/Io.v ===== *)
(** * Asynchronous programs and the framed stream: src/src/comm.rs

    An [async fn] of the program is a value of [prog St A]: a tree of the effects it awaits, over a
    shared state [St].  The effects are the reads and writes of the task's own connection under a
    timeout, the reading of the monotonic clock, a sleep, a critical section on the shared state
    (the body of a lock guard) and a critical section that waits until it is enabled (a bounded
    queue); a panic ends the task. [run] executes one task alone against a timed connection; the file System.v interleaves many.

    On top of it the file has [SStream] and its [StreamHandler] methods, with the time bound and
    the functional behaviour of [read_frame_with_timeout]. *)

From S2P Require Import Prelude Utf8 Proto.

(** ** Programs *)

(** Why an operation under [tokio::time::timeout] failed: the timer, with the [Display] of its
    [Elapsed], or the operation itself. *)
Inductive IoFail : Type :=
| FElapsed (display : bytes)
| FIo (e : IoError).

Inductive prog (St A : Type) : Type :=
| Ret (a : A)
| Now (k : N -> prog St A)
| ReadExact (n : nat) (t : N) (k : result bytes IoFail -> prog St A)
| WriteAll (buf : bytes) (t : N) (k : result unit IoFail -> prog St A)
| Sleep (t : N) (k : prog St A)
| Atomic {X : Type} (f : St -> X * St) (k : X -> prog St A)
| Await {X : Type} (f : St -> option (X * St)) (k : X -> prog St A)
| Crash.
Arguments Ret {St A} a.
Arguments Now {St A} k.
Arguments ReadExact {St A} n t k.
Arguments WriteAll {St A} buf t k.
Arguments Sleep {St A} t k.
Arguments Atomic {St A X} f k.
Arguments Await {St A X} f k.
Arguments Crash {St A}.

Fixpoint pbind {St A B} (f : A -> prog St B) (m : prog St A) : prog St B :=
  match m with
  | Ret a => f a
  | Now k => Now (fun n => pbind f (k n))
  | ReadExact n t k => ReadExact n t (fun r => pbind f (k r))
  | WriteAll b t k => WriteAll b t (fun r => pbind f (k r))
  | Sleep t k => Sleep t (pbind f k)
  | Atomic g k => Atomic g (fun x => pbind f (k x))
  | Await g k => Await g (fun x => pbind f (k x))
  | Crash => Crash
  end.

#[export] Instance prog_ret St : MRet (prog St) := fun A a => Ret a.
#[export] Instance prog_bind St : MBind (prog St) := fun A B f m => pbind f m.

(** The [?] operator: go on with the value, or return the error. *)
Definition qbind {St A B E} (m : prog St (result A E)) (f : A -> prog St (result B E)) :
    prog St (result B E) :=
  pbind (fun r => match r with Ok a => f a | Err e => Ret (Err e) end) m.

Notation "x '<-?' m ;; k" := (qbind m (fun x => k))
  (at level 100, m at next level, right associativity) : psrt_scope.
Notation "x '<--' m ;; k" := (pbind (fun x => k) m)
  (at level 100, m at next level, right associativity) : psrt_scope.

Section primitives.
Context {St : Type}.

Definition now : prog St N := Now Ret.

Definition sleep (t : N) : prog St unit := Sleep t (Ret tt).

Definition atomic {X} (f : St -> X * St) : prog St X := Atomic f Ret.

(** A critical section with no result. *)
Definition modify (f : St -> St) : prog St unit := Atomic (fun s => (tt, f s)) Ret.

(** A read-only critical section. *)
Definition asks {X} (f : St -> X) : prog St X := Atomic (fun s => (f s, s)) Ret.

Definition await {X} (f : St -> option (X * St)) : prog St X := Await f Ret.

(** A [?] on a pure result. *)
Definition lift {A E} (r : result A E) : prog St (result A E) := Ret r.

(** [for x in l { body }] whose body may return early with an error. *)
Fixpoint for_each {X E} (l : list X) (body : X -> prog St (result unit E)) :
    prog St (result unit E) :=
  match l with
  | [] => Ret (Ok tt)
  | x :: l' => _ <-? body x ;; for_each l' body
  end.

(** [loop { body }]: the body says [None] to go round again, [Some r] to leave with [r]. The loop
    itself gives [None] when the fuel is spent. *)
Fixpoint iterate {R} (fuel : nat) (body : prog St (option R)) : prog St (option R) :=
  match fuel with
  | O => Ret None
  | S fuel' => r <-- body ;; match r with
                                       | Some x => Ret (Some x)
                                       | None => iterate fuel' body
                                       end
  end.
End primitives.

(** ** A timed connection and the execution of one task *)

(** What the peer does on a connection: the bytes it sends with the instant each is available, how
    and when its side ends (never, when [fin] is [None]), how long each [write_all] takes and
    whether it fails; and what the task has written. *)
Record Conn : Type := mkConn {
  inp : list (N * byte);
  fin : option (N * IoError);
  wr : list (N * option IoError);
  out : list bytes;
}.

Record World (St : Type) : Type := mkWorld {
  clock : N;
  conn : Conn;
  elapsed_display : bytes;
  shared : St;
}.
Arguments mkWorld {St} _ _ _ _.
Arguments clock {St} _.
Arguments conn {St} _.
Arguments elapsed_display {St} _.
Arguments shared {St} _.

(** The instant by which all of the given bytes are there, from [t0] on. *)
Definition arrival (t0 : N) (l : list (N * byte)) : N := foldr (fun p m => N.max p.1 m) t0 l.

Definition set_clock {St} (t : N) (w : World St) : World St :=
  mkWorld t (conn w) (elapsed_display w) (shared w).

Definition set_shared {St} (s : St) (w : World St) : World St :=
  mkWorld (clock w) (conn w) (elapsed_display w) s.

Definition set_inp {St} (l : list (N * byte)) (w : World St) : World St :=
  mkWorld (clock w) (mkConn l (fin (conn w)) (wr (conn w)) (out (conn w)))
    (elapsed_display w) (shared w).

(** The timer fires first: the bytes the abandoned read had taken are gone. *)
Definition time_out {St X} (deadline : N) (w : World St) : result X IoFail * World St :=
  (Err (FElapsed (elapsed_display w)),
   set_clock deadline
     (set_inp (filter (fun p => (deadline < p.1)%N) (inp (conn w))) w)).

(** [time::timeout(t, stream.read_exact(buf))] for a buffer of [n] bytes. *)
Definition read_exact {St} (n : nat) (t : N) (w : World St) : result bytes IoFail * World St :=
  let deadline := (clock w + t)%N in
  let got := take n (inp (conn w)) in
  if decide (length got = n) then
    let at_ := arrival (clock w) got in
    if (at_ <=? deadline)%N
    then (Ok (map snd got), set_clock at_ (set_inp (drop n (inp (conn w))) w))
    else time_out deadline w
  else
    match fin (conn w) with
    | Some (tf, e) =>
        let at_ := N.max (clock w) tf in
        if (at_ <=? deadline)%N
        then (Err (FIo e), set_clock at_ (set_inp [] w))
        else time_out deadline w
    | None => time_out deadline w
    end.

Definition set_wr {St} (l : list (N * option IoError)) (o : list bytes) (w : World St) : World St :=
  mkWorld (clock w) (mkConn (inp (conn w)) (fin (conn w)) l o) (elapsed_display w) (shared w).

(** [time::timeout(t, stream.write_all(buf))]. *)
Definition write_all {St} (buf : bytes) (t : N) (w : World St) : result unit IoFail * World St :=
  let '(d, o) := hd (0%N, None) (wr (conn w)) in
  let rest := tl (wr (conn w)) in
  if (d <=? t)%N then
    let w' := set_clock (clock w + d) w in
    match o with
    | None => (Ok tt, set_wr rest (out (conn w) ++ [buf]) w')
    | Some e => (Err (FIo e), set_wr rest (out (conn w)) w')
    end
  else (Err (FElapsed (elapsed_display w)),
        set_wr rest (out (conn w)) (set_clock (clock w + t) w)).

(** One task alone. [None]: the task waits for ever, or it panics. *)
Fixpoint run {St A} (p : prog St A) (w : World St) : option (A * World St) :=
  match p with
  | Ret a => Some (a, w)
  | Now k => run (k (clock w)) w
  | ReadExact n t k => let '(r, w') := read_exact n t w in run (k r) w'
  | WriteAll b t k => let '(r, w') := write_all b t w in run (k r) w'
  | Sleep t k => run k (set_clock (clock w + t) w)
  | Atomic f k => let '(x, s) := f (shared w) in run (k x) (set_shared s w)
  | Await f k => match f (shared w) with
                 | Some (x, s) => run (k x) (set_shared s w)
                 | None => None
                 end
  | Crash => None
  end.

(** ** A program over a part of a larger state *)

Section zoom.
Context {S T : Type}.
Variable get : S -> T.
Variable put : T -> S -> S.

Fixpoint zoom {A} (p : prog T A) : prog S A :=
  match p with
  | Ret a => Ret a
  | Now k => Now (fun n => zoom (k n))
  | ReadExact n t k => ReadExact n t (fun r => zoom (k r))
  | WriteAll b t k => WriteAll b t (fun r => zoom (k r))
  | Sleep t k => Sleep t (zoom k)
  | Atomic f k =>
      Atomic (fun s => let '(x, t) := f (get s) in (x, put t s)) (fun x => zoom (k x))
  | Await f k =>
      Await (fun s => match f (get s) with Some (x, t) => Some (x, put t s) | None => None end)
        (fun x => zoom (k x))
  | Crash => Crash
  end.
End zoom.

(** ** [SStream] and [StreamHandler] *)

(** [SStream<St>]: the stream is the task's own connection; its [timeout] field is here. *)
Record SStream : Type := mkSStream { ss_timeout : N }.

Section stream.
Context {St : Type}.

(** The two [?] after [time::timeout(..).await]. *)
Definition from_io_fail (e : IoFail) : Error :=
  match e with
  | FElapsed d => from_elapsed d
  | FIo e => from_io_error e
  end.

Definition write_with_timeout (buf : bytes) (timeout : N) : prog St (result unit Error) :=
  WriteAll buf timeout (fun r => Ret (map_err from_io_fail r)).

Definition swrite (s : SStream) (buf : bytes) : prog St (result unit Error) :=
  write_with_timeout buf (ss_timeout s).

(** [read_with_timeout(&mut buf, timeout)] for a buffer of [n] bytes: the bytes read. *)
Definition read_with_timeout (n : nat) (timeout : N) : prog St (result bytes Error) :=
  ReadExact n timeout (fun r => Ret (map_err from_io_fail r)).

Definition sread (s : SStream) (n : nat) : prog St (result bytes Error) :=
  read_with_timeout n (ss_timeout s).

(** [reduce_timeout(timeout, op_start)], which reads the clock. *)
Definition reduced (timeout op_start : N) : prog St N :=
  n <-- now ;; Ret (reduce_timeout timeout op_start n).

Definition read_frame_with_timeout (max_length : option N) (timeout : N) :
    prog St (result bytes Error) :=
  op_start <-- now ;;
  len_buf <-? read_with_timeout 4 timeout ;;
  let n := from_le_bytes len_buf in
  if match max_length with Some max_len => (max_len <? n)%N | None => false end
  then Ret (Err (invalid_data (bs "Frame too long (" ++ show_N n ++ bs ")")))
  else
    t <-- reduced timeout op_start ;;
    read_with_timeout (N.to_nat n) t.

Definition read_frame (s : SStream) (max_length : option N) : prog St (result bytes Error) :=
  read_frame_with_timeout max_length (ss_timeout s).

Definition get_timeout (s : SStream) : N := ss_timeout s.
End stream.

(** ** Execution lemmas *)

Lemma run_bind {St A B} (m : prog St A) (f : A -> prog St B) w :
  run (pbind f m) w = match run m w with Some (a, w') => run (f a) w' | None => None end.
Proof.
  revert w; induction m as [a|k IH|n t k IH|b t k IH|t k IH|X g k IH|X g k IH|]; intros w; simpl.
  - done.
  - apply IH.
  - destruct (read_exact n t w). apply IH.
  - destruct (write_all b t w). apply IH.
  - apply IH.
  - destruct (g (shared w)). apply IH.
  - destruct (g (shared w)) as [[x s]|]; [apply IH|done].
  - done.
Qed.

Lemma run_qbind {St A B E} (m : prog St (result A E)) (f : A -> prog St (result B E)) w :
  run (qbind m f) w = match run m w with
                      | Some (Ok a, w') => run (f a) w'
                      | Some (Err e, w') => Some (Err e, w')
                      | None => None
                      end.
Proof.
  unfold qbind. rewrite run_bind. destruct (run m w) as [[[a|e] w']|]; done.
Qed.

Lemma run_read {St} n t (w : World St) :
  run (read_with_timeout n t) w =
    Some (map_err from_io_fail (read_exact n t w).1, (read_exact n t w).2).
Proof. unfold read_with_timeout. simpl. by destruct (read_exact n t w). Qed.

Lemma run_write {St} b t (w : World St) :
  run (write_with_timeout b t) w =
    Some (map_err from_io_fail (write_all b t w).1, (write_all b t w).2).
Proof. unfold write_with_timeout. simpl. by destruct (write_all b t w). Qed.

Lemma run_now {St} (w : World St) : run now w = Some (clock w, w).
Proof. done. Qed.

Lemma run_reduced {St} t s (w : World St) :
  run (reduced t s) w = Some (reduce_timeout t s (clock w), w).
Proof. done. Qed.

#[export] Hint Rewrite @run_bind @run_qbind @run_read @run_write @run_now @run_reduced : psrt.

(** Run a straight-line program. *)
Ltac run_simpl := repeat (autorewrite with psrt; cbn [run map_err from_io_fail]).

(** *** Programs over a part of the state *)

Section run_zoom.
Context {S T : Type}.
Variable get : S -> T.
Variable put : T -> S -> S.
(** What a step on the part keeps of the whole. *)
Variable R : S -> S -> Prop.
Context `{!PreOrder R}.
Hypothesis get_put : forall t s, get (put t s) = t.
Hypothesis put_keeps : forall t s, R s (put t s).

Definition focus (w : World S) : World T :=
  mkWorld (clock w) (conn w) (elapsed_display w) (get (shared w)).

Lemma read_exact_focus n t (w : World S) :
  read_exact n t (focus w) = ((read_exact n t w).1, focus (read_exact n t w).2) /\
  shared (read_exact n t w).2 = shared w.
Proof. unfold read_exact, time_out, focus. simpl. repeat case_match; done. Qed.

Lemma write_all_focus b t (w : World S) :
  write_all b t (focus w) = ((write_all b t w).1, focus (write_all b t w).2) /\
  shared (write_all b t w).2 = shared w.
Proof. unfold write_all, focus. simpl. repeat case_match; done. Qed.

Lemma run_zoom {A} (p : prog T A) w a v :
  run p (focus w) = Some (a, v) ->
  exists w', run (zoom get put p) w = Some (a, w') /\ focus w' = v /\ R (shared w) (shared w').
Proof.
  revert w; induction p as [x|k IH|n t k IH|b t k IH|t k IH|X f k IH|X f k IH|]; intros w; cbn [run zoom].
  - intros [= -> <-]. by exists w.
  - apply IH.
  - destruct (read_exact_focus n t w) as [-> Hs].
    destruct (read_exact n t w) as [r w1]; simpl in *. intros H.
    destruct (IH _ _ H) as (w' & H1 & H2 & H3). exists w'. by rewrite <- Hs.
  - destruct (write_all_focus b t w) as [-> Hs].
    destruct (write_all b t w) as [r w1]; simpl in *. intros H.
    destruct (IH _ _ H) as (w' & H1 & H2 & H3). exists w'. by rewrite <- Hs.
  - intros H. destruct (IH (set_clock (clock w + t) w) H) as (w' & H1 & H2 & H3). by exists w'.
  - simpl. destruct (f (get (shared w))) as [x t] eqn:E. intros H.
    destruct (IH x (set_shared (put t (shared w)) w)) as (w' & H1 & H2 & H3).
    { unfold focus. simpl. by rewrite get_put. }
    exists w'. split_and!; [done..|]. etrans; [apply put_keeps|exact H3].
  - simpl. destruct (f (get (shared w))) as [[x t]|] eqn:E; [|done]. intros H.
    destruct (IH x (set_shared (put t (shared w)) w)) as (w' & H1 & H2 & H3).
    { unfold focus. simpl. by rewrite get_put. }
    exists w'. split_and!; [done..|]. etrans; [apply put_keeps|exact H3].
  - done.
Qed.
End run_zoom.

(** *** Time *)

Lemma arrival_ge t0 l : (t0 <= arrival t0 l)%N.
Proof. induction l as [|p l IH]; simpl; lia. Qed.

Lemma arrival_le t0 d l :
  (t0 <= d)%N -> Forall (fun p => (p.1 <= d)%N) l -> (arrival t0 l <= d)%N.
Proof. intros H0 Hl. induction Hl; simpl; lia. Qed.

(** A read ends within its budget. *)
Lemma read_exact_time {St} n t (w : World St) :
  (clock w <= clock (read_exact n t w).2 <= clock w + t)%N.
Proof.
  unfold read_exact. pose proof (arrival_ge (clock w) (take n (inp (conn w)))).
  repeat case_match; simpl; rewrite ?N.leb_le in *; lia.
Qed.

Lemma write_all_time {St} b t (w : World St) :
  (clock w <= clock (write_all b t w).2 <= clock w + t)%N.
Proof.
  unfold write_all. repeat case_match; simpl; rewrite ?N.leb_le in *; lia.
Qed.

(** What a read leaves alone. *)
Lemma read_exact_frame {St} n t (w : World St) :
  let w' := (read_exact n t w).2 in
  shared w' = shared w /\ wr (conn w') = wr (conn w) /\ out (conn w') = out (conn w) /\
  elapsed_display w' = elapsed_display w /\ fin (conn w') = fin (conn w).
Proof. unfold read_exact. repeat case_match; done. Qed.

(** The bytes are there in time: the read succeeds and takes exactly them. *)
Lemma read_exact_prefix {St} (a rest : list (N * byte)) n t (w : World St) :
  inp (conn w) = a ++ rest -> length a = n ->
  Forall (fun p => (p.1 <= clock w + t)%N) a ->
  read_exact n t w =
    (Ok (map snd a), set_clock (arrival (clock w) a) (set_inp rest w)).
Proof.
  intros Hi <- Ha. unfold read_exact. rewrite Hi, take_app_length, drop_app_length.
  rewrite decide_True by done.
  rewrite (proj2 (N.leb_le _ _)); [done|]. apply arrival_le; [lia|done].
Qed.

(** A failed read reports the timer, or the end of the stream when it comes first. *)
Lemma read_exact_Ok {St} n t (w w' : World St) l :
  read_exact n t w = (Ok l, w') ->
  length l = n /\ map snd (inp (conn w)) = l ++ map snd (inp (conn w')).
Proof.
  unfold read_exact. repeat case_match; intros; simplify_eq/=.
  rewrite length_map, <- map_app, take_drop. done.
Qed.

Lemma read_exact_shrinks {St} n t (w : World St) :
  length (inp (conn (read_exact n t w).2)) <= length (inp (conn w)).
Proof.
  unfold read_exact, time_out. repeat case_match; simpl;
    rewrite ?length_drop; try lia; apply length_filter.
Qed.

(** ** Frames *)

(** Run [read_frame_with_timeout] in terms of its two reads. *)
Lemma run_read_frame {St} max_length t (w : World St) :
  run (read_frame_with_timeout max_length t) w =
    let '(r, w1) := read_exact 4 t w in
    match r with
    | Err e => Some (Err (from_io_fail e), w1)
    | Ok len_buf =>
        let n := from_le_bytes len_buf in
        if match max_length with Some max_len => (max_len <? n)%N | None => false end
        then Some (Err (invalid_data (bs "Frame too long (" ++ show_N n ++ bs ")")), w1)
        else
          let '(r2, w2) := read_exact (N.to_nat n) (reduce_timeout t (clock w) (clock w1)) w1 in
          Some (map_err from_io_fail r2, w2)
    end.
Proof.
  unfold read_frame_with_timeout. rewrite run_bind. cbn [run now]. rewrite run_qbind, run_read.
  destruct (read_exact 4 t w) as [[l|e] w1]; cbn; [|done].
  destruct (match max_length with Some _ => _ | None => _ end); [done|].
  cbn [run]. rewrite run_read. by destruct (read_exact _ _ w1).
Qed.

(** The whole of [read_frame_with_timeout]: time, shared state and input. *)
Lemma read_frame_time {St} max_length t (w : World St) :
  exists r w', run (read_frame_with_timeout max_length t) w = Some (r, w') /\
    (clock w <= clock w' <= clock w + t)%N /\ shared w' = shared w /\
    length (inp (conn w')) <= length (inp (conn w)).
Proof.
  rewrite run_read_frame. pose proof (read_exact_time 4 t w) as H1.
  pose proof (read_exact_shrinks 4 t w) as L1. pose proof (read_exact_frame 4 t w) as [F1 _].
  destruct (read_exact 4 t w) as [[l|e] w1]; simpl in *; [|by eauto 10].
  case_match; [by eauto 10|].
  set (t2 := reduce_timeout t (clock w) (clock w1)). set (n := N.to_nat (from_le_bytes l)).
  pose proof (read_exact_time n t2 w1) as H2. pose proof (read_exact_shrinks n t2 w1) as L2.
  pose proof (read_exact_frame n t2 w1) as [F2 _].
  destruct (read_exact n t2 w1) as [r2 w2]; simpl in *. unfold t2 in *.
  rewrite reduce_timeout_deadline in H2 by lia.
  eexists _, _. split; [done|]. split; [lia|]. split; [congruence|lia].
Qed.

(** the whole of [read_frame_with_timeout], header and body, takes at most its budget, whatever
    the peer does, and always returns. *)
Theorem read_frame_within_budget {St} max_length t (w : World St) :
  exists r w', run (read_frame_with_timeout max_length t) w = Some (r, w') /\
    (clock w <= clock w' <= clock w + t)%N.
Proof. destruct (read_frame_time max_length t w) as (r & w' & Hr & Ht & _). eauto. Qed.

(** ** Postconditions of a task that runs alone *)

(** The task ends, and the result and the world it leaves satisfy [Q]. *)
Definition returns {St A} (p : prog St A) (w : World St) (Q : A -> World St -> Prop) : Prop :=
  exists a w', run p w = Some (a, w') /\ Q a w'.

Lemma returns_ret {St A} (a : A) (w : World St) (Q : A -> World St -> Prop) :
  Q a w -> returns (Ret a) w Q.
Proof. intros. by exists a, w. Qed.

Lemma returns_mono {St A} (p : prog St A) w (Q R : A -> World St -> Prop) :
  returns p w Q -> (forall a w', Q a w' -> R a w') -> returns p w R.
Proof. intros (a & w' & Hr & HQ) H. exists a, w'. auto. Qed.

Lemma returns_bind {St A B} (m : prog St A) (f : A -> prog St B) w (Q : B -> World St -> Prop) :
  returns m w (fun a w' => returns (f a) w' Q) -> returns (pbind f m) w Q.
Proof.
  intros (a & w1 & Hm & b & w2 & Hf & HQ). exists b, w2. by rewrite run_bind, Hm.
Qed.

Lemma returns_qbind {St A B E} (m : prog St (result A E)) (f : A -> prog St (result B E)) w
    (Q : result B E -> World St -> Prop) :
  returns m w (fun r w' => match r with Ok a => returns (f a) w' Q | Err e => Q (Err e) w' end) ->
  returns (qbind m f) w Q.
Proof.
  intros H. apply returns_bind. eapply returns_mono; [exact H|].
  intros [a|e] w' Hr; [done|]. by apply returns_ret.
Qed.

Lemma returns_asks {St X} (f : St -> X) w (Q : X -> World St -> Prop) :
  Q (f (shared w)) w -> returns (asks f) w Q.
Proof. intros H. exists (f (shared w)), w. by destruct w. Qed.

Lemma returns_atomic {St X} (f : St -> X * St) w (Q : X -> World St -> Prop) :
  Q (f (shared w)).1 (set_shared (f (shared w)).2 w) -> returns (atomic f) w Q.
Proof. intros H. eexists _, _. split; [|exact H]. simpl. by destruct (f (shared w)). Qed.

Lemma returns_modify {St} (f : St -> St) w (Q : unit -> World St -> Prop) :
  Q tt (set_shared (f (shared w)) w) -> returns (modify f) w Q.
Proof. intros H. by exists tt, (set_shared (f (shared w)) w). Qed.

(** Bytes that are all available at the instant [d]. *)
Definition available (d : N) (l : list (N * byte)) : Prop := Forall (fun p => (p.1 <= d)%N) l.

(** A read whose header and body are there in time, by the length the header declares. *)
Lemma run_read_frame_in_time {St} max_length t (w : World St) hdr body rest :
  inp (conn w) = hdr ++ body ++ rest ->
  length hdr = 4 -> from_le_bytes (map snd hdr) = len body ->
  (forall m, max_length = Some m -> (len body <= m)%N) ->
  available (clock w + t) hdr -> available (clock w + t) body ->
  exists c, (clock w <= c <= clock w + t)%N /\
    run (read_frame_with_timeout max_length t) w =
      Some (Ok (map snd body), set_clock c (set_inp rest w)).
Proof.
  intros Hi Hl Hn Hmax Hh Hb. rewrite run_read_frame.
  rewrite (read_exact_prefix hdr (body ++ rest)) by done. simpl. rewrite Hn.
  replace (match max_length with Some m => _ | None => false end) with false by
    (destruct max_length as [m|]; [|done]; symmetry; apply N.ltb_ge; auto).
  pose proof (arrival_ge (clock w) hdr).
  assert (arrival (clock w) hdr <= clock w + t)%N by (apply arrival_le; [lia|done]).
  rewrite (read_exact_prefix body rest); simpl; [|done|unfold len; lia|].
  - eexists. split; [|done]. pose proof (arrival_ge (arrival (clock w) hdr) body).
    split; [lia|]. apply arrival_le; [lia|done].
  - rewrite reduce_timeout_deadline by lia.
    eapply Forall_impl; [exact Hb|]. simpl. intros. lia.
Qed.

(** A frame as the peers write it: the length on four bytes, little-endian, then the payload. *)
Definition frame (payload : bytes) : bytes := to_le_bytes 4 (len payload) ++ payload.

(** What a task alone knows after a read: the shared state and the output stay, the bytes it got are
    those at the head of the input. *)
Definition reads {St} (l : bytes) (w w' : World St) : Prop :=
  shared w' = shared w /\ out (conn w') = out (conn w) /\
  map snd (inp (conn w)) = l ++ map snd (inp (conn w')).

(** The same after a failed read. *)
Definition unread {St} (w w' : World St) : Prop :=
  shared w' = shared w /\ out (conn w') = out (conn w).

Lemma returns_read_bytes {St} n t (w : World St) :
  returns (read_with_timeout n t) w (fun r w' =>
    match r with Ok l => length l = n /\ reads l w w' | Err _ => unread w w' end).
Proof.
  eexists _, _. split; [apply run_read|]. pose proof (read_exact_frame n t w) as (Hs & _ & Ho & _).
  destruct (read_exact n t w) as [[l|e] w'] eqn:E; simpl in *; [|done].
  by apply read_exact_Ok in E as [? ?].
Qed.

Lemma returns_frame_bytes {St} max t (w : World St) :
  returns (read_frame_with_timeout max t) w (fun r w' =>
    match r with Ok l => reads (frame l) w w' | Err _ => unread w w' end).
Proof.
  unfold returns. rewrite run_read_frame.
  pose proof (read_exact_frame 4 t w) as (Hs & _ & Ho & _).
  destruct (read_exact 4 t w) as [[l|e] w1] eqn:E1; simpl in *; [|by eexists _, _].
  apply read_exact_Ok in E1 as [Hl Hi]. case_match; [by eexists _, _|].
  set (n := N.to_nat _). set (t2 := reduce_timeout _ _ _).
  pose proof (read_exact_frame n t2 w1) as (Hs2 & _ & Ho2 & _).
  destruct (read_exact n t2 w1) as [[p|e] w2] eqn:E2; simpl in *; eexists _, _;
    (split; [done|]); unfold reads, unread; rewrite Hs2, Ho2; [|done].
  apply read_exact_Ok in E2 as [Hp Hi2]. split_and!; [done..|].
  rewrite Hi, Hi2. unfold frame. rewrite <- app_assoc. f_equal.
  replace (len p) with (from_le_bytes l) by (unfold len, n in *; lia).
  by rewrite <- Hl, to_from_le_bytes.
Qed.

(** Bytes all available from the start. *)
Definition ready (l : bytes) : list (N * byte) := map (pair 0%N) l.

Lemma map_snd_ready l : map snd (ready l) = l.
Proof. unfold ready. rewrite map_map. apply map_id. Qed.

Lemma length_ready l : length (ready l) = length l.
Proof. apply length_map. Qed.

Lemma ready_app a b : ready (a ++ b) = ready a ++ ready b.
Proof. apply map_app. Qed.

Lemma available_ready d l : available d (ready l).
Proof. apply Forall_map, Forall_true. simpl. lia. Qed.

#[export] Hint Resolve available_ready : psrt.
#[export] Hint Rewrite map_snd_ready length_ready ready_app : psrt.
