(* ===== verification/Commands.v ===== *)
(** * Client commands on the wire: [ControlCommand] of src/src/client.rs

    The commands a client sends on the control stream and their encoding, with the 32-bit length
    fields as the code computes them. *)

From S2P Require Import Prelude Utf8 Proto Io.

Inductive ControlCommand : Type :=
| Nop
| Subscribe (topic : bytes)
| SubscribeBulk (topics : list bytes)
| Unsubscribe (topic : bytes)
| UnsubscribeBulk (topics : list bytes)
| Publish (priority : byte) (topic message : bytes)
| PublishRepl (priority : byte) (topic message : bytes) (timestamp : N)
| Bye.

#[export] Instance ControlCommand_eq_dec : EqDecision ControlCommand.
Proof. solve_decision. Defined.

Module ControlCommand.

(** [topic.len() as u32]. *)
Definition len_u32 (l : bytes) : N := wrap 32 (len l).

(** [let mut len: u32 = 0; for t in topics { len += t.len() as u32 + 1; }]. *)
Fixpoint bulk_len (topics : list bytes) (n : N) : N :=
  match topics with
  | [] => n
  | t :: topics' => bulk_len topics' (wrap 32 (n + wrap 32 (len_u32 t + 1)))
  end.

(** Every topic with a NUL after it. *)
Fixpoint bulk_body (topics : list bytes) : bytes :=
  match topics with
  | [] => []
  | t :: topics' => t ++ x00 :: bulk_body topics'
  end.

Definition as_bytes (c : ControlCommand) : bytes :=
  match c with
  | Nop => [OP_NOP]
  | Subscribe topic => OP_SUBSCRIBE :: to_le_bytes 4 (len_u32 topic) ++ topic
  | SubscribeBulk topics => OP_SUBSCRIBE :: to_le_bytes 4 (bulk_len topics 0) ++ bulk_body topics
  | Unsubscribe topic => OP_UNSUBSCRIBE :: to_le_bytes 4 (len_u32 topic) ++ topic
  | UnsubscribeBulk topics =>
      OP_UNSUBSCRIBE :: to_le_bytes 4 (bulk_len topics 0) ++ bulk_body topics
  | Publish priority topic message =>
      OP_PUBLISH :: priority
        :: to_le_bytes 4 (wrap 32 (wrap 32 (len_u32 topic + 1) + len_u32 message))
        ++ topic ++ [x00]
  | PublishRepl _ topic _ _ => OP_PUBLISH_REPL :: to_le_bytes 4 (len_u32 topic) ++ topic
  | Bye => [OP_BYE]
  end.

End ControlCommand.

(** ** Lemmas *)

(** The running length is the length of the body, modulo the width. *)
Lemma bulk_len_wrap ts n :
  wrap 32 (ControlCommand.bulk_len ts n) = wrap 32 (n + len (ControlCommand.bulk_body ts)).
Proof.
  revert n; induction ts as [|t ts IH]; intros n; simpl.
  - unfold len. simpl. by rewrite N.add_0_r.
  - rewrite IH, len_app, len_cons. unfold ControlCommand.len_u32.
    rewrite wrap_add_l, <- N.add_assoc, (N.add_comm (wrap 32 _)), N.add_assoc, wrap_add_r.
    rewrite N.add_assoc, N.add_shuffle0, wrap_add_r. f_equal. lia.
Qed.

Lemma bulk_len_lt ts n : (n < 2 ^ 32)%N -> (ControlCommand.bulk_len ts n < 2 ^ 32)%N.
Proof. revert n; induction ts as [|t ts IH]; intros n Hn; simpl; [done|]. apply IH, wrap_lt. Qed.

Lemma bulk_len_eq ts :
  (len (ControlCommand.bulk_body ts) < 2 ^ 32)%N ->
  ControlCommand.bulk_len ts 0 = len (ControlCommand.bulk_body ts).
Proof.
  intros Hl. pose proof (bulk_len_wrap ts 0) as H. rewrite N.add_0_l in H.
  rewrite !wrap_small in H; [done|done|]. by apply bulk_len_lt.
Qed.

(** What the server reads after the operation's byte. *)
Definition command_payload (c : ControlCommand) : bytes :=
  match c with
  | Subscribe topic | Unsubscribe topic | PublishRepl _ topic _ _ => topic
  | SubscribeBulk topics | UnsubscribeBulk topics => ControlCommand.bulk_body topics
  | Publish _ topic message => topic ++ x00 :: message
  | Nop | Bye => []
  end.

Definition payload_fits (c : ControlCommand) : Prop := (len (command_payload c) < 2 ^ 32)%N.

Lemma as_bytes_subscribe c ts :
  c = Subscribe ts \/ c = Unsubscribe ts -> payload_fits c ->
  ControlCommand.as_bytes c =
    (match c with Subscribe _ => OP_SUBSCRIBE | _ => OP_UNSUBSCRIBE end) :: frame ts.
Proof.
  unfold payload_fits, frame. intros [-> | ->] Hl; simpl in *;
    unfold ControlCommand.len_u32; by rewrite wrap_small.
Qed.

Lemma as_bytes_bulk c ts :
  c = SubscribeBulk ts \/ c = UnsubscribeBulk ts -> payload_fits c ->
  ControlCommand.as_bytes c =
    (match c with SubscribeBulk _ => OP_SUBSCRIBE | _ => OP_UNSUBSCRIBE end)
      :: frame (ControlCommand.bulk_body ts).
Proof.
  unfold payload_fits, frame. intros [-> | ->] Hl; simpl in *; by rewrite bulk_len_eq.
Qed.

(** The command and then the message, as the control task writes them. *)
Lemma as_bytes_publish p t m :
  payload_fits (Publish p t m) ->
  ControlCommand.as_bytes (Publish p t m) ++ m = OP_PUBLISH :: p :: frame (t ++ x00 :: m).
Proof.
  unfold payload_fits, frame. simpl. intros Hl. unfold ControlCommand.len_u32.
  rewrite len_app, len_cons in *.
  rewrite (wrap_small 32 (len t)), (wrap_small 32 (len m)), (wrap_small 32 (len t + 1)) by lia.
  by rewrite wrap_small, <- !app_assoc, N.add_assoc by lia.
Qed.
