(* ===== verification/Acl.v ===== *)
(** * Access control: src/src/acl.rs

    Topic masks ([PathMask]), their parsing and display, the matching of a topic against a mask and
    a mask list, the access rules of a login ([Acl]) and the database of rules ([Db]) with its
    reload. A [HashSet<PathMask>] is a [gset]: the code only asks whether some element matches. *)

From S2P Require Import Prelude Utf8 Proto.

Definition ERR_PATH_MASK_EMPTY : bytes := bs "Empty path mask".

(** ** Masks *)

(** [chunks: None] is the mask [#], which matches every topic. *)
Record PathMask : Type := mkPathMask { chunks : option (list bytes) }.

#[export] Instance PathMask_eq_dec : EqDecision PathMask.
Proof. solve_decision. Defined.

Lemma PathMask_eta m : mkPathMask (chunks m) = m.
Proof. by destruct m. Qed.

#[export] Instance PathMask_countable : Countable PathMask :=
  inj_countable' chunks mkPathMask PathMask_eta.

Module PathMask.

Definition new_any : PathMask := mkPathMask None.

Definition is_str_any (s : bytes) : bool := bool_decide (s = bs "#").
Definition is_str_wildcard (s : bytes) : bool := bool_decide (s = bs "+").

#[global] Arguments is_str_any : simpl never.
#[global] Arguments is_str_wildcard : simpl never.

(** The loop of [matches_split] over the mask's chunks and the topic's. *)
Fixpoint match_chunks (s_m path_split : list bytes) : bool :=
  match path_split with
  | i_chunk :: path_split' =>
      match s_m with
      | m_chunk :: s_m' =>
          if is_str_any m_chunk then true
          else if negb (is_str_wildcard m_chunk) && negb (bool_decide (i_chunk = m_chunk))
          then false
          else match_chunks s_m' path_split'
      | [] => false
      end
  | [] => match s_m with [] => true | _ :: _ => false end
  end.

Definition matches_split (m : PathMask) (path_split : list bytes) : bool :=
  match chunks m with
  | Some cs => match_chunks cs path_split
  | None => true
  end.

(** [Display]. *)
Definition show (m : PathMask) : bytes :=
  match chunks m with
  | Some cs => join [slash] cs
  | None => bs "#"
  end.

(** The [for chunk in s.split('/')] of [from_str]: stop at the first [#]. *)
Fixpoint collect (ps : list bytes) : list bytes :=
  match ps with
  | [] => []
  | p :: ps' => if is_str_any p then [bs "#"] else p :: collect ps'
  end.

Definition from_str (s : bytes) : result PathMask Error :=
  if bool_decide (s = []) then Err (invalid_data ERR_PATH_MASK_EMPTY)
  else if is_str_any s then Ok new_any
  else Ok (mkPathMask (Some (collect (split_on slash s)))).

(** [PathMaskVisitor::visit_str] and [visit_string]: a parse error is reported with the text. *)
Definition visit_str (value : bytes) : result PathMask bytes :=
  map_err (fun e => show_Error e ++ bs ": " ++ value) (from_str value).

(** [PartialEq], [Ord] and [PartialOrd]: those of the chunks, [Option<Vec<String>>]. *)
Definition eqb (m1 m2 : PathMask) : bool := bool_decide (chunks m1 = chunks m2).

Definition cmp (m1 m2 : PathMask) : comparison :=
  match chunks m1, chunks m2 with
  | None, None => Eq
  | None, Some _ => Lt
  | Some _, None => Gt
  | Some c1, Some c2 => lex bytes_cmp c1 c2
  end.

Definition partial_cmp (m1 m2 : PathMask) : option comparison := Some (cmp m1 m2).

End PathMask.

(** ** Mask lists *)

Record PathMaskList : Type := mkPathMaskList { path_masks : gset PathMask }.

Module PathMaskList.

Definition new (masks : gset PathMask) : PathMaskList := mkPathMaskList masks.

Definition matches_split (l : PathMaskList) (path_split : list bytes) : bool :=
  existsb (fun m => PathMask.matches_split m path_split) (elements (path_masks l)).

Definition matches (l : PathMaskList) (path : bytes) : bool :=
  matches_split l (split_on slash path).

Definition is_empty (l : PathMaskList) : bool := bool_decide (path_masks l = ∅).

(** The [for s in s_masks { path_masks.insert(s.parse()?); }] of [from_str_list] and
    [from_string_vec]. *)
Fixpoint parse_all (s_masks : list bytes) (acc : gset PathMask) : result (gset PathMask) Error :=
  match s_masks with
  | [] => Ok acc
  | s :: s_masks' => let? m := PathMask.from_str s in parse_all s_masks' ({[m]} ∪ acc)
  end.

Definition from_str_list (s_masks : list bytes) : result PathMaskList Error :=
  let? masks := parse_all s_masks ∅ in Ok (mkPathMaskList masks).


(** [PathMaskListYaml]: one mask, or a list of them. *)
Inductive PathMaskListYaml : Type :=
| One (mask : PathMask)
| Many (masks : gset PathMask).

Definition deserialize (y : PathMaskListYaml) : PathMaskList :=
  match y with
  | One mask => new {[mask]}
  | Many masks => new masks
  end.


End PathMaskList.

(** ** The rules of a login *)

Record Acl : Type := mkAcl {
  admin : bool;
  replicator : bool;
  read : option PathMaskList;
  write : option PathMaskList;
}.

Module Acl.

Definition new_full : Acl :=
  mkAcl true true (Some (PathMaskList.new {[PathMask.new_any]}))
    (Some (PathMaskList.new {[PathMask.new_any]})).

Definition allow_read (a : Acl) (topic : bytes) : bool :=
  match read a with Some v => PathMaskList.matches v topic | None => false end.

Definition allow_write (a : Acl) (topic : bytes) : bool :=
  match write a with Some v => PathMaskList.matches v topic | None => false end.

Definition is_replicator (a : Acl) : bool := replicator a.
Definition is_admin (a : Acl) : bool := admin a.

End Acl.

(** ** The database of rules *)

Record Db : Type := mkDb {
  acls : gmap bytes Acl;
  path : bytes;
}.

Module Db.

Definition get_acl (db : Db) (user : bytes) : option Acl := acls db !! user.
Definition has_acl (db : Db) (user : bytes) : bool := bool_decide (is_Some (acls db !! user)).
Definition set_path (p : bytes) (db : Db) : Db := mkDb (acls db) p.

Section reload.
(** The file system and the YAML parser, each with the error [?] converts. *)
Variable read_to_string : bytes -> result bytes IoError.
Variable parse_acls : bytes -> result (gmap bytes Acl) bytes.

(** [reload]: the rules are replaced only when the file could be read and parsed. The state of the
    database after the call, and the result. *)
Definition reload (db : Db) : Db * result unit Error :=
  match map_err from_io_error (read_to_string (path db)) with
  | Err e => (db, Err e)
  | Ok text =>
      match map_err from_serde_error (parse_acls text) with
      | Err e => (db, Err e)
      | Ok acls => (mkDb acls (path db), Ok tt)
      end
  end.
End reload.

End Db.

(** ** Specification of matching *)

(** [mask_matches m t]: the chunks [t] of a topic match the chunks [m] of a mask. *)
Inductive mask_matches : list bytes -> list bytes -> Prop :=
| mm_nil : mask_matches [] []
| mm_any m c t : mask_matches (bs "#" :: m) (c :: t)
| mm_wildcard m c t : mask_matches m t -> mask_matches (bs "+" :: m) (c :: t)
| mm_chunk m c t : mask_matches m t -> mask_matches (c :: m) (c :: t).
#[export] Hint Constructors mask_matches : psrt.

(** The matching of a whole mask. *)
Definition mask_admits (m : PathMask) (t : list bytes) : Prop :=
  match chunks m with Some cs => mask_matches cs t | None => True end.

Lemma is_str_any_spec s : reflect (s = bs "#") (PathMask.is_str_any s).
Proof. apply bool_decide_reflect. Qed.

Lemma is_str_wildcard_spec s : reflect (s = bs "+") (PathMask.is_str_wildcard s).
Proof. apply bool_decide_reflect. Qed.

Lemma match_chunks_spec m t : PathMask.match_chunks m t = true <-> mask_matches m t.
Proof.
  split.
  - revert m; induction t as [|c t IH]; intros m; simpl.
    + destruct m; [constructor|done].
    + destruct m as [|d m]; [done|]. cbn [PathMask.match_chunks].
      destruct (is_str_any_spec d) as [->|?]; [constructor|].
      destruct (is_str_wildcard_spec d) as [->|?]; simpl; [auto with psrt|].
      case_bool_decide; simpl; [subst; auto with psrt|done].
  - induction 1 as [|m c t|m c t _ IH|m c t _ IH]; cbn [PathMask.match_chunks].
    + done.
    + by destruct (is_str_any_spec (bs "#")).
    + destruct (is_str_any_spec (bs "+")); [done|].
      by destruct (is_str_wildcard_spec (bs "+")).
    + destruct (is_str_any_spec c); [done|].
      rewrite bool_decide_eq_true_2 by done. by rewrite andb_false_r.
Qed.

Lemma matches_split_spec m t : PathMask.matches_split m t = true <-> mask_admits m t.
Proof.
  unfold PathMask.matches_split, mask_admits. destruct (chunks m); [apply match_chunks_spec|done].
Qed.

#[export] Instance mask_admits_dec m t : Decision (mask_admits m t).
Proof.
  refine (cast_if (decide (PathMask.matches_split m t = true))); by rewrite <- matches_split_spec.
Defined.

Lemma list_matches_spec l t :
  PathMaskList.matches l t = true <->
  exists m, m ∈ path_masks l /\ mask_admits m (split_on slash t).
Proof.
  unfold PathMaskList.matches, PathMaskList.matches_split.
  rewrite existsb_exists. split; intros (m & Hin & Hm); exists m.
  - rewrite <- list_elem_of_In, elem_of_elements, matches_split_spec in *. done.
  - rewrite <- list_elem_of_In, elem_of_elements, matches_split_spec. done.
Qed.

(** ** Parsing and display *)

(** [#] stands only in the last chunk. *)
Definition hash_last (cs : list bytes) : Prop :=
  forall i, cs !! i = Some (bs "#") -> S i = length cs.

(** What [from_str] produces. *)
Definition wf_mask (m : PathMask) : Prop :=
  match chunks m with
  | None => True
  | Some cs => cs <> [] /\ cs <> [[]] /\ Forall (fun c => slash ∉ c) cs /\ hash_last cs
  end.

(** Masks that admit the same topics. The chunks of a topic are never empty ([str::split]). *)
Definition mask_equiv (m1 m2 : PathMask) : Prop :=
  forall t, t <> [] -> mask_admits m1 t <-> mask_admits m2 t.

#[export] Instance mask_equiv_equivalence : Equivalence mask_equiv.
Proof.
  split.
  - intros m t _. done.
  - intros m1 m2 H t Ht. symmetry. auto.
  - intros m1 m2 m3 H1 H2 t Ht. etrans; [by apply H1|auto].
Qed.

Lemma collect_hash_last ps : hash_last (PathMask.collect ps).
Proof.
  induction ps as [|p ps IH]; intros i; simpl; [done|].
  destruct (is_str_any_spec p) as [->|Hp].
  - by destruct i.
  - destruct i as [|i]; simpl; [congruence|]. intros Hi. by rewrite <- (IH i Hi).
Qed.

Lemma hash_last_collect ps : hash_last ps -> PathMask.collect ps = ps.
Proof.
  induction ps as [|p ps IH]; intros H; simpl; [done|].
  destruct (is_str_any_spec p) as [->|Hp].
  - specialize (H 0 eq_refl). by destruct ps.
  - f_equal. apply IH. intros i Hi. specialize (H (S i) Hi). simpl in H. lia.
Qed.

Lemma collect_pieces ps :
  Forall (fun c => slash ∉ c) ps -> Forall (fun c => slash ∉ c) (PathMask.collect ps).
Proof.
  induction 1 as [|p ps Hp _ IH]; simpl; [done|].
  destruct (is_str_any_spec p); [|by constructor].
  by constructor; [apply (bool_decide_unpack _)|].
Qed.

Lemma collect_nonempty ps : ps <> [] -> PathMask.collect ps <> [].
Proof. destruct ps; simpl; [done|]. by case_match. Qed.

(** Dropping what follows a [#] does not change what matches. *)
Lemma match_collect ps t :
  PathMask.match_chunks (PathMask.collect ps) t = PathMask.match_chunks ps t.
Proof.
  revert t; induction ps as [|p ps IH]; intros t; simpl; [done|].
  destruct (is_str_any_spec p) as [->|Hp]; destruct t as [|c t]; cbn [PathMask.match_chunks].
  - done.
  - by destruct (is_str_any_spec (bs "#")).
  - done.
  - destruct (is_str_any_spec p); [done|]. by rewrite IH.
Qed.

Lemma from_str_cases s m :
  PathMask.from_str s = Ok m ->
  s <> [] /\
  (s = bs "#" /\ m = PathMask.new_any \/
   s <> bs "#" /\ m = mkPathMask (Some (PathMask.collect (split_on slash s)))).
Proof.
  unfold PathMask.from_str. case_bool_decide; [done|].
  destruct (is_str_any_spec s); intros [= <-]; auto.
Qed.

Lemma collect_split_ne s :
  s <> [] -> PathMask.collect (split_on slash s) <> [[]].
Proof.
  intros Hs H. destruct (first_sep slash s) as [Hn|(p & r & -> & Hp)].
  - rewrite split_on_not_in in H by done. simpl in H. by destruct (is_str_any_spec s); simplify_eq.
  - rewrite split_on_app in H by done. simpl in H. destruct (PathMask.is_str_any p); [done|].
    injection H as _ H. eapply collect_nonempty; [|exact H]. apply split_on_nonempty.
Qed.

Lemma from_str_wf s m : PathMask.from_str s = Ok m -> wf_mask m.
Proof.
  intros (Hs & [[_ ->]|[Hne ->]])%from_str_cases; [done|].
  unfold wf_mask. simpl. split_and!.
  - apply collect_nonempty, split_on_nonempty.
  - by apply collect_split_ne.
  - apply collect_pieces, split_on_pieces.
  - apply collect_hash_last.
Qed.

(** The display of a mask parses back: to the mask, and to [#] for the mask of chunk [#] alone. *)
Lemma from_str_show m :
  wf_mask m ->
  PathMask.from_str (PathMask.show m) =
    Ok (if decide (chunks m = Some [bs "#"]) then PathMask.new_any else m).
Proof.
  destruct m as [[cs|]]; unfold PathMask.show, wf_mask; simpl; [|done].
  intros (Hne & Hne' & Hsl & Hh).
  pose proof (split_on_join slash cs Hne Hsl) as Hsplit.
  unfold PathMask.from_str. rewrite bool_decide_eq_false_2.
  2:{ intros Hj. rewrite Hj in Hsplit. by apply Hne'. }
  destruct (is_str_any_spec (join [slash] cs)) as [Hj|Hj].
  - rewrite Hj in Hsplit. by rewrite <- Hsplit.
  - rewrite Hsplit, hash_last_collect by done.
    rewrite decide_False; [done|]. intros [= ->]. done.
Qed.

(** ** Mask lists built from text *)

Lemma from_str_admits s m t :
  PathMask.from_str s = Ok m -> t <> [] ->
  mask_admits m t <-> mask_matches (split_on slash s) t.
Proof.
  intros (Hs & [[-> ->]|[Hne ->]])%from_str_cases Ht.
  - destruct t as [|c t]; [done|]. split; [|done]. intros _. apply (mm_any []).
  - unfold mask_admits. simpl. by rewrite <- !match_chunks_spec, match_collect.
Qed.

Lemma parse_all_Ok ss acc ms :
  PathMaskList.parse_all ss acc = Ok ms ->
  forall m, m ∈ ms <-> m ∈ acc \/ exists s, s ∈ ss /\ PathMask.from_str s = Ok m.
Proof.
  revert acc; induction ss as [|s ss IH]; intros acc; cbn [PathMaskList.parse_all].
  - intros [= <-] m. split; [auto|]. intros [?|(s & Hs & _)]; [done|by apply elem_of_nil in Hs].
  - destruct (PathMask.from_str s) as [m0|] eqn:E; simpl; [|done]. intros H m.
    rewrite (IH _ H), elem_of_union, elem_of_singleton. split.
    + intros [[->|?]|(s' & ? & ?)]; [right|by left|right]; eexists; (split; [|eassumption]);
        rewrite elem_of_cons; auto.
    + intros [?|(s' & [->|?]%elem_of_cons & ?)]; [auto| |eauto].
      left. left. congruence.
Qed.

Lemma parse_all_Err ss acc e :
  PathMaskList.parse_all ss acc = Err e -> [] ∈ ss /\ e = invalid_data ERR_PATH_MASK_EMPTY.
Proof.
  revert acc; induction ss as [|s ss IH]; intros acc; cbn [PathMaskList.parse_all]; [done|].
  destruct (PathMask.from_str s) as [m0|e0] eqn:E; simpl; intros H.
  - destruct (IH _ H). rewrite elem_of_cons. auto.
  - injection H as ->. unfold PathMask.from_str in E. rewrite elem_of_cons.
    case_bool_decide; simplify_eq; [auto|]. by destruct (PathMask.is_str_any s).
Qed.

Lemma parse_all_nil ss acc : [] ∈ ss -> is_err (PathMaskList.parse_all ss acc) = true.
Proof.
  destruct (PathMaskList.parse_all ss acc) as [ms|e] eqn:E; [|done].
  revert acc E; induction ss as [|s ss IH]; intros acc E; [by intros ?%elem_of_nil|].
  cbn [PathMaskList.parse_all] in E.
  destruct (PathMask.from_str s) as [m0|] eqn:Em; [|done]. simpl in E.
  rewrite elem_of_cons. intros [<-|?]; [done|eauto].
Qed.

Lemma list_built_matches ss l t :
  PathMaskList.from_str_list ss = Ok l ->
  PathMaskList.matches l t = true <->
  exists s, s ∈ ss /\ mask_matches (split_on slash s) (split_on slash t).
Proof.
  unfold PathMaskList.from_str_list.
  destruct (PathMaskList.parse_all ss ∅) as [ms|e] eqn:E; simpl; [|done]. intros [= <-].
  rewrite list_matches_spec. simpl. setoid_rewrite (parse_all_Ok _ _ _ E).
  pose proof (split_on_nonempty slash t) as Ht. split.
  - intros (m & [?|(s & Hs & Hm)] & Hadm); [set_solver|]. exists s. split; [done|].
    by apply (from_str_admits s m).
  - intros (s & Hs & Hm). destruct (PathMask.from_str s) as [m|] eqn:Em.
    + exists m. rewrite (from_str_admits s m) by done. eauto.
    + unfold PathMask.from_str in Em. case_bool_decide as D; [subst s|by case_match].
      apply (parse_all_nil _ ∅) in Hs. by rewrite E in Hs.
Qed.

(** *** Writing a list and reading it back *)




(** The mask that is read back: the same one, or [#] for the chunk [#] alone. *)
Definition reread (m : PathMask) : PathMask :=
  if decide (chunks m = Some [bs "#"]) then PathMask.new_any else m.

Lemma show_reread m : PathMask.show (reread m) = PathMask.show m.
Proof. unfold reread. case_decide as D; [|done]. destruct m as [[cs|]]; by simplify_eq/=. Qed.

Lemma mask_equiv_reread m : mask_equiv m (reread m).
Proof.
  unfold reread. case_decide as D; [|done]. destruct m as [[cs|]]; simplify_eq/=.
  intros [|c t] Ht; [done|]. unfold mask_admits. simpl. split; [done|]. constructor.
Qed.



(** The order of masks agrees with their equality, as [Ord] requires. *)
Theorem mask_order_total (m1 m2 : PathMask) :
  PathMask.cmp m2 m1 = CompOpp (PathMask.cmp m1 m2) /\
  (PathMask.cmp m1 m2 = Eq <-> PathMask.eqb m1 m2 = true) /\
  PathMask.partial_cmp m1 m2 = Some (PathMask.cmp m1 m2).
Proof.
  unfold PathMask.partial_cmp, PathMask.eqb, PathMask.cmp. rewrite bool_decide_eq_true.
  destruct (chunks m1) as [c1|], (chunks m2) as [c2|]; simpl; split_and!; try done; try (by split).
  - apply lex_opp, bytes_cmp_opp.
  - split.
    + intros H%lex_eq; [by subst|apply bytes_cmp_eq].
    + intros [= ->]. apply lex_eq; [apply bytes_cmp_eq|done].
Qed.

(** ** Covering: a mask that matches a subscription pattern as if it were a topic *)

Lemma mask_covers m p t :
  mask_matches m p -> bs "#" ∉ p \/ bs "+" ∉ m -> mask_matches p t -> mask_matches m t.
Proof.
  intros Hm. revert t. induction Hm as [|m c p|m c p Hm IH|m c p Hm IH]; intros t Hn Hp.
  - done.
  - inversion Hp; subst; constructor.
  - destruct Hn as [Hn|[]%not_elem_of_cons]; [|done].
    apply not_elem_of_cons in Hn as [? Hn]. inversion Hp; subst; try done; eauto with psrt.
  - rewrite !not_elem_of_cons in Hn.
    inversion Hp; subst; try (by constructor);
      (apply mm_wildcard || apply mm_chunk); apply IH; tauto.
Qed.

(** ** Properties *)

(** End-to-end meaning of an access list. A list of mask texts parses unless one of them is
    empty, and then a topic matches the list exactly when its chunks match, under the MQTT-like
    rules of [mask_matches], the chunks of one of the texts. *)
Theorem from_str_list_spec (ss : list bytes) (t : bytes) :
  match PathMaskList.from_str_list ss with
  | Ok l => [] ∉ ss /\
      (PathMaskList.matches l t = true <->
       exists s, s ∈ ss /\ mask_matches (split_on slash s) (split_on slash t))
  | Err e => [] ∈ ss /\ e = invalid_data ERR_PATH_MASK_EMPTY
  end.
Proof.
  destruct (PathMaskList.from_str_list ss) as [l|e] eqn:El; (split; [|by apply list_built_matches])
    || (revert El; unfold PathMaskList.from_str_list).
  - intros Hin. apply (parse_all_nil _ ∅) in Hin. unfold PathMaskList.from_str_list in El.
    by destruct (PathMaskList.parse_all ss ∅).
  - destruct (PathMaskList.parse_all ss ∅) as [ms|e'] eqn:E; simpl; [done|].
    intros [= <-]. by eapply parse_all_Err.
Qed.

(** Parsing and printing a mask are inverse up to what the mask admits: whatever [from_str]
    accepts, its display is accepted again, gives an equivalent mask, and that mask is displayed
    the same. *)
Theorem mask_display_roundtrip (s : bytes) (m : PathMask) :
  PathMask.from_str s = Ok m ->
  exists m', PathMask.from_str (PathMask.show m) = Ok m' /\ mask_equiv m m' /\
    PathMask.show m' = PathMask.show m.
Proof.
  intros Hm%from_str_wf. exists (reread m). split; [by apply from_str_show|].
  split; [apply mask_equiv_reread|apply show_reread].
Qed.

Lemma mask_display_roundtrip_witness :
  exists m', PathMask.from_str (PathMask.show (mkPathMask (Some [bs "data"; bs "#"]))) = Ok m' /\
    mask_equiv (mkPathMask (Some [bs "data"; bs "#"])) m' /\
    PathMask.show m' = PathMask.show (mkPathMask (Some [bs "data"; bs "#"])).
Proof. apply (mask_display_roundtrip (bs "data/#/t1")). reflexivity. Defined.



(** C37: an access check on a subscription pattern is sound when the pattern has no [#] chunk or the
    access list has no [+] chunk: a login allowed to read the pattern is allowed to read every
    topic the pattern matches. *)
Theorem allow_read_covers (a : Acl) (l : PathMaskList) (ss : list bytes) (p t : bytes) :
  read a = Some l ->
  PathMaskList.from_str_list ss = Ok l ->
  bs "#" ∉ split_on slash p \/ Forall (fun s => bs "+" ∉ split_on slash s) ss ->
  Acl.allow_read a p = true ->
  mask_matches (split_on slash p) (split_on slash t) ->
  Acl.allow_read a t = true.
Proof.
  intros Ha Hl Hn. unfold Acl.allow_read. rewrite Ha. intros Hp Ht.
  assert (Hspec : forall u, PathMaskList.matches l u = true <->
            exists s, s ∈ ss /\ mask_matches (split_on slash s) (split_on slash u)).
  { intros u. pose proof (list_built_matches ss l u Hl). done. }
  apply Hspec in Hp as (s & Hs & Hm). apply Hspec. exists s. split; [done|].
  eapply mask_covers; [exact Hm| |exact Ht].
  destruct Hn as [?|Hn]; [by left|right]. rewrite Forall_forall in Hn. by apply Hn.
Qed.

Lemma allow_read_covers_witness :
  let l := mkPathMaskList {[mkPathMask (Some [bs "a"; bs "+"])]} in
  Acl.allow_read (mkAcl false false (Some l) None) (bs "a/b") = true.
Proof.
  apply (allow_read_covers _ (mkPathMaskList {[mkPathMask (Some [bs "a"; bs "+"])]})
           [bs "a/+"] (bs "a/+") (bs "a/b")); [reflexivity|vm_compute; reflexivity|..].
  - left. apply (bool_decide_unpack _). vm_compute. exact I.
  - vm_compute. reflexivity.
  - apply match_chunks_spec. vm_compute. reflexivity.
Defined.

(** The check is not sound beyond that: a login that may read only one-level topics (the mask
    [+]) passes it with the subscription pattern [#], and the pattern matches topics the login may
    not read. *)
Theorem allow_read_wildcard_escape :
  exists (a : Acl) (l : PathMaskList) (p t : bytes),
    PathMaskList.from_str_list [bs "+"] = Ok l /\ read a = Some l /\
    Acl.allow_read a p = true /\
    mask_matches (split_on slash p) (split_on slash t) /\
    Acl.allow_read a t = false.
Proof.
  exists (mkAcl false false (Some (mkPathMaskList {[mkPathMask (Some [bs "+"])]})) None).
  eexists _, (bs "#"), (bs "plant/secret").
  split; [vm_compute; reflexivity|]. split; [vm_compute; reflexivity|].
  split; [vm_compute; reflexivity|].
  split; [apply match_chunks_spec; vm_compute; reflexivity|].
  vm_compute. reflexivity.
Qed.

(** Reloading: a failed reload keeps the rules in force, a successful one installs exactly the rules of
    the file; the path never changes. *)
Theorem acl_reload_spec (rd : bytes -> result bytes IoError)
    (parse : bytes -> result (gmap bytes Acl) bytes) (db : Db) :
  let '(db', r) := Db.reload rd parse db in
  path db' = path db /\
  match rd (path db) with
  | Err e => r = Err (from_io_error e) /\ db' = db
  | Ok text =>
      match parse text with
      | Err d => r = Err (from_serde_error d) /\ db' = db
      | Ok new => r = Ok tt /\ forall user, Db.get_acl db' user = new !! user
      end
  end.
Proof.
  unfold Db.reload. destruct (rd (path db)) as [text|e]; simpl; [|done].
  by destruct (parse text).
Qed.
