(* ===== verification/AclTests.v ===== *)
(** * The unit tests of src/src/acl.rs

    The module [tests] of acl.rs, translated test by test and run on the model: what the authors
    expect of masks, mask lists and access lists holds of the definitions of Acl.v. The test that
    reads YAML starts from what the parser, which is a crate, hands to the deserialisers. *)

From S2P Require Import Prelude Proto Acl.

(** [s.parse().unwrap()], followed by assertions. *)
Definition parsed (s : bytes) (asserts : PathMask -> bool) : bool :=
  match PathMask.from_str s with Ok m => asserts m | Err _ => false end.

Definition test_path_mask : bool :=
  let s := bs "#" in
  parsed s (fun mask => bool_decide (s = PathMask.show mask) && bool_decide (chunks mask = None)) &&
  is_err (PathMask.from_str []) &&
  let s := bs "data/#" in
  parsed s (fun mask => bool_decide (s = PathMask.show mask) &&
                        bool_decide (chunks mask = Some [bs "data"; bs "#"])) &&
  let s := bs "data/tests/t1" in
  parsed s (fun mask => bool_decide (s = PathMask.show mask) &&
                        bool_decide (chunks mask = Some [bs "data"; bs "tests"; bs "t1"])) &&
  let s := bs "data/tests/#" in
  parsed s (fun mask => bool_decide (PathMask.show mask = bs "data/tests/#") &&
                        bool_decide (chunks mask = Some [bs "data"; bs "tests"; bs "#"])) &&
  let s := bs "data/#/t1" in
  parsed s (fun mask => negb (bool_decide (s = PathMask.show mask)) &&
                        bool_decide (chunks mask = Some [bs "data"; bs "#"])).

(** The topics that match, and those that do not. *)
Definition matches_only (s_masks yes no : list bytes) : bool :=
  match PathMaskList.from_str_list s_masks with
  | Ok p => forallb (PathMaskList.matches p) yes &&
            forallb (fun t => negb (PathMaskList.matches p t)) no
  | Err _ => false
  end.

Definition test_path_mask_list : bool :=
  matches_only
    [bs "test/tests"; bs "+/xxx"; bs "zzz/+/222"; bs "abc"; bs "a/b/#/c"]
    [bs "test/tests"; bs "aaa/xxx"; bs "zzz/xxx/222"; bs "abc"; bs "abc/xxx"; bs "a/b/zzz";
     bs "a/b/zzz/xxx"]
    [bs "test"; bs "test/tests2"; bs "aaa/xxx/123"; bs "zzz/xxx/222/555"; bs "zzz/xxx/223"; bs "abd";
     bs "abc/zzz"] &&
  matches_only [bs "#"]
    [bs "test"; bs "test/tests"; bs "test/tests2"; bs "aaa/xxx"; bs "aaa/xxx/123"; bs "zzz/xxx/222";
     bs "zzz/xxx/222/555"; bs "zzz/xxx/223"; bs "abc"; bs "abd"; bs "abc/xxx"; bs "abc/zzz";
     bs "a/b/zzz"; bs "a/b/zzz/xxx"] [].

(** The lists [sub] of the test, as the parser of YAML hands them to [PathMaskListYaml]: a scalar
    twice, a sequence three times. *)
Definition yaml_masks : list PathMaskList.PathMaskListYaml :=
  let m := PathMask.new_any in
  [PathMaskList.One m; PathMaskList.One m; PathMaskList.Many {[m]}; PathMaskList.Many {[m]};
   PathMaskList.Many {[m]}].

Definition readers (y : PathMaskList.PathMaskListYaml) : Acl :=
  mkAcl false false (Some (PathMaskList.deserialize y)) None.

(** The access lists of test-configs/acl-user.yml. *)
Definition acl_user (l : list bytes) (admin : bool) : option Acl :=
  match PathMaskList.from_str_list l with
  | Ok p => Some (mkAcl admin false (Some p) (Some p))
  | Err _ => None
  end.

Definition allows (a : option Acl) (topic : bytes) : option bool :=
  (fun a => Acl.allow_read a topic) <$> a.

Definition test_yaml_acl_masks : bool :=
  let anonymous := acl_user [bs "#"] true in
  let user1 := acl_user [bs "topic1/#"; bs "topic2/+/subtopic"; bs "topic3"] false in
  parsed (bs "#") (fun mask => bool_decide (PathMask.show mask = bs "#")) &&
  forallb (fun y => Acl.allow_read (readers y) (bs "any/topic")) yaml_masks &&
  bool_decide (allows anonymous (bs "any") = Some true) &&
  bool_decide (allows user1 (bs "topic1/foo") = Some true) &&
  bool_decide (allows user1 (bs "topic4/x") = Some false).

(** The tests pass. *)
Theorem acl_tests_pass : test_path_mask && test_path_mask_list && test_yaml_acl_masks = true.
Proof. vm_compute. reflexivity. Qed.
