(* ===== verification/Topic.v ===== *)
(** * Topic normalisation: [prepare_topic] of src/src/pubsub.rs

    Every topic of a subscription and of a publication goes through [prepare_topic], which removes the
    inner empty levels and enforces the depth limit. The file has the function as written, a loop of
    [str::replace] passes, and proves it equal to a one-pass reference definition. *)

From S2P Require Import Prelude Utf8 Proto.

(** [topic.contains("//")]. *)
Fixpoint contains_double (l : bytes) : bool :=
  match l with
  | [] => false
  | a :: t =>
      match t with
      | [] => false
      | b :: _ => (bool_decide (a = slash) && bool_decide (b = slash)) || contains_double t
      end
  end.

(** [topic.replace("//", "/")]: one pass, left to right, over the non-overlapping occurrences. *)
Fixpoint replace_double (l : bytes) : bytes :=
  match l with
  | [] => []
  | a :: t =>
      match t with
      | [] => [a]
      | b :: r => if decide (a = slash /\ b = slash) then slash :: replace_double r
                  else a :: replace_double t
      end
  end.

(** [while result.contains("//") { result = result.replace("//", "/"); }]. *)
Fixpoint collapse (fuel : nat) (l : bytes) : bytes :=
  if contains_double l then
    match fuel with
    | O => l
    | S fuel' => collapse fuel' (replace_double l)
    end
  else l.

(** [if result.starts_with('/') { result = result[1..].to_owned(); }]. *)
Definition strip_slash (l : bytes) : bytes :=
  match l with
  | a :: t => if decide (a = slash) then t else l
  | [] => l
  end.

(** [prepare_topic], under the limit [MAX_TOPIC_DEPTH]. Each pass of the loop shortens the text, so
    its length is enough fuel. *)
Definition prepare_topic (max_topic_depth : N) (topic : bytes) : result bytes Error :=
  let result := strip_slash (collapse (length topic) topic) in
  if (max_topic_depth <? N.of_nat (count slash result))%N
  then Err (invalid_data (bs "the topic is too deep"))
  else Ok result.

(** ** Reference definitions *)

(** One pass: drop every slash that another slash follows. *)
Fixpoint squeeze (l : bytes) : bytes :=
  match l with
  | [] => []
  | a :: t =>
      match t with
      | [] => [a]
      | b :: _ => if decide (a = slash /\ b = slash) then squeeze t else a :: squeeze t
      end
  end.

(** By levels: every empty level but the last one goes. *)
Fixpoint normal_levels (cs : list bytes) : list bytes :=
  match cs with
  | [] => []
  | [c] => [c]
  | c :: cs' => if decide (c = []) then normal_levels cs' else c :: normal_levels cs'
  end.

(** A topic as [prepare_topic] leaves it. *)
Definition normal (t : bytes) : Prop := normal_levels (split_on slash t) = split_on slash t.

(** ** The loop computes the reference *)

Lemma contains_double_cons a b t :
  contains_double (a :: b :: t) = false <->
  ~ (a = slash /\ b = slash) /\ contains_double (b :: t) = false.
Proof.
  cbn [contains_double]. rewrite orb_false_iff, andb_false_iff, !bool_decide_eq_false.
  destruct (decide (a = slash)), (decide (b = slash)); tauto.
Qed.

Lemma squeeze_cons a b t :
  squeeze (a :: b :: t) =
    if decide (a = slash /\ b = slash) then squeeze (b :: t) else a :: squeeze (b :: t).
Proof. done. Qed.

Lemma replace_cons a b t :
  replace_double (a :: b :: t) =
    if decide (a = slash /\ b = slash) then slash :: replace_double t
    else a :: replace_double (b :: t).
Proof. done. Qed.

Lemma squeeze_id l : contains_double l = false -> squeeze l = l.
Proof.
  induction l as [|a [|b t] IH]; [done..|].
  rewrite contains_double_cons, squeeze_cons. intros [H1 H2].
  rewrite decide_False by done. by rewrite IH.
Qed.

(** The two-step induction that follows [replace_double]. *)
Lemma pair_ind (P : bytes -> Prop) :
  P [] -> (forall a, P [a]) ->
  (forall a b t, P t -> P (b :: t) -> P (a :: b :: t)) -> forall l, P l.
Proof.
  intros H0 H1 H2 l. enough (P l /\ forall a, P (a :: l)) by tauto.
  induction l as [|a l [IH1 IH2]]; auto.
Qed.

Lemma squeeze_slash_replace t :
  squeeze (replace_double t) = squeeze t ->
  squeeze (slash :: replace_double t) = squeeze (slash :: t).
Proof.
  destruct t as [|a [|b t]]; [done..|]. rewrite replace_cons. case_decide as D.
  - destruct D as [-> ->]. intros H. rewrite !(squeeze_cons slash slash), !decide_True by done.
    rewrite H, (squeeze_cons slash slash), decide_True by done. done.
  - intros H. destruct (decide (a = slash)) as [->|Ha].
    + rewrite !(squeeze_cons slash slash), !decide_True by done. done.
    + rewrite !(squeeze_cons slash a), !decide_False by naive_solver. by rewrite H.
Qed.

Lemma squeeze_replace l : squeeze (replace_double l) = squeeze l.
Proof.
  induction l as [|a|a b t IH1 IH2] using pair_ind; [done..|].
  rewrite replace_cons. case_decide as D.
  - destruct D as [-> ->]. rewrite squeeze_slash_replace by done.
    by rewrite squeeze_cons, decide_True.
  - destruct (decide (a = slash)) as [->|Ha].
    + by apply (squeeze_slash_replace (b :: t)).
    + rewrite (squeeze_cons a b), decide_False by done. rewrite <- IH2.
      destruct (replace_double (b :: t)) as [|c r]; [done|].
      rewrite squeeze_cons, decide_False by naive_solver. done.
Qed.

Lemma replace_shorter l :
  length (replace_double l) <= length l /\
  (contains_double l = true -> length (replace_double l) < length l).
Proof.
  induction l as [|a|a b t [IH1 _] [IH2 IH3]] using pair_ind; [done..|].
  rewrite replace_cons. cbn [contains_double]. case_decide as D; simpl in *.
  - split; [lia|]. lia.
  - split; [lia|]. rewrite orb_true_iff. intros [H|H]; [|specialize (IH3 H); lia].
    rewrite andb_true_iff, !bool_decide_eq_true in H. tauto.
Qed.

(** The loop with the length as fuel is the one-pass definition: it always ends. *)
Lemma collapse_squeeze fuel l : length l <= fuel -> collapse fuel l = squeeze l.
Proof.
  revert l; induction fuel as [|fuel IH]; intros l Hl; simpl;
    destruct (contains_double l) eqn:E; try by rewrite squeeze_id.
  - destruct l; simpl in *; [done|lia].
  - pose proof (proj2 (replace_shorter l) E). rewrite IH by lia. apply squeeze_replace.
Qed.

Lemma squeeze_slash t : squeeze (slash :: t) = slash :: strip_slash (squeeze t).
Proof.
  induction t as [|a t IH]; [done|]. destruct (decide (a = slash)) as [->|Ha].
  - rewrite squeeze_cons, decide_True by done. by rewrite IH.
  - rewrite squeeze_cons, decide_False by naive_solver. f_equal.
    destruct t as [|b t]; simpl; [by rewrite decide_False|].
    rewrite decide_False by naive_solver. simpl. by rewrite decide_False.
Qed.

Lemma squeeze_app p t : slash ∉ p -> squeeze (p ++ slash :: t) = p ++ squeeze (slash :: t).
Proof.
  induction p as [|a p IH]; [done|]. intros [Ha Hp]%not_elem_of_cons. simpl app.
  destruct p as [|b p]; simpl app in *; rewrite squeeze_cons, decide_False by naive_solver.
  - done.
  - by rewrite IH.
Qed.

Lemma squeeze_no_slash p : slash ∉ p -> squeeze p = p.
Proof.
  induction p as [|a [|b p] IH]; [done..|]. intros [Ha Hp]%not_elem_of_cons.
  rewrite squeeze_cons, decide_False by naive_solver. by rewrite IH.
Qed.

Lemma strip_no_slash p : slash ∉ p -> strip_slash p = p.
Proof. destruct p as [|a p]; [done|]. intros [Ha _]%not_elem_of_cons. simpl. by rewrite decide_False. Qed.

Lemma split_squeeze l : split_on slash (strip_slash (squeeze l)) = normal_levels (split_on slash l).
Proof.
  induction l as [p Hp|p r Hp IH] using (sep_ind slash).
  - by rewrite squeeze_no_slash, strip_no_slash, split_on_not_in.
  - rewrite (split_on_app slash p r) by done. rewrite squeeze_app, squeeze_slash by done.
    pose proof (split_on_nonempty slash r).
    destruct p as [|a p]; simpl app; cbn [normal_levels].
    + cbn [strip_slash]. rewrite decide_True by done. rewrite IH. by destruct (split_on slash r).
    + cbn [strip_slash]. rewrite decide_False by (apply not_elem_of_cons in Hp; naive_solver).
      rewrite app_comm_cons, (split_on_app slash (a :: p)), IH by done. by destruct (split_on slash r).
Qed.

Lemma normal_levels_cons c cs :
  cs <> [] ->
  normal_levels (c :: cs) = if decide (c = []) then normal_levels cs else c :: normal_levels cs.
Proof. by destruct cs. Qed.

Lemma normal_levels_nonempty cs : cs <> [] -> normal_levels cs <> [].
Proof.
  induction cs as [|c cs IH]; [done|]. intros _. destruct (decide (cs = [])) as [->|Hcs]; [done|].
  rewrite normal_levels_cons by done. case_decide; [by apply IH|done].
Qed.

Lemma normal_levels_idem cs : normal_levels (normal_levels cs) = normal_levels cs.
Proof.
  induction cs as [|c cs IH]; [done|]. destruct (decide (cs = [])) as [->|Hcs]; [done|].
  rewrite (normal_levels_cons c cs) by done. case_decide; [done|].
  rewrite normal_levels_cons, decide_False by (done || by apply normal_levels_nonempty).
  by rewrite IH.
Qed.

Lemma split_on_inj c l k : split_on c l = split_on c k -> l = k.
Proof. intros H. by rewrite <- (join_split_on c l), <- (join_split_on c k), H. Qed.

(** What [prepare_topic] computes, in one line. *)
Lemma prepare_topic_eq d t :
  prepare_topic d t =
    let r := strip_slash (squeeze t) in
    if (d <? N.of_nat (count slash r))%N
    then Err (invalid_data (bs "the topic is too deep")) else Ok r.
Proof. unfold prepare_topic. by rewrite collapse_squeeze. Qed.

Lemma prepare_topic_levels d t r :
  prepare_topic d t = Ok r -> split_on slash r = normal_levels (split_on slash t).
Proof.
  rewrite prepare_topic_eq. cbv zeta. case_match; [done|]. intros [= <-]. apply split_squeeze.
Qed.

Lemma utf8_strip_slash l : utf8 l -> utf8 (strip_slash l).
Proof.
  destruct l as [|a l]; [done|]. simpl. case_decide; [|done]. subst. by apply utf8_ascii_cons.
Qed.

Lemma normal_levels_Forall (P : bytes -> Prop) cs : Forall P cs -> Forall P (normal_levels cs).
Proof.
  induction 1 as [|c cs Hc Hcs IH]; [done|]. cbn [normal_levels].
  destruct cs; [by constructor|]. case_decide; [done|by constructor].
Qed.

Lemma prepare_topic_utf8 d t r : prepare_topic d t = Ok r -> utf8 t -> utf8 r.
Proof.
  intros H%prepare_topic_levels. rewrite !(utf8_split_on slash), H by done.
  apply normal_levels_Forall.
Qed.

(** A byte other than the slash occurs in the result only if it occurs in the topic. *)
Lemma prepare_topic_elem d t r b :
  prepare_topic d t = Ok r -> b ∈ r -> b ∈ t.
Proof.
  rewrite prepare_topic_eq. cbv zeta. case_match; [done|]. intros [= <-] Hb.
  assert (b ∈ squeeze t) as Hs.
  { destruct (squeeze t) as [|a l]; simpl in Hb; [done|]. case_decide; [|done].
    apply elem_of_cons. auto. }
  clear - Hs. induction t as [|a [|c t] IH]; [done..|].
  rewrite squeeze_cons in Hs. case_decide; [apply elem_of_cons; auto|].
  apply elem_of_cons in Hs as [->|Hs]; apply elem_of_cons; auto.
Qed.

(** The result is not longer than the topic. *)
Lemma prepare_topic_length d t r : prepare_topic d t = Ok r -> length r <= length t.
Proof.
  rewrite prepare_topic_eq. cbv zeta. case_match; [done|]. intros [= <-].
  assert (length (squeeze t) <= length t) as Hs.
  { clear. induction t as [|a [|c t] IH]; [done..|]. rewrite squeeze_cons.
    case_decide; simpl in *; lia. }
  destruct (squeeze t) as [|a l]; simpl in *; [lia|]. case_decide; simpl; lia.
Qed.

(** ** Properties *)

(** C40: [prepare_topic] always ends, and by levels: the result has the levels of the topic without
    the empty ones (a trailing empty level stays); it is refused exactly when more levels remain
    than the limit allows; valid text stays valid. *)
Theorem prepare_topic_spec (max_depth : N) (t : bytes) :
  let levels := normal_levels (split_on slash t) in
  match prepare_topic max_depth t with
  | Ok r => split_on slash r = levels /\ (len levels <= max_depth + 1)%N /\ (utf8 t -> utf8 r)
  | Err e => e = invalid_data (bs "the topic is too deep") /\ (max_depth + 1 < len levels)%N
  end.
Proof.
  intros levels. unfold levels.
  pose proof (length_split_on slash (strip_slash (squeeze t))) as Hlen.
  rewrite split_squeeze in Hlen.
  destruct (prepare_topic max_depth t) as [r|e] eqn:E.
  - split_and!; [by eapply prepare_topic_levels| |by eapply prepare_topic_utf8].
    rewrite prepare_topic_eq in E. unfold len. cbv zeta in E.
    destruct (N.ltb_spec max_depth (N.of_nat (count slash (strip_slash (squeeze t))))); [done|lia].
  - rewrite prepare_topic_eq in E. unfold len. cbv zeta in E.
    destruct (N.ltb_spec max_depth (N.of_nat (count slash (strip_slash (squeeze t)))));
      simplify_eq. split; [done|lia].
Qed.

(** Normalising twice is normalising once, and what comes out is normal. *)
Theorem prepare_topic_idempotent (max_depth : N) (t r : bytes) :
  prepare_topic max_depth t = Ok r -> prepare_topic max_depth r = Ok r /\ normal r.
Proof.
  intros E. pose proof (prepare_topic_levels _ _ _ E) as Hr. split.
  - assert (normal_levels (split_on slash r) = split_on slash r) as Hn
      by (rewrite Hr; apply normal_levels_idem).
    assert (strip_slash (squeeze r) = r) as Hs.
    { apply (split_on_inj slash). by rewrite split_squeeze. }
    rewrite prepare_topic_eq in E |- *. cbv zeta in *. rewrite Hs.
    case_match eqn:Ed; [done|]. injection E as E. rewrite E in Ed. by rewrite Ed.
  - unfold normal. rewrite Hr. apply normal_levels_idem.
Qed.

Lemma prepare_topic_idempotent_witness :
  prepare_topic 2 (bs "a/b/") = Ok (bs "a/b/") /\ normal (bs "a/b/").
Proof. apply (prepare_topic_idempotent 2 (bs "//a///b//")). vm_compute. reflexivity. Defined.
