(* ===== verification/Token.v ===== *)
(** * Tokens: src/src/token.rs

    A token is 32 bytes, drawn at random for a client or parsed from hexadecimal text. The [hex]
    crate is an interface. *)

From S2P Require Import Prelude Utf8 Proto.

(** [hex::encode] and [hex::decode], the latter with the [Display] of its error. *)
Class HexOps : Type := {
  hex_encode : bytes -> bytes;
  hex_decode : bytes -> result bytes bytes;
}.

Class HexLaws `{HexOps} : Prop := {
  hex_decode_encode b : hex_decode (hex_encode b) = Ok b;
}.

(** [Token([u8; 32])]: the bytes, with their number as a predicate. *)
Abbreviation Token := bytes.

Definition token_ok (t : Token) : Prop := length t = 32.

Module Token.

Definition from (buf : bytes) : Token := buf.
Definition as_bytes (t : Token) : bytes := t.

Section hex.
Context `{HexOps}.

(** [Display]. *)
Definition show (t : Token) : bytes := hex_encode t.

(** [try_into()] of a slice into [[u8; 32]]. *)
Definition try_into (v : bytes) : result Token Error :=
  if bool_decide (length v = 32) then Ok v else Err from_slice_error.

Definition from_str (s : bytes) : result Token Error :=
  let? v := map_err from_hex_error (hex_decode s) in try_into v.
End hex.

(** [create()]: [rand_bytes] answers from the stream of the random source, with 32 bytes or an
    error stack. *)
Definition create (answer : result bytes bytes) : result Token Error :=
  map_err from_error_stack answer.

End Token.

(** ** Properties *)

(** a token parses back from its display, and whatever parses is a 32-byte token. *)
Theorem token_roundtrip `{HexLaws} (t : Token) :
  (token_ok t -> Token.from_str (Token.show t) = Ok t) /\
  (forall s, Token.from_str s = Ok t -> token_ok t /\ hex_decode s = Ok t) /\
  (~ token_ok t -> Token.from_str (Token.show t) = Err from_slice_error).
Proof.
  unfold Token.from_str, Token.show, Token.try_into, token_ok.
  rewrite hex_decode_encode. simpl. split_and!.
  - intros Ht. by rewrite bool_decide_eq_true_2.
  - intros s. destruct (hex_decode s) as [v|d]; simpl; [|done].
    case_bool_decide; [|done]. by intros [= ->].
  - intros Ht. by rewrite bool_decide_eq_false_2.
Qed.

(** ** A concrete [hex] *)

Definition hex_digit (n : N) : byte := if (n <? 10)%N then byte_of_N (48 + n) else byte_of_N (87 + n).

Definition hex_value (b : byte) : option N :=
  let n := to_N b in
  if (48 <=? n)%N && (n <=? 57)%N then Some (n - 48)%N
  else if (97 <=? n)%N && (n <=? 102)%N then Some (n - 87)%N
  else if (65 <=? n)%N && (n <=? 70)%N then Some (n - 55)%N
  else None.

Fixpoint ref_hex_decode (s : bytes) : result bytes bytes :=
  match s with
  | [] => Ok []
  | a :: s1 =>
      match s1 with
      | [] => Err (bs "Odd number of digits")
      | b :: s' =>
          match hex_value a, hex_value b with
          | Some x, Some y => let? r := ref_hex_decode s' in Ok (byte_of_N (16 * x + y) :: r)
          | _, _ => Err (bs "Invalid character")
          end
      end
  end.

#[export] Instance ref_hex : HexOps := {|
  hex_encode := flat_map (fun b => [hex_digit (to_N b / 16); hex_digit (to_N b mod 16)]);
  hex_decode := ref_hex_decode;
|}.

Lemma hex_pair b :
  hex_value (hex_digit (to_N b / 16)) = Some (to_N b / 16)%N /\
  hex_value (hex_digit (to_N b mod 16)) = Some (to_N b mod 16)%N.
Proof. destruct b; vm_compute; done. Qed.

Lemma ref_decode_encode b : ref_hex_decode (@hex_encode ref_hex b) = Ok b.
Proof.
  induction b as [|x b IH]; [done|].
  cbn [hex_encode ref_hex flat_map app] in *.
  cbn [ref_hex_decode]. destruct (hex_pair x) as [-> ->]. simpl in IH. rewrite IH.
  simpl. f_equal. f_equal.
  replace (16 * (to_N x / 16) + to_N x mod 16)%N with (to_N x)
    by (rewrite <- N.div_mod; lia).
  apply byte_of_N_to_N.
Qed.

#[export] Instance ref_hex_laws : HexLaws := {| hex_decode_encode := ref_decode_encode |}.

Lemma token_roundtrip_witness :
  Token.from_str (Token.show (replicate 32 xa5)) = Ok (replicate 32 xa5).
Proof. by apply (token_roundtrip (replicate 32 xa5)). Defined.
