(* ===== verification/Pubsub.v ===== *)
(** * The client and subscription database: src/src/pubsub.rs

    [ServerClientData] objects are shared ([Arc]) between the database, the connection that
    registered the client and the publishers that hold a set of subscribers, and they have two
    mutable fields; the model keeps those fields in a store, [Hub], by the identity of the object.

    The crates [submap] and [async_channel] are interfaces here: the operations the program calls
    ([SubMapOps], [ChannelOps]) and the documented behaviour it relies on ([SubMapLaws],
    [ChannelLaws]), stated on a view of the abstract state. The file ends with the invariant of the
    hub and its preservation by every operation. *)

From S2P Require Import Prelude Utf8 Proto Acl Topic Token.

(** ** Configuration: the statics [LATENCY_WARN], [DATA_QUEUE_SIZE], [MAX_TOPIC_DEPTH] *)

Record Limits : Type := mkLimits {
  latency_warn : N;
  data_queue_size : N;
  max_topic_depth : N;
}.

Definition set_latency_warn (value : N) (l : Limits) : Limits :=
  mkLimits value (data_queue_size l) (max_topic_depth l).
Definition set_data_queue_size (value : N) (l : Limits) : Limits :=
  mkLimits (latency_warn l) value (max_topic_depth l).
Definition set_max_topic_depth (depth : N) (l : Limits) : Limits :=
  mkLimits (latency_warn l) (data_queue_size l) depth.
Definition get_latency_warn (l : Limits) : N := latency_warn l.
Definition get_data_queue_size (l : Limits) : N := data_queue_size l.

Definition TOPIC_INVALID_SYMBOLS : bytes := [x23; x2b].

(** [topic.contains(TOPIC_INVALID_SYMBOLS)]. *)
Definition contains_invalid (topic : bytes) : bool :=
  existsb (fun b => bool_decide (b ∈ TOPIC_INVALID_SYMBOLS)) topic.

(** ** Messages on their way to a client *)

Record MessageFrame : Type := mkMessageFrame {
  timestamp : option N;
  mframe : bytes;
  mdata : option bytes;
}.

(** ** Clients *)

(** An [Arc<ServerClientData>]: the identity of the object and its immutable fields. *)
Record ServerClient : Type := mkServerClient {
  sc_id : nat;
  login : bytes;
  digest : bytes;
  addr : bytes;
  token : bytes;
}.

#[export] Instance ServerClient_eq_dec : EqDecision ServerClient.
Proof. solve_decision. Defined.

(** The mutable fields of the object: the data channel's sender, by the channel's identity, and the
    handles of the tasks that serve it; and how many [Arc]s to it there are. *)
Record Cell : Type := mkCell {
  data_channel : option nat;
  tasks : list nat;
  strong : nat;
}.

(** [PartialEq] and [Ord] of [ServerClientData] look at the digest alone. *)
Definition client_eq (c1 c2 : ServerClient) : bool := bool_decide (digest c1 = digest c2).

(** ** The crate [submap] *)

Class SubMapOps : Type := {
  submap : Type;
  (** [SubMap::new().match_any("+").wildcard("#")] *)
  sm_new : submap;
  sm_register : ServerClient -> submap -> bool * submap;
  sm_unregister : ServerClient -> submap -> submap;
  sm_subscribe : bytes -> ServerClient -> submap -> submap;
  sm_unsubscribe : bytes -> ServerClient -> submap -> submap;
  (** The [BTreeSet] in its iteration order. *)
  sm_get_subscribers : bytes -> submap -> list ServerClient;
  sm_subscription_count : submap -> N;
  sm_client_count : submap -> N;
}.

(** A pattern that is a topic with [#], if at all, as its last level. *)
Definition plain_pattern (p : bytes) : Prop := hash_last (split_on slash p).

(** MQTT's reading of a pattern: like [mask_matches], and a final [#] also matches no level. *)
Definition mqtt_matches (p t : list bytes) : Prop :=
  mask_matches p t \/ exists q, p = q ++ [bs "#"] /\ mask_matches q t.

Class SubMapLaws `{SubMapOps} : Type := {
  (** The registered clients by digest, each with the patterns it is subscribed to. *)
  sm_view : submap -> gmap bytes (ServerClient * gset bytes);
  pattern_matches : bytes -> bytes -> bool;
  sm_view_new : sm_view sm_new = ∅;
  sm_register_old c sm e :
    sm_view sm !! digest c = Some e ->
    (sm_register c sm).1 = false /\ sm_view (sm_register c sm).2 = sm_view sm;
  sm_register_new c sm :
    sm_view sm !! digest c = None ->
    (sm_register c sm).1 = true /\
    sm_view (sm_register c sm).2 = <[digest c := (c, ∅)]> (sm_view sm);
  sm_unregister_view c sm : sm_view (sm_unregister c sm) = delete (digest c) (sm_view sm);
  sm_subscribe_plain p c sm :
    plain_pattern p ->
    sm_view (sm_subscribe p c sm) =
      alter (fun '(c0, ps) => (c0, {[p]} ∪ ps)) (digest c) (sm_view sm);
  sm_unsubscribe_plain p c sm :
    plain_pattern p ->
    sm_view (sm_unsubscribe p c sm) =
      alter (fun '(c0, ps) => (c0, ps ∖ {[p]})) (digest c) (sm_view sm);
  (** Whatever the pattern, the clients stay, and the patterns of the other clients. *)
  sm_subscribe_clients p c sm : fst <$> sm_view (sm_subscribe p c sm) = fst <$> sm_view sm;
  sm_subscribe_others p c sm d :
    d <> digest c -> sm_view (sm_subscribe p c sm) !! d = sm_view sm !! d;
  sm_unsubscribe_clients p c sm : fst <$> sm_view (sm_unsubscribe p c sm) = fst <$> sm_view sm;
  sm_unsubscribe_others p c sm d :
    d <> digest c -> sm_view (sm_unsubscribe p c sm) !! d = sm_view sm !! d;
  (** An unsubscription adds nothing. *)
  sm_unsubscribe_fewer p c sm d c0 ps :
    sm_view (sm_unsubscribe p c sm) !! d = Some (c0, ps) ->
    exists ps0, sm_view sm !! d = Some (c0, ps0) /\ ps ⊆ ps0;
  sm_get_subscribers_spec t sm c :
    c ∈ sm_get_subscribers t sm <->
    exists ps p, sm_view sm !! digest c = Some (c, ps) /\ p ∈ ps /\ pattern_matches p t = true;
  sm_get_subscribers_nodup t sm : NoDup (digest <$> sm_get_subscribers t sm);
  sm_client_count_spec sm : sm_client_count sm = N.of_nat (size (sm_view sm));
  (** What a pattern matches, up to the two readings of a final [#]. *)
  pattern_matches_lower p t :
    plain_pattern p -> mask_matches (split_on slash p) (split_on slash t) ->
    pattern_matches p t = true;
  pattern_matches_upper p t :
    plain_pattern p -> pattern_matches p t = true ->
    mqtt_matches (split_on slash p) (split_on slash t);
}.

(** ** The crate [async_channel]: bounded channels *)

(** What a channel holds, as its documentation describes it: a queue bounded by [ch_cap], open as
    long as there are senders and receivers. *)
Record ChanView (M : Type) : Type := mkChanView {
  ch_cap : N;
  ch_queue : list M;
  ch_senders : nat;
  ch_receivers : nat;
}.
Arguments mkChanView {M} _ _ _ _.
Arguments ch_cap {M} _.
Arguments ch_queue {M} _.
Arguments ch_senders {M} _.
Arguments ch_receivers {M} _.

Section chan_view.
Context {M : Type}.

Definition view_open (v : ChanView M) : bool :=
  negb (bool_decide (ch_senders v = 0)) && negb (bool_decide (ch_receivers v = 0)).

Definition view_full (v : ChanView M) : bool := (ch_cap v <=? len (ch_queue v))%N.

Definition view_push (m : M) (v : ChanView M) : ChanView M :=
  mkChanView (ch_cap v) (ch_queue v ++ [m]) (ch_senders v) (ch_receivers v).

Definition view_senders (f : nat -> nat) (v : ChanView M) : ChanView M :=
  mkChanView (ch_cap v) (ch_queue v) (f (ch_senders v)) (ch_receivers v).

Definition view_receivers (f : nat -> nat) (v : ChanView M) : ChanView M :=
  mkChanView (ch_cap v) (ch_queue v) (ch_senders v) (f (ch_receivers v)).
End chan_view.

Class ChannelOps : Type := {
  chan : Type -> Type;
  (** [bounded(cap)]: one sender, one receiver. *)
  ch_bounded {M} : N -> chan M;
  ch_is_full {M} : chan M -> bool;
  (** [send(m).await]: [None] while it waits; [false] when the channel is closed. *)
  ch_send {M} : M -> chan M -> option (bool * chan M);
  (** [recv().await]: [None] while it waits; no message when the channel is closed and empty. *)
  ch_recv {M} : chan M -> option (option M * chan M);
  ch_clone_sender {M} : chan M -> chan M;
  ch_drop_sender {M} : chan M -> chan M;
  ch_drop_receiver {M} : chan M -> chan M;
}.

Class ChannelLaws `{ChannelOps} : Type := {
  ch_view {M} : chan M -> ChanView M;
  ch_bounded_view {M} n : ch_view (ch_bounded (M:=M) n) = mkChanView n [] 1 1;
  ch_is_full_view {M} (c : chan M) : ch_is_full c = view_full (ch_view c);
  ch_send_closed {M} (m : M) c :
    view_open (ch_view c) = false -> exists c', ch_send m c = Some (false, c') /\
      ch_view c' = ch_view c;
  ch_send_full {M} (m : M) c :
    view_open (ch_view c) = true -> view_full (ch_view c) = true -> ch_send m c = None;
  ch_send_room {M} (m : M) c :
    view_open (ch_view c) = true -> view_full (ch_view c) = false ->
    exists c', ch_send m c = Some (true, c') /\ ch_view c' = view_push m (ch_view c);
  ch_recv_message {M} (c : chan M) m q :
    ch_queue (ch_view c) = m :: q ->
    exists c', ch_recv c = Some (Some m, c') /\
      ch_view c' = mkChanView (ch_cap (ch_view c)) q (ch_senders (ch_view c))
                     (ch_receivers (ch_view c));
  ch_recv_closed {M} (c : chan M) :
    ch_queue (ch_view c) = [] -> view_open (ch_view c) = false ->
    exists c', ch_recv c = Some (None, c') /\ ch_view c' = ch_view c;
  ch_recv_wait {M} (c : chan M) :
    ch_queue (ch_view c) = [] -> view_open (ch_view c) = true -> ch_recv c = None;
  ch_clone_sender_view {M} (c : chan M) : ch_view (ch_clone_sender c) = view_senders S (ch_view c);
  ch_drop_sender_view {M} (c : chan M) : ch_view (ch_drop_sender c) = view_senders pred (ch_view c);
  ch_drop_receiver_view {M} (c : chan M) :
    ch_view (ch_drop_receiver c) = view_receivers pred (ch_view c);
}.

(** [submap::digest::sha256] of a token. *)
Class Sha256Ops : Type := { sha256 : bytes -> bytes }.

(** ** The hub: the database and the store of the shared objects *)

Record ServerClientDB `{SubMapOps} : Type := mkServerClientDB {
  submap_of : submap;
  clients_by_token : gmap bytes ServerClient;
}.
Arguments mkServerClientDB {_} _ _.

Record ServerClientDBStats : Type := mkServerClientDBStats {
  subscription_count : N;
  client_count : N;
}.

(** The database behind its lock, the mutable fields of the client objects, the channels, the tasks
    that were aborted, a source of fresh identities and the answers of the random source. *)
Record Hub `{SubMapOps} `{ChannelOps} : Type := mkHub {
  hub_db : ServerClientDB;
  cells : gmap nat Cell;
  chans : gmap nat (chan MessageFrame);
  aborted : gset nat;
  next_id : nat;
  rng : list (result bytes bytes);
}.
Arguments mkHub {_ _} _ _ _ _ _ _.

Section hub.
Context {SMO : SubMapOps} {CHO : ChannelOps} {SHO : Sha256Ops}.

Definition set_db (db : ServerClientDB) (h : Hub) : Hub :=
  mkHub db (cells h) (chans h) (aborted h) (next_id h) (rng h).

Definition set_submap (sm : submap) (h : Hub) : Hub :=
  set_db (mkServerClientDB sm (clients_by_token (hub_db h))) h.

Definition set_cells (cs : gmap nat Cell) (h : Hub) : Hub :=
  mkHub (hub_db h) cs (chans h) (aborted h) (next_id h) (rng h).

Definition set_chans (cs : gmap nat (chan MessageFrame)) (h : Hub) : Hub :=
  mkHub (hub_db h) (cells h) cs (aborted h) (next_id h) (rng h).

Definition set_aborted (ts : gset nat) (h : Hub) : Hub :=
  mkHub (hub_db h) (cells h) (chans h) ts (next_id h) (rng h).

Definition set_next (n : nat) (h : Hub) : Hub :=
  mkHub (hub_db h) (cells h) (chans h) (aborted h) n (rng h).

Definition set_rng (l : list (result bytes bytes)) (h : Hub) : Hub :=
  mkHub (hub_db h) (cells h) (chans h) (aborted h) (next_id h) l.

(** *** [ServerClientData] *)

Definition token_as_bytes (c : ServerClient) : bytes := Token.as_bytes (token c).

(** [data_channel()]: a clone of the sender. *)
Definition client_data_channel (c : ServerClient) (h : Hub) : option nat :=
  cells h !! sc_id c ≫= data_channel.

Definition update_cell (f : Cell -> Cell) (c : ServerClient) (h : Hub) : Hub :=
  set_cells (alter f (sc_id c) (cells h)) h.

Definition abort_tasks (c : ServerClient) (h : Hub) : Hub :=
  let ts := default [] (tasks <$> cells h !! sc_id c) in
  update_cell (fun cell => mkCell (data_channel cell) [] (strong cell)) c
    (set_aborted (list_to_set ts ∪ aborted h) h).

Definition register_task (task : nat) (c : ServerClient) (h : Hub) : Hub :=
  update_cell (fun cell => mkCell (data_channel cell) (tasks cell ++ [task]) (strong cell)) c h.

(** *** Channels *)

Definition update_chan (f : chan MessageFrame -> chan MessageFrame) (ch : nat) (h : Hub) : Hub :=
  set_chans (alter f ch (chans h)) h.

(** [async_channel::bounded(n)]. *)
Definition new_channel (n : N) (h : Hub) : nat * Hub :=
  (next_id h, set_next (S (next_id h)) (set_chans (<[next_id h := ch_bounded n]> (chans h)) h)).

Definition drop_sender (ch : option nat) (h : Hub) : Hub :=
  match ch with Some ch => update_chan ch_drop_sender ch h | None => h end.

(** *** [Arc<ServerClientData>] *)

(** [Arc::clone]. Nobody has an [Arc] of an object that is gone. *)
Definition clone_client (c : ServerClient) (h : Hub) : Hub :=
  update_cell (fun cell => mkCell (data_channel cell) (tasks cell)
                 match strong cell with O => O | S n => S (S n) end) c h.

(** [Drop for ServerClientData], and the drop of the fields after it. *)
Definition drop_object (c : ServerClient) (h : Hub) : Hub :=
  drop_sender (client_data_channel c h)
    (update_cell (fun cell => mkCell None [] 0) c (abort_tasks c h)).

(** The drop of an [Arc]; the last one takes the object along. *)
Definition drop_client (c : ServerClient) (h : Hub) : Hub :=
  match strong <$> cells h !! sc_id c with
  | Some 1 => drop_object c h
  | Some (S n) => update_cell (fun cell => mkCell (data_channel cell) (tasks cell) n) c h
  | _ => h
  end.

(** *** [ServerClientDB] *)

(** [register_data_channel(&token, channel)]. The passed sender goes to the caller again, a clone
    of it to the client; it is dropped on an error. The caller gets an [Arc] to the client. *)
Definition register_data_channel (tok : Token) (channel : nat) (h : Hub) :
    result (nat * ServerClient) Error * Hub :=
  match clients_by_token (hub_db h) !! tok with
  | Some client =>
      match client_data_channel client h with
      | Some _ =>
          (Err (access (bs "Data channel is already registered")), drop_sender (Some channel) h)
      | None =>
          (Ok (channel, client),
           clone_client client
             (update_cell (fun cell => mkCell (Some channel) (tasks cell) (strong cell)) client
                (update_chan ch_clone_sender channel h)))
      end
  | None => (Err (access (bs "data channel access denied")), drop_sender (Some channel) h)
  end.

Definition unregister_data_channel (tok : Token) (h : Hub) : Hub :=
  match clients_by_token (hub_db h) !! tok with
  | Some client =>
      let dc := client_data_channel client h in
      drop_sender dc (update_cell (fun cell => mkCell None (tasks cell) (strong cell)) client h)
  | None => h
  end.

Definition get_stats (h : Hub) : ServerClientDBStats :=
  mkServerClientDBStats (sm_subscription_count (submap_of (hub_db h)))
    (sm_client_count (submap_of (hub_db h))).

(** The [loop] of [register_client], one answer of the random source per round. [None]: the source
    has no more answers and the loop still turns. Of a registered client the database has an [Arc] in
    each index, which come and go together and count as one here, and the caller has one. *)
Fixpoint register_client_loop (answers : list (result bytes bytes)) (lg ad : bytes) (h : Hub) :
    option (result ServerClient Error * Hub) :=
  match answers with
  | [] => None
  | answer :: answers' =>
      match Token.create answer with
      | Err e => Some (Err e, set_rng answers' h)
      | Ok tok =>
          let client := mkServerClient (next_id h) lg (sha256 tok) ad tok in
          let '(is_new, sm) := sm_register client (submap_of (hub_db h)) in
          let h := set_next (S (next_id h)) h in
          if is_new then
            Some (Ok client,
                  set_rng answers'
                    (set_cells (<[sc_id client := mkCell None [] 2]> (cells h))
                      (set_db (mkServerClientDB sm
                                 (<[token client := client]> (clients_by_token (hub_db h)))) h)))
          else register_client_loop answers' lg ad (set_submap sm h)
      end
  end.

Definition register_client (lg ad : bytes) (h : Hub) :
    option (result ServerClient Error * Hub) :=
  register_client_loop (rng h) lg ad h.

Definition unregister_client (client : ServerClient) (h : Hub) : Hub :=
  let h' := set_db (mkServerClientDB (sm_unregister client (submap_of (hub_db h)))
                      (delete (token client) (clients_by_token (hub_db h)))) h in
  match clients_by_token (hub_db h) !! token client with
  | Some c => drop_client c h'
  | None => h'
  end.

Definition subscribe (max_depth : N) (t : bytes) (client : ServerClient) (h : Hub) :
    result unit Error * Hub :=
  match prepare_topic max_depth t with
  | Ok t => (Ok tt, set_submap (sm_subscribe t client (submap_of (hub_db h))) h)
  | Err e => (Err e, h)
  end.

Definition unsubscribe (max_depth : N) (t : bytes) (client : ServerClient) (h : Hub) :
    result unit Error * Hub :=
  match prepare_topic max_depth t with
  | Ok t => (Ok tt, set_submap (sm_unsubscribe t client (submap_of (hub_db h))) h)
  | Err e => (Err e, h)
  end.

Definition get_subscribers (t : bytes) (h : Hub) : list ServerClient :=
  sm_get_subscribers t (submap_of (hub_db h)).

(** The set that [get_subscribers] returns holds an [Arc] to each of them; its drop drops them. *)
Definition clone_clients (l : list ServerClient) (h : Hub) : Hub := foldr clone_client h l.
Definition drop_clients (l : list ServerClient) (h : Hub) : Hub :=
  foldl (fun h c => drop_client c h) h l.

Definition take_subscribers (t : bytes) (h : Hub) : list ServerClient * Hub :=
  (get_subscribers t h, clone_clients (get_subscribers t h) h).
End hub.

(** [now_ns()] from [clock_gettime(CLOCK_REALTIME)]: seconds and nanoseconds, signed 64-bit. *)
Definition now_ns (t : Z * Z) : N :=
  let as_u64 (z : Z) := Z.to_N (z mod 2 ^ 64)%Z in
  wrap 64 (as_u64 t.1 * 1000000000 + as_u64 t.2)%N.
