(* ===== verification/Reference.v ===== *)
(** * Concrete instances of the interfaces

    A subscription map that is a finite map from digests to patterns, a channel that is its view,
    and the identity as digest: they satisfy the laws of [SubMapLaws] and [ChannelLaws], so the
    theorems proved against the interfaces are not vacuous, and the witnesses run on them. *)

From S2P Require Import Prelude Utf8 Proto Acl Topic Token Pubsub.

(** ** Subscription map *)

Abbreviation ref_map := (gmap bytes (ServerClient * gset bytes)).

(** A final [#] needs a level to match, as in the access lists. *)
Definition ref_matches (p t : bytes) : bool :=
  PathMask.match_chunks (split_on slash p) (split_on slash t).

(** The clients subscribed to a pattern that matches, stored under their own digest. *)
Definition ref_get_subscribers (t : bytes) (m : ref_map) : list ServerClient :=
  omap (fun '(d, (c, ps)) =>
    if bool_decide (digest c = d) && existsb (fun p => ref_matches p t) (elements ps)
    then Some c else None) (map_to_list m).

#[export] Instance ref_submap : SubMapOps := {|
  submap := ref_map;
  sm_new := ∅;
  sm_register c m := match m !! digest c with
                     | Some _ => (false, m)
                     | None => (true, <[digest c := (c, ∅)]> m)
                     end;
  sm_unregister c m := delete (digest c) m;
  sm_subscribe p c m := alter (fun '(c0, ps) => (c0, {[p]} ∪ ps)) (digest c) m;
  sm_unsubscribe p c m := alter (fun '(c0, ps) => (c0, ps ∖ {[p]})) (digest c) m;
  sm_get_subscribers := ref_get_subscribers;
  sm_subscription_count m := map_fold (fun _ '(_, ps) n => n + N.of_nat (size ps))%N 0%N m;
  sm_client_count m := N.of_nat (size m);
|}.

Lemma ref_get_subscribers_spec (t : bytes) (m : ref_map) (c : ServerClient) :
  c ∈ ref_get_subscribers t m <->
  exists ps p, m !! digest c = Some (c, ps) /\ p ∈ ps /\ ref_matches p t = true.
Proof.
  unfold ref_get_subscribers. rewrite list_elem_of_omap. split.
  - intros ((d & c' & ps) & Hin & Hc). apply elem_of_map_to_list in Hin.
    destruct (bool_decide (digest c' = d)) eqn:D; simpl in Hc; [|done].
    apply bool_decide_eq_true in D.
    destruct (existsb _ _) eqn:E; simplify_eq. apply existsb_exists in E as (p & Hp & Hm).
    exists ps, p. rewrite <- list_elem_of_In, elem_of_elements in Hp. done.
  - intros (ps & p & Hv & Hp & Hm). exists (digest c, (c, ps)).
    rewrite elem_of_map_to_list. split; [done|].
    rewrite bool_decide_eq_true_2 by done. simpl.
    replace (existsb _ _) with true; [done|]. symmetry. apply existsb_exists.
    exists p. by rewrite <- list_elem_of_In, elem_of_elements.
Qed.

(** Filtering entries kept under their own key does not repeat a key. *)
Lemma omap_keys_nodup (l : list (bytes * (ServerClient * gset bytes))) (f : gset bytes -> bool) :
  NoDup (fst <$> l) ->
  NoDup (digest <$> omap (fun '(d, (c, ps)) =>
    if bool_decide (digest c = d) && f ps then Some c else None) l).
Proof.
  induction l as [|[d [c ps]] l IH]; simpl; [constructor|]. intros [Hd Hl]%NoDup_cons.
  destruct (bool_decide (digest c = d)) eqn:D; simpl; [|auto].
  destruct (f ps); simpl; [|auto]. apply bool_decide_eq_true in D as <-.
  constructor; [|auto]. contradict Hd.
  apply list_elem_of_fmap in Hd as (c' & E & Hc').
  apply list_elem_of_omap in Hc' as ((d' & c'' & ps') & Hin & Hc'').
  destruct (bool_decide (digest c'' = d')) eqn:D; simpl in Hc''; [|done].
  apply bool_decide_eq_true in D. destruct (f ps'); simplify_eq.
  apply list_elem_of_fmap. by exists (digest c', (c', ps')).
Qed.

Lemma alter_clients (f : gset bytes -> gset bytes) (d : bytes) (m : ref_map) :
  fst <$> alter (fun e : ServerClient * gset bytes => let (c0, ps) := e in (c0, f ps)) d m = fst <$> m.
Proof.
  apply map_eq. intros i. rewrite !lookup_fmap, lookup_alter. case_decide; [|done]. subst.
  by destruct (m !! i) as [[]|].
Qed.

Lemma mask_matches_mqtt p t : mask_matches p t -> mqtt_matches p t.
Proof. by left. Qed.

#[export] Program Instance ref_submap_laws : SubMapLaws := {|
  sm_view (m : ref_map) := m;
  pattern_matches := ref_matches;
|}.
Next Obligation. done. Qed.
Next Obligation. intros c m e E. simpl in *. by rewrite E. Qed.
Next Obligation. intros c m E. simpl in *. by rewrite E. Qed.
Next Obligation. done. Qed.
Next Obligation. done. Qed.
Next Obligation. done. Qed.
Next Obligation. intros. apply alter_clients. Qed.
Next Obligation. intros. simpl. by rewrite lookup_alter_ne. Qed.
Next Obligation. intros. apply (alter_clients (fun ps => ps ∖ {[p]})). Qed.
Next Obligation. intros. simpl. by rewrite lookup_alter_ne. Qed.
Next Obligation.
  intros p c m d c0 ps. simpl. rewrite lookup_alter. case_decide; [|by eauto].
  rewrite fmap_Some. intros ([c1 ps1] & Hm & [= -> ->]). exists ps1. subst d.
  split; [done|set_solver].
Qed.
Next Obligation. intros. apply ref_get_subscribers_spec. Qed.
Next Obligation.
  intros t m. apply (omap_keys_nodup _ (fun ps => existsb (fun p => ref_matches p t) (elements ps))).
  apply NoDup_fst_map_to_list.
Qed.
Next Obligation. done. Qed.
Next Obligation. intros p t _ Hm. by apply match_chunks_spec. Qed.
Next Obligation. intros p t _ Hm. by apply mask_matches_mqtt, match_chunks_spec. Qed.

(** ** Channels *)

#[export] Instance ref_channel : ChannelOps := {|
  chan := ChanView;
  ch_bounded M n := mkChanView n [] 1 1;
  ch_is_full M := view_full;
  ch_send M m v := if view_open v then
                     if view_full v then None else Some (true, view_push m v)
                   else Some (false, v);
  ch_recv M v := match ch_queue v with
                 | m :: q => Some (Some m, mkChanView (ch_cap v) q (ch_senders v) (ch_receivers v))
                 | [] => if view_open v then None else Some (None, v)
                 end;
  ch_clone_sender M := view_senders S;
  ch_drop_sender M := view_senders pred;
  ch_drop_receiver M := view_receivers pred;
|}.

#[export] Program Instance ref_channel_laws : ChannelLaws := {| ch_view M (v : ChanView M) := v |}.
Next Obligation. done. Qed.
Next Obligation. done. Qed.
Next Obligation. intros M m v E. simpl in *. rewrite E. eauto. Qed.
Next Obligation. intros M m v E1 E2. simpl in *. by rewrite E1, E2. Qed.
Next Obligation. intros M m v E1 E2. simpl in *. rewrite E1, E2. eauto. Qed.
Next Obligation. intros M v m q E. simpl in *. rewrite E. eauto. Qed.
Next Obligation. intros M v E1 E2. simpl in *. rewrite E1, E2. eauto. Qed.
Next Obligation. intros M v E1 E2. simpl in *. by rewrite E1, E2. Qed.
Next Obligation. done. Qed.
Next Obligation. done. Qed.
Next Obligation. done. Qed.

(** ** Digest *)

#[export] Instance ref_sha256 : Sha256Ops := {| sha256 b := b |}.
