(* ===== verification/PubsubSpec.v ===== *)
(** * Correctness of the client database

    The invariant that ties the two indexes of [ServerClientDB] (the subscription map, by digest,
    and the map of clients by token) to each other and to the store, its preservation by every
    operation, and what each operation does. All theorems are proved against the interfaces of
    [submap] and [async_channel]; the last part instantiates both, for the witnesses. *)

From S2P Require Import Prelude Utf8 Proto Acl Topic Token Pubsub Reference.

Section spec.
Context {SMO : SubMapOps} {SML : SubMapLaws} {CHO : ChannelOps} {SHO : Sha256Ops}.

(** ** The invariant *)

Definition view (h : Hub) : gmap bytes (ServerClient * gset bytes) :=
  sm_view (submap_of (hub_db h)).

Definition by_token (h : Hub) : gmap bytes ServerClient := clients_by_token (hub_db h).

Definition registered (c : ServerClient) (h : Hub) : Prop := by_token h !! token c = Some c.

(** The two indexes hold the same clients. *)
Record db_ok (h : Hub) : Prop := {
  ok_token t c : by_token h !! t = Some c -> token c = t /\ digest c = sha256 t;
  ok_index d c : (fst <$> view h) !! d = Some c <-> registered c h /\ digest c = d;
}.

(** Every registered client has its own cell, every data channel one owner, and identities are used
    once. *)
Record store_ok (h : Hub) : Prop := {
  ok_cell c : registered c h -> is_Some (cells h !! sc_id c);
  ok_id c1 c2 : registered c1 h -> registered c2 h -> sc_id c1 = sc_id c2 -> c1 = c2;
  ok_cells_fresh i : is_Some (cells h !! i) -> i < next_id h;
  ok_chans_fresh i : is_Some (chans h !! i) -> i < next_id h;
  ok_slot i cell ch :
    cells h !! i = Some cell -> data_channel cell = Some ch -> is_Some (chans h !! ch);
  ok_slot_inj i j ci cj ch :
    cells h !! i = Some ci -> cells h !! j = Some cj ->
    data_channel ci = Some ch -> data_channel cj = Some ch -> i = j;
}.

Definition hub_ok (h : Hub) : Prop := db_ok h /\ store_ok h.

Lemma view_lookup h d c : (fst <$> view h) !! d = Some c <-> exists ps, view h !! d = Some (c, ps).
Proof.
  rewrite lookup_fmap, fmap_Some. split.
  - intros ([c' ps] & Hv & ->). eauto.
  - intros (ps & Hv). eauto.
Qed.

Lemma registered_view h c : db_ok h -> registered c h -> exists ps, view h !! digest c = Some (c, ps).
Proof. intros Hok Hc. apply view_lookup, (ok_index _ Hok). done. Qed.

Lemma view_registered h d c ps :
  db_ok h -> view h !! d = Some (c, ps) -> registered c h /\ digest c = d.
Proof. intros Hok Hv. apply (ok_index _ Hok), view_lookup. eauto. Qed.

(** A digest identifies a registered client, and so does its token. *)
Lemma registered_digest h c1 c2 :
  db_ok h -> registered c1 h -> registered c2 h -> digest c1 = digest c2 -> c1 = c2.
Proof.
  intros Hok [ps1 H1]%registered_view [ps2 H2]%registered_view E; [|done..].
  rewrite E, H2 in H1. congruence.
Qed.

Lemma registered_token h c1 c2 :
  registered c1 h -> registered c2 h -> token c1 = token c2 -> c1 = c2.
Proof. unfold registered. intros H1 H2 E. rewrite E, H2 in H1. congruence. Qed.

(** *** Preservation: operations that leave the two indexes alone *)

Lemma db_ok_same h h' :
  fst <$> view h' = fst <$> view h -> by_token h' = by_token h -> db_ok h -> db_ok h'.
Proof.
  intros Hv Hb [H1 H2]. split; unfold registered; rewrite ?Hv, ?Hb; [apply H1|apply H2].
Qed.

Lemma store_ok_same h h' :
  by_token h' = by_token h -> cells h' = cells h -> chans h' = chans h -> next_id h <= next_id h' ->
  store_ok h -> store_ok h'.
Proof.
  intros Hb Hc Hch Hn [H1 H2 H3 H4 H5 H6].
  split; unfold registered in *; rewrite ?Hb, ?Hc, ?Hch; try done.
  - intros i Hi%H3. lia.
  - intros i Hi%H4. lia.
Qed.

Lemma hub_ok_set_rng l h : hub_ok h -> hub_ok (set_rng l h).
Proof. intros []. split; [by apply (db_ok_same h)|by apply (store_ok_same h)]. Qed.

(** Changing the tasks or the slot of a cell. *)
Lemma store_ok_update_cell f c h :
  (forall cell ch, cells h !! sc_id c = Some cell -> data_channel (f cell) = Some ch ->
     data_channel cell = Some ch \/
     (is_Some (chans h !! ch) /\
      forall i ci, cells h !! i = Some ci -> data_channel ci <> Some ch)) ->
  store_ok h -> store_ok (update_cell f c h).
Proof.
  intros Hf [H1 H2 H3 H4 H5 H6]. unfold update_cell.
  assert (forall i ci', alter f (sc_id c) (cells h) !! i = Some ci' ->
    exists ci, cells h !! i = Some ci /\ (ci' = ci /\ i <> sc_id c \/ i = sc_id c /\ ci' = f ci))
    as Hinv.
  { intros i ci'. rewrite lookup_alter. case_decide as D; [subst i|by eauto].
    rewrite fmap_Some. intros (ci & ? & ->). eauto. }
  split; simpl.
  - intros c' Hc'%H1. destruct Hc' as [x Hx]. rewrite lookup_alter. case_decide as D; rewrite ?D, Hx; by eexists.
  - apply H2.
  - intros i [ci' Hi]. destruct (Hinv i ci' Hi) as (ci & Hci & _). apply H3. by eexists.
  - apply H4.
  - intros i ci' ch Hi Hch. destruct (Hinv i ci' Hi) as (ci & Hci & [[-> _]|[-> ->]]); [eauto|].
    destruct (Hf ci ch Hci Hch) as [?|[? _]]; eauto.
  - intros i j ci' cj' ch Hi Hj Hchi Hchj.
    destruct (Hinv i ci' Hi) as (ci & Hci & Ei), (Hinv j cj' Hj) as (cj & Hcj & Ej).
    destruct Ei as [[-> Ni]|[-> ->]], Ej as [[-> Nj]|[-> ->]]; [by eauto| | |done].
    + destruct (Hf cj ch Hcj Hchj) as [?|[_ Hno]]; [by eauto|]. by destruct (Hno i ci).
    + destruct (Hf ci ch Hci Hchi) as [?|[_ Hno]]; [by eauto|]. by destruct (Hno j cj).
Qed.

Lemma hub_ok_update_cell f c h :
  (forall cell, data_channel (f cell) = data_channel cell \/ data_channel (f cell) = None) ->
  hub_ok h -> hub_ok (update_cell f c h).
Proof.
  intros Hf [Hd Hs]. split; [by apply (db_ok_same h)|].
  apply store_ok_update_cell; [|done]. intros cell ch _ Hch. left.
  destruct (Hf cell) as [E|E]; congruence.
Qed.

Lemma hub_ok_update_chan f ch h : hub_ok h -> hub_ok (update_chan f ch h).
Proof.
  intros [Hd [H1 H2 H3 H4 H5 H6]]. split; [by apply (db_ok_same h)|]. unfold update_chan.
  assert (forall i, is_Some (alter f ch (chans h) !! i) <-> is_Some (chans h !! i)) as Hi.
  { intros i. rewrite lookup_alter. case_decide; [subst; apply fmap_is_Some|done]. }
  split; simpl; try done; intros; rewrite ?Hi in *; eauto.
Qed.

Lemma hub_ok_drop_sender ch h : hub_ok h -> hub_ok (drop_sender ch h).
Proof. intros. destruct ch; [by apply hub_ok_update_chan|done]. Qed.

Lemma hub_ok_set_aborted ts h : hub_ok h -> hub_ok (set_aborted ts h).
Proof. intros []. split; [by apply (db_ok_same h)|by apply (store_ok_same h)]. Qed.

Lemma hub_ok_abort_tasks c h : hub_ok h -> hub_ok (abort_tasks c h).
Proof. intros. apply hub_ok_update_cell; [auto|]. by apply hub_ok_set_aborted. Qed.

Lemma hub_ok_register_task n c h : hub_ok h -> hub_ok (register_task n c h).
Proof. apply hub_ok_update_cell. auto. Qed.

Lemma hub_ok_clone_client c h : hub_ok h -> hub_ok (clone_client c h).
Proof. apply hub_ok_update_cell. auto. Qed.

Lemma hub_ok_drop_object c h : hub_ok h -> hub_ok (drop_object c h).
Proof.
  intros Hok. apply hub_ok_drop_sender, hub_ok_update_cell; [auto|]. by apply hub_ok_abort_tasks.
Qed.

Lemma hub_ok_drop_client c h : hub_ok h -> hub_ok (drop_client c h).
Proof.
  intros Hok. unfold drop_client. destruct (strong <$> _) as [[|[|n]]|]; try done.
  - by apply hub_ok_drop_object.
  - by apply hub_ok_update_cell; [auto|].
Qed.

Lemma hub_ok_clone_clients l h : hub_ok h -> hub_ok (clone_clients l h).
Proof. intros Hok. induction l as [|c l IH]; [done|]. by apply hub_ok_clone_client. Qed.

Lemma drop_clients_cons c l h : drop_clients (c :: l) h = drop_clients l (drop_client c h).
Proof. done. Qed.

Lemma hub_ok_drop_clients l h : hub_ok h -> hub_ok (drop_clients l h).
Proof.
  revert h; induction l as [|c l IH]; intros h Hok; [done|].
  rewrite drop_clients_cons. by apply IH, hub_ok_drop_client.
Qed.

(** The database does not see how many [Arc]s there are. *)
Lemma hub_db_drop_client c h : hub_db (drop_client c h) = hub_db h.
Proof.
  unfold drop_client, drop_object, drop_sender. by destruct (strong <$> _) as [[|[|n]]|], (client_data_channel c h).
Qed.

Lemma hub_db_clone_clients l h : hub_db (clone_clients l h) = hub_db h.
Proof. by induction l. Qed.

Lemma hub_db_drop_clients l h : hub_db (drop_clients l h) = hub_db h.
Proof.
  revert h; induction l as [|c l IH]; intros h; [done|].
  by rewrite drop_clients_cons, IH, hub_db_drop_client.
Qed.

Lemma hub_db_unregister_client c h :
  hub_db (unregister_client c h) =
    mkServerClientDB (sm_unregister c (submap_of (hub_db h)))
      (delete (token c) (clients_by_token (hub_db h))).
Proof. unfold unregister_client. case_match; [by rewrite hub_db_drop_client|done]. Qed.

(** An [Arc] that comes and goes leaves no trace. *)
Lemma drop_clone_client c h : drop_client c (clone_client c h) = h.
Proof.
  unfold drop_client, clone_client. simpl. rewrite lookup_alter_eq.
  assert (forall f, (forall cell, cells h !! sc_id c = Some cell -> f cell = cell) ->
    update_cell f c h = h) as Hid.
  { intros f Hf. destruct h as [db cs chs ab nx rg]. unfold update_cell, set_cells. simpl in *. f_equal.
    apply map_eq. intros i. rewrite lookup_alter. case_decide; [subst i|done].
    destruct (cs !! sc_id c) as [cell|] eqn:E; [|done]. simpl. by rewrite (Hf cell). }
  destruct (cells h !! sc_id c) as [[dc ts [|n]]|] eqn:E; cbn [fmap option_fmap option_map strong].
  - apply Hid. by intros cell [= <-].
  - etrans; [|apply (Hid (fun cell => cell)); done].
    unfold update_cell, set_cells. simpl. f_equal. apply map_eq. intros i.
    rewrite !lookup_alter. case_decide; [subst i|done]. by rewrite decide_True, E by done.
  - apply Hid. intros cell [=].
Qed.

Lemma client_data_channel_clone c c' h :
  client_data_channel c' (clone_client c h) = client_data_channel c' h.
Proof.
  unfold client_data_channel, clone_client. simpl. rewrite lookup_alter.
  case_decide as D; [|done]. rewrite <- D. by destruct (cells h !! sc_id c).
Qed.

Lemma drop_clone_clients l h : drop_clients l (clone_clients l h) = h.
Proof.
  unfold drop_clients, clone_clients. induction l as [|c l IH]; [done|]. cbn [foldl foldr].
  by rewrite drop_clone_client.
Qed.

Lemma hub_ok_new_channel n h : hub_ok h -> hub_ok (new_channel n h).2.
Proof.
  intros [Hd [H1 H2 H3 H4 H5 H6]]. split; [by apply (db_ok_same h)|]. split; simpl; try done.
  - intros i Hi%H3. lia.
  - intros i. rewrite lookup_insert. case_decide; [lia|]. intros Hi%H4. lia.
  - intros i cell ch Hi Hch. rewrite lookup_insert. case_decide; eauto.
Qed.

Lemma hub_ok_unregister_data_channel t h : hub_ok h -> hub_ok (unregister_data_channel t h).
Proof.
  intros Hok. unfold unregister_data_channel. case_match; [|done].
  apply hub_ok_drop_sender, hub_ok_update_cell; auto.
Qed.

Lemma hub_ok_set_submap sm h :
  fst <$> sm_view sm = fst <$> view h -> hub_ok h -> hub_ok (set_submap sm h).
Proof. intros E [Hd Hs]. split; [by apply (db_ok_same h)|by apply (store_ok_same h)]. Qed.

Lemma hub_ok_subscribe d t c h : hub_ok h -> hub_ok (subscribe d t c h).2.
Proof.
  intros. unfold subscribe. destruct (prepare_topic d t); simpl; [|done].
  apply hub_ok_set_submap; [apply sm_subscribe_clients|done].
Qed.

Lemma hub_ok_unsubscribe d t c h : hub_ok h -> hub_ok (unsubscribe d t c h).2.
Proof.
  intros. unfold unsubscribe. destruct (prepare_topic d t); simpl; [|done].
  apply hub_ok_set_submap; [apply sm_unsubscribe_clients|done].
Qed.

(** The channel passed by the caller is a fresh one. *)
Definition fresh_channel (ch : nat) (h : Hub) : Prop :=
  is_Some (chans h !! ch) /\ forall i cell, cells h !! i = Some cell -> data_channel cell <> Some ch.

Lemma hub_ok_register_data_channel t ch h :
  fresh_channel ch h -> hub_ok h -> hub_ok (register_data_channel t ch h).2.
Proof.
  intros [Hch Hno] Hok. unfold register_data_channel.
  destruct (_ !! t) as [c|]; [|by apply hub_ok_update_chan].
  destruct (client_data_channel c h); [by apply hub_ok_update_chan|]. simpl.
  pose proof (hub_ok_update_chan ch_clone_sender ch h Hok) as [Hd Hs].
  apply hub_ok_clone_client. split; [by apply (db_ok_same (update_chan ch_clone_sender ch h))|].
  apply store_ok_update_cell; [|done]. simpl. intros cell ch' Hcell [= <-]. right. split; [|done].
  rewrite lookup_alter_eq. by apply fmap_is_Some.
Qed.

(** *** Registration *)

Lemma register_loop_inv answers lg ad h r h' :
  hub_ok h -> register_client_loop answers lg ad h = Some (r, h') ->
  exists h0, hub_ok h0 /\ view h0 = view h /\ by_token h0 = by_token h /\
    cells h0 = cells h /\ chans h0 = chans h /\ aborted h0 = aborted h /\
    next_id h <= next_id h0 /\
    match r with
    | Err e => kind e = Io /\ exists l, h' = set_rng l h0
    | Ok c => exists l, login c = lg /\ addr c = ad /\ sc_id c = next_id h0 /\
        digest c = sha256 (token c) /\ view h0 !! digest c = None /\
        h' = set_rng l
               (set_cells (<[sc_id c := mkCell None [] 2]> (cells h0))
                 (set_db (mkServerClientDB (sm_register c (submap_of (hub_db h0))).2
                            (<[token c := c]> (by_token h0))) (set_next (S (next_id h0)) h0)))
    end.
Proof.
  revert h; induction answers as [|a answers IH]; intros h Hok; [done|].
  cbn [register_client_loop]. destruct (Token.create a) as [tok|e] eqn:Ec.
  - set (c := mkServerClient _ _ _ _ _).
    destruct (sm_register c (submap_of (hub_db h))) as [is_new sm] eqn:Er. destruct is_new.
    + intros [= <- <-]. exists h. split_and!; try done.
      exists answers. split_and!; try done.
      * destruct (view h !! digest c) as [e0|] eqn:Ev; [|done].
        destruct (sm_register_old c _ _ Ev) as [Hf _]. by rewrite Er in Hf.
      * by rewrite Er.
    + assert (view h !! digest c <> None) as Hold.
      { intros Hn. destruct (sm_register_new c _ Hn) as [Ht _]. by rewrite Er in Ht. }
      destruct (view h !! digest c) as [e0|] eqn:Ev; [|done].
      destruct (sm_register_old c _ _ Ev) as [_ Hv]. rewrite Er in Hv. simpl in Hv.
      intros Hl. destruct (IH (set_submap sm (set_next (S (next_id h)) h))) as (h0 & Hok0 & Hrest);
        [|exact Hl|].
      { apply hub_ok_set_submap; [by rewrite Hv|]. destruct Hok as [Hd Hs].
        split; [by apply (db_ok_same h)|]. apply (store_ok_same h); simpl; try done. lia. }
      exists h0. split; [done|]. destruct Hrest as (-> & -> & -> & -> & -> & Hn & Hm).
      simpl in *. split_and!; try done. lia.
  - intros [= <- <-]. exists h. split_and!; try done.
    + unfold Token.create in Ec. destruct a; simpl in Ec; [done|]. by injection Ec as <-.
    + by exists answers.
Qed.

Lemma hub_ok_new_client c h :
  hub_ok h -> sc_id c = next_id h -> digest c = sha256 (token c) -> view h !! digest c = None ->
  hub_ok (set_cells (<[sc_id c := mkCell None [] 2]> (cells h))
           (set_db (mkServerClientDB (sm_register c (submap_of (hub_db h))).2
                      (<[token c := c]> (by_token h))) (set_next (S (next_id h)) h))).
Proof.
  intros [Hok [H1 H2 H3 H4 H5 H6]] Hid Hdig Hnew. pose proof Hok as [Ht Hi].
  destruct (sm_register_new c (submap_of (hub_db h)) Hnew) as [_ Hv].
  assert (by_token h !! token c = None) as Htok.
  { destruct (by_token h !! token c) as [c0|] eqn:E; [|done]. destruct (Ht _ _ E) as [E1 E2].
    destruct (registered_view h c0 Hok) as [ps Hps]; [unfold registered; congruence|].
    congruence. }
  split; split; unfold registered, by_token, view in *; simpl; rewrite ?Hv.
  - intros t c'. rewrite lookup_insert. case_decide; [|apply Ht]. intros [= <-]. by subst.
  - intros d c'. rewrite fmap_insert, !lookup_insert. simpl. clear Hv.
    destruct (decide (digest c = d)) as [<-|Hd], (decide (token c = token c')) as [E|Htc].
    + naive_solver.
    + split; [naive_solver|]. intros [Hc' Ed].
      destruct (registered_view h c' Hok) as [ps Hps]; [done|]. unfold view in Hps. congruence.
    + rewrite Hi. split; [|naive_solver]. intros [Hc' _]. congruence.
    + apply Hi.
  - intros c' Hc'. rewrite lookup_insert. case_decide; [by eexists|].
    rewrite lookup_insert in Hc'. case_decide; [congruence|by apply H1].
  - intros c1 c2. rewrite !lookup_insert.
    assert (forall c', by_token h !! token c' = Some c' -> sc_id c' <> sc_id c) as Hlt.
    { intros c' Hc' E. pose proof (H3 _ (H1 _ Hc')). unfold by_token in *. lia. }
    unfold by_token in *. repeat case_decide; intros E1 E2 Eid.
    + congruence.
    + injection E1 as <-. by destruct (Hlt _ E2).
    + injection E2 as <-. by destruct (Hlt _ E1).
    + by apply H2.
  - intros i. rewrite lookup_insert. case_decide; [lia|]. intros Hx%H3. lia.
  - intros i Hx%H4. lia.
  - intros i cell ch. rewrite lookup_insert. case_decide; [by intros [= <-]|apply H5].
  - intros i j ci cj ch. rewrite !lookup_insert.
    repeat case_decide; intros; simplify_eq/=; try done. by eapply H6.
Qed.

Lemma registered_unregister c c' h :
  registered c' (unregister_client c h) <-> registered c' h /\ token c' <> token c.
Proof.
  unfold registered, by_token. rewrite hub_db_unregister_client. simpl.
  rewrite lookup_delete. case_decide; [|naive_solver].
  split; [done|]. intros [? []]. congruence.
Qed.

(** The indexes without the client. *)
Lemma hub_ok_delete_client c h :
  registered c h -> hub_ok h ->
  hub_ok (set_db (mkServerClientDB (sm_unregister c (submap_of (hub_db h)))
                    (delete (token c) (clients_by_token (hub_db h)))) h).
Proof.
  intros Hc [Hok [H1 H2 H3 H4 H5 H6]]. set (h' := set_db _ h).
  assert (forall c', registered c' h' <-> registered c' h /\ token c' <> token c) as Hr.
  { intros c'. rewrite <- registered_unregister. unfold registered, by_token.
    by rewrite hub_db_unregister_client. }
  split; split; simpl; try done.
  - intros t c'. unfold by_token. simpl. rewrite lookup_delete. case_decide; [done|].
    apply (ok_token _ Hok).
  - intros d c'. rewrite Hr. unfold view. simpl.
    rewrite sm_unregister_view, fmap_delete, lookup_delete.
    change (sm_view _) with (view h). case_decide as D.
    + split; [done|]. intros [[Hc' Hne] Ed]. destruct Hne.
      by rewrite (registered_digest h c' c) by (done || congruence).
    + rewrite (ok_index _ Hok). split; [|naive_solver]. intros [Hc' Ed].
      split_and!; try done. intros Et. by rewrite (registered_token h c' c) in Ed.
  - intros c' [Hc' _]%Hr. by apply H1.
  - intros c1 c2 [Hc1 _]%Hr [Hc2 _]%Hr. by apply H2.
Qed.

Lemma hub_ok_unregister_client c h :
  registered c h -> hub_ok h -> hub_ok (unregister_client c h).
Proof.
  intros Hc Hok. unfold unregister_client. case_match; [apply hub_ok_drop_client|];
    by apply hub_ok_delete_client.
Qed.

(** *** Data channel slots *)

Lemma unregister_clears t c h :
  by_token h !! t = Some c -> client_data_channel c (unregister_data_channel t h) = None.
Proof.
  intros Et. unfold unregister_data_channel. unfold by_token in Et. rewrite Et.
  assert (forall o h, client_data_channel c (drop_sender o h) = client_data_channel c h) as ->
    by by intros [].
  unfold client_data_channel. simpl. rewrite lookup_alter_eq. by destruct (cells h !! sc_id c).
Qed.

(** ** Subscribers *)

Lemma get_subscribers_spec t h c :
  c ∈ get_subscribers t h <->
  exists ps p, view h !! digest c = Some (c, ps) /\ p ∈ ps /\ pattern_matches p t = true.
Proof. apply sm_get_subscribers_spec. Qed.

Lemma subscribers_registered t h c : db_ok h -> c ∈ get_subscribers t h -> registered c h.
Proof.
  intros Hok (ps & p & Hv & _)%get_subscribers_spec. by apply view_registered in Hv as [? _].
Qed.

(** The patterns of a client, in a hub whose view was altered at the digest of [c]. *)
Lemma view_alter f c h h' c' ps' :
  db_ok h -> registered c h ->
  view h' = alter (fun '(c0, ps) => (c0, f ps)) (digest c) (view h) ->
  view h' !! digest c' = Some (c', ps') <->
  (exists ps, view h !! digest c' = Some (c', ps) /\ (c' = c /\ ps' = f ps \/ c' <> c /\ ps' = ps)).
Proof.
  intros Hok Hc ->. rewrite lookup_alter. case_decide as D.
  - destruct (registered_view h c Hok Hc) as [ps0 Hps0]. rewrite <- D, Hps0. simpl. split.
    + intros [= -> <-]. eauto.
    + intros (ps & [= <- <-] & [[_ ->]|[? _]]); [done|congruence].
  - split.
    + intros Hv. exists ps'. split; [done|]. right. split; [congruence|done].
    + intros (ps & Hv & [[-> _]|[_ ->]]); [congruence|done].
Qed.
End spec.

(** ** Reachable hubs *)

Section reachable.
Context {SMO : SubMapOps} {SML : SubMapLaws} {CHO : ChannelOps} {SHO : Sha256Ops}.

Definition empty_hub (answers : list (result bytes bytes)) : Hub :=
  mkHub (mkServerClientDB sm_new ∅) ∅ ∅ ∅ 0 answers.

(** Every operation of the database and of the shared objects, from any caller, in any order. The
    callers unregister a client they registered and pass a channel they just made. *)
Inductive hub_step : Hub -> Hub -> Prop :=
| step_register lg ad h r h' : register_client lg ad h = Some (r, h') -> hub_step h h'
| step_unregister c h : registered c h -> hub_step h (unregister_client c h)
| step_subscribe d t c h : hub_step h (subscribe d t c h).2
| step_unsubscribe d t c h : hub_step h (unsubscribe d t c h).2
| step_new_channel n h : hub_step h (new_channel n h).2
| step_register_dc t ch h : fresh_channel ch h -> hub_step h (register_data_channel t ch h).2
| step_unregister_dc t h : hub_step h (unregister_data_channel t h)
| step_register_task n c h : hub_step h (register_task n c h)
| step_abort_tasks c h : hub_step h (abort_tasks c h)
| step_chan f ch h : hub_step h (update_chan f ch h)
| step_clone c h : hub_step h (clone_client c h)
| step_drop c h : hub_step h (drop_client c h).

Inductive reachable (answers : list (result bytes bytes)) : Hub -> Prop :=
| reach_empty : reachable answers (empty_hub answers)
| reach_step h h' : reachable answers h -> hub_step h h' -> reachable answers h'.

Lemma hub_ok_empty answers : hub_ok (empty_hub answers).
Proof.
  split; split; unfold registered, by_token, view; simpl.
  - done.
  - intros d c. rewrite sm_view_new, fmap_empty, !lookup_empty. naive_solver.
  - done.
  - done.
  - intros i. rewrite lookup_empty. by intros [].
  - intros i. rewrite lookup_empty. by intros [].
  - done.
  - done.
Qed.

Lemma hub_ok_register_client lg ad h r h' :
  hub_ok h -> register_client lg ad h = Some (r, h') -> hub_ok h'.
Proof.
  intros Hok Hr. apply register_loop_inv in Hr as (h0 & Hok0 & _ & _ & _ & _ & _ & _ & Hr); [|done].
  destruct r as [c|e].
  - destruct Hr as (l & _ & _ & Hid & Hdig & Hnew & ->). by apply hub_ok_set_rng, hub_ok_new_client.
  - destruct Hr as (_ & l & ->). by apply hub_ok_set_rng.
Qed.

Lemma hub_ok_step h h' : hub_step h h' -> hub_ok h -> hub_ok h'.
Proof.
  destruct 1; eauto using hub_ok_register_client, hub_ok_unregister_client, hub_ok_subscribe,
    hub_ok_unsubscribe, hub_ok_new_channel, hub_ok_register_data_channel,
    hub_ok_unregister_data_channel, hub_ok_register_task, hub_ok_abort_tasks, hub_ok_update_chan,
    hub_ok_clone_client, hub_ok_drop_client.
Qed.

(** What a registration does to the two indexes. *)
Lemma register_client_effect (lg ad : bytes) (h h' : Hub) (r : result ServerClient Error) :
  hub_ok h -> register_client lg ad h = Some (r, h') ->
  hub_ok h' /\
  match r with
  | Ok c => login c = lg /\ addr c = ad /\
      by_token h !! token c = None /\ by_token h' = <[token c := c]> (by_token h) /\
      view h' = <[digest c := (c, ∅)]> (view h) /\
      client_data_channel c h' = None
  | Err e => kind e = Io /\ by_token h' = by_token h /\ view h' = view h
  end.
Proof.
  intros Hok Hr. pose proof (hub_ok_register_client _ _ _ _ _ Hok Hr) as Hok'.
  split; [done|]. apply register_loop_inv in Hr as (h0 & Hok0 & Hv & Hb & _ & _ & _ & _ & Hr);
    [|done].
  destruct r as [c|e].
  - destruct Hr as (l & <- & <- & Hid & Hdig & Hnew & ->).
    destruct (sm_register_new c (submap_of (hub_db h0)) Hnew) as [_ Hview].
    rewrite Hv in Hnew. rewrite <- Hv, <- Hb. split_and!; try done.
    + destruct (by_token h0 !! token c) as [c0|] eqn:E; [|done].
      destruct (ok_token _ (proj1 Hok0) _ _ E) as [E1 E2].
      destruct (registered_view h0 c0 (proj1 Hok0)) as [ps Hps];
        [by unfold registered; rewrite E1|]. rewrite Hv in Hps. congruence.
    + unfold client_data_channel. simpl. by rewrite lookup_insert_eq.
  - by destruct Hr as (? & l & ->).
Qed.

(** A registration leaves the channels and the cells of the others alone. *)
Lemma register_client_frame lg ad h r h' :
  hub_ok h -> register_client lg ad h = Some (r, h') ->
  (forall ch, fresh_channel ch h -> fresh_channel ch h') /\ chans h' = chans h.
Proof.
  intros Hok Hr. apply register_loop_inv in Hr as (h0 & Hok0 & _ & _ & Hc & Hch & _ & _ & Hr); [|done].
  unfold fresh_channel. destruct r as [c|e].
  - destruct Hr as (l & _ & _ & _ & _ & _ & ->). simpl. rewrite Hch, Hc. split; [|done].
    intros ch [H1 H2]. split; [done|]. intros i cell. rewrite lookup_insert. case_decide; [|by apply H2].
    by intros [= <-].
  - destruct Hr as (_ & l & ->). simpl. by rewrite Hch, Hc.
Qed.

(** ** Termination of the registration loop *)

Lemma register_loop_fresh (toks : list bytes) rest lg ad h :
  Exists (fun tok => view h !! sha256 tok = None) toks ->
  exists c h', register_client_loop (map Ok toks ++ rest) lg ad h = Some (Ok c, h').
Proof.
  revert h; induction toks as [|tok toks IH]; intros h Hex; [by inversion Hex|].
  cbn [map app register_client_loop Token.create map_err].
  set (c := mkServerClient _ _ _ _ _).
  destruct (view h !! digest c) as [e|] eqn:Ev.
  - destruct (sm_register_old c _ _ Ev) as [Hf Hv].
    destruct (sm_register c (submap_of (hub_db h))) as [b sm]; simpl in Hf, Hv; subst b.
    apply IH. apply Exists_cons in Hex as [Hn|Hex]; [by simpl in *; congruence|].
    unfold view in *. simpl. by rewrite Hv.
  - destruct (sm_register_new c _ Ev) as [Ht _].
    destruct (sm_register c (submap_of (hub_db h))) as [b sm]; simpl in Ht; subst b. eauto.
Qed.

Lemma fresh_digest (toks : list bytes) (m : gmap bytes (ServerClient * gset bytes)) :
  NoDup (sha256 <$> toks) -> size m < length toks ->
  Exists (fun tok => m !! sha256 tok = None) toks.
Proof.
  intros Hnd Hlt. destruct (decide (Exists (fun tok => m !! sha256 tok = None) toks)) as [|Hn];
    [done|exfalso].
  apply not_Exists_Forall in Hn; [|apply _].
  assert (list_to_set (sha256 <$> toks) ⊆ dom m) as Hsub.
  { intros d. rewrite elem_of_list_to_set, list_elem_of_fmap. intros (tok & -> & Htok).
    apply elem_of_dom. rewrite Forall_forall in Hn. specialize (Hn tok Htok). simpl in Hn.
    by destruct (m !! sha256 tok). }
  apply subseteq_size in Hsub. rewrite size_dom, size_list_to_set, length_fmap in Hsub by done. lia.
Qed.

(** ** Properties *)

(** C1: whatever operations the connections perform on the client database, in any order, its two
    indexes hold the same clients, every registered client owns a cell of its own, and no two
    clients share a data channel. *)
Theorem hub_invariant (answers : list (result bytes bytes)) (h : Hub) :
  reachable answers h -> hub_ok h.
Proof. induction 1; eauto using hub_ok_empty, hub_ok_step. Qed.

(** [register_client] makes a new client: its token was not in use, both indexes gain exactly
    that client, with no subscription and no data channel; an error of the random source leaves
    both indexes as they were. *)
Theorem register_client_spec (lg ad : bytes) (h h' : Hub) (r : result ServerClient Error) :
  hub_ok h -> register_client lg ad h = Some (r, h') ->
  hub_ok h' /\
  match r with
  | Ok c => login c = lg /\ addr c = ad /\
      by_token h !! token c = None /\ by_token h' = <[token c := c]> (by_token h) /\
      view h' = <[digest c := (c, ∅)]> (view h) /\
      client_data_channel c h' = None
  | Err e => kind e = Io /\ by_token h' = by_token h /\ view h' = view h
  end.
Proof. apply register_client_effect. Qed.

(** The registration loop ends: among [n + 1] tokens with pairwise different digests one is
    new to a database of [n] clients. *)
Theorem register_client_terminates (toks : list bytes) (rest : list (result bytes bytes))
    (lg ad : bytes) (h : Hub) :
  rng h = map Ok toks ++ rest ->
  NoDup (sha256 <$> toks) -> (sm_client_count (submap_of (hub_db h)) < len toks)%N ->
  exists c h', register_client lg ad h = Some (Ok c, h').
Proof.
  intros Hrng Hnd Hlen. unfold register_client. rewrite Hrng.
  apply register_loop_fresh, fresh_digest; [done|].
  rewrite sm_client_count_spec in Hlen. unfold view, len in *. lia.
Qed.

(** [unregister_client] removes exactly that client: its token is unknown afterwards, no topic
    has it as a subscriber, and every other client keeps its token and its subscriptions. *)
Theorem unregister_client_spec (c : ServerClient) (h : Hub) :
  hub_ok h -> registered c h ->
  let h' := unregister_client c h in
  hub_ok h' /\ by_token h' !! token c = None /\
  (forall c', c' <> c -> registered c' h' <-> registered c' h) /\
  (forall t c', c' ∈ get_subscribers t h' <-> c' ∈ get_subscribers t h /\ c' <> c).
Proof.
  intros [Hok Hst] Hc h'. unfold h'. split_and!.
  - by apply hub_ok_unregister_client.
  - unfold by_token. rewrite hub_db_unregister_client. apply lookup_delete_eq.
  - intros c' Hne. rewrite registered_unregister. split; [naive_solver|]. intros Hc'.
    split; [done|]. intros E. by apply Hne, (registered_token h).
  - intros t c'. rewrite !get_subscribers_spec. unfold view at 1. rewrite hub_db_unregister_client.
    simpl. setoid_rewrite sm_unregister_view. setoid_rewrite lookup_delete_Some. split.
    + intros (ps & p & [Hd Hv] & Hp). split; [eauto|]. intros ->. done.
    + intros [(ps & p & Hv & Hp) Hne]. exists ps, p. split; [|done]. split; [|done]. intros E.
      apply Hne, (registered_digest h); try done.
      by destruct (view_registered h _ _ _ Hok Hv).
Qed.

(** C36: a subscription adds the client to the subscribers of exactly the topics its normalised
    pattern matches, and changes nothing else; a topic that is too deep changes nothing. *)
Theorem subscribe_spec (max_depth : N) (t : bytes) (c : ServerClient) (h : Hub) :
  hub_ok h -> registered c h ->
  match prepare_topic max_depth t with
  | Err e => subscribe max_depth t c h = (Err e, h)
  | Ok p => plain_pattern p ->
      exists h', subscribe max_depth t c h = (Ok tt, h') /\ hub_ok h' /\
        forall t' c', c' ∈ get_subscribers t' h' <->
          c' ∈ get_subscribers t' h \/ (c' = c /\ pattern_matches p t' = true)
  end.
Proof.
  intros [Hok Hst] Hc. pose proof (hub_ok_subscribe max_depth t c h (conj Hok Hst)) as Hok'.
  unfold subscribe in *. destruct (prepare_topic max_depth t) as [p|e]; [|done]. intros Hp.
  eexists. split; [done|]. split; [done|]. intros t' c'. rewrite !get_subscribers_spec.
  set (h' := set_submap _ h).
  assert (view h' = alter (fun '(c0, ps) => (c0, {[p]} ∪ ps)) (digest c) (view h)) as Hv'
    by by apply sm_subscribe_plain.
  setoid_rewrite (view_alter _ c h h' c' _ Hok Hc Hv'). split.
  - intros (ps' & q & (ps & Hv & [[-> ->]|[Hne ->]]) & Hq & Hm).
    + apply elem_of_union in Hq as [->%elem_of_singleton|Hq]; eauto 6.
    + eauto 6.
  - intros [(ps & q & Hv & Hq & Hm)|[-> Hm]].
    + destruct (decide (c' = c)); [|by eauto 10].
      exists ({[p]} ∪ ps), q. split_and!; [by eauto 6|set_solver|done].
    + destruct (registered_view h c Hok Hc) as [ps Hps].
      exists ({[p]} ∪ ps), p. split_and!; [by eauto 6|set_solver|done].
Qed.

(** unsubscribing undoes subscribing: a client that was not subscribed to a pattern has, after
    both, exactly the subscriptions it had, and so has every other client. *)
Theorem subscribe_unsubscribe (max_depth : N) (t p : bytes) (c : ServerClient) (h : Hub) :
  hub_ok h -> registered c h ->
  prepare_topic max_depth t = Ok p -> plain_pattern p ->
  (forall ps, view h !! digest c = Some (c, ps) -> p ∉ ps) ->
  let h' := (unsubscribe max_depth t c (subscribe max_depth t c h).2).2 in
  view h' = view h /\ by_token h' = by_token h.
Proof.
  intros [Hok Hst] Hc Hp Hpl Hno. unfold subscribe, unsubscribe. rewrite Hp. simpl.
  split; [|done]. unfold view. simpl.
  rewrite sm_unsubscribe_plain, sm_subscribe_plain by done. fold (view h).
  destruct (registered_view h c Hok Hc) as [ps Hps]. specialize (Hno ps Hps).
  apply map_eq. intros i. destruct (decide (digest c = i)) as [<-|Hi].
  - rewrite !lookup_alter_eq, Hps. simpl. do 2 f_equal. set_solver.
  - by rewrite !lookup_alter_ne.
Qed.

(** A client has at most one data channel: registering one for a registered token succeeds
    exactly when the client has none, is then what its publishers see, and is refused with an
    access error, leaving the store's slots as they are, otherwise; an unknown token is refused. *)
Theorem data_channel_exclusive (tok : Token) (ch : nat) (h : Hub) :
  hub_ok h -> fresh_channel ch h ->
  let '(r, h') := register_data_channel tok ch h in
  hub_ok h' /\
  match r with
  | Ok (ch', c) => ch' = ch /\ registered c h /\ token c = tok /\
      client_data_channel c h = None /\ client_data_channel c h' = Some ch /\
      (forall c', c' <> c -> registered c' h -> client_data_channel c' h' = client_data_channel c' h) /\
      client_data_channel c (unregister_data_channel tok h') = None
  | Err e => kind e = AccessDenied /\ cells h' = cells h /\
      (forall c, registered c h -> token c = tok -> is_Some (client_data_channel c h))
  end.
Proof.
  intros Hok Hfresh. pose proof (hub_ok_register_data_channel tok ch h Hfresh Hok) as Hok'.
  revert Hok'. unfold register_data_channel. destruct Hok as [Hok Hst].
  destruct (clients_by_token (hub_db h) !! tok) as [c|] eqn:Et; simpl.
  2:{ intros Hok'. split_and!; try done. unfold registered, by_token. intros c Hc <-. congruence. }
  destruct (ok_token _ Hok _ _ Et) as [E _].
  assert (registered c h) as Hc by by unfold registered; rewrite E.
  destruct (client_data_channel c h) as [ch0|] eqn:Edc; simpl; intros Hok'; split_and!; try done.
  - intros c' Hc' Et'. rewrite (registered_token h c' c) by (done || congruence). by rewrite Edc.
  - rewrite client_data_channel_clone. unfold client_data_channel. simpl. rewrite lookup_alter_eq.
    destruct (ok_cell _ Hst c Hc) as [cell ->]. done.
  - intros c' Hne Hc'. rewrite client_data_channel_clone. unfold client_data_channel. simpl. rewrite lookup_alter_ne; [done|].
    intros E'. by apply Hne, (ok_id _ Hst).
  - by apply unregister_clears.
Qed.
End reachable.

(** ** Witnesses: one client registered in the concrete instances *)

Definition demo_token (b : byte) : bytes := replicate 32 b.

Definition demo_client : ServerClient :=
  mkServerClient 0 (bs "user1") (demo_token x01) (bs "10.0.0.1:4000") (demo_token x01).

Definition demo_hub : Hub :=
  match register_client (bs "user1") (bs "10.0.0.1:4000")
          (empty_hub [Ok (demo_token x01); Ok (demo_token x02)]) with
  | Some (_, h) => h
  | None => empty_hub []
  end.

Lemma demo_registers :
  register_client (bs "user1") (bs "10.0.0.1:4000")
    (empty_hub [Ok (demo_token x01); Ok (demo_token x02)]) = Some (Ok demo_client, demo_hub).
Proof. vm_refl. Qed.

Lemma demo_ok : hub_ok demo_hub.
Proof. eapply hub_ok_register_client; [apply hub_ok_empty|apply demo_registers]. Qed.

Lemma demo_registered : registered demo_client demo_hub.
Proof. unfold registered. vm_refl. Qed.

Lemma demo_fresh : fresh_channel 1 (new_channel 8 demo_hub).2.
Proof.
  split; [exists (ch_bounded 8); vm_refl|]. intros i cell.
  assert (cells (new_channel 8 demo_hub).2 = {[ 0 := mkCell None [] 2 ]}) as -> by vm_refl.
  rewrite lookup_singleton. case_decide; [by intros [= <-]|done].
Qed.

Lemma demo_view : view demo_hub = {[ demo_token x01 := (demo_client, ∅) ]}.
Proof. unfold view. vm_refl. Qed.

Lemma plain_demo : plain_pattern (bs "sensors/+").
Proof.
  unfold plain_pattern.
  assert (split_on slash (bs "sensors/+") = PathMask.collect (split_on slash (bs "sensors/+")))
    as -> by vm_refl.
  apply collect_hash_last.
Qed.

Lemma hub_invariant_witness : hub_ok demo_hub.
Proof.
  apply (hub_invariant [Ok (demo_token x01); Ok (demo_token x02)]).
  eapply reach_step; [apply reach_empty|]. eapply step_register. apply demo_registers.
Defined.

Lemma register_client_spec_witness :
  by_token (empty_hub [Ok (demo_token x01); Ok (demo_token x02)]) !! token demo_client = None.
Proof.
  apply (register_client_spec (bs "user1") (bs "10.0.0.1:4000")
           (empty_hub [Ok (demo_token x01); Ok (demo_token x02)]) demo_hub (Ok demo_client));
    [apply hub_ok_empty|apply demo_registers].
Defined.

(** The first token is in use: the loop turns once more. *)
Lemma register_client_terminates_witness :
  exists c h', register_client (bs "user2") []
    (set_rng (map Ok [demo_token x01; demo_token x02] ++ []) demo_hub) = Some (Ok c, h').
Proof.
  apply (register_client_terminates [demo_token x01; demo_token x02] []);
    [done| |vm_compute; reflexivity].
  apply (bool_decide_unpack _). vm_compute. exact I.
Defined.

Lemma unregister_client_spec_witness :
  by_token (unregister_client demo_client demo_hub) !! token demo_client = None.
Proof. apply (unregister_client_spec demo_client demo_hub demo_ok demo_registered). Defined.

Lemma subscribe_spec_witness :
  exists h', subscribe 64 (bs "/sensors//+") demo_client demo_hub = (Ok tt, h') /\
    demo_client ∈ get_subscribers (bs "sensors/1") h'.
Proof.
  pose proof (subscribe_spec 64 (bs "/sensors//+") demo_client demo_hub demo_ok demo_registered)
    as H.
  assert (prepare_topic 64 (bs "/sensors//+") = Ok (bs "sensors/+")) as E by vm_refl.
  rewrite E in H. destruct (H plain_demo) as (h' & -> & _ & Hsub).
  exists h'. split; [done|]. apply Hsub. right. split; [done|vm_refl].
Defined.

Lemma subscribe_unsubscribe_witness :
  view (unsubscribe 64 (bs "sensors/+") demo_client
          (subscribe 64 (bs "sensors/+") demo_client demo_hub).2).2 = view demo_hub.
Proof.
  apply (subscribe_unsubscribe 64 (bs "sensors/+") (bs "sensors/+") demo_client demo_hub);
    [apply demo_ok|apply demo_registered|vm_refl|apply plain_demo|].
  rewrite demo_view. intros ps. rewrite lookup_singleton. case_decide; [|done].
  intros [= <-]. set_solver.
Defined.

Lemma data_channel_exclusive_witness :
  let h := (new_channel 8 demo_hub).2 in
  hub_ok (register_data_channel (demo_token x01) 1 h).2.
Proof.
  intros h. pose proof (data_channel_exclusive (demo_token x01) 1 h
    (hub_ok_new_channel 8 demo_hub demo_ok) demo_fresh) as H.
  destruct (register_data_channel (demo_token x01) 1 h) as [r h']. apply H.
Defined.
