(* ===== verification/Passwords.v ===== *)
(** * Passwords: src/src/passwords.rs

    The password file is read line by line ([login:hash], comments and malformed lines skipped) into
    a map from logins to bcrypt hashes. [bcrypt::verify] and the file system are parameters. *)

From S2P Require Import Prelude Utf8 Proto.

(** [bcrypt::verify(password, hash)], with the [Display] of its error. *)
Class BcryptOps : Type := { bcrypt_verify : bytes -> bytes -> result bool bytes }.

Record Passwords : Type := mkPasswords {
  password_file : option bytes;
  passwords : option (gmap bytes bytes);
}.

Module Passwords.

Definition default : Passwords := mkPasswords None None.

Definition set_password_file (path : bytes) (p : Passwords) : Passwords :=
  mkPasswords (Some path) (passwords p).

(** The body of the loop of [reload]: the entry of a line, if it is one. *)
Definition parse_line (line : bytes) : option (bytes * bytes) :=
  match split_on x3a (trim line) with
  | [p0; p1] => if starts_with (bs "#") p0 then None else Some (trim p0, trim p1)
  | _ => None
  end.

Fixpoint load_lines (ls : list bytes) (map : gmap bytes bytes) : gmap bytes bytes :=
  match ls with
  | [] => map
  | l :: ls' => load_lines ls' (match parse_line l with
                                | Some (login, hash) => <[login := hash]> map
                                | None => map
                                end)
  end.

Section reload.
(** The file system, with the error [?] converts. *)
Variable read_to_string : bytes -> result bytes IoError.

Definition reload (p : Passwords) : Passwords * result unit Error :=
  match password_file p with
  | Some path =>
      match map_err from_io_error (read_to_string path) with
      | Ok data => (mkPasswords (password_file p) (Some (load_lines (lines (trim data)) ∅)), Ok tt)
      | Err e => (p, Err e)
      end
  | None => (p, Ok tt)
  end.
End reload.

Definition verify `{BcryptOps} (p : Passwords) (login password : bytes) : bool :=
  match passwords p with
  | Some map =>
      match map !! login with
      | Some hash => match bcrypt_verify password hash with Ok b => b | Err _ => false end
      | None => false
      end
  | None => false
  end.

End Passwords.

(** ** Which line counts *)

Lemma load_lines_lookup ls m login :
  Passwords.load_lines ls m !! login =
    match list_find (fun e => e.1 = login) (reverse (omap Passwords.parse_line ls)) with
    | Some (_, e) => Some e.2
    | None => m !! login
    end.
Proof.
  revert m; induction ls as [|l ls IH]; intros m; [done|]. cbn [Passwords.load_lines omap list_omap].
  rewrite IH. destruct (Passwords.parse_line l) as [[lg h]|]; [|done].
  rewrite reverse_cons. destruct (list_find _ (reverse _)) as [[i e]|] eqn:E.
  - by rewrite (list_find_app_l _ _ _ i e).
  - rewrite list_find_app_r by done. cbn [list_find prod_map]. case_decide as D; simpl in *.
    + subst. by rewrite lookup_insert_eq.
    + by rewrite lookup_insert_ne.
Qed.

(** ** Text that trimming leaves alone *)

(** A printable ASCII character that is neither a space nor the separator. *)
Definition graphic (b : byte) : Prop := (33 <= to_N b <= 126)%N /\ b <> x3a.

#[export] Instance graphic_dec b : Decision (graphic b).
Proof. unfold graphic. apply _. Defined.

Definition word (s : bytes) : Prop := s <> [] /\ Forall graphic s.

(** The first byte of no white space, from either side, is graphic. *)
Definition no_graphic_head (p : bytes) : bool :=
  match p with b :: _ => negb (bool_decide (33 <= to_N b <= 126)%N) | [] => false end.

Lemma strip_one_graphic pats b s :
  forallb no_graphic_head pats = true -> (33 <= to_N b <= 126)%N -> strip_one pats (b :: s) = None.
Proof.
  intros Hp Hb. induction pats as [|p pats IH]; simpl in *; [done|].
  apply andb_true_iff in Hp as [Hp1 Hp2]. destruct p as [|a p]; [done|]. simpl in Hp1.
  unfold starts_with. rewrite bool_decide_eq_false_2; [by apply IH|]. intros [= -> _].
  by rewrite bool_decide_eq_true_2 in Hp1.
Qed.

Lemma strip_all_graphic n pats b s :
  forallb no_graphic_head pats = true -> (33 <= to_N b <= 126)%N ->
  strip_all n pats (b :: s) = b :: s.
Proof. intros. destruct n; simpl; [done|]. by rewrite strip_one_graphic. Qed.

Lemma trim_bounded a s z :
  (33 <= to_N a <= 126)%N -> (33 <= to_N z <= 126)%N -> trim (a :: s ++ [z]) = a :: s ++ [z].
Proof.
  intros. unfold trim, trim_start. rewrite strip_all_graphic by done.
  unfold trim_end. rewrite app_comm_cons, reverse_snoc, strip_all_graphic by done.
  by rewrite <- reverse_snoc, reverse_involutive.
Qed.

(** The two ends of a text. *)
Inductive bounded : bytes -> Prop :=
| bounded_one a : graphic a -> bounded [a]
| bounded_more a s z : graphic a -> graphic z -> bounded (a :: s ++ [z]).

Lemma trim_of_bounded s : bounded s -> trim s = s.
Proof.
  destruct 1 as [a [Ha _]|a s z [Ha _] [Hz _]]; [|by apply trim_bounded].
  unfold trim, trim_start, trim_end.
  rewrite strip_all_graphic by done. change (reverse [a]) with [a].
  by rewrite strip_all_graphic.
Qed.

Lemma word_bounded s : word s -> bounded s.
Proof.
  intros [Hne Hs]. destruct s as [|a s]; [done|].
  apply Forall_cons in Hs as [Ha Hs]. destruct s as [|z s _] using rev_ind; [by constructor|].
  apply Forall_app in Hs as [_ [Hz _]%Forall_cons]. by constructor.
Qed.

Lemma bounded_app s1 s2 s3 : bounded s1 -> bounded s3 -> bounded (s1 ++ s2 ++ s3).
Proof.
  intros H1 H3.
  assert (exists a s, graphic a /\ s1 = a :: s) as (a & s & Ha & ->) by (destruct H1; eauto).
  assert (exists z s', graphic z /\ s3 = s' ++ [z]) as (z & s' & Hz & ->).
  { destruct H3 as [z Hz|b s' z ? Hz]; [by exists z, []|]. exists z, (b :: s'). done. }
  replace ((a :: s) ++ s2 ++ s' ++ [z]) with (a :: (s ++ s2 ++ s') ++ [z])
    by by rewrite <- !app_assoc.
  by constructor.
Qed.

Lemma bounded_join ls : ls <> [] -> Forall bounded ls -> bounded (join [x0a] ls).
Proof.
  intros Hne Hls. induction Hls as [|l ls Hl Hls IH]; [done|].
  destruct ls as [|l' ls]; [done|]. cbn [join]. apply bounded_app; [done|]. by apply IH.
Qed.

Lemma strip_cr_bounded l : bounded l -> strip_cr l = l.
Proof.
  intros Hl. unfold strip_cr, ends_with, starts_with. rewrite bool_decide_eq_false_2; [done|].
  assert (exists s z, graphic z /\ l = s ++ [z]) as (s & z & [Hz _] & ->).
  { destruct Hl as [z Hz|b s' z ? Hz]; [by exists [], z|]. by exists (b :: s'), z. }
  rewrite reverse_snoc. intros [= <-]. vm_compute in Hz. by destruct Hz as [[] _].
Qed.

Lemma lines_of_bounded ls : Forall bounded ls -> lines_of ls = ls.
Proof.
  induction 1 as [|l ls Hl Hls IH]; [done|]. destruct ls as [|l' ls].
  - simpl. rewrite decide_False; [done|]. by destruct Hl.
  - change (lines_of (l :: l' :: ls)) with (strip_cr l :: lines_of (l' :: ls)). by rewrite IH, strip_cr_bounded.
Qed.

Lemma lines_join ls :
  Forall (fun l => bounded l /\ x0a ∉ l) ls -> lines (trim (join [x0a] ls)) = ls.
Proof.
  intros Hls. apply Forall_and in Hls as [Hb Hn]. destruct ls as [|l ls]; [done|].
  rewrite trim_of_bounded by (apply bounded_join; done).
  unfold lines. rewrite split_on_join by done. by apply lines_of_bounded.
Qed.

(** ** Files as an administrator writes them *)

(** A login that is no comment, and a hash. *)
Definition entry_ok (e : bytes * bytes) : Prop :=
  word e.1 /\ word e.2 /\ starts_with (bs "#") e.1 = false.

Definition render_entry (e : bytes * bytes) : bytes := e.1 ++ x3a :: e.2.

Definition render (es : list (bytes * bytes)) : bytes := join [x0a] (map render_entry es).

Lemma word_no_sep s c : word s -> c = x3a \/ c = x0a -> c ∉ s.
Proof.
  intros [_ Hs] Hc Hin. rewrite Forall_forall in Hs. destruct (Hs c Hin) as [Hg Hne].
  destruct Hc as [->| ->]; [done|]. vm_compute in Hg. by destruct Hg as [[] _].
Qed.

Lemma entry_line e : entry_ok e -> bounded (render_entry e) /\ x0a ∉ render_entry e.
Proof.
  intros (H1 & H2 & _). unfold render_entry. split.
  - apply (bounded_app _ [x3a]); by apply word_bounded.
  - rewrite elem_of_app, elem_of_cons.
    intros [Hx|[?|Hx]]; [|done|]; revert Hx; apply word_no_sep; auto.
Qed.

Lemma parse_line_entry e : entry_ok e -> Passwords.parse_line (render_entry e) = Some e.
Proof.
  intros He. destruct (entry_line e He) as [Hb _]. destruct He as (H1 & H2 & H3).
  unfold Passwords.parse_line. rewrite trim_of_bounded by done.
  unfold render_entry. rewrite split_on_app by (eapply word_no_sep; eauto).
  rewrite split_on_not_in by (eapply word_no_sep; eauto).
  rewrite H3, !trim_of_bounded by by apply word_bounded. by destruct e.
Qed.

Lemma parse_lines_render es :
  Forall entry_ok es -> omap Passwords.parse_line (lines (trim (render es))) = es.
Proof.
  intros Hes. unfold render. rewrite lines_join.
  - induction Hes as [|e es He Hes IH]; [done|]. cbn. by rewrite parse_line_entry, IH.
  - apply Forall_map. eapply Forall_impl; [exact Hes|]. intros e He. by apply entry_line.
Qed.

(** The entry of a login that a list of entries ends up with: the last one. *)
Definition last_entry (login : bytes) (es : list (bytes * bytes)) : option bytes :=
  (fun p => p.2.2) <$> list_find (fun e => e.1 = login) (reverse es).

(** ** Properties *)

(** [reload] keeps the passwords it has when the file cannot be read, is a no-op without a
    file, and otherwise replaces them; a login then verifies exactly the passwords that bcrypt
    accepts for the hash on the last line of the file that has this login. *)
Theorem password_reload_spec `{BcryptOps} (read_to_string : bytes -> result bytes IoError)
    (p : Passwords) :
  let '(p', r) := Passwords.reload read_to_string p in
  password_file p' = password_file p /\
  match password_file p with
  | None => p' = p /\ r = Ok tt
  | Some f =>
      match read_to_string f with
      | Err e => p' = p /\ r = Err (from_io_error e)
      | Ok data => r = Ok tt /\
          forall login pw, Passwords.verify p' login pw = true <->
            exists h, last_entry login (omap Passwords.parse_line (lines (trim data))) = Some h /\
              bcrypt_verify pw h = Ok true
      end
  end.
Proof.
  unfold Passwords.reload. destruct (password_file p) as [f|] eqn:Ef; [|done].
  destruct (read_to_string f) as [data|e]; simpl; [|done]. split_and!; [done..|].
  intros login pw. unfold Passwords.verify. simpl. rewrite load_lines_lookup, lookup_empty.
  unfold last_entry. destruct (list_find _ _) as [[i e]|]; simpl.
  - split; [|by intros (h & [= <-] & ->)]. intros Hv. exists e.2. split; [done|].
    by destruct (bcrypt_verify pw e.2) as [[]|].
  - split; [done|]. by intros (h & ? & _).
Qed.

(** A password file written with one [login:hash] line per entry reads back: every login
    verifies against the hash of its last entry, and no other login verifies. *)
Theorem password_file_roundtrip `{BcryptOps} (f : bytes) (es : list (bytes * bytes))
    (p : Passwords) (login pw : bytes) :
  Forall entry_ok es -> password_file p = Some f ->
  let p' := (Passwords.reload (fun _ => Ok (render es)) p).1 in
  Passwords.verify p' login pw =
    match last_entry login es with
    | Some h => bool_decide (bcrypt_verify pw h = Ok true)
    | None => false
    end.
Proof.
  intros Hes Hf. unfold Passwords.reload. rewrite Hf. simpl.
  unfold Passwords.verify. simpl. rewrite load_lines_lookup, lookup_empty, parse_lines_render by done.
  unfold last_entry. destruct (list_find _ _) as [[i e]|]; simpl; [|done].
  destruct (bcrypt_verify pw e.2) as [[]|]; [by rewrite bool_decide_eq_true_2| |];
    by rewrite bool_decide_eq_false_2.
Qed.

(** Plain text in place of bcrypt. *)
Definition demo_bcrypt : BcryptOps := {| bcrypt_verify pw h := Ok (bool_decide (pw = h)) |}.

Lemma password_file_roundtrip_witness :
  @Passwords.verify demo_bcrypt
    (Passwords.reload (fun _ => Ok (render [(bs "admin", bs "a1"); (bs "user", bs "u1");
                                            (bs "admin", bs "a2")]))
       (mkPasswords (Some (bs "passwd")) None)).1 (bs "admin") (bs "a2") = true.
Proof.
  rewrite (@password_file_roundtrip demo_bcrypt (bs "passwd")); [vm_compute; reflexivity| |done].
  repeat apply Forall_cons_2; [..|apply Forall_nil_2];
    (split; [split; [done|] | split; [split; [done|]|vm_compute; reflexivity]]);
    apply (bool_decide_unpack _); vm_compute; exact I.
Defined.
