(* ===== verification/Keys.v ===== *)
(** * Pre-shared keys of encrypted datagrams: src/src/keys.rs

    The encryption types, the key file with its check against the access lists, and the
    authenticated decryption of a block. OpenSSL's AES-GCM and the YAML parser are parameters; a
    panic of the code is [None]. *)

From S2P Require Import Prelude Utf8 Proto Acl Token.

Inductive EncryptionType : Type :=
| No
| Aes128Gcm
| Aes256Gcm.

#[export] Instance EncryptionType_eq_dec : EqDecision EncryptionType.
Proof. solve_decision. Defined.

Module EncryptionType.

Definition from_byte (b : byte) : result EncryptionType Error :=
  if decide (b = AUTH_LOGIN_PASS) then Ok No
  else if decide (b = AUTH_KEY_AES128_GCM) then Ok Aes128Gcm
  else if decide (b = AUTH_KEY_AES256_GCM) then Ok Aes256Gcm
  else Err (invalid_data (bs "unsupported encryption type")).

(** The discriminant, [tp as u8]. *)
Definition to_byte (tp : EncryptionType) : byte :=
  match tp with
  | No => AUTH_LOGIN_PASS
  | Aes128Gcm => AUTH_KEY_AES128_GCM
  | Aes256Gcm => AUTH_KEY_AES256_GCM
  end.

Definition need_decrypt (tp : EncryptionType) : bool := negb (bool_decide (tp = No)).

End EncryptionType.

(** [symm::encrypt_aead] and [symm::decrypt_aead] with no additional data: the ciphertext and the
    tag, and the [Display] of the error stack. *)
Inductive Cipher : Type := aes_128_gcm | aes_256_gcm.

Class AeadOps : Type := {
  encrypt_aead : Cipher -> bytes -> bytes -> bytes -> result (bytes * bytes) bytes;
  decrypt_aead : Cipher -> bytes -> bytes -> bytes -> bytes -> result bytes bytes;
}.

Class AeadLaws `{AeadOps} : Prop := {
  (** A 16-byte tag; the ciphertext is as long as the plain text and decrypts to it. *)
  aead_seal c key iv pt ct tag :
    encrypt_aead c key iv pt = Ok (ct, tag) ->
    length ct = length pt /\ length tag = 16 /\ decrypt_aead c key iv ct tag = Ok pt;
  aead_open_length c key iv ct tag pt :
    decrypt_aead c key iv ct tag = Ok pt -> length pt = length ct;
}.

(** [decrypt(cipher, key, iv, data)]: [data.len() - 16] wraps, an index out of range panics. *)
Definition decrypt `{AeadOps} (cipher : Cipher) (key iv data : bytes) :
    option (result bytes Error) :=
  let digest_pos := wsub 64 (len data) 16 in
  if (len data <? digest_pos)%N then None
  else Some (map_err from_error_stack
               (decrypt_aead cipher key iv (take (N.to_nat digest_pos) data)
                  (drop (N.to_nat digest_pos) data))).

Record Key : Type := mkKey {
  cipher_aes_128 : bytes;
  cipher_aes_256 : bytes;
}.

Record Keys : Type := mkKeys {
  key_file : option bytes;
  keys : option (gmap bytes Key);
}.

Module Keys.

Definition default : Keys := mkKeys None None.

Definition set_key_file (path : bytes) (k : Keys) : Keys := mkKeys (Some path) (keys k).

Section keys.
Context `{HexOps} `{AeadOps}.
(** The file system and the YAML parser, each with the error [?] converts. *)
Variable read_to_string : bytes -> result bytes IoError.
Variable parse_keys : bytes -> result (gmap bytes bytes) bytes.

(** The body of the loop of [reload] for one login: its key, unless it is skipped. *)
Definition load_key (acl_db : Db) (login k : bytes) : option Key :=
  match Token.from_str k with
  | Ok token =>
      if Db.has_acl acl_db login
      then Some (mkKey (take 16 (Token.as_bytes token)) (Token.as_bytes token))
      else None
  | Err _ => None
  end.

(** [reload], which reads the database of access lists. *)
Definition reload (acl_db : Db) (ks : Keys) : Keys * result unit Error :=
  match key_file ks with
  | Some path =>
      match map_err from_io_error (read_to_string path) with
      | Ok data =>
          match map_err from_serde_error (parse_keys data) with
          | Ok m => (mkKeys (key_file ks) (Some (map_imap (load_key acl_db) m)), Ok tt)
          | Err e => (ks, Err e)
          end
      | Err e => (ks, Err e)
      end
  | None => (ks, Ok tt)
  end.

(** [None]: a panic. *)
Definition auth_and_decr (ks : Keys) (block key_id : bytes) (tp : EncryptionType) :
    option (result bytes Error) :=
  match keys ks ≫= lookup key_id with
  | Some key =>
      if (len block <? 29)%N then Some (Err (invalid_data (bs "Invalid encrypted data")))
      else
        match tp with
        | Aes128Gcm =>
            decrypt aes_128_gcm (cipher_aes_128 key) (take 12 block) (drop 12 block)
        | Aes256Gcm =>
            decrypt aes_256_gcm (cipher_aes_256 key) (take 12 block) (drop 12 block)
        | No => None
        end
  | None => Some (Err (access (bs "no such key id: " ++ key_id)))
  end.
End keys.

End Keys.

(** ** Lemmas *)

Lemma from_to_byte tp : EncryptionType.from_byte (EncryptionType.to_byte tp) = Ok tp.
Proof. by destruct tp. Qed.

Lemma from_byte_Ok b tp : EncryptionType.from_byte b = Ok tp -> b = EncryptionType.to_byte tp.
Proof. unfold EncryptionType.from_byte. intros. by repeat case_decide; simplify_eq. Qed.

(** A slice as long as a tag is cut without a wrap-around. *)
Lemma decrypt_cut `{AeadOps} c key iv (ct tag : bytes) :
  length tag = 16 -> (len (ct ++ tag) < 2 ^ 64)%N ->
  decrypt c key iv (ct ++ tag) =
    Some (map_err from_error_stack (decrypt_aead c key iv ct tag)).
Proof.
  intros Ht Hl. unfold decrypt.
  assert (wsub 64 (len (ct ++ tag)) 16 = len ct) as ->.
  { rewrite len_app in *. unfold wsub. replace (len tag) with 16%N in * by (unfold len; lia).
    replace (len ct + 16 + 2 ^ 64 - 16)%N with (len ct + 1 * 2 ^ 64)%N by lia.
    rewrite N.Div0.mod_add. apply N.mod_small. lia. }
  rewrite (proj2 (N.ltb_ge _ _)) by (rewrite len_app; lia).
  unfold len. rewrite Nat2N.id, take_app_length, drop_app_length. done.
Qed.

Lemma decrypt_total `{AeadOps} c key iv (data : bytes) :
  (16 <= len data < 2 ^ 64)%N -> is_Some (decrypt c key iv data).
Proof.
  intros Hd. rewrite <- (take_drop (length data - 16) data). rewrite decrypt_cut; [by eexists|..].
  - rewrite length_drop. unfold len in Hd. lia.
  - rewrite take_drop. lia.
Qed.

(** ** Properties *)

(** A reload keeps the keys it has on an error; otherwise a login has a key exactly when the key
    file gives it a well-formed 32-byte token and an access list is defined for it, and the AES-128
    key is then the first half of the AES-256 key. *)
Theorem key_reload_spec `{HexOps} (read_to_string : bytes -> result bytes IoError)
    (parse_keys : bytes -> result (gmap bytes bytes) bytes) (db : Db) (ks : Keys) :
  let '(ks', r) := Keys.reload read_to_string parse_keys db ks in
  match r with
  | Err _ => ks' = ks /\ is_Some (key_file ks)
  | Ok _ =>
      match key_file ks with
      | None => ks' = ks
      | Some f => exists text m,
          read_to_string f = Ok text /\ parse_keys text = Ok m /\ key_file ks' = Some f /\
          forall login, (keys ks' ≫= lookup login) =
            match m !! login with
            | Some k =>
                match Token.from_str k, Db.get_acl db login with
                | Ok t, Some _ => Some (mkKey (take 16 t) t)
                | _, _ => None
                end
            | None => None
            end
      end
  end.
Proof.
  unfold Keys.reload. destruct (key_file ks) as [f|] eqn:Ef; [|done].
  destruct (read_to_string f) as [text|e] eqn:Et; simpl; [|by eauto].
  destruct (parse_keys text) as [m|e] eqn:Em; simpl; [|by eauto].
  exists text, m. split_and!; try done. intros login. rewrite map_lookup_imap.
  destruct (m !! login) as [k|]; [|done]. simpl. unfold Keys.load_key, Db.has_acl, Db.get_acl.
  destruct (Token.from_str k); [|done]. by destruct (acls db !! login).
Qed.

(** Decrypting a datagram's block never panics when the type of the datagram is an encrypted
    one, for any block and key; an unknown key is an access error, and a block too short for
    nonce, tag and one byte of data is invalid. *)
Theorem auth_and_decr_total `{AeadOps} (ks : Keys) (block key_id : bytes) (tp : EncryptionType) :
  EncryptionType.need_decrypt tp = true -> (len block < 2 ^ 64)%N ->
  exists r, Keys.auth_and_decr ks block key_id tp = Some r /\
    (keys ks ≫= lookup key_id = None -> r = Err (access (bs "no such key id: " ++ key_id))) /\
    (is_Some (keys ks ≫= lookup key_id) -> (len block < 29)%N ->
       r = Err (invalid_data (bs "Invalid encrypted data"))).
Proof.
  intros Htp Hlen. unfold Keys.auth_and_decr.
  destruct (keys ks ≫= lookup key_id) as [key|]; [|by eexists; split_and!].
  destruct (N.ltb_spec (len block) 29) as [Hs|Hs]; [by eexists; split_and!|].
  assert (16 <= len (drop 12 block) < 2 ^ 64)%N as Hd
    by (unfold len in *; rewrite length_drop; lia).
  destruct tp; [done|..].
  - destruct (decrypt_total aes_128_gcm (cipher_aes_128 key) (take 12 block) _ Hd) as [r ->].
    exists r. split_and!; [done..|]. lia.
  - destruct (decrypt_total aes_256_gcm (cipher_aes_256 key) (take 12 block) _ Hd) as [r ->].
    exists r. split_and!; [done..|]. lia.
Qed.

(** The cipher and the key an encryption type uses. *)
Definition cipher_of (tp : EncryptionType) (key : Key) : option (Cipher * bytes) :=
  match tp with
  | No => None
  | Aes128Gcm => Some (aes_128_gcm, cipher_aes_128 key)
  | Aes256Gcm => Some (aes_256_gcm, cipher_aes_256 key)
  end.

(** The block is a nonce, a cipher text and a tag that this key opens to the plain text. *)
Definition opens `{AeadOps} (ks : Keys) (key_id : bytes) (tp : EncryptionType) (block pt : bytes) :
    Prop :=
  exists key c k iv ct tag,
    keys ks ≫= lookup key_id = Some key /\ cipher_of tp key = Some (c, k) /\
    block = iv ++ ct ++ tag /\ length iv = 12 /\ length tag = 16 /\
    decrypt_aead c k iv ct tag = Ok pt.

Lemma decrypt_opens `{AeadOps} c k iv (data : bytes) :
  (16 <= len data < 2 ^ 64)%N ->
  exists r ct tag, decrypt c k iv data = Some r /\ data = ct ++ tag /\ length tag = 16 /\
    forall pt, r = Ok pt -> decrypt_aead c k iv ct tag = Ok pt.
Proof.
  intros Hd. set (n := length data - 16).
  assert (length (drop n data) = 16) as Hl by (rewrite length_drop; unfold n, len in *; lia).
  exists (map_err from_error_stack (decrypt_aead c k iv (take n data) (drop n data))),
    (take n data), (drop n data).
  pose proof (decrypt_cut c k iv (take n data) (drop n data) Hl) as Hc. rewrite take_drop in Hc.
  rewrite Hc by lia. split_and!; [done|by rewrite take_drop|done|].
  intros pt. by destruct (decrypt_aead _ _ _ _ _) as [x|e]; [intros [= <-]|].
Qed.

(** No panic, and behind every success a key that opens the block. *)
Lemma auth_and_decr_opens `{AeadOps} ks (block : bytes) key_id tp :
  EncryptionType.need_decrypt tp = true -> (len block < 2 ^ 64)%N ->
  exists r, Keys.auth_and_decr ks block key_id tp = Some r /\
    forall pt, r = Ok pt -> opens ks key_id tp block pt.
Proof.
  intros Htp Hlen. unfold Keys.auth_and_decr, opens.
  destruct (keys ks ≫= lookup key_id) as [key|]; [|by eexists].
  destruct (N.ltb_spec (len block) 29) as [Hs|Hs]; [by eexists|].
  assert (16 <= len (drop 12 block) < 2 ^ 64)%N as Hd
    by (unfold len in *; rewrite length_drop; lia).
  assert (length (take 12 block) = 12) as Hiv by (rewrite length_take; unfold len in Hs; lia).
  assert (forall c k, cipher_of tp key = Some (c, k) -> exists r,
    decrypt c k (take 12 block) (drop 12 block) = Some r /\
    forall pt, r = Ok pt -> exists key0 c k iv ct tag,
      Some key = Some key0 /\ cipher_of tp key0 = Some (c, k) /\
      block = iv ++ ct ++ tag /\ length iv = 12 /\ length tag = 16 /\
      decrypt_aead c k iv ct tag = Ok pt) as Hopen.
  { intros c k Hc. destruct (decrypt_opens c k (take 12 block) _ Hd) as (r & ct & tag & Hr & Hct & Ht & Ho).
    exists r. split; [done|]. intros pt Hpt. exists key, c, k, (take 12 block), ct, tag.
    rewrite <- Hct, take_drop. eauto 10. }
  destruct tp; [done|by apply Hopen..].
Qed.

(** A sealed block, nonce first and tag last, opens to its plain text. *)
Lemma auth_and_decr_sealed `{AeadLaws} ks key_id key tp c k (iv pt ct tag : bytes) :
  keys ks ≫= lookup key_id = Some key -> cipher_of tp key = Some (c, k) ->
  encrypt_aead c k iv pt = Ok (ct, tag) -> length iv = 12 -> pt <> [] ->
  (len pt < 2 ^ 64 - 28)%N ->
  Keys.auth_and_decr ks (iv ++ ct ++ tag) key_id tp = Some (Ok pt).
Proof.
  intros Hk Hc Hs Hiv Hne Hlen. apply aead_seal in Hs as (Hct & Htag & Hd).
  unfold Keys.auth_and_decr. rewrite Hk.
  assert (length pt <> 0) by by destruct pt.
  assert (len (ct ++ tag) < 2 ^ 64)%N by (unfold len in *; rewrite length_app; lia).
  rewrite (proj2 (N.ltb_ge _ _)) by (unfold len; rewrite !length_app; lia).
  rewrite take_app_length', drop_app_length' by done.
  destruct tp; simplify_eq/=; rewrite decrypt_cut by done; by rewrite Hd.
Qed.

(** The plain text of a block is not longer than the block. *)
Lemma auth_and_decr_length `{AeadLaws} ks (block pt : bytes) key_id tp :
  Keys.auth_and_decr ks block key_id tp = Some (Ok pt) -> (len pt <= len block)%N.
Proof.
  unfold Keys.auth_and_decr. destruct (_ ≫= lookup key_id) as [key|]; [|done].
  destruct (_ <? 29)%N; [done|].
  assert (forall c k, decrypt c k (take 12 block) (drop 12 block) = Some (Ok pt) ->
    (len pt <= len block)%N) as Hd.
  { intros c k. unfold decrypt. destruct (_ <? _)%N; [done|].
    destruct (decrypt_aead _ _ _ _ _) as [pt'|e] eqn:E; [|done]. intros [= ->].
    apply aead_open_length in E. unfold len. rewrite E, length_take, length_drop. lia. }
  destruct tp; [done|apply Hd..].
Qed.

(** ** A concrete cipher, for the witnesses *)

(** The plain text with the first 16 bytes of the key as its tag. *)
Definition ref_tag (key : bytes) : bytes := take 16 (key ++ replicate 16 x00).

#[export] Instance ref_aead : AeadOps := {|
  encrypt_aead _ key _ pt := Ok (pt, ref_tag key);
  decrypt_aead _ key _ ct tag :=
    if bool_decide (tag = ref_tag key) then Ok ct else Err (bs "tag mismatch");
|}.

#[export] Instance ref_aead_laws : AeadLaws.
Proof.
  split.
  - intros c key iv pt ct tag [= <- <-]. split_and!; [done| |].
    + unfold ref_tag. rewrite length_take, length_app, length_replicate. lia.
    + simpl. by rewrite bool_decide_eq_true_2.
  - simpl. intros c key iv ct tag pt. case_bool_decide; [by intros [= <-]|done].
Qed.

Definition demo_keys : Keys :=
  mkKeys None (Some {[ bs "user1" := mkKey (replicate 16 x07) (replicate 32 x07) ]}).

Lemma auth_and_decr_total_witness :
  exists r, Keys.auth_and_decr demo_keys (replicate 28 x00) (bs "user1") Aes128Gcm = Some r /\
    r = Err (invalid_data (bs "Invalid encrypted data")).
Proof.
  destruct (auth_and_decr_total demo_keys (replicate 28 x00) (bs "user1") Aes128Gcm) as (r & E & _ & H);
    [done|vm_compute; reflexivity|].
  exists r. split; [exact E|]. apply H; [|vm_compute; reflexivity].
  exists (mkKey (replicate 16 x07) (replicate 32 x07)). vm_refl.
Defined.
