(* ===== verification/Server.v ===== *)
(** * The server's shared state: the statics of src/src/server.rs

    The state that the tasks of [psrtd] share (the databases behind their locks, the counters, the
    atomics of the configuration), the counters of the module [stats], authentication, the lookup of
    access rules, and the delivery of a message to the subscribers ([push_to_subscribers]). *)

From S2P Require Import Prelude Utf8 Proto Io Acl Topic Token Pubsub Passwords Keys.

(** ** [stats::Counters]: 64-bit counters that wrap *)

Record Counters : Type := mkCounters {
  c_sub_ops : N;
  c_pub_messages : N;
  c_pub_bytes : N;
  c_sent_messages : N;
  c_sent_bytes : N;
  c_sent_latency : N;
}.

Module Counters.

Definition default : Counters := mkCounters 0 0 0 0 0 0.

Definition count_sub_ops (c : Counters) : Counters :=
  mkCounters (wrap 64 (c_sub_ops c + 1)) (c_pub_messages c) (c_pub_bytes c)
    (c_sent_messages c) (c_sent_bytes c) (c_sent_latency c).

Definition count_pub_bytes (size : N) (c : Counters) : Counters :=
  mkCounters (c_sub_ops c) (wrap 64 (c_pub_messages c + 1)) (wrap 64 (c_pub_bytes c + size))
    (c_sent_messages c) (c_sent_bytes c) (c_sent_latency c).

Definition count_sent_bytes (size latency : N) (c : Counters) : Counters :=
  mkCounters (c_sub_ops c) (c_pub_messages c) (c_pub_bytes c)
    (wrap 64 (c_sent_messages c + 1)) (wrap 64 (c_sent_bytes c + size))
    (wrap 64 (c_sent_latency c + latency)).

End Counters.

Definition ERR_INVALID_DATA_BLOCK : bytes := bs "Invalid data block".
Definition MAX_AUTH_FRAME_SIZE : N := 1024.
Definition DEFAULT_UDP_FRAME_SIZE : N := 4096.

Definition format_login (login : bytes) : bytes :=
  if bool_decide (login = []) then bs "anonymous" else login.

(** ** The shared state *)

(** A task a connection spawned, with the values its closure captured. *)
Inductive Task : Type :=
| Pinger (channel : nat) (beacon_interval : N)
| DataTask (tok : Token) (rx : nat) (timeout beacon_interval : N) (username addr : bytes).

(** The statics, the real-time clock of the machine, and the tasks spawned so far. *)
Record Server `{SubMapOps} `{ChannelOps} : Type := mkServer {
  hub : Hub;
  counters : Counters;
  acl_db : Db;
  password_db : Passwords;
  key_db : Keys;
  limits : Limits;
  allow_anonymous : bool;
  max_pub_size : N;
  max_topic_length : N;
  wall : Z * Z;
  spawned : list (nat * Task);
}.
Arguments mkServer {_ _} _ _ _ _ _ _ _ _ _ _ _.

Section server.
Context {SMO : SubMapOps} {CHO : ChannelOps} {SHO : Sha256Ops} {BCO : BcryptOps}.

Definition set_hub (h : Hub) (s : Server) : Server :=
  mkServer h (counters s) (acl_db s) (password_db s) (key_db s) (limits s) (allow_anonymous s)
    (max_pub_size s) (max_topic_length s) (wall s) (spawned s).

Definition set_counters (c : Counters) (s : Server) : Server :=
  mkServer (hub s) c (acl_db s) (password_db s) (key_db s) (limits s) (allow_anonymous s)
    (max_pub_size s) (max_topic_length s) (wall s) (spawned s).

Definition set_spawned (l : list (nat * Task)) (s : Server) : Server :=
  mkServer (hub s) (counters s) (acl_db s) (password_db s) (key_db s) (limits s)
    (allow_anonymous s) (max_pub_size s) (max_topic_length s) (wall s) l.

Definition set_acl_db (db : Db) (s : Server) : Server :=
  mkServer (hub s) (counters s) db (password_db s) (key_db s) (limits s) (allow_anonymous s)
    (max_pub_size s) (max_topic_length s) (wall s) (spawned s).

Definition set_password_db (db : Passwords) (s : Server) : Server :=
  mkServer (hub s) (counters s) (acl_db s) db (key_db s) (limits s) (allow_anonymous s)
    (max_pub_size s) (max_topic_length s) (wall s) (spawned s).

Definition set_key_db (db : Keys) (s : Server) : Server :=
  mkServer (hub s) (counters s) (acl_db s) (password_db s) db (limits s) (allow_anonymous s)
    (max_pub_size s) (max_topic_length s) (wall s) (spawned s).

Definition set_wall (t : Z * Z) (s : Server) : Server :=
  mkServer (hub s) (counters s) (acl_db s) (password_db s) (key_db s) (limits s)
    (allow_anonymous s) (max_pub_size s) (max_topic_length s) t (spawned s).

Definition with_hub (f : Hub -> Hub) (s : Server) : Server := set_hub (f (hub s)) s.

Definition with_counters (f : Counters -> Counters) (s : Server) : Server :=
  set_counters (f (counters s)) s.

Definition max_depth (s : Server) : N := max_topic_depth (limits s).

Definition server_now_ns (s : Server) : N := now_ns (wall s).

(** A critical section on the database. *)
Definition on_hub {X} (f : Hub -> X * Hub) : prog Server X :=
  atomic (fun s => let '(x, h) := f (hub s) in (x, set_hub h s)).

(** [tokio::spawn]: a fresh handle. *)
Definition spawn (t : Task) : prog Server nat :=
  atomic (fun s =>
    let id := next_id (hub s) in
    (id, set_spawned (spawned s ++ [(id, t)]) (with_hub (set_next (S id)) s))).

(** *** Authentication and access rules *)

Definition authenticate (s : Server) (login password : bytes) : bool :=
  Passwords.verify (password_db s) login password.

Definition get_acl (s : Server) (login : bytes) : option Acl :=
  Db.get_acl (acl_db s) (if bool_decide (login = []) then bs "_" else login).

(** *** Channels, by identity *)

Definition chan_is_full (ch : nat) (h : Hub) : bool :=
  match chans h !! ch with Some c => ch_is_full c | None => false end.

(** [dc.send(m).await] *)
Definition chan_send (m : MessageFrame) (ch : nat) (s : Server) : option (bool * Server) :=
  match chans (hub s) !! ch with
  | Some c =>
      match ch_send m c with
      | Some (b, c') => Some (b, with_hub (set_chans (<[ch := c']> (chans (hub s)))) s)
      | None => None
      end
  | None => Some (false, s)
  end.

(** [rx.recv().await] *)
Definition chan_recv (ch : nat) (s : Server) : option (option MessageFrame * Server) :=
  match chans (hub s) !! ch with
  | Some c =>
      match ch_recv c with
      | Some (m, c') => Some (m, with_hub (set_chans (<[ch := c']> (chans (hub s)))) s)
      | None => None
      end
  | None => Some (None, s)
  end.

(** [s.data_channel()]: a clone of the sender, if there is one. *)
Definition clone_data_channel (c : ServerClient) (h : Hub) : option nat * Hub :=
  match client_data_channel c h with
  | Some ch => (Some ch, update_chan ch_clone_sender ch h)
  | None => (None, h)
  end.

(** *** [push_to_subscribers] *)

(** The head of the frame: status, priority, length of topic and message in 32 bits, topic. *)
Definition message_head (priority : byte) (topic message : bytes) : bytes :=
  [RESPONSE_OK; priority]
    ++ to_le_bytes 4 (wrap 32 (wrap 32 (len topic) + wrap 32 (len message) + 1))
    ++ topic ++ [x00].

Definition message_frame (priority : byte) (topic message : bytes) (timestamp : N) :
    MessageFrame :=
  mkMessageFrame (Some timestamp) (message_head priority topic message) (Some message).

(** The body of the loop. A full queue drops the client's data channel. *)
Definition push_one (m : MessageFrame) (c : ServerClient) : prog Server (result unit Error) :=
  dc <-- on_hub (clone_data_channel c) ;;
  match dc with
  | None => Ret (Ok tt)
  | Some ch =>
      full <-- asks (fun s => chan_is_full ch (hub s)) ;;
      _ <-- (if full : bool then
               _ <-- modify (with_hub (unregister_data_channel (token c))) ;;
               modify (with_hub (abort_tasks c))
             else
               _ <-- await (chan_send m ch) ;; Ret tt) ;;
      _ <-- modify (with_hub (update_chan ch_drop_sender ch)) ;;
      Ret (Ok tt)
  end.

Definition push_to_subscribers (subscribers : list ServerClient) (priority : byte)
    (topic message : bytes) (timestamp : N) : prog Server unit :=
  _ <-- for_each subscribers (push_one (message_frame priority topic message timestamp)) ;;
  Ret tt.

(** *** The scope of a set of subscribers *)

(** The end of the scope of an [Arc<ServerClientData>]. *)
Definition drop_arc (c : ServerClient) : prog Server unit :=
  modify (with_hub (drop_client c)).

(** The end of the scope of the set: one [Arc] after the other. *)
Definition drop_subscribers (subscribers : list ServerClient) : prog Server unit :=
  _ <-- for_each subscribers (fun c => _ <-- drop_arc c ;; Ret (@Ok unit Error tt)) ;;
  Ret tt.

(** [let subscribers = { db!().get_subscribers(topic) }; body], up to the end of the block, which
    the [?]s of the body leave as well. *)
Definition with_subscribers {R} (topic : bytes) (body : list ServerClient -> prog Server R) :
    prog Server R :=
  subscribers <-- on_hub (take_subscribers topic) ;;
  r <-- body subscribers ;;
  _ <-- drop_subscribers subscribers ;;
  Ret r.

End server.
