(* ===== verification/ServerSpec.v ===== *)
(** * Delivery to subscribers: what [push_to_subscribers] does

    The delivery of a message as a pure function of the hub, and its functional correctness: every
    subscriber with a data channel gets the message once, or loses a channel whose queue is full,
    and no other client is touched. A task that delivers is never blocked by itself. *)

From S2P Require Import Prelude Utf8 Proto Io Acl Topic Token Pubsub Reference PubsubSpec.
From S2P Require Import Passwords Keys Server.

Section delivery.
Context {SMO : SubMapOps} {SML : SubMapLaws} {CHO : ChannelOps} {CHL : ChannelLaws}
  {SHO : Sha256Ops} {BCO : BcryptOps}.

(** ** The delivery as a function of the hub *)

Definition send_hub (m : MessageFrame) (ch : nat) (h : Hub) : Hub :=
  match chans h !! ch ≫= ch_send m with
  | Some (_, c) => set_chans (<[ch := c]> (chans h)) h
  | None => h
  end.

Definition push_hub (m : MessageFrame) (c : ServerClient) (h : Hub) : Hub :=
  match client_data_channel c h with
  | None => h
  | Some ch =>
      let h := update_chan ch_clone_sender ch h in
      let h := if chan_is_full ch h then abort_tasks c (unregister_data_channel (token c) h)
               else send_hub m ch h in
      update_chan ch_drop_sender ch h
  end.

Definition deliver_hub (m : MessageFrame) (l : list ServerClient) (h : Hub) : Hub :=
  foldl (fun h c => push_hub m c h) h l.

(** What a client's publishers see of its data channel. *)
Definition queue_of (c : ServerClient) (h : Hub) : option (ChanView MessageFrame) :=
  ch ← client_data_channel c h; ch_view <$> chans h !! ch.

(** The channel of a subscriber after a message. *)
Definition offer (m : MessageFrame) (v : ChanView MessageFrame) : option (ChanView MessageFrame) :=
  if view_full v then None
  else Some (if bool_decide (ch_receivers v = 0) then v else view_push m v).

Lemma update_chan_lookup f ch h i :
  chans (update_chan f ch h) !! i = (if decide (ch = i) then f <$> chans h !! ch else chans h !! i).
Proof. unfold update_chan. simpl. rewrite lookup_alter. by case_decide; subst. Qed.

Lemma client_data_channel_update_chan c f ch h :
  client_data_channel c (update_chan f ch h) = client_data_channel c h.
Proof. done. Qed.

(** ** One subscriber *)

Section one.
Variables (m : MessageFrame) (c : ServerClient) (h : Hub) (ch : nat) (q : chan MessageFrame).
Hypotheses (Hok : hub_ok h) (Hc : registered c h).
Hypotheses (Hch : client_data_channel c h = Some ch) (Hq : chans h !! ch = Some q).

Lemma clone_open :
  view_open (ch_view (ch_clone_sender q)) = negb (bool_decide (ch_receivers (ch_view q) = 0)).
Proof. rewrite ch_clone_sender_view. done. Qed.

Lemma clone_full : chan_is_full ch (update_chan ch_clone_sender ch h) = view_full (ch_view q).
Proof.
  unfold chan_is_full. rewrite update_chan_lookup, decide_True, Hq by done. simpl.
  by rewrite ch_is_full_view, ch_clone_sender_view.
Qed.

(** With room in the queue the send does not wait. *)
Lemma send_room :
  view_full (ch_view q) = false ->
  exists b q', ch_send m (ch_clone_sender q) = Some (b, q') /\
    Some (ch_view (ch_drop_sender q')) = offer m (ch_view q).
Proof.
  intros Hfull. unfold offer. rewrite Hfull.
  assert (view_full (ch_view (ch_clone_sender q)) = false) as Hfull'
    by by rewrite ch_clone_sender_view.
  pose proof clone_open as Ho. destruct (bool_decide (ch_receivers (ch_view q) = 0)); simpl in Ho.
  - destruct (ch_send_closed m _ Ho) as (q' & -> & Hv). eexists _, _. split; [done|].
    rewrite ch_drop_sender_view, Hv, ch_clone_sender_view. by destruct (ch_view q).
  - destruct (ch_send_room m _ Ho Hfull') as (q' & -> & Hv). eexists _, _. split; [done|].
    rewrite ch_drop_sender_view, Hv, ch_clone_sender_view. by destruct (ch_view q).
Qed.
End one.

Lemma hub_ok_set_chan ch q h :
  is_Some (chans h !! ch) -> hub_ok h -> hub_ok (set_chans (<[ch := q]> (chans h)) h).
Proof.
  intros [q0 Hq0] Hok. pose proof (hub_ok_update_chan (fun _ => q) ch h Hok) as H.
  assert (set_chans (<[ch := q]> (chans h)) h = update_chan (fun _ => q) ch h) as ->; [|done].
  unfold update_chan. f_equal. apply map_eq. intros i. rewrite lookup_insert, lookup_alter.
  case_decide; [subst; by rewrite Hq0|done].
Qed.

Lemma hub_ok_send_hub m ch h : hub_ok h -> hub_ok (send_hub m ch h).
Proof.
  intros Hok. unfold send_hub. destruct (chans h !! ch) as [q|] eqn:E; simpl; [|done].
  destruct (ch_send m q) as [[b q']|]; [|done]. apply hub_ok_set_chan; [by eexists|done].
Qed.

Lemma hub_ok_push m c h : hub_ok h -> hub_ok (push_hub m c h).
Proof.
  intros Hok. unfold push_hub. destruct (client_data_channel c h) as [ch|]; [|done].
  apply hub_ok_update_chan. case_match.
  - by apply hub_ok_abort_tasks, hub_ok_unregister_data_channel, hub_ok_update_chan.
  - by apply hub_ok_send_hub, hub_ok_update_chan.
Qed.

Lemma hub_db_push m c h : hub_db (push_hub m c h) = hub_db h.
Proof.
  unfold push_hub. destruct (client_data_channel c h) as [ch|]; [|done].
  case_match; simpl.
  - unfold unregister_data_channel, drop_sender. repeat case_match; done.
  - unfold send_hub. repeat case_match; done.
Qed.

Lemma registered_db c h h' : hub_db h' = hub_db h -> registered c h' <-> registered c h.
Proof. unfold registered, by_token. by intros ->. Qed.

(** The task that pushes runs through, with the effect of [push_hub]. *)
Lemma run_push_one m c (w : World Server) :
  hub_ok (hub (shared w)) -> registered c (hub (shared w)) ->
  run (push_one m c) w =
    Some (Ok tt, set_shared (with_hub (push_hub m c) (shared w)) w).
Proof.
  destruct w as [t cn el s]. simpl. intros Hok Hc. unfold push_one, push_hub, with_hub. simpl.
  unfold clone_data_channel. destruct (client_data_channel c (hub s)) as [ch|] eqn:Hch;
    [|by destruct s].
  simpl. destruct (chan_is_full ch _) eqn:Ef; simpl; [done|].
  unfold client_data_channel in Hch. apply bind_Some in Hch as (cell & Hcell & Hch).
  destruct (ok_slot _ (proj2 Hok) _ _ _ Hcell Hch) as [q Hq].
  rewrite (clone_full (hub s) ch q Hq) in Ef.
  destruct (send_room m q Ef) as (b & q' & Hs & _). unfold chan_send, send_hub. simpl.
  rewrite lookup_alter_eq, Hq. simpl. rewrite Hs. done.
Qed.

Lemma run_for_each_push m l (w : World Server) :
  hub_ok (hub (shared w)) -> (forall c, c ∈ l -> registered c (hub (shared w))) ->
  run (for_each l (push_one m)) w =
    Some (Ok tt, set_shared (with_hub (deliver_hub m l) (shared w)) w).
Proof.
  revert w; induction l as [|c l IH]; intros w Hok Hl.
  - simpl. by destruct w as [? ? ? []].
  - cbn [for_each deliver_hub foldl]. rewrite run_qbind, run_push_one; [|done|set_solver].
    rewrite IH; [by destruct w| |].
    + by apply hub_ok_push.
    + intros c' Hc'. simpl. apply (registered_db _ (hub (shared w))); [apply hub_db_push|].
      set_solver.
Qed.

(** ** All subscribers *)

(** What [push_hub] leaves alone: cells and channels of the other clients. *)
Lemma push_hub_cells m c h i : i <> sc_id c -> hub_ok h -> registered c h ->
  cells (push_hub m c h) !! i = cells h !! i.
Proof.
  intros Hi Hok Hc. unfold push_hub. destruct (client_data_channel c h) as [ch|]; [|done].
  case_match; simpl.
  - rewrite lookup_alter_ne by done. unfold unregister_data_channel. simpl.
    unfold registered, by_token in Hc. rewrite Hc. simpl.
    destruct (client_data_channel c _); simpl; by rewrite lookup_alter_ne.
  - unfold send_hub. by repeat case_match.
Qed.

Lemma push_hub_chans m c h i : hub_ok h -> registered c h -> client_data_channel c h <> Some i ->
  chans (push_hub m c h) !! i = chans h !! i.
Proof.
  intros Hok Hc Hi. unfold push_hub. destruct (client_data_channel c h) as [ch|] eqn:Ech; [|done].
  assert (ch <> i) by congruence.
  rewrite update_chan_lookup, decide_False by done. case_match.
  - simpl. unfold unregister_data_channel. simpl.
    unfold registered, by_token in Hc. rewrite Hc. rewrite client_data_channel_update_chan, Ech.
    simpl. by rewrite !lookup_alter_ne.
  - unfold send_hub. repeat case_match; simpl; rewrite ?lookup_insert_ne, ?lookup_alter_ne; done.
Qed.

Lemma queue_of_push_other m c c' h :
  hub_ok h -> registered c h -> registered c' h -> c' <> c ->
  queue_of c' (push_hub m c h) = queue_of c' h.
Proof.
  intros Hok Hc Hc' Hne. unfold queue_of, client_data_channel.
  assert (sc_id c' <> sc_id c) as Hid by (intros E; by apply Hne, (ok_id _ (proj2 Hok))).
  rewrite push_hub_cells by done. destruct (cells h !! sc_id c') as [cell|] eqn:Ecell; [|done].
  simpl. destruct (data_channel cell) as [ch|] eqn:Ech; [|done]. simpl.
  rewrite push_hub_chans; [done|done|done|]. unfold client_data_channel.
  intros (cell0 & Hcell0 & Hch)%bind_Some. apply Hid.
  by eapply (ok_slot_inj _ (proj2 Hok)).
Qed.

Lemma queue_of_push_self m c h :
  hub_ok h -> registered c h -> queue_of c (push_hub m c h) = (queue_of c h ≫= offer m).
Proof.
  intros Hok Hc. unfold queue_of at 2. unfold push_hub.
  destruct (client_data_channel c h) as [ch|] eqn:Ech; simpl; [|unfold queue_of; by rewrite Ech].
  pose proof Ech as Ech'. unfold client_data_channel in Ech'.
  apply bind_Some in Ech' as (cell & Hcell & Hch).
  destruct (ok_slot _ (proj2 Hok) _ _ _ Hcell Hch) as [q Hq].
  rewrite (clone_full h ch q Hq), Hq. simpl.
  destruct (view_full (ch_view q)) eqn:Ef.
  - unfold offer. rewrite Ef. unfold queue_of. rewrite client_data_channel_update_chan.
    unfold client_data_channel, abort_tasks, unregister_data_channel. simpl.
    unfold registered, by_token in Hc. rewrite Hc. rewrite lookup_alter_eq, client_data_channel_update_chan, Ech.
    simpl. rewrite lookup_alter_eq, Hcell. done.
  - destruct (send_room m q Ef) as (b & q' & Hs & <-).
    unfold queue_of. rewrite client_data_channel_update_chan.
    unfold send_hub. simpl. rewrite lookup_alter_eq, Hq. simpl. rewrite Hs.
    unfold client_data_channel in *. simpl. rewrite Ech. simpl.
    by rewrite lookup_alter_eq, lookup_insert_eq.
Qed.

Lemma deliver_hub_ok m l h : hub_ok h -> hub_ok (deliver_hub m l h).
Proof. revert h; induction l; intros h Hok; simpl; auto using hub_ok_push. Qed.

Lemma deliver_hub_db m l h : hub_db (deliver_hub m l h) = hub_db h.
Proof.
  revert h; induction l as [|c l IH]; intros h; [done|]. cbn [deliver_hub foldl].
  fold (deliver_hub m l (push_hub m c h)). by rewrite IH, hub_db_push.
Qed.

(** A delivery gives nobody another channel. *)
Lemma push_channel m c c' h ch :
  hub_ok h -> registered c h -> registered c' h ->
  client_data_channel c (push_hub m c' h) = Some ch -> client_data_channel c h = Some ch.
Proof.
  intros Hok Hc Hc'. destruct (decide (sc_id c = sc_id c')) as [Hid|Hne].
  - apply (ok_id _ (proj2 Hok)) in Hid as <-; [|done..]. unfold push_hub.
    destruct (client_data_channel c h) as [ch0|] eqn:Ech; [|by rewrite Ech].
    rewrite client_data_channel_update_chan. case_match.
    + unfold client_data_channel, abort_tasks, unregister_data_channel. simpl.
      unfold registered, by_token in Hc. rewrite Hc. simpl.
      destruct (client_data_channel c _); simpl; rewrite !lookup_alter_eq;
        by destruct (cells h !! sc_id c).
    + unfold send_hub, client_data_channel in *. repeat case_match; simpl; congruence.
  - unfold client_data_channel. by rewrite push_hub_cells.
Qed.

Lemma deliver_channel m l h c ch :
  hub_ok h -> (forall c', c' ∈ l -> registered c' h) -> registered c h ->
  client_data_channel c (deliver_hub m l h) = Some ch -> client_data_channel c h = Some ch.
Proof.
  revert h; induction l as [|c' l IH]; intros h Hok Hl Hc; [done|].
  cbn [deliver_hub foldl]. fold (deliver_hub m l (push_hub m c' h)). intros H.
  apply IH in H; [|by apply hub_ok_push| |].
  - eapply push_channel; [done|done| |exact H]. apply Hl. by left.
  - intros c2 Hc2. rewrite (registered_db _ h) by apply hub_db_push. apply Hl. by right.
  - by rewrite (registered_db _ h) by apply hub_db_push.
Qed.

Lemma queue_of_deliver m l h c :
  hub_ok h -> (forall c', c' ∈ l -> registered c' h) -> NoDup l -> registered c h ->
  queue_of c (deliver_hub m l h) =
    if bool_decide (c ∈ l) then queue_of c h ≫= offer m else queue_of c h.
Proof.
  revert h; induction l as [|c' l IH]; intros h Hok Hl Hnd Hc.
  - by rewrite bool_decide_eq_false_2 by apply not_elem_of_nil.
  - cbn [deliver_hub foldl]. fold (deliver_hub m l (push_hub m c' h)).
    apply NoDup_cons in Hnd as [Hnin Hnd].
    assert (forall c, registered c (push_hub m c' h) <-> registered c h) as Hr
      by (intros; apply registered_db, hub_db_push).
    rewrite IH; [| by apply hub_ok_push | set_solver | done | by apply Hr].
    destruct (decide (c = c')) as [->|Hne].
    + rewrite bool_decide_eq_false_2, bool_decide_eq_true_2 by set_solver.
      by apply queue_of_push_self; [|apply Hl; left].
    + rewrite queue_of_push_other by (done || (apply Hl; left)).
      by rewrite (bool_decide_ext (c ∈ l) (c ∈ c' :: l)) by set_solver.
Qed.

(** ** The scope of the subscribers *)

(** The delivery does not look at the number of [Arc]s, and leaves it alone. *)
Lemma update_cell_comm f g c c' h :
  (forall cell, f (g cell) = g (f cell)) ->
  update_cell f c (update_cell g c' h) = update_cell g c' (update_cell f c h).
Proof.
  intros Hfg. unfold update_cell, set_cells. simpl. f_equal. apply map_eq. intros i.
  assert (forall k (cs : gmap nat Cell) c, alter k (sc_id c) cs !! i =
    if decide (sc_id c = i) then k <$> cs !! i else cs !! i) as Hl.
  { intros k cs c0. rewrite lookup_alter. case_decide as D; [by rewrite D|done]. }
  rewrite !Hl. repeat case_decide; try done. destruct (cells h !! i); simpl; [by rewrite Hfg|done].
Qed.

Lemma abort_clone c c' h : abort_tasks c (clone_client c' h) = clone_client c' (abort_tasks c h).
Proof.
  unfold abort_tasks.
  assert (tasks <$> cells (clone_client c' h) !! sc_id c = tasks <$> cells h !! sc_id c) as ->.
  { unfold clone_client. simpl. rewrite lookup_alter. case_decide as D; [|done]. rewrite <- D.
    by destruct (cells h !! sc_id c'). }
  by apply (update_cell_comm _ _ c c' (set_aborted _ h)).
Qed.

Lemma drop_sender_clone o c h : drop_sender o (clone_client c h) = clone_client c (drop_sender o h).
Proof. by destruct o. Qed.

Lemma unregister_data_channel_clone t c h :
  unregister_data_channel t (clone_client c h) = clone_client c (unregister_data_channel t h).
Proof.
  unfold unregister_data_channel. simpl. destruct (_ !! t) as [c'|]; [|done].
  rewrite client_data_channel_clone, <- drop_sender_clone. f_equal. by apply update_cell_comm.
Qed.

Lemma push_clone m c c' h : push_hub m c (clone_client c' h) = clone_client c' (push_hub m c h).
Proof.
  unfold push_hub. rewrite client_data_channel_clone.
  destruct (client_data_channel c h) as [ch|]; [|done].
  change (update_chan ch_clone_sender ch (clone_client c' h))
    with (clone_client c' (update_chan ch_clone_sender ch h)).
  change (chan_is_full ch (clone_client c' ?h)) with (chan_is_full ch h). case_match.
  - by rewrite unregister_data_channel_clone, abort_clone.
  - unfold send_hub. simpl. by destruct (_ ≫= _) as [[]|].
Qed.

Lemma deliver_clones m l l' h :
  deliver_hub m l (clone_clients l' h) = clone_clients l' (deliver_hub m l h).
Proof.
  assert (forall c h, push_hub m c (clone_clients l' h) = clone_clients l' (push_hub m c h)) as Hp.
  { intros c. induction l' as [|c' l' IH]; intros h0; [done|].
    change (clone_clients (c' :: l') ?h) with (clone_client c' (clone_clients l' h)).
    by rewrite push_clone, IH. }
  revert h; induction l as [|c l IH]; intros h; [done|].
  change (deliver_hub m (c :: l) ?h) with (deliver_hub m l (push_hub m c h)).
  by rewrite Hp, IH.
Qed.

Lemma run_drop_subscribers l (w : World Server) :
  run (drop_subscribers l) w = Some (tt, set_shared (with_hub (drop_clients l) (shared w)) w).
Proof.
  unfold drop_subscribers. rewrite run_bind.
  assert (forall w, run (for_each l (fun c => _ <-- drop_arc c ;; Ret (@Ok unit Error tt))) w =
    Some (Ok tt, set_shared (with_hub (drop_clients l) (shared w)) w)) as ->; [|done].
  clear w. induction l as [|c l IH]; intros w; [simpl; by destruct w as [? ? ? []]|].
  cbn [for_each]. rewrite run_qbind. simpl. rewrite IH. by destruct w.
Qed.

(** A program that does not use the shared state. *)
Definition unshared {A} (p : prog Server A) : Prop :=
  forall s w, run p (set_shared s w) = (fun '(a, w') => (a, set_shared s w')) <$> run p w.

Lemma unshared_ret {A} (a : A) : unshared (Ret a).
Proof. done. Qed.

Lemma unshared_write {A} b t (k : result unit Error -> prog Server A) :
  (forall r, unshared (k r)) -> unshared (r <-- write_with_timeout b t ;; k r).
Proof.
  intros Hk s w. rewrite !run_bind, !run_write.
  assert (write_all b t (set_shared s w) =
    ((write_all b t w).1, set_shared s (write_all b t w).2)) as ->
    by (unfold write_all; simpl; repeat case_match; done).
  simpl. apply Hk.
Qed.

(** The scope of the subscribers of a topic, around a body that delivers to them and an answer. *)
Lemma run_with_subscribers {R} topic (body : list ServerClient -> prog Server R)
    (f : Hub -> Hub) (answer : prog Server R) (w : World Server) :
  let l := get_subscribers topic (hub (shared w)) in
  (forall h, f (clone_clients l h) = clone_clients l (f h)) ->
  unshared answer ->
  run (body l) (set_shared (with_hub (clone_clients l) (shared w)) w) =
    run answer (set_shared (with_hub f (with_hub (clone_clients l) (shared w))) w) ->
  run (with_subscribers topic body) w = run answer (set_shared (with_hub f (shared w)) w).
Proof.
  intros l Hf Ha Hb. unfold with_subscribers. rewrite run_bind. simpl. fold l.
  change (set_hub (clone_clients l (hub (shared w))) (shared w))
    with (with_hub (clone_clients l) (shared w)).
  rewrite run_bind, Hb, !Ha. destruct (run answer w) as [[r w']|]; [|done]. simpl.
  rewrite run_bind, run_drop_subscribers. simpl. do 2 f_equal. destruct w'. unfold set_shared. simpl.
  f_equal. unfold with_hub. simpl. by rewrite Hf, drop_clone_clients.
Qed.
(** The same for any body: the [Arc]s of the subscribers go at the end. *)
Lemma run_scope {R} topic (body : list ServerClient -> prog Server R) (w w' : World Server) r h :
  let l := get_subscribers topic (hub (shared w)) in
  run (body l) (set_shared (with_hub (clone_clients l) (shared w)) w) = Some (r, w') ->
  hub (shared w') = clone_clients l h ->
  run (with_subscribers topic body) w = Some (r, set_shared (set_hub h (shared w')) w').
Proof.
  intros l Hb Hh. unfold with_subscribers. rewrite run_bind. simpl. fold l.
  change (set_hub (clone_clients l (hub (shared w))) (shared w))
    with (with_hub (clone_clients l) (shared w)).
  rewrite run_bind, Hb, run_bind, run_drop_subscribers. simpl. unfold with_hub.
  by rewrite Hh, drop_clone_clients.
Qed.
End delivery.
