(* ===== verification/Control.v ===== *)
(** * The control stream: [process_control] of src/src/server.rs

    One definition per operation of the protocol, the loop over them, and the same operations as
    pure functions of the shared state and the arguments on the wire. The functional theorem says
    that an operation whose bytes arrive in time has the effect of the pure function. *)

From S2P Require Import Prelude Utf8 Proto Io Acl Topic Token Pubsub Passwords Keys Server.

Section control.
Context {SMO : SubMapOps} {CHO : ChannelOps} {SHO : Sha256Ops} {BCO : BcryptOps}.

(** [psrt::replication::push], when the server is built with the feature [cluster]. *)
Variable replication_push : option (byte -> bytes -> bytes -> N -> prog Server unit).

Section session.
(** The connection's stream, its client, access rules and timeout. *)
Variables (stream : SStream) (client : ServerClient) (acl : Acl) (timeout : N).

(** The macro [parse_topics!]: the non-empty pieces between NULs. *)
Fixpoint parse_pieces (ps : list bytes) : result (list bytes) Error :=
  match ps with
  | [] => Ok []
  | t :: ps' =>
      if bool_decide (t = []) then parse_pieces ps'
      else let? t' := str_from_utf8 t in let? ts := parse_pieces ps' in Ok (t' :: ts)
  end.

Definition parse_topics (data : bytes) : result (list bytes) Error :=
  parse_pieces (split_on NUL data).

Definition respond_status (status : byte) : prog Server (result unit Error) :=
  swrite stream [status].

(** The loop over the topics of [OP_SUBSCRIBE], under the write lock of the database. *)
Fixpoint subscribe_topics (topics : list bytes) (s : Server) : byte * Server :=
  match topics with
  | [] => (RESPONSE_OK, s)
  | topic :: topics' =>
      if negb (Acl.allow_read acl topic) then (RESPONSE_ERR_ACCESS, s)
      else
        let '(r, h) := subscribe (max_depth s) topic client (hub s) in
        match r with
        | Err _ => (RESPONSE_ERR, set_hub h s)
        | Ok _ => subscribe_topics topics' (with_counters Counters.count_sub_ops (set_hub h s))
        end
  end.

Fixpoint unsubscribe_topics (topics : list bytes) (s : Server) : bool * Server :=
  match topics with
  | [] => (true, s)
  | topic :: topics' =>
      let '(r, h) := unsubscribe (max_depth s) topic client (hub s) in
      match r with
      | Err _ => (false, set_hub h s)
      | Ok _ => unsubscribe_topics topics' (with_counters Counters.count_sub_ops (set_hub h s))
      end
  end.

(** An operation gives [true] to go on with the loop, [false] to leave it, or the error to return. *)
Definition op_nop : prog Server (result bool Error) :=
  _ <-? respond_status RESPONSE_OK ;; Ret (Ok true).

Definition op_subscribe (op_start : N) : prog Server (result bool Error) :=
  max <-- asks max_topic_length ;;
  t <-- reduced timeout op_start ;;
  data <-? read_frame_with_timeout (Some max) t ;;
  topics <-? lift (parse_topics data) ;;
  res <-- atomic (subscribe_topics topics) ;;
  _ <-? respond_status res ;;
  Ret (Ok true).

Definition op_unsubscribe (op_start : N) : prog Server (result bool Error) :=
  max <-- asks max_topic_length ;;
  t <-- reduced timeout op_start ;;
  data <-? read_frame_with_timeout (Some max) t ;;
  topics <-? lift (parse_topics data) ;;
  success <-- atomic (unsubscribe_topics topics) ;;
  _ <-? respond_status (if success : bool then RESPONSE_OK else RESPONSE_ERR) ;;
  Ret (Ok true).

(** The topic and the message of a publication. *)
Definition split_publication (buf : bytes) : result (bytes * bytes) Error :=
  match position NUL buf with
  | None => Err (invalid_data ERR_INVALID_DATA_BLOCK)
  | Some npos =>
      let data := drop (npos + 1) buf in
      let buf := take (npos + 1) buf in
      let buf := take (length buf - 1) buf in
      if bool_decide (buf = []) then Err (invalid_data ERR_INVALID_DATA_BLOCK)
      else let? topic := str_from_utf8 buf in Ok (topic, data)
  end.

(** The delivery of an accepted publication, to the subscribers and to the other nodes, and what
    comes after it in the scope of the subscribers. *)
Definition deliver {R} (priority : byte) (topic data : bytes) (timestamp : N) (answer : prog Server R) :
    prog Server R :=
  with_subscribers topic (fun subscribers =>
    _ <-- (if bool_decide (subscribers = []) then Ret tt
           else push_to_subscribers subscribers priority topic data timestamp) ;;
    _ <-- (match replication_push with
           | Some push => push priority topic data timestamp
           | None => Ret tt
           end) ;;
    answer).

Definition op_publish (op_start : N) : prog Server (result bool Error) :=
  timestamp <-- asks server_now_ns ;;
  t <-- reduced timeout op_start ;;
  prio <-? read_with_timeout 1 t ;;
  let priority := hd DEFAULT_PRIORITY prio in
  max <-- asks max_pub_size ;;
  t <-- reduced timeout op_start ;;
  buf <-? read_frame_with_timeout (Some max) t ;;
  _ <-- modify (with_counters (Counters.count_pub_bytes (len buf))) ;;
  td <-? lift (split_publication buf) ;;
  depth <-- asks max_depth ;;
  match prepare_topic depth td.1 with
  | Err _ => _ <-? respond_status RESPONSE_ERR ;; Ret (Ok true)
  | Ok topic =>
      if contains_invalid topic then Ret (Err (invalid_data ERR_INVALID_DATA_BLOCK))
      else if Acl.allow_write acl topic then
        deliver priority topic td.2 timestamp (_ <-? respond_status RESPONSE_OK ;; Ret (Ok true))
      else
        _ <-? respond_status RESPONSE_ERR_ACCESS ;; Ret (Ok true)
  end.

Definition op_publish_repl (op_start : N) : prog Server (result bool Error) :=
  match replication_push with
  | None => Ret (Err (invalid_data (bs "Unsupported operation: OP_PUBLISH_REPL")))
  | Some _ =>
      max <-- asks max_topic_length ;;
      t <-- reduced timeout op_start ;;
      topic_data <-? read_frame_with_timeout (Some max) t ;;
      topic <-? lift (str_from_utf8 topic_data) ;;
      if Acl.is_replicator acl then
        with_subscribers topic (fun subscribers =>
          if bool_decide (subscribers = []) then
            _ <-? respond_status RESPONSE_NOT_REQUIRED ;; Ret (Ok true)
          else
            _ <-? respond_status RESPONSE_OK_WAITING ;;
            t <-- reduced timeout op_start ;;
            prio <-? read_with_timeout 1 t ;;
            t <-- reduced timeout op_start ;;
            ts_buf <-? read_with_timeout 8 t ;;
            max <-- asks max_pub_size ;;
            t <-- reduced timeout op_start ;;
            data <-? read_frame_with_timeout (Some max) t ;;
            _ <-- push_to_subscribers subscribers (hd DEFAULT_PRIORITY prio) topic data
                    (from_le_bytes ts_buf) ;;
            _ <-? respond_status RESPONSE_OK ;;
            Ret (Ok true))
      else
        _ <-? respond_status RESPONSE_ERR_ACCESS ;; Ret (Ok true)
  end.

Definition op_bye : prog Server (result bool Error) :=
  _ <-? respond_status RESPONSE_OK ;; Ret (Ok false).

(** One round of the loop: the command byte and its operation. *)
Definition control_step : prog Server (result bool Error) :=
  op_start <-- now ;;
  cmd <-? sread stream 1 ;;
  let c := hd x00 cmd in
  if decide (c = OP_NOP) then op_nop
  else if decide (c = OP_SUBSCRIBE) then op_subscribe op_start
  else if decide (c = OP_UNSUBSCRIBE) then op_unsubscribe op_start
  else if decide (c = OP_PUBLISH) then op_publish op_start
  else if decide (c = OP_PUBLISH_REPL) then op_publish_repl op_start
  else if decide (c = OP_BYE) then op_bye
  else Ret (Err (invalid_data (bs "Invalid operation: " ++ show_N (to_N c)))).

(** [process_control]: [None] when the fuel is spent. *)
Definition process_control (fuel : nat) : prog Server (option (result unit Error)) :=
  iterate fuel (
    r <-- control_step ;;
    Ret (match r with
         | Ok true => None
         | Ok false => Some (Ok tt)
         | Err e => Some (Err e)
         end)).
End session.
End control.
