(* ===== verification/ControlSpec.v ===== *)
(** * Correctness of the control stream

    Every round of [process_control] ends within twice the timeout, whatever the peer sends, keeps
    the invariant of the database and consumes a byte, so the loop ends; an operation whose bytes
    arrive in time has exactly the effect of a pure function of the shared state. The theorems are
    about the server as it is built by default, without the feature [cluster]. *)

From S2P Require Import Prelude Utf8 Proto Io Commands Acl Topic Token Pubsub Reference.
From S2P Require Import PubsubSpec Passwords Keys Server ServerSpec Control.

Section spec.
Context {SMO : SubMapOps} {SML : SubMapLaws} {CHO : ChannelOps} {CHL : ChannelLaws}
  {SHO : Sha256Ops} {BCO : BcryptOps}.

(** ** One round, whatever the input *)

Section round.
Variables (stream : SStream) (client : ServerClient) (acl : Acl).
Let T : N := ss_timeout stream.
(** The registered clients, by token. *)
Variable B : gmap bytes ServerClient.

(** The worlds of a round that started at [op], with at most [n] bytes left. *)
Record during (op d : N) (n : nat) (w : World Server) : Prop := {
  du_ok : hub_ok (hub (shared w));
  du_clients : by_token (hub (shared w)) = B;
  du_time : (op <= clock w <= op + d)%N;
  du_inp : length (inp (conn w)) <= n;
}.

Lemma returns_reduced op t w (Q : N -> World Server -> Prop) :
  Q (reduce_timeout t op (clock w)) w -> returns (reduced t op) w Q.
Proof. intros H. by exists (reduce_timeout t op (clock w)), w. Qed.

(** A read within what is left of the budget keeps to the deadline. *)
Lemma returns_read op d n k w :
  during op d n w ->
  returns (read_with_timeout k (reduce_timeout d op (clock w))) w (fun _ w' => during op d n w').
Proof.
  intros [H1 HB H2 H3]. eexists _, _. split; [apply run_read|].
  pose proof (read_exact_time k (reduce_timeout d op (clock w)) w) as Ht.
  rewrite reduce_timeout_deadline in Ht by lia.
  pose proof (read_exact_frame k (reduce_timeout d op (clock w)) w) as [Hs _].
  pose proof (read_exact_shrinks k (reduce_timeout d op (clock w)) w).
  split; [by rewrite Hs|by rewrite Hs|lia|lia].
Qed.

Lemma returns_frame op d n max w :
  during op d n w ->
  returns (read_frame_with_timeout max (reduce_timeout d op (clock w))) w
    (fun _ w' => during op d n w').
Proof.
  intros [H1 HB H2 H3]. destruct (read_frame_time max (reduce_timeout d op (clock w)) w)
    as (r & w' & Hr & Ht & Hs & Hl). exists r, w'. split; [done|].
  rewrite reduce_timeout_deadline in Ht by lia. split; [by rewrite Hs|by rewrite Hs|lia|lia].
Qed.

(** The response may take one timeout more. *)
Lemma returns_respond op d n status w :
  during op d n w ->
  returns (respond_status stream status) w (fun _ w' => during op (d + T) n w').
Proof.
  intros [H1 HB H2 H3]. eexists _, _. split; [apply run_write|].
  pose proof (write_all_time [status] (ss_timeout stream) w) as Ht. fold T in Ht |- *.
  split; [| |lia|].
  - unfold write_all in *. repeat case_match; simpl; done.
  - unfold write_all in *. repeat case_match; simpl; done.
  - unfold write_all in *. repeat case_match; simpl in *; done.
Qed.

Lemma during_weaken op d d' n w : (d <= d')%N -> during op d n w -> during op d' n w.
Proof. intros ? []. split; [done|done|lia|done]. Qed.

Lemma during_hub op d n w s :
  during op d n w -> hub_ok (hub s) -> by_token (hub s) = by_token (hub (shared w)) ->
  during op d n (set_shared s w).
Proof. intros [? HB ? ?] ? E. split; [done|by rewrite <- HB|done|done]. Qed.

(** After the response: the round goes on or ends. *)
Lemma returns_respond_then op n status b w :
  during op T n w ->
  returns (_ <-? respond_status stream status ;; Ret (Ok b)) w
    (fun (r : result bool Error) w' => during op (T + T) n w').
Proof.
  intros Hd. apply returns_qbind. eapply returns_mono; [by apply returns_respond|].
  intros [[]|e] w' Hw; [by apply returns_ret|done].
Qed.

Lemma hub_ok_subscribe_topics topics s :
  hub_ok (hub s) -> hub_ok (hub (subscribe_topics client acl topics s).2).
Proof.
  revert s; induction topics as [|t ts IH]; intros s Hok; simpl; [done|].
  destruct (negb _); [done|].
  pose proof (hub_ok_subscribe (max_depth s) t client (hub s) Hok) as Hok'.
  destruct (subscribe _ _ _ _) as [[]h]; simpl in *; [by apply IH|done].
Qed.

Lemma hub_ok_unsubscribe_topics topics s :
  hub_ok (hub s) -> hub_ok (hub (unsubscribe_topics client topics s).2).
Proof.
  revert s; induction topics as [|t ts IH]; intros s Hok; simpl; [done|].
  pose proof (hub_ok_unsubscribe (max_depth s) t client (hub s) Hok) as Hok'.
  destruct (unsubscribe _ _ _ _) as [[]h]; simpl in *; [by apply IH|done].
Qed.

Lemma by_token_subscribe_topics topics s :
  by_token (hub (subscribe_topics client acl topics s).2) = by_token (hub s).
Proof.
  revert s; induction topics as [|t ts IH]; intros s; simpl; [done|].
  destruct (negb _); [done|]. unfold subscribe.
  destruct (prepare_topic (max_depth s) t); [|done]. by rewrite IH.
Qed.

Lemma by_token_unsubscribe_topics topics s :
  by_token (hub (unsubscribe_topics client topics s).2) = by_token (hub s).
Proof.
  revert s; induction topics as [|t ts IH]; intros s; simpl; [done|]. unfold unsubscribe.
  destruct (prepare_topic (max_depth s) t); [|done]. by rewrite IH.
Qed.

Lemma returns_op_subscribe op n w :
  during op T n w ->
  returns (op_subscribe stream client acl T op) w (fun _ w' => during op (T + T) n w').
Proof.
  intros Hd. apply returns_bind, returns_asks, returns_bind, returns_reduced, returns_qbind.
  eapply returns_mono; [by apply returns_frame|].
  intros [data|e] w1 H1; [|eapply during_weaken; [|exact H1]; lia].
  apply returns_qbind, returns_ret. destruct (parse_topics data) as [topics|e];
    [|eapply during_weaken; [|exact H1]; lia].
  apply returns_bind, returns_atomic, returns_respond_then, during_hub;
    [done|apply hub_ok_subscribe_topics, H1|apply by_token_subscribe_topics].
Qed.

Lemma returns_op_unsubscribe op n w :
  during op T n w ->
  returns (op_unsubscribe stream client T op) w (fun _ w' => during op (T + T) n w').
Proof.
  intros Hd. apply returns_bind, returns_asks, returns_bind, returns_reduced, returns_qbind.
  eapply returns_mono; [by apply returns_frame|].
  intros [data|e] w1 H1; [|eapply during_weaken; [|exact H1]; lia].
  apply returns_qbind, returns_ret. destruct (parse_topics data) as [topics|e];
    [|eapply during_weaken; [|exact H1]; lia].
  apply returns_bind, returns_atomic, returns_respond_then, during_hub;
    [done|apply hub_ok_unsubscribe_topics, H1|apply by_token_unsubscribe_topics].
Qed.

(** The delivery of a publication, alone: a function of the hub. *)
Definition published (priority : byte) (topic data : bytes) (timestamp : N) (h : Hub) : Hub :=
  deliver_hub (message_frame priority topic data timestamp) (get_subscribers topic h) h.

Lemma unshared_respond_then status b :
  unshared (_ <-? respond_status stream status ;; Ret (@Ok bool Error b)).
Proof. apply unshared_write. intros [[]|e]; apply unshared_ret. Qed.

Lemma run_push_to_subscribers topic priority data timestamp w l :
  hub_ok (hub (shared w)) -> (forall c, c ∈ l -> registered c (hub (shared w))) ->
  run (push_to_subscribers l priority topic data timestamp) w =
    Some (tt, set_shared (with_hub (deliver_hub (message_frame priority topic data timestamp) l)
                            (shared w)) w).
Proof. intros Hok Hl. unfold push_to_subscribers. by rewrite run_bind, run_for_each_push. Qed.

Lemma run_deliver {R} priority topic data timestamp (answer : prog Server R) w :
  hub_ok (hub (shared w)) -> unshared answer ->
  run (deliver None priority topic data timestamp answer) w =
    run answer (set_shared (with_hub (published priority topic data timestamp) (shared w)) w).
Proof.
  intros Hok Ha. unfold deliver. apply run_with_subscribers; [|done|].
  - intros h. unfold published.
    assert (get_subscribers topic (clone_clients (get_subscribers topic (hub (shared w))) h) =
      get_subscribers topic h) as -> by (unfold get_subscribers; by rewrite hub_db_clone_clients).
    apply deliver_clones.
  - set (l := get_subscribers topic (hub (shared w))).
    set (w1 := set_shared _ w). rewrite run_bind.
    assert (hub_ok (hub (shared w1))) as Hok1 by by apply hub_ok_clone_clients.
    assert (forall h, published priority topic data timestamp (clone_clients l h) =
      deliver_hub (message_frame priority topic data timestamp) (get_subscribers topic h)
        (clone_clients l h)) as Hp
      by (intros h; unfold published, get_subscribers; by rewrite hub_db_clone_clients).
    unfold with_hub at 1. simpl. rewrite Hp. fold l.
    case_bool_decide as E.
    + rewrite E. simpl. subst w1. rewrite E. by destruct w as [? ? ? []].
    + rewrite run_push_to_subscribers; [done|done|]. intros c Hc.
      apply (registered_db _ (hub (shared w))); [apply hub_db_clone_clients|].
      revert Hc. apply subscribers_registered, Hok.
Qed.

Lemma hub_ok_published priority topic data timestamp h :
  hub_ok h -> hub_ok (published priority topic data timestamp h).
Proof. apply deliver_hub_ok. Qed.

Lemma returns_op_publish op n w :
  during op T n w ->
  returns (op_publish None stream acl T op) w (fun _ w' => during op (T + T) n w').
Proof.
  assert (forall w', during op T n w' -> during op (T + T) n w') as Hweak
    by (intros w'; apply during_weaken; lia).
  intros Hd. apply returns_bind, returns_asks, returns_bind, returns_reduced, returns_qbind.
  eapply returns_mono; [by apply returns_read|]. intros [prio|e] w1 H1; [|by apply Hweak].
  apply returns_bind, returns_asks, returns_bind, returns_reduced, returns_qbind.
  eapply returns_mono; [by apply returns_frame|]. intros [buf|e] w2 H2; [|by apply Hweak].
  apply returns_bind, returns_modify, returns_qbind, returns_ret.
  set (w3 := set_shared _ w2).
  assert (during op T n w3) as H3 by (apply during_hub; [done|apply H2|done]).
  destruct (split_publication buf) as [td|e]; [|by apply Hweak].
  apply returns_bind, returns_asks. destruct (prepare_topic _ td.1) as [topic|e];
    [|by apply returns_respond_then].
  destruct (contains_invalid topic); [by apply returns_ret, Hweak|].
  destruct (Acl.allow_write acl topic); [|by apply returns_respond_then].
  unfold returns. rewrite run_deliver; [|apply H3|apply unshared_respond_then].
  apply returns_respond_then, during_hub; [done|apply hub_ok_published, H3|].
  unfold by_token. simpl. unfold published. by rewrite deliver_hub_db.
Qed.

(** A round: the command byte, then the operation. *)
Lemma returns_control_step w :
  hub_ok (hub (shared w)) -> by_token (hub (shared w)) = B ->
  returns (control_step None stream client acl T) w (fun r w' =>
    hub_ok (hub (shared w')) /\ by_token (hub (shared w')) = B /\ (clock w <= clock w' <= clock w + 2 * T)%N /\
    match r with
    | Ok _ => length (inp (conn w')) < length (inp (conn w))
    | Err _ => True
    end).
Proof.
  intros Hok HB. unfold control_step. apply returns_bind. eexists _, _. split; [apply run_now|].
  apply returns_qbind. eexists _, _. split; [apply run_read|]. fold T.
  pose proof (read_exact_time 1 T w) as Ht. pose proof (read_exact_frame 1 T w) as [Hs _].
  destruct (read_exact 1 T w) as [[cmd|e] w1] eqn:Er; simpl in *;
    [|rewrite Hs; split_and!; done || lia].
  apply read_exact_Ok in Er as [Hl Hin].
  set (n := length (inp (conn w1))).
  assert (length (inp (conn w)) = S n) as Hn.
  { apply (f_equal length) in Hin. rewrite length_map, length_app, length_map in Hin. lia. }
  assert (during (clock w) T n w1) as Hd by (split; [by rewrite Hs|by rewrite Hs|lia|done]).
  assert (forall p : prog Server (result bool Error),
    returns p w1 (fun _ w' => during (clock w) (T + T) n w') ->
    returns p w1 (fun r w' => hub_ok (hub (shared w')) /\ by_token (hub (shared w')) = B /\
      (clock w <= clock w' <= clock w + 2 * T)%N /\
      match r with Ok _ => length (inp (conn w')) < length (inp (conn w)) | Err _ => True end))
    as Hweak.
  { intros p Hp. eapply returns_mono; [exact Hp|]. intros r w' [D1 D2 D3 D4].
    split_and!; [done|done|lia|lia|]. destruct r; [lia|done]. }
  assert (during (clock w) (T + T) n w1) as Hd' by (eapply during_weaken; [|exact Hd]; lia).
  apply Hweak. repeat case_decide;
    eauto using returns_respond_then, returns_op_subscribe, returns_op_unsubscribe,
      returns_op_publish, returns_ret.
Qed.
End round.

(** The whole loop: the database keeps its invariant and its clients. *)
Lemma run_process_control stream client acl fuel (w : World Server) :
  hub_ok (hub (shared w)) -> length (inp (conn w)) < fuel ->
  exists r w',
    run (process_control None stream client acl (ss_timeout stream) fuel) w = Some (Some r, w') /\
    hub_ok (hub (shared w')) /\ by_token (hub (shared w')) = by_token (hub (shared w)).
Proof.
  revert w; induction fuel as [|fuel IH]; intros w Hok Hf; [lia|].
  unfold process_control. cbn [iterate]. rewrite !run_bind.
  destruct (returns_control_step stream client acl _ w Hok eq_refl)
    as (r & w1 & -> & Hok1 & HB & _ & Hr).
  cbn [run]. destruct r as [[]|e]; [|by eauto..]. rewrite <- HB. apply IH; [done|lia].
Qed.

(** ** Operations whose bytes arrive in time *)

(** [ti], the next bytes of the connection, are [l], and are all there within [t]. *)
Definition arrives (w : World Server) (ti : list (N * byte)) (l : bytes) (t : N)
    (rest : list (N * byte)) : Prop :=
  inp (conn w) = ti ++ rest /\ map snd ti = l /\ available (clock w + t) ti.

(** The world after the bytes before [rest] were read, at the instant [c]. *)
Definition read_until (c : N) (rest : list (N * byte)) (w : World Server) : World Server :=
  set_clock c (set_inp rest w).

Lemma map_snd_app ti (a b : bytes) :
  map snd ti = a ++ b -> exists ta tb : list (N * byte),
    ti = ta ++ tb /\ map snd ta = a /\ map snd tb = b.
Proof. intros H. apply map_eq_app in H as (ta & tb & -> & <- & <-). by exists ta, tb. Qed.

Lemma arrives_app w ti (a b : bytes) t rest :
  arrives w ti (a ++ b) t rest -> exists ta tb,
    arrives w ta a t (tb ++ rest) /\
    forall c w', clock w' = c -> (c <= clock w + t)%N -> inp (conn w') = tb ++ rest ->
      arrives w' tb b (clock w + t - c) rest.
Proof.
  intros (Hi & Hm & Ha). apply map_snd_app in Hm as (ta & tb & -> & Hta & Htb).
  apply Forall_app in Ha as [Ha Hb]. exists ta, tb. split.
  - split_and!; [by rewrite Hi, <- app_assoc|done|done].
  - intros c w' <- Hc Hi'. split_and!; [done|done|].
    eapply Forall_impl; [exact Hb|]. simpl. intros. lia.
Qed.

Lemma run_read_arrives n t w ti l rest :
  arrives w ti l t rest -> length l = n -> exists c, (clock w <= c <= clock w + t)%N /\
    run (read_with_timeout n t) w = Some (Ok l, read_until c rest w).
Proof.
  intros (Hi & <- & Ha) Hl. rewrite length_map in Hl.
  exists (arrival (clock w) ti). pose proof (arrival_ge (clock w) ti).
  split; [split; [done|apply arrival_le; [lia|done]]|].
  by rewrite run_read, (read_exact_prefix ti rest).
Qed.

Lemma run_frame_arrives max t w ti payload rest :
  arrives w ti (frame payload) t rest -> (len payload < 2 ^ 32)%N ->
  (forall m, max = Some m -> (len payload <= m)%N) ->
  exists c, (clock w <= c <= clock w + t)%N /\
    run (read_frame_with_timeout max t) w = Some (Ok payload, read_until c rest w).
Proof.
  unfold frame. intros (Hi & Hm & Ha) Hl Hmax.
  apply map_snd_app in Hm as (th & tb & -> & Hth & <-). apply Forall_app in Ha as [Ha Hb].
  destruct (run_read_frame_in_time max t w th tb rest) as (c & Hc & Hr); try done.
  - by rewrite Hi, <- app_assoc.
  - rewrite <- (length_map snd), Hth. apply length_to_le_bytes.
  - rewrite Hth, from_to_le_bytes_small by done. unfold len. by rewrite length_map.
  - intros m Em. specialize (Hmax m Em). unfold len in *. by rewrite length_map in Hmax.
  - by exists c.
Qed.

Lemma reduce_left T c0 c : (c0 <= c <= c0 + T)%N -> (c + reduce_timeout T c0 c = c0 + T)%N.
Proof. intros. rewrite reduce_timeout_deadline; lia. Qed.

Section wire.
Variables (stream : SStream) (client : ServerClient) (acl : Acl).
Let T : N := ss_timeout stream.

(** The command byte is read, then its operation runs with the rest of the bytes. *)
Lemma run_command op args w ti rest :
  arrives w ti (op :: args) T rest -> exists c tb,
    (clock w <= c <= clock w + T)%N /\
    arrives (read_until c (tb ++ rest) w) tb args (reduce_timeout T (clock w) c) rest /\
    run (control_step None stream client acl T) w =
      run (if decide (op = OP_NOP) then op_nop stream
           else if decide (op = OP_SUBSCRIBE) then op_subscribe stream client acl T (clock w)
           else if decide (op = OP_UNSUBSCRIBE) then op_unsubscribe stream client T (clock w)
           else if decide (op = OP_PUBLISH) then op_publish None stream acl T (clock w)
           else if decide (op = OP_PUBLISH_REPL) then op_publish_repl None stream acl T (clock w)
           else if decide (op = OP_BYE) then op_bye stream
           else Ret (Err (invalid_data (bs "Invalid operation: " ++ show_N (to_N op)))))
        (read_until c (tb ++ rest) w).
Proof.
  intros Ha. apply (arrives_app _ _ [op]) in Ha as (ta & tb & Ha & Hb).
  destruct (run_read_arrives 1 T w ta [op] (tb ++ rest) Ha) as (c & Hc & Hr); [done|].
  exists c, tb. split; [done|]. split.
  - replace (reduce_timeout T (clock w) c) with (clock w + T - c)%N
      by (rewrite reduce_timeout_eq; lia).
    apply Hb; [done|lia|done].
  - unfold control_step. rewrite run_bind. cbn [run now]. rewrite run_qbind.
    unfold sread. fold T. by rewrite Hr.
Qed.

(** A world that differs from a given one by what was read. *)
Lemma read_until_twice c c' r r' w : read_until c r (read_until c' r' w) = read_until c r w.
Proof. done. Qed.

Lemma run_subscribe payload topics w ti rest :
  arrives w ti (OP_SUBSCRIBE :: frame payload) T rest ->
  (len payload < 2 ^ 32)%N -> (len payload <= max_topic_length (shared w))%N ->
  parse_topics payload = Ok topics ->
  exists c, (clock w <= c <= clock w + T)%N /\
    run (control_step None stream client acl T) w =
      let '(res, s) := subscribe_topics client acl topics (shared w) in
      run (_ <-? respond_status stream res ;; Ret (Ok true))
        (set_shared s (read_until c rest w)).
Proof.
  intros Ha Hl Hmax Hp. apply run_command in Ha as (c & tb & Hc & Ha & ->).
  rewrite decide_False, decide_True by done. unfold op_subscribe.
  rewrite run_bind. cbn [run asks]. rewrite run_bind, run_reduced. rewrite run_qbind.
  pose proof (reduce_left T (clock w) c Hc) as Hred.
  destruct (run_frame_arrives (Some (max_topic_length (shared w))) (reduce_timeout T (clock w) c)
              _ _ _ _ Ha Hl) as (c2 & Hc2 & Hr); [by intros m [= <-]|].
  simpl in Hc2. exists c2. split; [lia|].
  change (shared (read_until c (tb ++ rest) w)) with (shared w) in *.
  change (set_shared (shared w) (read_until c (tb ++ rest) w)) with (read_until c (tb ++ rest) w).
  change (clock (read_until c (tb ++ rest) w)) with c.
  rewrite Hr, run_qbind. simpl. rewrite Hp. simpl.
  by destruct (subscribe_topics client acl topics (shared w)).
Qed.

Lemma run_unsubscribe payload topics w ti rest :
  arrives w ti (OP_UNSUBSCRIBE :: frame payload) T rest ->
  (len payload < 2 ^ 32)%N -> (len payload <= max_topic_length (shared w))%N ->
  parse_topics payload = Ok topics ->
  exists c, (clock w <= c <= clock w + T)%N /\
    run (control_step None stream client acl T) w =
      let '(success, s) := unsubscribe_topics client topics (shared w) in
      run (_ <-? respond_status stream (if success : bool then RESPONSE_OK else RESPONSE_ERR) ;;
           Ret (Ok true))
        (set_shared s (read_until c rest w)).
Proof.
  intros Ha Hl Hmax Hp. apply run_command in Ha as (c & tb & Hc & Ha & ->).
  rewrite !decide_False, decide_True by done. unfold op_unsubscribe.
  rewrite run_bind. cbn [run asks]. rewrite run_bind, run_reduced. rewrite run_qbind.
  pose proof (reduce_left T (clock w) c Hc) as Hred.
  destruct (run_frame_arrives (Some (max_topic_length (shared w))) (reduce_timeout T (clock w) c)
              _ _ _ _ Ha Hl) as (c2 & Hc2 & Hr); [by intros m [= <-]|].
  simpl in Hc2. exists c2. split; [lia|].
  change (shared (read_until c (tb ++ rest) w)) with (shared w) in *.
  change (set_shared (shared w) (read_until c (tb ++ rest) w)) with (read_until c (tb ++ rest) w).
  change (clock (read_until c (tb ++ rest) w)) with c.
  rewrite Hr, run_qbind. simpl. rewrite Hp. simpl.
  by destruct (unsubscribe_topics client topics (shared w)).
Qed.

(** What a publication does: the status to respond with, or the error that ends the session. *)
Definition publish_effect (priority : byte) (payload : bytes) (s : Server) :
    result byte Error * Server :=
  let timestamp := server_now_ns s in
  let s := with_counters (Counters.count_pub_bytes (len payload)) s in
  match split_publication payload with
  | Err e => (Err e, s)
  | Ok (topic, data) =>
      match prepare_topic (max_depth s) topic with
      | Err _ => (Ok RESPONSE_ERR, s)
      | Ok topic =>
          if contains_invalid topic then (Err (invalid_data ERR_INVALID_DATA_BLOCK), s)
          else if Acl.allow_write acl topic
          then (Ok RESPONSE_OK, with_hub (published priority topic data timestamp) s)
          else (Ok RESPONSE_ERR_ACCESS, s)
      end
  end.

Lemma run_publish priority payload w ti rest :
  arrives w ti (OP_PUBLISH :: priority :: frame payload) T rest ->
  (len payload < 2 ^ 32)%N -> (len payload <= max_pub_size (shared w))%N ->
  hub_ok (hub (shared w)) ->
  exists c, (clock w <= c <= clock w + T)%N /\
    run (control_step None stream client acl T) w =
      match publish_effect priority payload (shared w) with
      | (Ok status, s) =>
          run (_ <-? respond_status stream status ;; Ret (Ok true))
            (set_shared s (read_until c rest w))
      | (Err e, s) => Some (Err e, set_shared s (read_until c rest w))
      end.
Proof.
  intros Ha Hl Hmax Hok. apply run_command in Ha as (c & tb & Hc & Ha & ->).
  rewrite !decide_False, decide_True by done. unfold op_publish.
  rewrite run_bind. cbn [run asks]. rewrite run_bind, run_reduced, run_qbind.
  pose proof (reduce_left T (clock w) c Hc) as Hred.
  apply (arrives_app _ _ [priority]) in Ha as (tp & tf & Hp & Hf).
  destruct (run_read_arrives 1 (reduce_timeout T (clock w) c) _ _ _ _ Hp)
    as (c2 & Hc2 & Hr); [done|]. simpl in Hc2.
  change (shared (read_until c (tb ++ rest) w)) with (shared w) in *.
  change (set_shared (shared w) (read_until c (tb ++ rest) w)) with (read_until c (tb ++ rest) w).
  change (clock (read_until c (tb ++ rest) w)) with c in *. rewrite Hr.
  rewrite read_until_twice in *. rewrite run_bind. cbn [run asks].
  change (shared (read_until c2 (tf ++ rest) w)) with (shared w) in *.
  change (set_shared (shared w) (read_until c2 (tf ++ rest) w)) with (read_until c2 (tf ++ rest) w).
  rewrite run_bind, run_reduced, run_qbind.
  change (clock (read_until c2 (tf ++ rest) w)) with c2.
  specialize (Hf c2 (read_until c2 (tf ++ rest) w) eq_refl ltac:(lia) eq_refl).
  replace (c + reduce_timeout T (clock w) c - c2)%N with (reduce_timeout T (clock w) c2) in Hf
    by (rewrite !reduce_timeout_eq in *; lia).
  pose proof (reduce_left T (clock w) c2 ltac:(lia)) as Hred2.
  destruct (run_frame_arrives (Some (max_pub_size (shared w))) _ _ _ _ _ Hf Hl)
    as (c3 & Hc3 & Hr3); [by intros m [= <-]|]. simpl in Hc3. rewrite Hr3.
  exists c3. split; [lia|]. rewrite read_until_twice, run_bind. cbn [run modify]. rewrite run_qbind.
  unfold publish_effect. cbn [run lift].
  destruct (split_publication payload) as [[topic data]|e]; [|done].
  rewrite run_bind. cbn [run asks fst snd].
  change (max_depth (shared (set_shared ?s _))) with (max_depth s).
  destruct (prepare_topic _ topic) as [t|e]; [|done].
  destruct (contains_invalid t); [done|].
  destruct (Acl.allow_write acl t); [|done].
  rewrite run_deliver; [done|done|apply unshared_respond_then].
Qed.
End wire.

(** ** Topics on the wire *)

(** A topic a client can name in a command: text without NUL. *)
Definition topic_text (t : bytes) : Prop := t <> [] /\ utf8 t /\ NUL ∉ t.

Lemma parse_pieces_text ts : Forall topic_text ts -> parse_pieces ts = Ok ts.
Proof.
  induction 1 as [|t ts (Hne & Hu & _) Hts IH]; [done|]. simpl.
  rewrite bool_decide_eq_false_2 by done. by rewrite str_from_utf8_valid, IH.
Qed.

Lemma parse_topics_one t : topic_text t -> parse_topics t = Ok [t].
Proof.
  intros Ht. unfold parse_topics. rewrite split_on_not_in by apply Ht.
  apply parse_pieces_text. auto.
Qed.

Lemma parse_topics_bulk ts :
  Forall topic_text ts -> parse_topics (ControlCommand.bulk_body ts) = Ok ts.
Proof.
  intros Hts. unfold parse_topics.
  assert (split_on NUL (ControlCommand.bulk_body ts) = ts ++ [[]]) as ->.
  { induction Hts as [|t ts Ht Hts IH]; [done|]. cbn [ControlCommand.bulk_body app].
    change x00 with NUL. rewrite split_on_app by apply Ht. by rewrite IH. }
  assert (parse_pieces (ts ++ [[]]) = parse_pieces ts) as ->; [|by apply parse_pieces_text].
  clear Hts. induction ts as [|t ts IH]; [done|]. simpl. by rewrite IH.
Qed.

Lemma split_publication_text t m :
  topic_text t -> split_publication (t ++ x00 :: m) = Ok (t, m).
Proof.
  intros (Hne & Hu & Hn). unfold split_publication. change x00 with NUL.
  rewrite position_app by done.
  replace (t ++ NUL :: m) with ((t ++ [NUL]) ++ m) by by rewrite <- app_assoc.
  rewrite take_app_length', drop_app_length', length_app by (rewrite length_app; done). simpl.
  rewrite Nat.add_sub, take_app_length. rewrite bool_decide_eq_false_2 by done.
  by rewrite str_from_utf8_valid.
Qed.

(** ** Subscriptions under the access rules *)

(** The topics that a bulk command gets through: all before the first that is refused. *)
Record accepted (acl : Acl) (depth : N) (topics done_ todo : list bytes) (ps : list bytes)
    (res : byte) : Prop := {
  acc_split : topics = done_ ++ todo;
  acc_done : Forall2 (fun t p => Acl.allow_read acl t = true /\ prepare_topic depth t = Ok p)
               done_ ps;
  acc_rest : match todo with
             | [] => res = RESPONSE_OK
             | t :: _ => (res = RESPONSE_ERR_ACCESS /\ Acl.allow_read acl t = false) \/
                 (res = RESPONSE_ERR /\ Acl.allow_read acl t = true /\
                  is_err (prepare_topic depth t) = true)
             end;
}.

Lemma alter_patterns (f g : gset bytes -> gset bytes) (d : bytes)
    (m : gmap bytes (ServerClient * gset bytes)) :
  alter (fun '(c, qs) => (c, f qs)) d (alter (fun '(c, qs) => (c, g qs)) d m) =
    alter (fun '(c, qs) => (c, f (g qs))) d m.
Proof.
  apply map_eq. intros i. destruct (decide (d = i)) as [<-|?].
  - rewrite !lookup_alter_eq. by destruct (m !! d) as [[c qs]|].
  - by rewrite !lookup_alter_ne.
Qed.

Lemma subscribe_topics_accepted client acl topics s :
  exists done_ todo ps,
    accepted acl (max_depth s) topics done_ todo ps (subscribe_topics client acl topics s).1 /\
    (Forall plain_pattern ps ->
     view (hub (subscribe_topics client acl topics s).2) =
       alter (fun '(c, qs) => (c, list_to_set ps ∪ qs)) (digest client) (view (hub s))) /\
    by_token (hub (subscribe_topics client acl topics s).2) = by_token (hub s) /\
    counters (subscribe_topics client acl topics s).2 =
      Nat.iter (length done_) Counters.count_sub_ops (counters s).
Proof.
  assert (forall h : gmap bytes (ServerClient * gset bytes),
    alter (fun '(c, qs) => (c, ∅ ∪ qs)) (digest client) h = h) as Hid.
  { intros h. apply map_eq. intros i. rewrite lookup_alter. case_decide; [subst|done].
    destruct (h !! digest client) as [[c qs]|]; [|done]. simpl. do 2 f_equal. set_solver. }
  revert s; induction topics as [|t ts IH]; intros s.
  - exists [], [], []. split; [by constructor|]. simpl. by rewrite Hid.
  - cbn [subscribe_topics]. destruct (Acl.allow_read acl t) eqn:Ea; simpl.
    2:{ exists [], (t :: ts), []. split; [constructor; auto|]. simpl. by rewrite Hid. }
    unfold subscribe at 1 2 3 4. destruct (prepare_topic (max_depth s) t) as [p|e] eqn:Ep.
    2:{ exists [], (t :: ts), []. split; [constructor; simpl; auto|simpl; by rewrite Hid].
        right. by rewrite Ep. }
    set (s1 := with_counters _ _).
    destruct (IH s1) as (d & todo & ps & Hacc & Hv & Hb & Hc).
    exists (t :: d), todo, (p :: ps). split; [|split; [|split]].
    + destruct Hacc as [-> H2 H3]. constructor; [done|by constructor|done].
    + intros [Hp Hps]%Forall_cons. rewrite (Hv Hps).
      unfold s1, view. simpl. rewrite sm_subscribe_plain by done.
      rewrite alter_patterns. apply alter_ext. intros [c qs] _. f_equal. set_solver.
    + done.
    + rewrite Hc. cbn [length]. by rewrite Nat.iter_succ_r.
Qed.

(** ** One round, any bytes: what it publishes *)

Section permission.
Variables (stream : SStream) (client : ServerClient) (acl : Acl).
Let T : N := ss_timeout stream.

(** At most one more response, with the status [st]. *)
Definition responds (st : byte) (w w' : World Server) : Prop :=
  out (conn w') = out (conn w) \/ out (conn w') = out (conn w) ++ [[st]].

Lemma returns_respond_out st b w :
  returns (_ <-? respond_status stream st ;; Ret (@Ok bool Error b)) w
    (fun _ w' => shared w' = shared w /\ responds st w w').
Proof.
  unfold returns. rewrite run_qbind. unfold respond_status, swrite. rewrite run_write.
  unfold write_all, responds. repeat case_match; simpl in *; simplify_eq; eauto 10.
Qed.

(** The message reached the queues of the subscribers of its topic, and nothing else. *)
Definition spread (m : MessageFrame) (topic : bytes) (h h' : Hub) : Prop :=
  hub_db h' = hub_db h /\
  forall c, registered c h ->
    queue_of c h' = if bool_decide (c ∈ get_subscribers topic h) then queue_of c h ≫= offer m
                    else queue_of c h.

Lemma published_spread priority topic data ts h :
  hub_ok h ->
  spread (message_frame priority topic data ts) topic h (published priority topic data ts h).
Proof.
  intros Hok. split; [apply deliver_hub_db|]. intros c Hc.
  apply queue_of_deliver; [done| |eapply NoDup_fmap_1, sm_get_subscribers_nodup|done].
  intros c'. apply subscribers_registered, Hok.
Qed.

(** The operation published the message of the bytes, which the rules admit. *)
Definition publishes (input : bytes) (w w' : World Server) : Prop :=
  exists priority payload rest t data topic,
    input = priority :: frame payload ++ rest /\
    split_publication payload = Ok (t, data) /\
    prepare_topic (max_depth (shared w)) t = Ok topic /\ contains_invalid topic = false /\
    Acl.allow_write acl topic = true /\
    spread (message_frame priority topic data (server_now_ns (shared w))) topic
      (hub (shared w)) (hub (shared w')).

(** The operation published nothing, and says so. *)
Definition publishes_nothing (w w' : World Server) : Prop :=
  hub (shared w') = hub (shared w) /\
  exists st, st <> RESPONSE_OK /\ responds st w w'.

Lemma untouched_nothing (w w' : World Server) :
  hub (shared w') = hub (shared w) -> out (conn w') = out (conn w) -> publishes_nothing w w'.
Proof. intros ? ?. split; [done|]. exists RESPONSE_ERR. by split; [|left]. Qed.

Lemma returns_op_publish_safe op input w :
  hub_ok (hub (shared w)) -> map snd (inp (conn w)) = input ->
  returns (op_publish None stream acl T op) w (fun _ w' =>
    hub_ok (hub (shared w')) /\ (publishes input w w' \/ publishes_nothing w w')).
Proof.
  intros Hok Hin. apply returns_bind, returns_asks, returns_bind, returns_reduced, returns_qbind.
  eapply returns_mono; [apply returns_read_bytes|].
  intros [prio|e] w1; [|intros [Hs ?]; rewrite Hs; split; [done|right; apply untouched_nothing; congruence]].
  intros [Hl (Hs1 & Ho1 & Hi1)]. destruct prio as [|priority [|]]; try done. clear Hl. simpl hd.
  apply returns_bind, returns_asks, returns_bind, returns_reduced, returns_qbind.
  eapply returns_mono; [apply returns_frame_bytes|].
  intros [buf|e] w2; [|intros [Hs2 Ho2]; rewrite Hs2, Hs1; split; [done|];
                       right; apply untouched_nothing; congruence].
  intros (Hs2 & Ho2 & Hi2). apply returns_bind, returns_modify, returns_qbind, returns_ret.
  set (w3 := set_shared _ w2).
  assert (hub (shared w3) = hub (shared w)) as Hh by (simpl; congruence).
  assert (out (conn w3) = out (conn w)) as Ho3 by (simpl; congruence).
  assert (hub_ok (hub (shared w3))) as Hok3 by by rewrite Hh.
  assert (publishes_nothing w w3) as Hno by by apply untouched_nothing.
  assert (forall st b, st <> RESPONSE_OK ->
    returns (_ <-? respond_status stream st ;; Ret (@Ok bool Error b)) w3 (fun _ w' =>
      hub_ok (hub (shared w')) /\ (publishes input w w' \/ publishes_nothing w w'))) as Hresp.
  { intros st b Hst. eapply returns_mono; [apply returns_respond_out|]. intros _ w' [Hs Hr].
    unfold responds in Hr. rewrite Ho3 in Hr. rewrite Hs. split; [done|]. right.
    split; [by rewrite Hs|]. by exists st. }
  destruct (split_publication buf) as [[t data]|e] eqn:Esp; [|by split; [|right]].
  apply returns_bind, returns_asks. simpl fst; simpl snd.
  change (max_depth (shared w3)) with (max_depth (shared w2)). rewrite Hs2, Hs1.
  destruct (prepare_topic _ t) as [topic|e] eqn:Ep; [|by apply Hresp].
  destruct (contains_invalid topic) eqn:Ei; [apply returns_ret; by split; [|right]|].
  destruct (Acl.allow_write acl topic) eqn:Ea; [|by apply Hresp].
  unfold returns. rewrite run_deliver; [|done|apply unshared_respond_then].
  eapply returns_mono; [apply returns_respond_out|]. intros _ w' [Hs' _]. rewrite Hs'.
  split; [by apply hub_ok_published|]. left. exists priority, buf, (map snd (inp (conn w2))), t, data, topic.
  split_and!; try done.
  - rewrite <- Hin, Hi1, Hi2. done.
  - rewrite Hs'. cbn [shared set_shared hub with_hub set_hub]. rewrite Hh. by apply published_spread.
Qed.

Lemma chans_subscribe_topics topics s :
  chans (hub (subscribe_topics client acl topics s).2) = chans (hub s).
Proof.
  revert s; induction topics as [|t ts IH]; intros s; simpl; [done|].
  destruct (negb _); [done|]. unfold subscribe.
  destruct (prepare_topic (max_depth s) t); [|done]. by rewrite IH.
Qed.

Lemma chans_unsubscribe_topics topics s :
  chans (hub (unsubscribe_topics client topics s).2) = chans (hub s).
Proof.
  revert s; induction topics as [|t ts IH]; intros s; simpl; [done|]. unfold unsubscribe.
  destruct (prepare_topic (max_depth s) t); [|done]. by rewrite IH.
Qed.

(** The operations that read topics and change the subscriptions send no message. *)
Lemma returns_topics_op {X} (max : Server -> N) op (f : list bytes -> Server -> X * Server)
    (status : X -> byte) w :
  (forall topics s, chans (hub (f topics s).2) = chans (hub s)) ->
  returns (max <-- asks max ;; t <-- reduced T op ;;
           data <-? read_frame_with_timeout (Some max) t ;;
           topics <-? lift (parse_topics data) ;;
           res <-- atomic (f topics) ;;
           _ <-? respond_status stream (status res) ;; Ret (@Ok bool Error true)) w
    (fun _ w' => chans (hub (shared w')) = chans (hub (shared w))).
Proof.
  intros Hf. apply returns_bind, returns_asks, returns_bind, returns_reduced, returns_qbind.
  eapply returns_mono; [apply returns_frame_bytes|].
  intros [data|e] w1; [intros (Hs & _ & _)|by intros [-> _]].
  apply returns_qbind, returns_ret. destruct (parse_topics data) as [topics|e]; [|by rewrite Hs].
  apply returns_bind, returns_atomic.
  eapply returns_mono; [apply returns_respond_out|]. intros _ w' [-> _]. simpl. by rewrite Hf, Hs.
Qed.
End permission.

(** ** Properties *)

(** C20: a round of the control loop ends, whatever bytes the peer sends and whenever it sends them,
    at most two timeouts after it began (one to read the command with its arguments, one to write
    the response); it keeps the invariant of the database, and unless it ends the session it has
    consumed input. *)
Theorem control_step_bounded (stream : SStream) (client : ServerClient) (acl : Acl)
    (w : World Server) :
  hub_ok (hub (shared w)) ->
  exists r w', run (control_step None stream client acl (ss_timeout stream)) w = Some (r, w') /\
    hub_ok (hub (shared w')) /\
    (clock w <= clock w' <= clock w + 2 * ss_timeout stream)%N /\
    match r with
    | Ok _ => length (inp (conn w')) < length (inp (conn w))
    | Err _ => True
    end.
Proof.
  intros Hok. destruct (returns_control_step stream client acl _ w Hok eq_refl)
    as (r & w' & Hr & H1 & _ & H2 & H3). by exists r, w'.
Qed.

(** C21: [process_control] ends the session after finitely many rounds: one more round than the peer
    sends bytes is enough. *)
Theorem process_control_terminates (stream : SStream) (client : ServerClient) (acl : Acl)
    (fuel : nat) (w : World Server) :
  hub_ok (hub (shared w)) -> length (inp (conn w)) < fuel ->
  exists r w',
    run (process_control None stream client acl (ss_timeout stream) fuel) w = Some (Some r, w') /\
    hub_ok (hub (shared w')).
Proof.
  intros Hok Hf. destruct (run_process_control stream client acl fuel w Hok Hf)
    as (r & w' & Hr & Hok' & _). by exists r, w'.
Qed.

(** C18: a bulk subscription that a client sends takes effect at the server as the loop over exactly
    its topics, and the status of that loop is the response. *)
Theorem client_subscribe_effect (stream : SStream) (client : ServerClient) (acl : Acl)
    (topics : list bytes) (w : World Server) (ti rest : list (N * byte)) :
  arrives w ti (ControlCommand.as_bytes (SubscribeBulk topics)) (ss_timeout stream) rest ->
  Forall topic_text topics -> payload_fits (SubscribeBulk topics) ->
  (len (command_payload (SubscribeBulk topics)) <= max_topic_length (shared w))%N ->
  exists c, (clock w <= c <= clock w + ss_timeout stream)%N /\
    run (control_step None stream client acl (ss_timeout stream)) w =
      let '(res, s) := subscribe_topics client acl topics (shared w) in
      run (_ <-? respond_status stream res ;; Ret (Ok true)) (set_shared s (read_until c rest w)).
Proof.
  intros Ha Ht Hfit Hmax. rewrite (as_bytes_bulk _ topics) in Ha by auto.
  by apply (run_subscribe stream client acl _ topics _ _ _ Ha Hfit Hmax), parse_topics_bulk.
Qed.

(** C19: a bulk subscription subscribes the client to the normalised forms of the topics up to the
    first one that its access rules or the depth limit refuse, counts them, and tells the client
    which of the two refused; every topic it subscribes to was admitted by the rules, and the
    subscriptions of the other clients stay. *)
Theorem bulk_subscribe_spec (client : ServerClient) (acl : Acl) (topics : list bytes) (s : Server) :
  let '(res, s') := subscribe_topics client acl topics s in
  exists done_ todo ps, accepted acl (max_depth s) topics done_ todo ps res /\
    (Forall plain_pattern ps ->
     view (hub s') =
       alter (fun '(c, qs) => (c, list_to_set ps ∪ qs)) (digest client) (view (hub s))) /\
    by_token (hub s') = by_token (hub s) /\
    counters s' = Nat.iter (length done_) Counters.count_sub_ops (counters s).
Proof.
  pose proof (subscribe_topics_accepted client acl topics s) as H.
  by destruct (subscribe_topics client acl topics s).
Qed.

(** a message that a client publishes takes effect at the server exactly as [publish_effect]
    says, on the topic and the body the client gave. *)
Theorem client_publish_effect (stream : SStream) (client : ServerClient) (acl : Acl)
    (priority : byte) (topic message : bytes) (w : World Server) (ti rest : list (N * byte)) :
  arrives w ti (ControlCommand.as_bytes (Publish priority topic message) ++ message)
    (ss_timeout stream) rest ->
  topic_text topic -> payload_fits (Publish priority topic message) ->
  (len (command_payload (Publish priority topic message)) <= max_pub_size (shared w))%N ->
  hub_ok (hub (shared w)) ->
  split_publication (command_payload (Publish priority topic message)) = Ok (topic, message) /\
  exists c, (clock w <= c <= clock w + ss_timeout stream)%N /\
    run (control_step None stream client acl (ss_timeout stream)) w =
      match publish_effect acl priority (topic ++ x00 :: message) (shared w) with
      | (Ok status, s) =>
          run (_ <-? respond_status stream status ;; Ret (Ok true))
            (set_shared s (read_until c rest w))
      | (Err e, s) => Some (Err e, set_shared s (read_until c rest w))
      end.
Proof.
  intros Ha Ht Hfit Hmax Hok. rewrite as_bytes_publish in Ha by done. split.
  - by apply split_publication_text.
  - by apply (run_publish stream client acl priority _ _ _ _ Ha Hfit).
Qed.

(** C10: nothing is published without permission, whatever bytes a client sends and whenever. After a
    round of its control stream either the channels of all clients are as they were, and if the
    command was a publication so is the whole database and the response, if any, is not
    [RESPONSE_OK]; or the bytes are a publication whose topic, normalised and free of wildcards, is
    one that the client's access rules let it write, and the queues of exactly the subscribers of
    that topic were offered the message, and nothing else happened to any queue. *)
Theorem control_publishes_permitted (stream : SStream) (client : ServerClient) (acl : Acl)
    (w : World Server) :
  hub_ok (hub (shared w)) ->
  exists r w', run (control_step None stream client acl (ss_timeout stream)) w = Some (r, w') /\
    ((chans (hub (shared w')) = chans (hub (shared w)) /\
      forall input, map snd (inp (conn w)) = OP_PUBLISH :: input -> publishes_nothing w w') \/
     exists input, map snd (inp (conn w)) = OP_PUBLISH :: input /\ publishes acl input w w').
Proof.
  intros Hok. change (returns (control_step None stream client acl (ss_timeout stream)) w
    (fun _ w' => chans (hub (shared w')) = chans (hub (shared w)) /\
      (forall input, map snd (inp (conn w)) = OP_PUBLISH :: input -> publishes_nothing w w') \/
      exists input, map snd (inp (conn w)) = OP_PUBLISH :: input /\ publishes acl input w w')).
  unfold control_step. apply returns_bind. eexists _, _. split; [apply run_now|].
  apply returns_qbind. eapply returns_mono; [apply returns_read_bytes|].
  intros [cmd|e] w1; [|intros [Hs Ho]; left; rewrite Hs; split; [done|];
                       intros; apply untouched_nothing; congruence].
  intros [Hl (Hs & Ho & Hi)]. destruct cmd as [|op [|]]; try done. clear Hl. simpl hd. simpl app in Hi.
  assert (forall p, op <> OP_PUBLISH ->
    returns p w1 (fun _ w' => chans (hub (shared w')) = chans (hub (shared w1))) ->
    returns p w1 (fun (_ : result bool Error) w' => chans (hub (shared w')) = chans (hub (shared w)) /\
      (forall input, map snd (inp (conn w)) = OP_PUBLISH :: input -> publishes_nothing w w') \/
      exists input, map snd (inp (conn w)) = OP_PUBLISH :: input /\ publishes acl input w w'))
    as Hother.
  { intros p Hne Hp. eapply returns_mono; [exact Hp|]. intros r w' Hc. left. rewrite Hc, Hs.
    split; [done|]. intros input Hi'. congruence. }
  assert (forall st b, returns (_ <-? respond_status stream st ;; Ret (@Ok bool Error b)) w1
    (fun _ w' => chans (hub (shared w')) = chans (hub (shared w1)))) as Hresp.
  { intros st b. eapply returns_mono; [apply returns_respond_out|]. by intros _ w' [-> _]. }
  repeat case_decide; try (apply Hother; [by subst|]);
    [apply Hresp| | | | |apply Hresp|by apply returns_ret].
  - by apply (returns_topics_op stream max_topic_length (clock w)
      (subscribe_topics client acl) (fun b => b)), chans_subscribe_topics.
  - apply (returns_topics_op stream max_topic_length (clock w) (unsubscribe_topics client)
      (fun success : bool => if success then RESPONSE_OK else RESPONSE_ERR)).
    apply chans_unsubscribe_topics.
  - eapply returns_mono; [by apply returns_op_publish_safe; [rewrite Hs|]|].
    intros _ w' [_ [(pr & pl & rest & t & d & tp & Hpub)|Hno]].
    + right. exists (map snd (inp (conn w1))). split; [congruence|].
      exists pr, pl, rest, t, d, tp. by rewrite Hs in Hpub.
    + left. unfold publishes_nothing, responds in *. rewrite Ho, Hs in Hno.
      split; [by destruct Hno as [-> _]|done].
  - by apply returns_ret.
Qed.

(** C15: the loop that sends a message to a set of clients ends, and every client of the set gets the
    message once: a client whose queue has room gains exactly this message at the end of it, one
    whose queue is full loses the channel, one whose channel is closed is left alone; the queues of
    all other clients, the database, the clock and the publisher's own connection are untouched. *)
Theorem push_delivers (subscribers : list ServerClient) (priority : byte) (topic data : bytes)
    (timestamp : N) (w : World Server) (c : ServerClient) :
  hub_ok (hub (shared w)) -> Forall (fun c => registered c (hub (shared w))) subscribers ->
  NoDup subscribers -> registered c (hub (shared w)) ->
  let m := message_frame priority topic data timestamp in
  exists s', run (push_to_subscribers subscribers priority topic data timestamp) w =
      Some (tt, set_shared s' w) /\
    hub_db (hub s') = hub_db (hub (shared w)) /\
    (c ∉ subscribers -> queue_of c (hub s') = queue_of c (hub (shared w))) /\
    (c ∈ subscribers -> forall v, queue_of c (hub (shared w)) = Some v ->
       (view_full v = true -> client_data_channel c (hub s') = None) /\
       (view_full v = false -> ch_receivers v <> 0 ->
          queue_of c (hub s') = Some (view_push m v)) /\
       (view_full v = false -> ch_receivers v = 0 -> queue_of c (hub s') = Some v)).
Proof.
  intros Hok Hl Hnd Hc m. rewrite Forall_forall in Hl.
  eexists. split; [by apply run_push_to_subscribers|]. simpl. fold m. set (h := hub (shared w)) in *.
  split; [apply deliver_hub_db|].
  pose proof (queue_of_deliver m subscribers h c Hok Hl Hnd Hc) as Hq.
  set (h' := deliver_hub m subscribers h) in *.
  split; intros Hin; rewrite ?bool_decide_eq_false_2, ?bool_decide_eq_true_2 in Hq by done;
    [done|].
  intros v Hv. rewrite Hv in Hq. simpl in Hq. unfold offer in Hq.
  split_and!; intros Hf; rewrite Hf in Hq.
  - unfold queue_of in Hq. destruct (client_data_channel c h') as [ch|] eqn:Ech; [|done].
    pose proof Ech as (cell & Hcell & Hch)%bind_Some.
    assert (hub_ok h') as Hok' by by apply deliver_hub_ok.
    destruct (ok_slot _ (proj2 Hok') _ _ _ Hcell Hch) as [q Hq']. simpl in Hq. by rewrite Hq' in Hq.
  - intros Hr. by rewrite bool_decide_eq_false_2 in Hq.
  - intros Hr. by rewrite bool_decide_eq_true_2 in Hq.
Qed.

(** Access rules with the single mask [a/+/b]. *)
Definition bypass_acl : Acl :=
  mkAcl false false
    (Some (PathMaskList.new {[ mkPathMask (Some [bs "a"; bs "+"; bs "b"]) ]})) None.

(** C35: the access rules are asked about the topic as the client sent it, the subscription is to its
    normalised form: with the mask [a/+/b] alone a client may not read [a/b], but a subscription to
    [a//b] is admitted and delivers [a/b] to it. *)
Theorem subscribe_acl_bypass (client : ServerClient) (s : Server) :
  hub_ok (hub s) -> registered client (hub s) -> (1 <= max_depth s)%N ->
  Acl.allow_read bypass_acl (bs "a/b") = false /\
  let '(res, s') := subscribe_topics client bypass_acl [bs "a//b"] s in
  res = RESPONSE_OK /\ client ∈ get_subscribers (bs "a/b") (hub s').
Proof.
  intros Hok Hc Hd. split; [vm_compute; reflexivity|].
  assert (Acl.allow_read bypass_acl (bs "a//b") = true) as Ha by (vm_compute; reflexivity).
  assert (prepare_topic (max_depth s) (bs "a//b") = Ok (bs "a/b")) as Hp.
  { unfold prepare_topic.
    assert (strip_slash (collapse (length (bs "a//b")) (bs "a//b")) = bs "a/b") as -> by vm_refl.
    assert (N.of_nat (count slash (bs "a/b")) = 1%N) as -> by vm_refl.
    by rewrite (proj2 (N.ltb_ge _ _)). }
  cbn [subscribe_topics]. rewrite Ha. simpl. unfold subscribe. rewrite Hp. simpl.
  split; [done|]. apply get_subscribers_spec.
  destruct (registered_view (hub s) client (proj1 Hok) Hc) as [ps Hps].
  assert (plain_pattern (bs "a/b")) as Hpl.
  { unfold plain_pattern. intros i Hi. exfalso. revert Hi.
    assert (split_on slash (bs "a/b") = [bs "a"; bs "b"]) as -> by vm_refl.
    destruct i as [|[|[|i]]]; simpl; intros [=]. }
  exists ({[bs "a/b"]} ∪ ps), (bs "a/b"). unfold view. simpl.
  rewrite sm_subscribe_plain by done. fold (view (hub s)). rewrite lookup_alter_eq, Hps. simpl.
  split; [done|]. split; [by apply elem_of_union_l, elem_of_singleton|].
  apply pattern_matches_lower; [done|].
  apply match_chunks_spec. vm_compute. reflexivity.
Qed.
End spec.

(** ** Witnesses *)

#[local] Existing Instance demo_bcrypt.

(** One client, subscribed to [sensors/+], with a data channel for eight messages. *)
Definition demo_live_hub : Hub :=
  (register_data_channel (demo_token x01) 1
     (new_channel 8 (subscribe 64 (bs "sensors/+") demo_client demo_hub).2).2).2.

Definition demo_server : Server :=
  mkServer demo_live_hub Counters.default (mkDb ∅ []) Passwords.default Keys.default
    (mkLimits 0 8 64) true 1024 1024 (1%Z, 2%Z) [].

Definition demo_world (input : bytes) : World Server :=
  mkWorld 0 (mkConn (ready input) None [] []) (bs "deadline has elapsed") demo_server.

Lemma demo_live_ok : hub_ok demo_live_hub.
Proof.
  apply hub_ok_register_data_channel.
  - split; [exists (ch_bounded 8); vm_refl|]. intros i cell.
    assert (cells (new_channel 8 (subscribe 64 (bs "sensors/+") demo_client demo_hub).2).2
      = {[ 0 := mkCell None [] 2 ]}) as -> by vm_refl.
    rewrite lookup_singleton. case_decide; [by intros [= <-]|done].
  - apply hub_ok_new_channel, hub_ok_subscribe, demo_ok.
Qed.

Lemma demo_live_registered : registered demo_client demo_live_hub.
Proof. unfold registered. vm_refl. Qed.

Lemma demo_arrives input w t :
  w = demo_world input -> arrives w (ready input) input t [].
Proof.
  intros ->. split_and!; [by rewrite app_nil_r|apply map_snd_ready|apply available_ready].
Qed.

Lemma control_step_bounded_witness :
  exists r w', run (control_step None (mkSStream 5) demo_client Acl.new_full 5)
    (demo_world [OP_NOP]) = Some (r, w').
Proof.
  destruct (control_step_bounded (mkSStream 5) demo_client Acl.new_full (demo_world [OP_NOP])
              demo_live_ok) as (r & w' & H & _).
  by exists r, w'.
Defined.

Lemma process_control_terminates_witness :
  exists r w', run (process_control None (mkSStream 5) demo_client Acl.new_full 5 3)
    (demo_world [OP_NOP; OP_BYE]) = Some (Some r, w').
Proof.
  destruct (process_control_terminates (mkSStream 5) demo_client Acl.new_full 3
              (demo_world [OP_NOP; OP_BYE]) demo_live_ok) as (r & w' & H & _).
  - vm_compute. lia.
  - by exists r, w'.
Defined.

Lemma topic_text_ascii (t : bytes) :
  bool_decide (t <> [] /\ Forall (fun b => ascii b = true /\ b <> NUL) t) = true -> topic_text t.
Proof.
  intros [Hne Ht]%bool_decide_eq_true. split_and!; [done| |].
  - clear Hne. induction Ht as [|b t [Hb _] Ht IH]; [constructor|]. by apply utf8_ascii_cons.
  - intros Hin. rewrite Forall_forall in Ht. by destruct (Ht _ Hin).
Qed.

Lemma client_subscribe_effect_witness :
  exists c, (0 <= c <= 5)%N /\
    run (control_step None (mkSStream 5) demo_client Acl.new_full 5)
      (demo_world (ControlCommand.as_bytes (SubscribeBulk [bs "a"; bs "b"]))) =
      let '(res, s) := subscribe_topics demo_client Acl.new_full [bs "a"; bs "b"] demo_server in
      run (_ <-? respond_status (mkSStream 5) res ;; Ret (Ok true))
        (set_shared s (read_until c []
           (demo_world (ControlCommand.as_bytes (SubscribeBulk [bs "a"; bs "b"]))))).
Proof.
  apply (client_subscribe_effect (mkSStream 5) demo_client Acl.new_full [bs "a"; bs "b"]
           (demo_world (ControlCommand.as_bytes (SubscribeBulk [bs "a"; bs "b"])))
           (ready (ControlCommand.as_bytes (SubscribeBulk [bs "a"; bs "b"]))) []);
    [by apply demo_arrives
    |repeat apply Forall_cons_2; [..|apply Forall_nil_2]; apply topic_text_ascii; vm_compute;
       reflexivity
    |vm_compute; reflexivity|vm_compute; discriminate].
Defined.

Lemma client_publish_effect_witness :
  split_publication (command_payload (Publish x7f (bs "sensors/1") (bs "on"))) =
    Ok (bs "sensors/1", bs "on").
Proof.
  refine (proj1 (client_publish_effect (mkSStream 5) demo_client Acl.new_full x7f (bs "sensors/1")
    (bs "on")
    (demo_world (ControlCommand.as_bytes (Publish x7f (bs "sensors/1") (bs "on")) ++ bs "on"))
    (ready (ControlCommand.as_bytes (Publish x7f (bs "sensors/1") (bs "on")) ++ bs "on")) []
    _ _ _ _ demo_live_ok));
    [by apply demo_arrives|apply topic_text_ascii; vm_compute; reflexivity
    |vm_compute; reflexivity|vm_compute; discriminate].
Defined.

Lemma control_publishes_permitted_witness :
  exists r w', run (control_step None (mkSStream 5) demo_client Acl.new_full 5)
    (demo_world (OP_PUBLISH :: x7f :: frame (bs "sensors/1" ++ x00 :: bs "on"))) = Some (r, w').
Proof.
  destruct (control_publishes_permitted (mkSStream 5) demo_client Acl.new_full
    (demo_world (OP_PUBLISH :: x7f :: frame (bs "sensors/1" ++ x00 :: bs "on"))) demo_live_ok)
    as (r & w' & H & _).
  by exists r, w'.
Defined.

Lemma push_delivers_witness :
  exists s', run (push_to_subscribers [demo_client] x7f (bs "sensors/1") (bs "on") 7) (demo_world []) =
      Some (tt, set_shared s' (demo_world [])) /\
    queue_of demo_client (hub s') =
      Some (mkChanView 8 [message_frame x7f (bs "sensors/1") (bs "on") 7] 2 1).
Proof.
  destruct (push_delivers [demo_client] x7f (bs "sensors/1") (bs "on") 7 (demo_world []) demo_client)
    as (s' & Hr & _ & _ & H).
  - apply demo_live_ok.
  - apply Forall_cons_2; [apply demo_live_registered|apply Forall_nil_2].
  - apply NoDup_singleton.
  - apply demo_live_registered.
  - exists s'. split; [exact Hr|].
    refine (proj1 (proj2 (H _ (mkChanView 8 [] 2 1) _)) _ _).
    + by left.
    + unfold queue_of. vm_refl.
    + vm_refl.
    + done.
Defined.

Lemma subscribe_acl_bypass_witness :
  demo_client ∈ get_subscribers (bs "a/b")
    (hub (subscribe_topics demo_client bypass_acl [bs "a//b"] demo_server).2).
Proof.
  pose proof (subscribe_acl_bypass demo_client demo_server demo_live_ok demo_live_registered) as H.
  destruct (subscribe_topics _ _ _ _) as [res s']. apply H. vm_compute. discriminate.
Defined.
