(* ===== verification/Session.v ===== *)
(** * Connections: the stream handlers of src/src/server.rs

    From the greeting to the end of a session: [init_unix_stream], [init_tcp_stream], the login,
    [handle_unix_stream] and [handle_tcp_stream], and the data streams ([launch_data_stream],
    [handle_data_stream] and the beacon task it comes with). The TLS handshake and the socket option
    are parameters. A result [None] of a program with fuel means that its loop still turns. *)

From S2P Require Import Prelude Utf8 Proto Io Acl Topic Token Pubsub Passwords Keys Server.
From S2P Require Import Control.

Inductive StreamType : Type :=
| Control
| Data.

#[export] Instance StreamType_eq_dec : EqDecision StreamType.
Proof. solve_decision. Defined.

Section session.
Context {SMO : SubMapOps} {CHO : ChannelOps} {SHO : Sha256Ops} {BCO : BcryptOps}.

(** ** Greeting *)

(** The [match] on the first two bytes of the greeting. *)
Definition stream_type_of (greeting : bytes) : result StreamType Error :=
  let header := take 2 greeting in
  if decide (header = CONTROL_HEADER) then Ok Control
  else if decide (header = DATA_HEADER) then Ok Data
  else Err (io (bs "Invalid greeting header: " ++ show_hex_slice header)).

Definition reply_header (greeting : bytes) : bytes :=
  take 2 greeting ++ to_le_bytes 2 PROTOCOL_VERSION.

Definition init_unix_stream (timeout : N) : prog Server (result (SStream * StreamType) Error) :=
  greeting <-? read_with_timeout 3 timeout ;;
  stream_type <-? lift (stream_type_of greeting) ;;
  let stream := mkSStream timeout in
  _ <-? swrite stream (reply_header greeting) ;;
  Ret (Ok (stream, stream_type)).

Section tcp.
(** [client_stream.set_nodelay(true)], and [a.accept(client_stream).await] when TLS is set up. *)
Variable set_nodelay : result unit IoError.
Variable acceptor : option (prog Server (result unit bytes)).
Variable allow_no_tls : bool.

Definition comm_mode (mode : byte) : prog Server (result unit Error) :=
  if decide (mode = COMM_INSECURE) then
    if allow_no_tls then Ret (Ok tt)
    else Ret (Err (io (bs "Communication without TLS is forbidden")))
  else if decide (mode = COMM_TLS) then
    match acceptor with
    | Some accept => r <-- accept ;; Ret (map_err from_tls_error r)
    | None => Ret (Err (io (bs "TLS is not configured")))
    end
  else Ret (Err (io (bs "Invalid comm mode requested: " ++ show_N (to_N mode)))).

Definition init_tcp_stream (timeout : N) : prog Server (result (SStream * StreamType) Error) :=
  _ <-? lift (map_err from_io_error set_nodelay) ;;
  greeting <-? read_with_timeout 3 timeout ;;
  stream_type <-? lift (stream_type_of greeting) ;;
  _ <-? comm_mode (nth 2 greeting x00) ;;
  let stream := mkSStream timeout in
  _ <-? swrite stream (reply_header greeting) ;;
  Ret (Ok (stream, stream_type)).
End tcp.

(** ** Data streams *)

(** The frames of a beacon. *)
Definition empty_message : MessageFrame := mkMessageFrame None [OP_NOP] None.

(** The end of the scope of a receiver or a sender. *)
Definition close_receiver (ch : nat) : prog Server unit :=
  modify (with_hub (update_chan ch_drop_receiver ch)).
Definition close_sender (ch : nat) : prog Server unit :=
  modify (with_hub (update_chan ch_drop_sender ch)).

(** [async_channel::bounded(size)], which panics when the size is 0. *)
Definition bounded (size : N) : prog Server nat :=
  if (size =? 0)%N then Crash else on_hub (new_channel size).

(** The sender, the receiver and the [Arc] of the client go when the function returns: when the
    session has ended meanwhile, the client object goes with the [Arc]. *)
Definition launch_data_stream (stream : SStream) (timeout : N) : prog Server (result unit Error) :=
  op_start <-- now ;;
  buf <-? sread stream 32 ;;
  let token := Token.from buf in
  t <-- reduced timeout op_start ;;
  buf <-? read_with_timeout 1 t ;;
  size <-- asks (fun s => get_data_queue_size (limits s)) ;;
  ch <-- bounded size ;;
  res <-- on_hub (register_data_channel token ch) ;;
  match res with
  | Ok (channel, client) =>
      r <-- respond_status stream RESPONSE_OK ;;
      match r with
      | Err e =>
          _ <-- drop_arc client ;; _ <-- close_sender channel ;; _ <-- close_receiver ch ;;
          Ret (Err e)
      | Ok _ =>
          (* [u64::from(buf[0]) * 1000 / 2] milliseconds *)
          let beacon_freq := (to_N (hd x00 buf) * 1000 / 2)%N in
          let beacon_interval := (beacon_freq * 1000000)%N in
          pinger_fut <-- spawn (Pinger channel beacon_interval) ;;
          _ <-- modify (with_hub (register_task pinger_fut client)) ;;
          data_fut <-- spawn (DataTask token ch timeout beacon_interval
                                (format_login (login client)) (addr client)) ;;
          _ <-- modify (with_hub (register_task data_fut client)) ;;
          _ <-- drop_arc client ;;
          Ret (Ok tt)
      end
  | Err e =>
      r <-- respond_status stream RESPONSE_ERR ;;
      _ <-- close_receiver ch ;;
      Ret (match r with Ok _ => Err e | Err e' => Err e' end)
  end.

(** The task [pinger_fut]. *)
Definition pinger (fuel channel : nat) (beacon_interval : N) : prog Server (option unit) :=
  r <-- iterate fuel (
    _ <-- sleep beacon_interval ;;
    sent <-- await (chan_send empty_message channel) ;;
    Ret (if sent : bool then None else Some tt)) ;;
  match r with
  | None => Ret None
  | Some _ => _ <-- close_sender channel ;; Ret (Some tt)
  end.

(** The bytes of a message as [count_sent_bytes] counts them. *)
Definition message_size (m : MessageFrame) : N :=
  wrap 64 (len (mframe m) + match mdata m with Some d => len d | None => 0 end).

(** [((now_ns() - timestamp) / 1000) as u32], where the difference wraps. *)
Definition latency_mks (now timestamp : N) : N := wrap 32 (wsub 64 now timestamp / 1000).

(** The [else] branch of the loop of [handle_data_stream]: the frame, the body, the statistics. *)
Definition send_message (stream : SStream) (timeout : N) (message : MessageFrame) :
    prog Server (result unit Error) :=
  op_start <-- now ;;
  _ <-? swrite stream (mframe message) ;;
  _ <-? (match mdata message with
         | Some data => t <-- reduced timeout op_start ;; write_with_timeout data t
         | None => Ret (Ok tt)
         end) ;;
  match timestamp message with
  | Some timestamp =>
      now <-- asks server_now_ns ;;
      _ <-- modify (with_counters
              (Counters.count_sent_bytes (message_size message) (latency_mks now timestamp))) ;;
      Ret (Ok tt)
  | None => Ret (Ok tt)
  end.

(** The loop of [handle_data_stream]. A write that ends with [Eof] ends the loop without an error
    (the macro [eof_is_ok!]). The warning about a high latency is log text; what it unwraps are the
    pieces of a non-empty split and a topic that was decoded from UTF-8. *)
Fixpoint handle_data_stream (fuel : nat) (stream : SStream) (rx : nat) (timeout beacon_interval : N)
    (last_command : N) : prog Server (option (result unit Error)) :=
  match fuel with
  | O => Ret None
  | S fuel =>
      m <-- await (chan_recv rx) ;;
      match m with
      | None => Ret (Some (Ok tt))
      | Some message =>
          let is_nop := bool_decide (hd x00 (mframe message) = OP_NOP) in
          n <-- now ;;
          if is_nop && (n - last_command <? beacon_interval)%N
          then handle_data_stream fuel stream rx timeout beacon_interval last_command
          else
            r <-- (if is_nop then swrite stream [OP_NOP] else send_message stream timeout message) ;;
            match r with
            | Err e => Ret (Some (if decide (kind e = Eof) then Ok tt else Err e))
            | Ok _ =>
                n <-- now ;;
                handle_data_stream fuel stream rx timeout beacon_interval n
            end
      end
  end.

(** The task [data_fut]: its receiver is gone when the handler returns, an error frees the client's
    slot. *)
Definition data_task (fuel : nat) (stream : SStream) (token : Token) (rx : nat)
    (timeout beacon_interval : N) : prog Server (option (result unit Error)) :=
  start <-- now ;;
  r <-- handle_data_stream fuel stream rx timeout beacon_interval start ;;
  match r with
  | None => Ret None
  | Some r =>
      _ <-- close_receiver rx ;;
      _ <-- (match r with
             | Err _ => modify (with_hub (unregister_data_channel token))
             | Ok _ => Ret tt
             end) ;;
      Ret (Some r)
  end.

(** ** Sessions *)

Section handlers.
Variable replication_push : option (byte -> bytes -> bytes -> N -> prog Server unit).

(** [dbm!().register_client(login, addr)]: the section does not end while the loop in it turns. *)
Definition register (login addr : bytes) : prog Server (result ServerClient Error) :=
  await (fun s =>
    match register_client login addr (hub s) with
    | Some (r, h) => Some (r, set_hub h s)
    | None => None
    end).

(** The control loop and the end of the session, with its [Arc] of the client. *)
Definition serve (fuel : nat) (stream : SStream) (client : ServerClient) (acl : Acl) (timeout : N) :
    prog Server (option (result bool Error)) :=
  result <-- process_control replication_push stream client acl timeout fuel ;;
  match result with
  | None => Ret None
  | Some result =>
      _ <-- modify (with_hub (unregister_client client)) ;;
      _ <-- modify (with_hub (abort_tasks client)) ;;
      _ <-- drop_arc client ;;
      Ret (Some (match result with Ok _ => Ok true | Err e => Err e end))
  end.

(** The token is sent to the new client; without it the session does not begin, and its [Arc] goes. *)
Definition send_token {A} (stream : SStream) (client : ServerClient) (session : A) :
    prog Server (result (option A) Error) :=
  r <-- swrite stream (token_as_bytes client) ;;
  match r with
  | Err e => _ <-- drop_arc client ;; Ret (Err e)
  | Ok _ => Ret (Ok (Some session))
  end.

(** What a connection becomes: a data stream, or a control stream with a registered client. *)
Definition start_unix (path : bytes) (timeout : N) :
    prog Server (result (option (SStream * ServerClient)) Error) :=
  st <-? init_unix_stream timeout ;;
  let '(stream, stream_type) := st in
  if decide (stream_type = Data) then
    _ <-? launch_data_stream stream timeout ;; Ret (Ok None)
  else
    frame <-? read_frame stream (Some MAX_AUTH_FRAME_SIZE) ;;
    login <-? lift (str_from_utf8 (splitn2 NUL frame).1) ;;
    client <-? register login path ;;
    send_token stream client (stream, client).

Definition handle_unix_stream (fuel : nat) (path : bytes) (timeout : N) :
    prog Server (option (result bool Error)) :=
  r <-- start_unix path timeout ;;
  match r with
  | Err e => Ret (Some (Err e))
  | Ok None => Ret (Some (Ok false))
  | Ok (Some (stream, client)) => serve fuel stream client Acl.new_full timeout
  end.

(** The credentials of a login frame. *)
Definition parse_login (frame : bytes) : result (bytes * bytes) Error :=
  let '(l, p) := splitn2 NUL frame in
  let? login := str_from_utf8 l in
  let? p := ok_or p (invalid_data ERR_INVALID_DATA_BLOCK) in
  let? password := str_from_utf8 p in
  Ok (login, password).

(** The check of the credentials and the lookup of the access rules. *)
Definition check_login (addr login password : bytes) : prog Server (result Acl Error) :=
  _ <-? (if bool_decide (login = []) && bool_decide (password = []) then
           anonymous <-- asks allow_anonymous ;;
           Ret (if anonymous : bool then Ok tt
                else Err (access (bs "anonymous login failed from " ++ addr)))
         else
           valid <-- asks (fun s => authenticate s login password) ;;
           Ret (if valid : bool then Ok tt
                else Err (access (bs "login failed for " ++ login ++ bs " from " ++ addr)))) ;;
  acl <-- asks (fun s => get_acl s login) ;;
  Ret (ok_or acl (access (bs "No ACL for " ++ format_login login))).

Section tcp_handler.
Variable set_nodelay : result unit IoError.
Variable acceptor : option (prog Server (result unit bytes)).
Variable allow_no_tls : bool.

Definition start_tcp (addr : bytes) (timeout : N) :
    prog Server (result (option (SStream * ServerClient * Acl)) Error) :=
  st <-? init_tcp_stream set_nodelay acceptor allow_no_tls timeout ;;
  let '(stream, stream_type) := st in
  if decide (stream_type = Data) then
    _ <-? launch_data_stream stream timeout ;; Ret (Ok None)
  else
    frame <-? read_frame stream (Some MAX_AUTH_FRAME_SIZE) ;;
    lp <-? lift (parse_login frame) ;;
    acl <-? check_login addr lp.1 lp.2 ;;
    client <-? register lp.1 addr ;;
    send_token stream client (stream, client, acl).

Definition handle_tcp_stream (fuel : nat) (addr : bytes) (timeout : N) :
    prog Server (option (result bool Error)) :=
  r <-- start_tcp addr timeout ;;
  match r with
  | Err e => Ret (Some (Err e))
  | Ok None => Ret (Some (Ok false))
  | Ok (Some (stream, client, acl)) => serve fuel stream client acl timeout
  end.
End tcp_handler.
End handlers.
End session.
