(* ===== verification/SessionSpec.v ===== *)
(** * Correctness of connections

    Who may log in, what a session leaves behind, and what happens to the slot of a data channel.
    The theorems quantify over the peer: its bytes, their timing and the failures of the writes. *)

From S2P Require Import Prelude Utf8 Proto Io Commands Acl Topic Token Pubsub Reference.
From S2P Require Import PubsubSpec Passwords Keys Server ServerSpec Control ControlSpec Session.

Section spec.
Context {SMO : SubMapOps} {SML : SubMapLaws} {CHO : ChannelOps} {CHL : ChannelLaws}
  {SHO : Sha256Ops} {BCO : BcryptOps}.

(** ** Steps that leave the shared state alone *)

(** Whatever the peer does, the program ends without touching the shared state. *)
Definition silent {A} (p : prog Server A) : Prop :=
  forall w a w', run p w = Some (a, w') -> shared w' = shared w.

Lemma silent_ret {A} (a : A) : silent (Ret a).
Proof. by intros w b w' [= _ <-]. Qed.

Lemma silent_bind {A B} (m : prog Server A) (f : A -> prog Server B) :
  silent m -> (forall a, silent (f a)) -> silent (pbind f m).
Proof.
  intros Hm Hf w b w'. rewrite run_bind. destruct (run m w) as [[a w1]|] eqn:E; [|done].
  intros Hb. rewrite (Hf a w1 b w' Hb). by apply (Hm w a).
Qed.

Lemma silent_qbind {A B E} (m : prog Server (result A E)) (f : A -> prog Server (result B E)) :
  silent m -> (forall a, silent (f a)) -> silent (qbind m f).
Proof. intros Hm Hf. apply silent_bind; [done|]. intros [a|e]; [apply Hf|apply silent_ret]. Qed.

Lemma silent_asks {X} (f : Server -> X) : silent (asks f).
Proof. by intros w x w' [= _ <-]. Qed.

Lemma silent_now : silent now.
Proof. by intros w n w' [= _ <-]. Qed.

Lemma silent_read n t : silent (read_with_timeout n t).
Proof.
  intros w r w'. rewrite run_read. intros [= _ <-].
  by pose proof (read_exact_frame n t w) as [? _].
Qed.

Lemma shared_write_all {St} buf t (w : World St) : shared (write_all buf t w).2 = shared w.
Proof. unfold write_all. repeat case_match; done. Qed.

Lemma silent_write buf t : silent (write_with_timeout buf t).
Proof. intros w r w'. rewrite run_write. intros [= _ <-]. apply shared_write_all. Qed.

Lemma silent_frame max t : silent (read_frame_with_timeout max t).
Proof.
  intros w r w' Hr. destruct (read_frame_time max t w) as (r0 & w0 & Hr0 & _ & Hs & _).
  congruence.
Qed.

Lemma silent_lift {A E} (r : result A E) : silent (lift r).
Proof. apply silent_ret. Qed.

Lemma silent_swrite stream buf : silent (swrite stream buf).
Proof. apply silent_write. Qed.

Lemma silent_sread stream n : silent (sread stream n).
Proof. apply silent_read. Qed.

Create HintDb silent.
#[local] Hint Resolve silent_ret silent_asks silent_now silent_read silent_write silent_swrite
  silent_sread silent_frame silent_lift : silent.

Lemma silent_init_unix timeout : silent (init_unix_stream timeout).
Proof.
  unfold init_unix_stream.
  repeat (apply silent_qbind; [auto with silent|intros]); auto with silent.
Qed.

Section tls.
Variable set_nodelay : result unit IoError.
Variable acceptor : option (prog Server (result unit bytes)).
Variable allow_no_tls : bool.
(** The handshake exchanges bytes with the peer; it does not know the server's databases. *)
Hypothesis handshake_silent : forall accept, acceptor = Some accept -> silent accept.

Lemma silent_comm_mode mode : silent (comm_mode acceptor allow_no_tls mode).
Proof.
  unfold comm_mode. repeat case_decide; [by destruct allow_no_tls; auto with silent| |auto with silent].
  destruct acceptor as [accept|]; [|auto with silent].
  apply silent_bind; [by apply handshake_silent|auto with silent].
Qed.

Lemma silent_init_tcp timeout :
  silent (init_tcp_stream set_nodelay acceptor allow_no_tls timeout).
Proof.
  unfold init_tcp_stream.
  repeat (apply silent_qbind; [auto using silent_comm_mode with silent|intros]); auto with silent.
Qed.

(** ** Login *)

(** What lets a pair of credentials in. *)
Definition admitted (s : Server) (login password : bytes) : Prop :=
  (login = [] /\ password = [] /\ allow_anonymous s = true) \/
  ((login <> [] \/ password <> []) /\ authenticate s login password = true).

Lemma run_check_login addr login password w :
  exists r, run (check_login addr login password) w = Some (r, w) /\
    match r with
    | Ok acl => admitted (shared w) login password /\ get_acl (shared w) login = Some acl
    | Err e => kind e = AccessDenied /\
        (admitted (shared w) login password -> get_acl (shared w) login = None)
    end.
Proof.
  assert (forall s : Server, s = shared w -> set_shared s w = w) as Hw by by intros ? ->; destruct w.
  unfold check_login, admitted. rewrite run_qbind.
  destruct (decide (login = [] /\ password = [])) as [[-> ->]|Hne].
  - simpl. rewrite (Hw (shared w) eq_refl). destruct (allow_anonymous (shared w)) eqn:Ea; simpl.
    + rewrite (Hw (shared w) eq_refl). eexists. split; [done|].
      destruct (get_acl (shared w) []); simpl; naive_solver.
    + eexists. split; [done|]. split; [done|]. naive_solver.
  - replace (bool_decide (login = []) && bool_decide (password = [])) with false
      by (symmetry; apply not_true_is_false;
          rewrite andb_true_iff, !bool_decide_eq_true; done).
    assert (login <> [] \/ password <> []) as Hor by (destruct login, password; naive_solver).
    simpl. rewrite (Hw (shared w) eq_refl).
    destruct (authenticate (shared w) login password) eqn:Ea; simpl.
    + rewrite (Hw (shared w) eq_refl). eexists. split; [done|].
      destruct (get_acl (shared w) login); simpl; [by auto|]. naive_solver.
    + eexists. split; [done|]. split; [done|]. naive_solver.
Qed.

(** ** Data stream launch *)

Lemma run_respond_shared stream status w :
  exists r w', run (respond_status stream status) w = Some (r, w') /\ shared w' = shared w.
Proof.
  eexists _, _. split; [apply run_write|]. apply shared_write_all.
Qed.

(** The channel that [launch_data_stream] made is not in use yet. *)
Lemma new_channel_fresh n h : hub_ok h -> fresh_channel (next_id h) (new_channel n h).2.
Proof.
  intros [_ Hs]. split.
  - simpl. rewrite lookup_insert_eq. by eexists.
  - simpl. intros i cell Hi Hch. destruct (ok_slot _ Hs _ _ _ Hi Hch) as [q Hq].
    assert (next_id h < next_id h); [|lia]. apply (ok_chans_fresh _ Hs). by exists q.
Qed.

Lemma register_data_channel_db t ch h :
  hub_db (register_data_channel t ch h).2 = hub_db h.
Proof.
  unfold register_data_channel. repeat case_match; simplify_eq/=; done.
Qed.

(** The tail of [launch_data_stream], from the registered channel on. *)
Definition launch_ok (tok : Token) (timeout : N) (b : byte) (h : Hub) (s' : Server)
    (spawned0 : list (nat * Task)) : Prop :=
  exists c ch p1 p2 interval,
    interval = (to_N b * 1000 / 2 * 1000000)%N /\
    registered c h /\ token c = tok /\ client_data_channel c h = None /\
    client_data_channel c (hub s') = Some ch /\
    spawned s' = spawned0 ++ [(p1, Pinger ch interval);
      (p2, DataTask tok ch timeout interval (format_login (login c)) (addr c))] /\
    (forall cell, cells (hub s') !! sc_id c = Some cell ->
       exists old, tasks cell = old ++ [p1; p2]).

Lemma hub_ok_set_next n h : next_id h <= n -> hub_ok h -> hub_ok (set_next n h).
Proof. intros Hn [Hd Hs]. split; [by apply (db_ok_same h)|by apply (store_ok_same h)]. Qed.

(** The [Arc] that [register_data_channel] gives comes and goes. *)
Lemma register_task_clone p c h :
  register_task p c (clone_client c h) = clone_client c (register_task p c h).
Proof. by apply update_cell_comm. Qed.

Lemma drop_registered p1 p2 n1 n2 c h :
  drop_client c (register_task p2 c (set_next n2 (register_task p1 c
    (set_next n1 (clone_client c h))))) =
  register_task p2 c (set_next n2 (register_task p1 c (set_next n1 h))).
Proof.
  change (set_next n1 (clone_client c h)) with (clone_client c (set_next n1 h)).
  rewrite register_task_clone.
  change (set_next n2 (clone_client c ?h)) with (clone_client c (set_next n2 h)).
  by rewrite register_task_clone, drop_clone_client.
Qed.

Lemma run_launch_tail stream tok b timeout (w : World Server) :
  hub_ok (hub (shared w)) ->
  let size := get_data_queue_size (limits (shared w)) in
  let '(ch, h1) := new_channel size (hub (shared w)) in
  let '(res, h2) := register_data_channel tok ch h1 in
  exists r w',
    run (match res with
         | Ok (channel, client) =>
             r <-- respond_status stream RESPONSE_OK ;;
             match r with
             | Err e =>
                 _ <-- drop_arc client ;; _ <-- close_sender channel ;; _ <-- close_receiver ch ;;
                 Ret (Err e)
             | Ok _ =>
                 let beacon_freq := (to_N b * 1000 / 2)%N in
                 let beacon_interval := (beacon_freq * 1000000)%N in
                 pinger_fut <-- spawn (Pinger channel beacon_interval) ;;
                 _ <-- modify (with_hub (register_task pinger_fut client)) ;;
                 data_fut <-- spawn (DataTask tok ch timeout beacon_interval
                                       (format_login (login client)) (addr client)) ;;
                 _ <-- modify (with_hub (register_task data_fut client)) ;;
                 _ <-- drop_arc client ;;
                 Ret (Ok tt)
             end
         | Err e =>
             r <-- respond_status stream RESPONSE_ERR ;;
             _ <-- close_receiver ch ;;
             Ret (match r with Ok _ => Err e | Err e' => Err e' end)
         end) (set_shared (set_hub h2 (shared w)) w) = Some (r, w') /\
    hub_ok (hub (shared w')) /\ hub_db (hub (shared w')) = hub_db (hub (shared w)) /\
    match r with
    | Ok _ => launch_ok tok timeout b (hub (shared w)) (shared w') (spawned (shared w))
    | Err _ => spawned (shared w') = spawned (shared w)
    end.
Proof.
  intros Hok size. pose proof (hub_ok_new_channel size _ Hok) as Hok1.
  pose proof (new_channel_fresh size _ Hok) as Hfresh.
  destruct (new_channel size (hub (shared w))) as [ch h1] eqn:Enew. injection Enew as <- <-.
  simpl in Hok1, Hfresh. set (h1 := set_next _ _) in *.
  pose proof (hub_ok_register_data_channel tok _ h1 Hfresh Hok1) as Hok2.
  pose proof (register_data_channel_db tok (next_id (hub (shared w))) h1) as Hdb.
  destruct (register_data_channel tok _ h1) as [[[channel client]|e] h2] eqn:Ereg; simpl in Hok2, Hdb.
  2:{ rewrite run_bind.
      destruct (run_respond_shared stream RESPONSE_ERR (set_shared (set_hub h2 (shared w)) w))
        as (r & w1 & -> & Hs1). simpl in Hs1. rewrite run_bind. cbn [run close_receiver modify].
      eexists _, _. split; [done|]. simpl. rewrite Hs1. split_and!.
      - by apply hub_ok_update_chan.
      - done.
      - by destruct r. }
  assert (exists h3, h2 = clone_client client h3 /\ hub_ok h3 /\ hub_db h3 = hub_db (hub (shared w)) /\
    h3 = update_cell (fun cell => mkCell (Some channel) (tasks cell) (strong cell)) client
           (update_chan ch_clone_sender channel h1) /\
    channel = next_id (hub (shared w)) /\ by_token (hub (shared w)) !! tok = Some client /\
    client_data_channel client h1 = None) as (h3 & -> & Hok3 & Hdb3 & Hh3 & Hch & Htok & Hfree).
  { revert Ereg. unfold register_data_channel.
    destruct (clients_by_token (hub_db h1) !! tok) as [c|] eqn:Etok; [|done].
    destruct (client_data_channel c h1) eqn:Ecd; [done|]. intros [= <- -> <-].
    eexists. split; [reflexivity|]. split; [|done].
    match goal with |- hub_ok ?h => rewrite <- (drop_clone_client client h) end.
    by apply hub_ok_drop_client. }
  rewrite run_bind.
  destruct (run_respond_shared stream RESPONSE_OK
              (set_shared (set_hub (clone_client client h3) (shared w)) w))
    as (r & w1 & -> & Hs1). simpl in Hs1. destruct r as [[]|e].
  2:{ rewrite !run_bind. cbn [run drop_arc modify]. rewrite !run_bind.
      cbn [run close_sender close_receiver modify]. rewrite !run_bind.
      cbn [run close_sender close_receiver modify]. eexists _, _. split; [done|].
      simpl. rewrite Hs1. simpl. rewrite drop_clone_client.
      split_and!; [|done|done]. by do 2 apply hub_ok_update_chan. }
  rewrite run_bind. cbn [run spawn atomic]. rewrite run_bind. cbn [run modify].
  rewrite run_bind. cbn [run spawn atomic]. rewrite run_bind. cbn [run modify].
  rewrite run_bind. cbn [run drop_arc modify].
  rewrite Hs1. eexists _, _. split; [done|]. cbn [shared set_shared with_hub hub set_hub set_spawned].
  rewrite drop_registered. simpl. split_and!; [|done|].
  - apply hub_ok_register_task, hub_ok_set_next; [simpl; lia|].
    apply hub_ok_register_task, hub_ok_set_next; [simpl; lia|done].
  - destruct (ok_token _ (proj1 Hok) _ _ Htok) as [Ht _].
    assert (registered client (hub (shared w))) as Hc by by unfold registered; rewrite Ht.
    destruct (ok_cell _ (proj2 Hok) client Hc) as [cell Hcell]. subst h3 channel.
    eexists client, _, _, _, _. split; [reflexivity|]. split_and!; try done.
    + unfold client_data_channel. simpl. rewrite drop_registered. simpl. rewrite !lookup_alter_eq, Hcell. done.
    + simpl. by rewrite <- app_assoc.
    + simpl. rewrite drop_registered. simpl. rewrite !lookup_alter_eq, Hcell. simpl.
      intros ? [= <-]. exists (tasks cell). simpl. by rewrite <- app_assoc.
Qed.

Lemma run_on_hub {X} (f : Hub -> X * Hub) w :
  run (on_hub f) w =
    Some ((f (hub (shared w))).1, set_shared (set_hub (f (hub (shared w))).2 (shared w)) w).
Proof. simpl. by destruct (f (hub (shared w))). Qed.

Lemma run_launch_data_stream stream timeout w :
  hub_ok (hub (shared w)) ->
  match run (launch_data_stream stream timeout) w with
  | Some (r, w') =>
      hub_ok (hub (shared w')) /\ hub_db (hub (shared w')) = hub_db (hub (shared w)) /\
      match r with
      | Ok _ => exists tok b,
          launch_ok tok timeout b (hub (shared w)) (shared w') (spawned (shared w))
      | Err _ => spawned (shared w') = spawned (shared w)
      end
  | None => get_data_queue_size (limits (shared w)) = 0%N
  end.
Proof.
  intros Hok. unfold launch_data_stream. rewrite run_bind. cbn [run now].
  rewrite run_qbind. unfold sread. rewrite run_read.
  pose proof (read_exact_frame 32 (ss_timeout stream) w) as [Hs1 _].
  destruct (read_exact 32 (ss_timeout stream) w) as [[tok|e] w1]; cbn [fst snd map_err] in *;
    [|simpl; by rewrite Hs1].
  cbv zeta. rewrite run_bind, run_reduced, run_qbind, run_read.
  pose proof (read_exact_frame 1 (reduce_timeout timeout (clock w) (clock w1)) w1) as [Hs2 _].
  destruct (read_exact 1 _ w1) as [[b|e] w2]; cbn [fst snd map_err] in *;
    [|simpl; by rewrite Hs2, Hs1].
  rewrite Hs1 in Hs2. rewrite <- Hs2 in *. clear Hs1 Hs2 w1 w.
  pose proof (run_launch_tail stream tok (hd x00 b) timeout w2 Hok) as H. cbv zeta in H.
  rewrite run_bind. cbn [run asks].
  replace (set_shared (shared w2) w2) with w2 by by destruct w2.
  rewrite run_bind. unfold bounded. destruct (N.eqb_spec (get_data_queue_size (limits (shared w2))) 0)
    as [E|_]; [done|].
  rewrite run_on_hub. destruct (new_channel _ (hub (shared w2))) as [ch h1].
  cbn [fst snd] in *. rewrite run_bind, run_on_hub. change (Token.from tok) with tok.
  simpl (hub (shared (set_shared _ _))). destruct (register_data_channel tok ch h1) as [res h2]. cbn [fst snd].
  destruct H as (r & w' & Hr & H1 & H2 & H3). match goal with |- match ?x with _ => _ end =>
    replace x with (Some (r, w')) by (symmetry; exact Hr) end.
  split_and!; [done|done|]. destruct r as [[]|e]; [|done]. by exists tok, (hd x00 b).
Qed.

Lemma run_register lg ad w :
  hub_ok (hub (shared w)) ->
  match run (register lg ad) w with
  | Some (r, w') => exists h', w' = set_shared (set_hub h' (shared w)) w /\ hub_ok h' /\
      match r with
      | Ok c => login c = lg /\ addr c = ad /\ by_token (hub (shared w)) !! token c = None /\
          by_token h' = <[token c := c]> (by_token (hub (shared w)))
      | Err _ => by_token h' = by_token (hub (shared w))
      end
  | None => True
  end.
Proof.
  intros Hok. simpl. destruct (register_client lg ad (hub (shared w))) as [[r h']|] eqn:E; [|done].
  pose proof (register_client_effect lg ad _ _ _ Hok E) as [Hok' Hr]. exists h'.
  split; [done|]. split; [done|]. destruct r; naive_solver.
Qed.

(** ** Sessions *)

(** The clients after a connection attempt: as before, or with one more. *)
Definition one_more (c : ServerClient) (h h' : Hub) : Prop :=
  by_token h !! token c = None /\ by_token h' = <[token c := c]> (by_token h).

Lemma run_start_tcp ad timeout w r w' :
  hub_ok (hub (shared w)) ->
  run (start_tcp set_nodelay acceptor allow_no_tls ad timeout) w = Some (r, w') ->
  hub_ok (hub (shared w')) /\
  match r with
  | Ok (Some (_, c, acl)) => one_more c (hub (shared w)) (hub (shared w')) /\ addr c = ad /\
      (exists password, admitted (shared w) (login c) password) /\
      get_acl (shared w) (login c) = Some acl
  | Ok None => by_token (hub (shared w')) = by_token (hub (shared w))
  | Err _ => by_token (hub (shared w')) = by_token (hub (shared w)) \/
      exists c password, one_more c (hub (shared w)) (hub (shared w')) /\
        admitted (shared w) (login c) password
  end.
Proof.
  intros Hok. unfold start_tcp. rewrite run_qbind.
  destruct (run (init_tcp_stream _ _ _ _) w) as [[st w1]|] eqn:E1; [|done].
  apply silent_init_tcp in E1 as Hs1. destruct st as [[stream st]|e];
    [|intros [= <- <-]; rewrite Hs1; auto].
  case_decide.
  - rewrite run_qbind.
    pose proof (run_launch_data_stream stream timeout w1) as Hlaunch. rewrite Hs1 in Hlaunch.
    specialize (Hlaunch Hok).
    destruct (run (launch_data_stream _ _) w1) as [[r1 w2]|]; [|done].
    destruct Hlaunch as (Hok2 & Hdb & _).
    assert (by_token (hub (shared w2)) = by_token (hub (shared w))) as Hb
      by (unfold by_token; by rewrite Hdb).
    destruct r1; intros [= <- <-]; auto.
  - rewrite run_qbind.
    destruct (run (read_frame _ _) w1) as [[fr w2]|] eqn:E2; [|done].
    apply silent_frame in E2. rewrite Hs1 in E2. destruct fr as [frame|e];
      [|intros [= <- <-]; rewrite E2; auto].
    rewrite run_qbind. cbn [run lift]. destruct (parse_login frame) as [[lg pw]|e];
      [|intros [= <- <-]; rewrite E2; auto].
    simpl. rewrite run_qbind. destruct (run_check_login ad lg pw w2) as (ra & -> & Ha).
    rewrite E2 in Ha. destruct ra as [acl|e]; [|intros [= <- <-]; rewrite E2; auto].
    rewrite run_qbind. pose proof (run_register lg ad w2) as Hreg. rewrite E2 in Hreg.
    specialize (Hreg Hok). destruct (run (register lg ad) w2) as [[rc w3]|] eqn:E3; [|done].
    destruct Hreg as (h' & -> & Hok' & Hc).
    destruct rc as [c|e]; [|intros [= <- <-]; simpl; auto].
    destruct Hc as (<- & Had & Hnew & Hb).
    unfold send_token. rewrite run_bind.
    destruct (run (swrite _ _) _) as [[rw w4]|] eqn:E4; [|done].
    apply silent_swrite in E4. simpl in E4.
    destruct rw; [|rewrite run_bind]; cbn [run drop_arc modify]; intros [= <- <-]; simpl;
      rewrite E4; simpl.
    + split; [done|]. unfold one_more. destruct Ha. eauto 10.
    + split; [by apply hub_ok_drop_client|]. right. exists c, pw. unfold one_more, by_token.
      rewrite hub_db_drop_client. by destruct Ha.
Qed.
End tls.

(** Whatever the fuel. *)
Lemma process_control_clients stream client acl fuel (w : World Server) r w' :
  hub_ok (hub (shared w)) ->
  run (process_control None stream client acl (ss_timeout stream) fuel) w = Some (r, w') ->
  hub_ok (hub (shared w')) /\ by_token (hub (shared w')) = by_token (hub (shared w)).
Proof.
  revert w; induction fuel as [|fuel IH]; intros w Hok.
  - by intros [= <- <-].
  - unfold process_control. cbn [iterate]. rewrite !run_bind.
    destruct (returns_control_step stream client acl _ w Hok eq_refl)
      as (rs & w1 & -> & Hok1 & <- & _ & _).
    cbn [run]. destruct rs as [[]|e]; [by apply IH|by intros [= <- <-]..].
Qed.

Lemma serve_clients stream client acl fuel (w : World Server) r w' :
  hub_ok (hub (shared w)) -> registered client (hub (shared w)) ->
  run (serve None fuel stream client acl (ss_timeout stream)) w = Some (Some r, w') ->
  hub_ok (hub (shared w')) /\
  by_token (hub (shared w')) = delete (token client) (by_token (hub (shared w))).
Proof.
  intros Hok Hc. unfold serve. rewrite run_bind.
  destruct (run (process_control _ _ _ _ _ _) w) as [[rp w1]|] eqn:E; [|done].
  destruct (process_control_clients _ _ _ _ _ _ _ Hok E) as [Hok1 HB].
  destruct rp as [rp|]; [|by intros [=]]. rewrite run_bind. cbn [run modify]. rewrite run_bind.
  cbn [run modify]. rewrite run_bind. cbn [run drop_arc modify]. intros [= _ <-]. simpl. split.
  - apply hub_ok_drop_client, hub_ok_abort_tasks, hub_ok_unregister_client; [|done].
    unfold registered. by rewrite HB.
  - unfold by_token in *. rewrite hub_db_drop_client. simpl. rewrite hub_db_unregister_client.
    simpl. by rewrite HB.
Qed.

(** ** Data tasks *)

(** The data loop does not touch the database, nor the slots of the clients. *)
Lemma handle_data_stream_frame fuel stream rx timeout interval last (w : World Server) r w' :
  run (handle_data_stream fuel stream rx timeout interval last) w = Some (r, w') ->
  hub_db (hub (shared w')) = hub_db (hub (shared w)) /\
  cells (hub (shared w')) = cells (hub (shared w)) /\
  (forall e, r = Some (Err e) -> kind e <> Eof).
Proof.
  revert last w; induction fuel as [|fuel IH]; intros last w; [by intros [= <- <-]|].
  cbn [handle_data_stream]. rewrite run_bind. cbn [run await].
  destruct (chan_recv rx (shared w)) as [[m s]|] eqn:Em; [|done].
  assert (hub_db (hub s) = hub_db (hub (shared w)) /\ cells (hub s) = cells (hub (shared w)))
    as [Hdb Hcells] by (unfold chan_recv in Em; repeat case_match; simplify_eq; done).
  destruct m as [message|]; [|by intros [= <- <-]].
  rewrite run_bind. cbn [run now]. case_match.
  { intros Hr. apply IH in Hr as (-> & -> & He). done. }
  rewrite run_bind. destruct (run _ (set_shared s w)) as [[rw w1]|] eqn:Ew; [|done].
  assert (hub (shared w1) = hub s) as Hs1.
  { destruct (bool_decide _).
    - by rewrite (silent_swrite _ _ _ _ _ Ew).
    - unfold send_message in Ew. rewrite run_bind in Ew. cbn [run now] in Ew.
      rewrite run_qbind in Ew.
      destruct (run (swrite _ _) _) as [[r1 w2]|] eqn:E1; [|done]. apply silent_swrite in E1.
      destruct r1 as [[]|e]; [|simplify_eq; by rewrite E1].
      rewrite run_qbind in Ew. destruct (run (match mdata message with _ => _ end) w2)
        as [[r2 w3]|] eqn:E2; [|done].
      assert (shared w3 = shared w2) as E3.
      { destruct (mdata message); [|by injection E2 as <- <-].
        rewrite run_bind, run_reduced in E2. by apply silent_write in E2. }
      destruct r2 as [[]|e]; [|simplify_eq; by rewrite E3, E1].
      destruct (timestamp message); [|injection Ew as <- <-; by rewrite E3, E1].
      rewrite run_bind in Ew. cbn [run asks] in Ew. rewrite run_bind in Ew.
      cbn [run modify] in Ew. injection Ew as <- <-. simpl. by rewrite E3, E1. }
  destruct rw as [[]|e].
  - rewrite run_bind. cbn [run now]. intros Hr. apply IH in Hr as (-> & -> & He).
    by rewrite Hs1.
  - intros [= <- <-]. rewrite Hs1. split_and!; [done..|].
    intros e' He. case_decide; simplify_eq. done.
Qed.

Lemma run_serve stream client acl fuel (w : World Server) :
  hub_ok (hub (shared w)) -> registered client (hub (shared w)) ->
  length (inp (conn w)) < fuel ->
  exists r w', run (serve None fuel stream client acl (ss_timeout stream)) w = Some (Some r, w') /\
    hub_ok (hub (shared w')) /\
    by_token (hub (shared w')) = delete (token client) (by_token (hub (shared w))).
Proof.
  intros Hok Hc Hf. unfold serve. rewrite run_bind.
  destruct (run_process_control stream client acl fuel w Hok Hf) as (r & w1 & -> & Hok1 & HB).
  rewrite run_bind. cbn [run modify]. rewrite run_bind. cbn [run modify].
  rewrite run_bind. cbn [run drop_arc modify].
  eexists _, _. split; [done|]. simpl. split.
  - apply hub_ok_drop_client, hub_ok_abort_tasks, hub_ok_unregister_client; [|done].
    unfold registered. by rewrite HB.
  - unfold by_token in *. rewrite hub_db_drop_client. simpl. rewrite hub_db_unregister_client.
    simpl. by rewrite HB.
Qed.

(** ** Properties *)

(** C16: nobody gets a session without valid credentials: when a TCP connection ends its start with a
    client registered, its login was the anonymous one and anonymous access is allowed, or its
    password verified, and access rules are defined for it; a data stream registers no client; in
    every case at most this one client was added. The handshake of TLS is assumed not to touch the
    server's databases. *)
Theorem tcp_login_required (set_nodelay : result unit IoError)
    (acceptor : option (prog Server (result unit bytes))) (allow_no_tls : bool) (ad : bytes)
    (timeout : N) (w w' : World Server) (r : result (option (SStream * ServerClient * Acl)) Error) :
  (forall accept, acceptor = Some accept -> silent accept) ->
  hub_ok (hub (shared w)) ->
  run (start_tcp set_nodelay acceptor allow_no_tls ad timeout) w = Some (r, w') ->
  hub_ok (hub (shared w')) /\
  match r with
  | Ok (Some (_, c, acl)) => one_more c (hub (shared w)) (hub (shared w')) /\ addr c = ad /\
      (exists password, admitted (shared w) (login c) password) /\
      get_acl (shared w) (login c) = Some acl
  | Ok None => by_token (hub (shared w')) = by_token (hub (shared w))
  | Err _ => by_token (hub (shared w')) = by_token (hub (shared w)) \/
      exists c password, one_more c (hub (shared w)) (hub (shared w')) /\
        admitted (shared w) (login c) password
  end.
Proof. intros Hh. by apply run_start_tcp. Qed.

(** C23: a control session always ends, after at most one round more than the peer sends bytes, and
    leaves exactly the other clients registered; the invariant of the database holds. *)
Theorem session_unregisters (stream : SStream) (client : ServerClient) (acl : Acl) (fuel : nat)
    (w : World Server) :
  hub_ok (hub (shared w)) -> registered client (hub (shared w)) ->
  length (inp (conn w)) < fuel ->
  exists r w', run (serve None fuel stream client acl (ss_timeout stream)) w = Some (Some r, w') /\
    hub_ok (hub (shared w')) /\
    by_token (hub (shared w')) = delete (token client) (by_token (hub (shared w))).
Proof. apply run_serve. Qed.

(** C25: the end of a data stream: an error frees the client's slot; a peer that closed its end (the
    write ends with EOF) does not, so the client that owned the slot keeps it, and a new data
    stream with the same token is refused. The database is untouched. *)
Theorem data_task_slot (fuel : nat) (stream : SStream) (c : ServerClient) (rx : nat)
    (timeout interval : N) (w w' : World Server) (r : result unit Error) :
  registered c (hub (shared w)) ->
  run (data_task fuel stream (token c) rx timeout interval) w = Some (Some r, w') ->
  hub_db (hub (shared w')) = hub_db (hub (shared w)) /\
  match r with
  | Err e => kind e <> Eof /\ client_data_channel c (hub (shared w')) = None
  | Ok _ => client_data_channel c (hub (shared w')) = client_data_channel c (hub (shared w)) /\
      (is_Some (client_data_channel c (hub (shared w))) -> forall ch,
         (register_data_channel (token c) ch (hub (shared w'))).1 =
           Err (access (bs "Data channel is already registered")))
  end.
Proof.
  intros Hc. unfold data_task. rewrite run_bind. cbn [run now]. rewrite run_bind.
  destruct (run (handle_data_stream _ _ _ _ _ _) w) as [[rd w1]|] eqn:Ed; [|done].
  apply handle_data_stream_frame in Ed as (Hdb & Hcells & He).
  destruct rd as [rd|]; [|done].
  rewrite run_bind. cbn [run close_receiver modify]. rewrite run_bind.
  assert (forall h, cells h = cells (hub (shared w)) ->
    client_data_channel c h = client_data_channel c (hub (shared w))) as Hcd
    by (intros h E; unfold client_data_channel; by rewrite E).
  unfold registered, by_token in Hc. destruct rd as [[]|e]; cbn [run modify]; intros [= <- <-].
  - simpl. split; [done|]. split; [by apply Hcd|]. intros [ch0 Hch0] ch.
    unfold register_data_channel. simpl. rewrite Hdb, Hc.
    rewrite (client_data_channel_update_chan c), Hcd, Hch0 by done. done.
  - simpl. split; [|split; [by apply He|]].
    + unfold unregister_data_channel. simpl. rewrite Hdb, Hc.
      unfold drop_sender. case_match; exact Hdb.
    + apply unregister_clears. unfold by_token. simpl. by rewrite Hdb.
Qed.

(** The latency of a delivered message is the difference of the clocks in microseconds whenever
    the clock did not go back and the difference fits in 32 bits; a clock that is behind the
    timestamp by up to a second shows as more than 21 minutes. *)
Theorem latency_exact_or_huge (now timestamp : N) :
  (now < 2 ^ 64)%N -> (timestamp < 2 ^ 64)%N ->
  ((timestamp <= now)%N -> (now - timestamp < 1000 * 2 ^ 32)%N ->
     latency_mks now timestamp = ((now - timestamp) / 1000)%N) /\
  ((now < timestamp <= now + 1000000000)%N -> (1270310318 <= latency_mks now timestamp)%N).
Proof.
  intros Hn Ht. unfold latency_mks, wsub. split.
  - intros Hle Hfit. replace (now + 2 ^ 64 - timestamp)%N with (now - timestamp + 1 * 2 ^ 64)%N by lia.
    rewrite N.Div0.mod_add, (N.mod_small (now - timestamp)) by lia. apply wrap_small.
    apply N.Div0.div_lt_upper_bound. lia.
  - intros Hlt. rewrite (N.mod_small _ (2 ^ 64)) by lia.
    assert (exists d, now + 2 ^ 64 - timestamp = 2 ^ 64 - d /\ 0 < d <= 1000000000)%N
      as (d & -> & Hd) by (exists (timestamp - now)%N; lia).
    set (q := ((2 ^ 64 - d) / 1000)%N).
    assert (18446744072709551 <= q <= 18446744073709551)%N as Hq.
    { unfold q. split; [apply N.div_le_lower_bound; lia|].
      apply N.lt_succ_r, N.Div0.div_lt_upper_bound. lia. }
    unfold wrap. rewrite N.Div0.mod_eq. 
    assert (q / 2 ^ 32 = 4294967)%N as ->; [|lia].
    symmetry. apply N.div_unique with (r := (q - 4294967 * 2 ^ 32)%N); lia.
Qed.
End spec.

(** ** Concrete sessions *)

#[local] Existing Instance demo_bcrypt.

(** [demo_server] with access rules for anonymous clients. *)
Definition open_server : Server :=
  mkServer demo_live_hub Counters.default (mkDb {[ bs "_" := Acl.new_full ]} [])
    Passwords.default Keys.default (mkLimits 0 8 64) true 1024 1024 (1%Z, 2%Z) [].

Definition session_world (input : bytes) (writes : list (N * option IoError)) : World Server :=
  mkWorld 0 (mkConn (ready input) None writes []) (bs "deadline has elapsed") open_server.

(** A login without credentials, on a control stream. *)
Definition login_input : bytes := CONTROL_HEADER ++ [COMM_INSECURE] ++ frame [x00].

(** The client it registers. *)
Definition second_client : ServerClient :=
  mkServerClient 2 [] (demo_token x02) (bs "/run/psrtd.sock") (demo_token x02).

(** A client whose connection breaks between its registration and the delivery of its token
    stays registered although its session is over: the error of that write leaves the handler
    without the calls that unregister it. *)
Theorem login_reply_failure_leaks :
  match run (handle_unix_stream None 10 (bs "/run/psrtd.sock") 5)
          (session_world login_input [(0%N, None); (0%N, Some (mkIoError BrokenPipe []))]) with
  | Some (Some (Err e), w') =>
      kind e = Eof /\ by_token (hub open_server) !! demo_token x02 = None /\
      by_token (hub (shared w')) !! demo_token x02 = Some second_client
  | _ => False
  end.
Proof.
  assert (match run (handle_unix_stream None 10 (bs "/run/psrtd.sock") 5)
            (session_world login_input [(0%N, None); (0%N, Some (mkIoError BrokenPipe []))]) with
          | Some (Some (Err e), w') =>
              bool_decide (kind e = Eof /\ by_token (hub open_server) !! demo_token x02 = None /\
                by_token (hub (shared w')) !! demo_token x02 = Some second_client)
          | _ => false
          end = true) as H by vm_refl.
  destruct (run _ _) as [[[[|e]|] w']|]; [done| |done..].
  by apply bool_decide_eq_true in H.
Qed.

Lemma tcp_login_required_witness :
  exists stream c acl w',
    run (start_tcp (Ok tt) None true (bs "10.0.0.2:5000") 5) (session_world login_input []) =
      Some (Ok (Some (stream, c, acl)), w') /\
    one_more c (hub open_server) (hub (shared w')).
Proof.
  assert (match run (start_tcp (Ok tt) None true (bs "10.0.0.2:5000") 5)
            (session_world login_input []) with
          | Some (Ok (Some _), _) => true | _ => false end = true) as H by vm_refl.
  pose proof (tcp_login_required (Ok tt) None true (bs "10.0.0.2:5000") 5
                (session_world login_input [])) as Hlogin.
  destruct (run _ _) as [[[[[[stream c] acl]|]|] w']|]; [|done..].
  exists stream, c, acl, w'. split; [done|].
  by apply (Hlogin w' (Ok (Some (stream, c, acl))));
    [intros ? [=]|apply demo_live_ok|].
Defined.

Lemma session_unregisters_witness :
  exists r w',
    run (serve None 3 (mkSStream 5) demo_client Acl.new_full 5) (session_world [OP_NOP; OP_BYE] []) =
      Some (Some r, w') /\
    by_token (hub (shared w')) = delete (demo_token x01) (by_token demo_live_hub).
Proof.
  destruct (session_unregisters (mkSStream 5) demo_client Acl.new_full 3
              (session_world [OP_NOP; OP_BYE] []) demo_live_ok demo_live_registered)
    as (r & w' & H1 & _ & H2); [vm_compute; lia|].
  by exists r, w'.
Defined.

(** A beacon in the queue, and a peer that is gone. *)
Definition beacon_world : World Server :=
  set_shared
    (with_hub (set_chans (<[1 := mkChanView 8 [empty_message] 2 1]> (chans demo_live_hub)))
       open_server)
    (session_world [] [(0%N, Some (mkIoError BrokenPipe []))]).

Lemma data_task_slot_witness :
  exists w', run (data_task 3 (mkSStream 5) (demo_token x01) 1 5 0) beacon_world =
      Some (Some (Ok tt), w') /\
    client_data_channel demo_client (hub (shared w')) = Some 1.
Proof.
  assert (match run (data_task 3 (mkSStream 5) (demo_token x01) 1 5 0) beacon_world with
          | Some (Some (Ok _), _) => true | _ => false end = true) as H by vm_refl.
  pose proof (data_task_slot 3 (mkSStream 5) demo_client 1 5 0 beacon_world) as Hslot.
  simpl token in Hslot. destruct (run _ _) as [[[[[]|]|] w']|]; [|done..].
  exists w'. split; [done|].
  destruct (Hslot w' (Ok tt) demo_live_registered eq_refl) as (_ & -> & _). vm_refl.
Defined.

Lemma latency_exact_or_huge_witness : latency_mks 5000000 2000000 = 3000%N.
Proof. apply (latency_exact_or_huge 5000000 2000000); vm_compute; congruence. Defined.
