(* ===== verification/Udp.v ===== *)
(** * Datagrams: the UDP protocol of src/src/server.rs and src/src/client.rs

    The server's [process_udp_packet], [process_udp_block] and the acknowledgement that
    [handle_udp_listener] sends, and the client's [UdpClient]. A panic is [None]. *)

From S2P Require Import Prelude Utf8 Proto Io Acl Topic Token Pubsub Passwords Keys Server Control.

(** ** Server *)

Section server.
Context {SMO : SubMapOps} {CHO : ChannelOps} {SHO : Sha256Ops} {BCO : BcryptOps} {AEO : AeadOps}.
Variable replication_push : option (byte -> bytes -> bytes -> N -> prog Server unit).

(** [.map_err(|e| (e, need_ack))] *)
Definition tag {A} (need_ack : bool) (r : result A Error) : result A (Error * bool) :=
  map_err (fun e => (e, need_ack)) r.

(** What a block asks for: acknowledgement, priority, topic and data. *)
Definition parse_udp_block (block : bytes) : result (bool * byte * bytes * bytes) (Error * bool) :=
  let '(buf, rest) := splitn2 NUL block in
  match buf with
  | op :: priority :: ((_ :: _) as topic) =>
      let? need_ack :=
        (if decide (op = OP_PUBLISH) then Ok true
         else if decide (op = OP_PUBLISH_NO_ACK) then Ok false
         else Err (invalid_data (bs "invalid opration: " ++ show_hex (to_N op)), false)) in
      let? topic := tag need_ack (str_from_utf8 topic) in
      let? data := ok_or rest (invalid_data (bs "data missing"), need_ack) in
      Ok (need_ack, priority, topic, data)
  | _ => Err (invalid_data (bs "invalid data block"), false)
  end.

(** The credentials of a datagram that is not encrypted. *)
Definition udp_authenticate (login : bytes) (password : option bytes) (need_ack : bool) :
    prog Server (result unit (Error * bool)) :=
  match password with
  | None => Ret (Ok tt)
  | Some password =>
      if bool_decide (login = []) && bool_decide (password = []) then
        anonymous <-- asks allow_anonymous ;;
        Ret (if anonymous : bool then Ok tt
             else Err (access (bs "anonymous access failed"), need_ack))
      else
        valid <-- asks (fun s => authenticate s login password) ;;
        Ret (if valid : bool then Ok tt else Err (access (bs "authentication failed"), need_ack))
  end.

Definition process_udp_block (login : bytes) (password : option bytes) (block : bytes)
    (timestamp : N) : prog Server (result bool (Error * bool)) :=
  request <-? lift (parse_udp_block block) ;;
  let '(need_ack, priority, topic, data) := request in
  _ <-? udp_authenticate login password need_ack ;;
  acl <-- asks (fun s => get_acl s login) ;;
  acl <-? lift (ok_or acl (access (bs "No ACL for " ++ format_login login), need_ack)) ;;
  depth <-- asks max_depth ;;
  topic <-? lift (tag need_ack (prepare_topic depth topic)) ;;
  if contains_invalid topic then Ret (Err (invalid_data ERR_INVALID_DATA_BLOCK, need_ack))
  else if negb (Acl.allow_write acl topic) then
    Ret (Err (access (bs "pub access denied for " ++ topic), need_ack))
  else
    deliver replication_push priority topic data timestamp (Ret (Ok need_ack)).

(** The header of a packet, up to the login. *)
Definition parse_udp_header (frame : bytes) :
    result (EncryptionType * bytes * option bytes) (Error * bool) :=
  if (len frame <? 5)%N then Err (invalid_data (bs "packet too small"), false)
  else if negb (bool_decide (take 2 frame = CONTROL_HEADER)) then
    Err (invalid_data (bs "invalid header"), false)
  else if negb (from_le_bytes (take 2 (drop 2 frame)) =? PROTOCOL_VERSION)%N then
    Err (invalid_data (bs "unsupported protocol version"), false)
  else
    let? etp := tag false (EncryptionType.from_byte (nth 4 frame x00)) in
    let '(login, rest) := splitn2 NUL (drop 5 frame) in
    let? login := tag false (str_from_utf8 login) in
    Ok (etp, login, rest).

Definition process_udp_packet (frame : bytes) :
    prog Server (option (result bool (Error * bool))) :=
  timestamp <-- asks server_now_ns ;;
  match parse_udp_header frame with
  | Err e => Ret (Some (Err e))
  | Ok (etp, login, rest) =>
      if EncryptionType.need_decrypt etp then
        match rest with
        | None => Ret (Some (Err (invalid_data (bs "encryption block missing"), false)))
        | Some block =>
            let key_id := if bool_decide (login = []) then bs "_" else login in
            r <-- asks (fun s => Keys.auth_and_decr (key_db s) block key_id etp) ;;
            match r with
            | None => Ret None
            | Some (Err e) => Ret (Some (Err (e, false)))
            | Some (Ok block) =>
                r <-- process_udp_block login None block timestamp ;; Ret (Some r)
            end
        end
      else
        match rest with
        | None => Ret (Some (Err (invalid_data (bs "invalid packet format"), false)))
        | Some block =>
            let '(password, rest) := splitn2 NUL block in
            match tag false (str_from_utf8 password) with
            | Err e => Ret (Some (Err e))
            | Ok password =>
                match rest with
                | None => Ret (Some (Err (invalid_data (bs "data missing"), false)))
                | Some block =>
                    r <-- process_udp_block login (Some password) block timestamp ;; Ret (Some r)
                end
            end
        end
  end.

(** The [match] of [handle_udp_listener] on the outcome. *)
Definition ack_code (r : result bool (Error * bool)) : option byte :=
  match r with
  | Ok true => Some RESPONSE_OK
  | Err (e, need_ack) =>
      if need_ack : bool then
        if decide (kind e = AccessDenied) then Some RESPONSE_ERR_ACCESS else Some RESPONSE_ERR
      else None
  | Ok false => None
  end.

Definition ack_packet (code : byte) : bytes :=
  CONTROL_HEADER ++ to_le_bytes 2 PROTOCOL_VERSION ++ [code].

(** One round of [handle_udp_listener]: the datagram, cut to the buffer, and the reply. *)
Definition handle_datagram (udp_frame_size : N) (datagram : bytes) :
    prog Server (option (option bytes)) :=
  r <-- process_udp_packet (take (N.to_nat udp_frame_size) datagram) ;;
  Ret (match r with
       | None => None
       | Some r => Some (ack_packet <$> ack_code r)
       end).

(** The loop over the datagrams a socket receives, with the replies; a panic ends the task. *)
Fixpoint handle_udp_listener (udp_frame_size : N) (datagrams : list bytes) :
    prog Server (list (option bytes)) :=
  match datagrams with
  | [] => Ret []
  | d :: datagrams' =>
      r <-- handle_datagram udp_frame_size d ;;
      match r with
      | None => Ret []
      | Some reply => rs <-- handle_udp_listener udp_frame_size datagrams' ;; Ret (reply :: rs)
      end
  end.
End server.

(** ** Client *)

Record UdpClient : Type := mkUdpClient {
  udp_login : bytes;
  udp_password : bytes;
  udp_encrypt : bool;
}.

Module UdpClient.

Definition connect : UdpClient := mkUdpClient [] [] false.

Definition with_auth (login password : bytes) (c : UdpClient) : UdpClient :=
  mkUdpClient login password false.

Definition with_encryption_auth (login key : bytes) (c : UdpClient) : UdpClient :=
  mkUdpClient login key true.

Section aead.
Context {AEO : AeadOps}.

Definition op_of (ack : bool) : byte := if ack then OP_PUBLISH else OP_PUBLISH_NO_ACK.

(** The block of a publication. *)
Definition message_block (ack : bool) (topic message : bytes) : bytes :=
  [op_of ack; DEFAULT_PRIORITY] ++ topic ++ x00 :: message.

(** The packet that [publish_impl] sends; [nonce] is the answer of the random source. *)
Definition build_packet (c : UdpClient) (topic message : bytes) (ack : bool)
    (nonce : result bytes bytes) : result bytes Error :=
  let buf := CONTROL_HEADER ++ to_le_bytes 2 PROTOCOL_VERSION in
  if udp_encrypt c then
    let buf := buf ++ AUTH_KEY_AES256_GCM :: udp_login c ++ [x00] in
    let? nonce := map_err internal nonce in
    let? sealed := map_err io
      (encrypt_aead aes_256_gcm (udp_password c) nonce (message_block ack topic message)) in
    let '(encrypted, digest) := sealed in
    Ok (buf ++ nonce ++ encrypted ++ digest)
  else
    Ok (buf ++ AUTH_LOGIN_PASS :: udp_login c ++ x00 :: udp_password c ++ x00
          :: message_block ack topic message).

(** The checks of a reply from the server: its size and the five bytes of the buffer. *)
Definition process_ack (size : N) (ack_buf : bytes) : result unit Error :=
  if negb (size =? 5)%N then Err (invalid_data (bs "Invalid ack size"))
  else if negb (bool_decide (take 2 ack_buf = CONTROL_HEADER)) then
    Err (invalid_data (bs "Invalid ack header"))
  else if negb (bool_decide (take 2 (drop 2 ack_buf) = to_le_bytes 2 PROTOCOL_VERSION)) then
    Err (invalid_data (bs "Invalid ack protocol version"))
  else if decide (nth 4 ack_buf x00 = RESPONSE_OK) then Ok tt
  else Err (io (bs "Server response error " ++ show_hex (to_N (nth 4 ack_buf x00)))).

(** The loop over received datagrams: the datagram and whether it is from the peer; the buffer has
    five bytes. [None]: still waiting. *)
Fixpoint wait_ack (events : list (result (bytes * bool) IoError)) : option (result unit Error) :=
  match events with
  | [] => None
  | Err e :: _ => Some (Err (from_io_error e))
  | Ok (datagram, from_peer) :: events' =>
      if from_peer : bool then Some (process_ack (N.min 5 (len datagram)) (take 5 datagram))
      else wait_ack events'
  end.

(** [publish_impl], with the outcome of the [send] and what arrives afterwards. *)
Definition publish_impl (c : UdpClient) (topic message : bytes) (ack : bool)
    (nonce : result bytes bytes) (sent : result unit IoError)
    (events : list (result (bytes * bool) IoError)) : option (result unit Error) :=
  match build_packet c topic message ack nonce with
  | Err e => Some (Err e)
  | Ok _ =>
      match sent with
      | Err e => Some (Err (from_io_error e))
      | Ok _ => if ack then wait_ack events else Some (Ok tt)
      end
  end.

(** Without and with acknowledgement. *)
Definition publish (c : UdpClient) (topic message : bytes) := publish_impl c topic message false.

Definition publish_confirmed (c : UdpClient) (topic message : bytes) := publish_impl c topic message true.
End aead.
End UdpClient.
