(* ===== verification/UdpSpec.v ===== *)
(** * Correctness of the UDP protocol

    What a datagram does to the server as a pure function, the client's packets read back by the
    server, plain and encrypted, and the agreement of the two sides on the acknowledgement. The
    server is the default build, without the feature [cluster]. *)

From S2P Require Import Prelude Utf8 Proto Io Commands Acl Topic Token Pubsub Reference PubsubSpec.
From S2P Require Import Passwords Keys Server ServerSpec Control ControlSpec Session SessionSpec Udp.

Section spec.
Context {SMO : SubMapOps} {SML : SubMapLaws} {CHO : ChannelOps} {CHL : ChannelLaws}
  {SHO : Sha256Ops} {BCO : BcryptOps} {AEO : AeadOps}.

(** ** A block as a pure function *)

Definition check_udp (s : Server) (login : bytes) (password : option bytes) (need_ack : bool) :
    result unit (Error * bool) :=
  match password with
  | None => Ok tt
  | Some password =>
      if bool_decide (login = []) && bool_decide (password = []) then
        if allow_anonymous s then Ok tt
        else Err (access (bs "anonymous access failed"), need_ack)
      else if authenticate s login password then Ok tt
      else Err (access (bs "authentication failed"), need_ack)
  end.

(** The topic a publication goes to, or why it is refused. *)
Definition udp_topic (s : Server) (login : bytes) (password : option bytes) (need_ack : bool)
    (topic : bytes) : result bytes (Error * bool) :=
  let? _ := check_udp s login password need_ack in
  let? acl := ok_or (get_acl s login) (access (bs "No ACL for " ++ format_login login), need_ack) in
  let? topic := tag need_ack (prepare_topic (max_depth s) topic) in
  if contains_invalid topic then Err (invalid_data ERR_INVALID_DATA_BLOCK, need_ack)
  else if negb (Acl.allow_write acl topic) then
    Err (access (bs "pub access denied for " ++ topic), need_ack)
  else Ok topic.

Definition udp_effect (login : bytes) (password : option bytes) (block : bytes) (timestamp : N)
    (s : Server) : result bool (Error * bool) * Server :=
  match parse_udp_block block with
  | Err e => (Err e, s)
  | Ok (need_ack, priority, topic, data) =>
      match udp_topic s login password need_ack topic with
      | Err e => (Err e, s)
      | Ok topic => (Ok need_ack, with_hub (published priority topic data timestamp) s)
      end
  end.

Lemma set_shared_same (w : World Server) : set_shared (shared w) w = w.
Proof. by destruct w. Qed.

Lemma run_udp_block login password block timestamp (w : World Server) :
  hub_ok (hub (shared w)) ->
  run (process_udp_block None login password block timestamp) w =
    let '(r, s) := udp_effect login password block timestamp (shared w) in
    Some (r, set_shared s w).
Proof.
  intros Hok. unfold process_udp_block, udp_effect. rewrite run_qbind. cbn [run lift].
  destruct (parse_udp_block block) as [[[[need_ack priority] topic] data]|e];
    [|by rewrite set_shared_same].
  rewrite run_qbind. unfold udp_topic.
  assert (run (udp_authenticate login password need_ack) w =
    Some (check_udp (shared w) login password need_ack, w)) as ->.
  { unfold udp_authenticate, check_udp. destruct password as [password|]; [|done].
    case_match; rewrite run_bind; cbn [run asks]; rewrite set_shared_same; by case_match. }
  destruct (check_udp _ _ _ _) as [[]|e]; cbn [rbind]; [|by rewrite set_shared_same].
  rewrite run_bind. cbn [run asks]. rewrite set_shared_same, run_qbind. cbn [run lift].
  destruct (get_acl (shared w) login) as [acl|]; simpl ok_or; cbn [rbind];
    [|by rewrite set_shared_same].
  rewrite run_bind. cbn [run asks]. rewrite set_shared_same, run_qbind. cbn [run lift].
  destruct (prepare_topic _ topic) as [t|e]; cbn [tag map_err rbind]; [|by rewrite set_shared_same].
  destruct (contains_invalid t); [by rewrite set_shared_same|].
  destruct (negb _); [by rewrite set_shared_same|].
  by rewrite run_deliver by (done || apply unshared_ret).
Qed.

(** What a packet does: [None] is a panic. *)
Definition packet_effect (frame : bytes) (s : Server) :
    option (result bool (Error * bool) * Server) :=
  let timestamp := server_now_ns s in
  match parse_udp_header frame with
  | Err e => Some (Err e, s)
  | Ok (etp, login, rest) =>
      match rest with
      | None =>
          Some (Err (invalid_data (if EncryptionType.need_decrypt etp
                                   then bs "encryption block missing"
                                   else bs "invalid packet format"), false), s)
      | Some block =>
          if EncryptionType.need_decrypt etp then
            match Keys.auth_and_decr (key_db s) block
                    (if bool_decide (login = []) then bs "_" else login) etp with
            | None => None
            | Some (Err e) => Some (Err (e, false), s)
            | Some (Ok block) => Some (udp_effect login None block timestamp s)
            end
          else
            let '(password, rest) := splitn2 NUL block in
            match tag false (str_from_utf8 password) with
            | Err e => Some (Err e, s)
            | Ok password =>
                match rest with
                | None => Some (Err (invalid_data (bs "data missing"), false), s)
                | Some block => Some (udp_effect login (Some password) block timestamp s)
                end
            end
      end
  end.

Lemma run_udp_packet frame (w : World Server) :
  hub_ok (hub (shared w)) ->
  run (process_udp_packet None frame) w =
    match packet_effect frame (shared w) with
    | None => Some (None, w)
    | Some (r, s) => Some (Some r, set_shared s w)
    end.
Proof.
  intros Hok. unfold process_udp_packet, packet_effect. rewrite run_bind. cbn [run asks].
  rewrite set_shared_same.
  destruct (parse_udp_header frame) as [[[etp login] rest]|e]; [|by rewrite set_shared_same].
  destruct (EncryptionType.need_decrypt etp).
  - destruct rest as [block|]; [|by rewrite set_shared_same]. rewrite run_bind. cbn [run asks].
    rewrite set_shared_same. destruct (Keys.auth_and_decr _ _ _ _) as [[b|e]|];
      [|by rewrite set_shared_same|done].
    rewrite run_bind, run_udp_block by done. by destruct (udp_effect _ _ _ _ _).
  - destruct rest as [block|]; [|by rewrite set_shared_same].
    destruct (splitn2 NUL block) as [password rest].
    destruct (tag false (str_from_utf8 password)) as [pw|e]; [|by rewrite set_shared_same].
    destruct rest as [b|]; [|by rewrite set_shared_same].
    rewrite run_bind, run_udp_block by done. by destruct (udp_effect _ _ _ _ _).
Qed.

(** ** The client's packets *)

Lemma splitn2_cons c b (p : bytes) :
  b <> c -> splitn2 c (b :: p) = (b :: (splitn2 c p).1, (splitn2 c p).2).
Proof. intros. simpl. rewrite decide_False by done. by destruct (splitn2 c p). Qed.

Lemma parse_message_block ack topic message :
  topic_text topic ->
  parse_udp_block (UdpClient.message_block ack topic message) =
    Ok (ack, DEFAULT_PRIORITY, topic, message).
Proof.
  intros (Hne & Hu & Hn). unfold parse_udp_block, UdpClient.message_block.
  rewrite <- !app_comm_cons. change x00 with NUL.
  rewrite !splitn2_cons by by destruct ack. rewrite app_nil_l, splitn2_app by done. simpl.
  destruct topic as [|b topic]; [done|]. rewrite str_from_utf8_valid by done. by destruct ack.
Qed.

Lemma parse_client_header etp login rest :
  utf8 login -> NUL ∉ login ->
  parse_udp_header (CONTROL_HEADER ++ to_le_bytes 2 PROTOCOL_VERSION
    ++ EncryptionType.to_byte etp :: login ++ NUL :: rest) = Ok (etp, login, Some rest).
Proof.
  intros Hu Hn. unfold parse_udp_header.
  change (CONTROL_HEADER ++ to_le_bytes 2 PROTOCOL_VERSION ++ ?l)
    with (xee :: xaa :: x01 :: x00 :: l).
  rewrite (proj2 (N.ltb_ge _ _)) by (unfold len; simpl; lia).
  cbn [firstn skipn nth]. rewrite bool_decide_eq_true_2 by done. cbn [negb].
  assert (from_le_bytes [x01; x00] =? PROTOCOL_VERSION = true)%N as -> by done.
  cbn [negb]. rewrite from_to_byte. cbn [tag map_err rbind].
  rewrite drop_0, splitn2_app by done. by rewrite str_from_utf8_valid.
Qed.

(** The effect of a datagram is the effect of its packet, cut to the buffer, and its reply. *)
Lemma run_handle_datagram size d (w : World Server) :
  hub_ok (hub (shared w)) ->
  run (handle_datagram None size d) w =
    match packet_effect (take (N.to_nat size) d) (shared w) with
    | None => Some (None, w)
    | Some (r, s) => Some (Some (ack_packet <$> ack_code r), set_shared s w)
    end.
Proof.
  intros Hok. unfold handle_datagram. rewrite run_bind, run_udp_packet by done.
  by destruct (packet_effect _ _) as [[r s]|].
Qed.

Lemma take_all {A} (l : list A) size : (len l <= size)%N -> take (N.to_nat size) l = l.
Proof. intros. apply take_ge. unfold len in *. lia. Qed.

(** The client accepts exactly the positive reply. *)
Lemma process_ack_packet code :
  UdpClient.process_ack 5 (ack_packet code) =
    if decide (code = RESPONSE_OK) then Ok tt
    else Err (io (bs "Server response error " ++ show_hex (to_N code))).
Proof. unfold UdpClient.process_ack. simpl. by case_decide. Qed.

(** A request that was parsed: acknowledged as asked. *)
Lemma ack_code_parsed ack (e : Error) :
  ack_code (Err (e, ack)) <> Some RESPONSE_OK /\ (ack = false -> ack_code (Err (e, ack)) = None).
Proof. destruct ack; simpl; [|done]. by case_decide. Qed.

Lemma udp_topic_tag s login password ack topic e :
  udp_topic s login password ack topic = Err e -> e.2 = ack.
Proof.
  unfold udp_topic, check_udp, tag, ok_or, rbind, map_err. intros H.
  by repeat (case_match; simplify_eq/=).
Qed.

(** The outcome of a client's publication at the server. *)
Lemma udp_effect_block login password ack topic message timestamp s :
  topic_text topic ->
  udp_effect login password (UdpClient.message_block ack topic message) timestamp s =
    match udp_topic s login password ack topic with
    | Err e => (Err e, s)
    | Ok topic =>
        (Ok ack, with_hub (published DEFAULT_PRIORITY topic message timestamp) s)
    end.
Proof. intros Ht. unfold udp_effect. by rewrite parse_message_block. Qed.

(** What an exchange of one publication amounts to, on both sides. *)
Definition exchange (size : N) (packet : bytes) (login : bytes) (password : option bytes)
    (topic message : bytes) (ack : bool) (w : World Server) : Prop :=
  exists reply s', run (handle_datagram None size packet) w = Some (Some reply, set_shared s' w) /\
    match udp_topic (shared w) login password ack topic with
    | Ok t =>
        s' = with_hub (published DEFAULT_PRIORITY t message (server_now_ns (shared w))) (shared w) /\
        (if ack then exists r, reply = Some r /\ UdpClient.process_ack (len r) r = Ok tt
         else reply = None)
    | Err _ => s' = shared w /\
        (if ack then exists r e, reply = Some r /\ UdpClient.process_ack (len r) r = Err e
         else reply = None)
    end.

Lemma exchange_block size packet login password topic message ack (w : World Server) :
  hub_ok (hub (shared w)) -> topic_text topic -> (len packet <= size)%N ->
  packet_effect packet (shared w) =
    Some (udp_effect login password (UdpClient.message_block ack topic message)
            (server_now_ns (shared w)) (shared w)) ->
  exchange size packet login password topic message ack w.
Proof.
  intros Hok Ht Hl Hp. unfold exchange. rewrite run_handle_datagram, take_all, Hp by done.
  rewrite udp_effect_block by done.
  destruct (udp_topic (shared w) login password ack topic) as [t|e] eqn:E.
  - eexists _, _. split; [done|]. split; [done|]. destruct ack; [|done].
    eexists. split; [done|]. apply process_ack_packet.
  - eexists _, _. split; [done|]. split; [done|]. apply udp_topic_tag in E as Ea.
    destruct e as [e b]; simpl in Ea; subst b.
    pose proof (ack_code_parsed ack e) as [Hno Hnone]. destruct ack; [|by rewrite Hnone].
    destruct (ack_code (Err (e, true))) as [code|] eqn:Ec;
      [|simpl in Ec; by case_decide].
    eexists (ack_packet code), _. split; [done|].
    change (len (ack_packet code)) with 5%N. rewrite process_ack_packet.
    by rewrite decide_False by congruence.
Qed.

(** ** Any datagram *)

(** What precedes the login in a packet. *)
Definition packet_head (tp : EncryptionType) : bytes :=
  CONTROL_HEADER ++ to_le_bytes 2 PROTOCOL_VERSION ++ [EncryptionType.to_byte tp].

(** The packet [d] carries this block in the name of this login, and proves it: the rest of the packet
    is a sealed text that the login's key opens to the block, or it is the block after a password
    with which the login is admitted. *)
Inductive authentic (s : Server) (d login block : bytes) : Prop :=
| by_key (tp : EncryptionType) (sealed : bytes) :
    d = packet_head tp ++ login ++ NUL :: sealed -> NUL ∉ login ->
    opens (key_db s) (if bool_decide (login = []) then bs "_" else login) tp sealed block ->
    authentic s d login block
| by_password (password : bytes) :
    d = packet_head No ++ login ++ NUL :: password ++ NUL :: block -> NUL ∉ login ->
    NUL ∉ password -> admitted s login password -> authentic s d login block.

(** A publication the server carried out, with what allowed it. *)
Definition udp_published (s : Server) (d : bytes) (h : Hub) : Prop :=
  exists login block acl op priority t topic message,
    authentic s d login block /\
    block = op :: priority :: t ++ NUL :: message /\ op ∈ [OP_PUBLISH; OP_PUBLISH_NO_ACK] /\
    get_acl s login = Some acl /\
    prepare_topic (max_depth s) t = Ok topic /\ contains_invalid topic = false /\
    Acl.allow_write acl topic = true /\
    h = published priority topic message (server_now_ns s) (hub s).

Lemma parse_udp_block_Ok block ack priority t data :
  parse_udp_block block = Ok (ack, priority, t, data) ->
  exists op, block = op :: priority :: t ++ NUL :: data /\ op ∈ [OP_PUBLISH; OP_PUBLISH_NO_ACK].
Proof.
  unfold parse_udp_block. destruct (splitn2 NUL block) as [buf rest] eqn:E.
  apply splitn2_spec in E as [_ E].
  destruct buf as [|op [|pr [|b tp]]]; try done. unfold rbind, tag, ok_or, map_err.
  intros H. exists op.
  destruct (str_from_utf8 (b :: tp)) as [t'|e] eqn:Et; [|by repeat (case_match; simplify_eq/=)].
  apply str_from_utf8_Ok in Et as [-> _].
  destruct rest as [q|]; [|by repeat (case_match; simplify_eq/=)].
  repeat (case_decide; simplify_eq/=); (split; [done|]); rewrite ?elem_of_cons; auto.
Qed.

Lemma parse_udp_header_Ok frame etp login rest :
  parse_udp_header frame = Ok (etp, login, Some rest) ->
  frame = packet_head etp ++ login ++ NUL :: rest /\ NUL ∉ login.
Proof.
  unfold parse_udp_header. destruct (N.ltb_spec (len frame) 5) as [|Hl]; [done|].
  destruct (bool_decide (take 2 frame = CONTROL_HEADER)) eqn:Eh; [|done].
  destruct (from_le_bytes (take 2 (drop 2 frame)) =? PROTOCOL_VERSION)%N eqn:Ev; [|done].
  apply bool_decide_eq_true in Eh. apply N.eqb_eq in Ev. cbn [negb].
  destruct (EncryptionType.from_byte (nth 4 frame x00)) as [tp|e] eqn:Et; [|done].
  apply from_byte_Ok in Et. cbn [tag map_err rbind].
  destruct (splitn2 NUL (drop 5 frame)) as [l r] eqn:Es. apply splitn2_spec in Es as [Hn Es].
  destruct (str_from_utf8 l) as [l'|e] eqn:El; [|done]. apply str_from_utf8_Ok in El as [-> _].
  cbn [tag map_err rbind]. intros [= -> -> ->]. split; [|done].
  assert (length (take 2 (drop 2 frame)) = 2) as H2
    by (rewrite length_take, length_drop; unfold len in Hl; lia).
  apply (f_equal (to_le_bytes 2)) in Ev. rewrite <- H2, to_from_le_bytes in Ev at 1.
  unfold packet_head. rewrite <- Eh, <- Ev, <- Et, <- Es. unfold len in Hl.
  do 5 (destruct frame as [|? frame]; [simpl in Hl; lia|]). simpl. by rewrite drop_0.
Qed.

Lemma udp_topic_Ok s login password ack t topic :
  udp_topic s login password ack t = Ok topic ->
  exists acl, get_acl s login = Some acl /\ prepare_topic (max_depth s) t = Ok topic /\
    contains_invalid topic = false /\ Acl.allow_write acl topic = true /\
    (forall pw, password = Some pw -> admitted s login pw).
Proof.
  unfold udp_topic. destruct (check_udp s login password ack) as [[]|] eqn:Ec; [|done].
  destruct (get_acl s login) as [acl|]; [|done]. cbn [ok_or rbind].
  destruct (prepare_topic _ t) as [t'|]; [|done]. cbn [tag map_err rbind].
  destruct (contains_invalid t') eqn:Ei; [done|].
  destruct (Acl.allow_write acl t') eqn:Ew; [|done]. intros [= <-].
  exists acl. split_and!; try done. intros pw ->. unfold admitted. simpl in Ec.
  destruct (bool_decide (login = [])) eqn:El, (bool_decide (pw = [])) eqn:Epw; simpl in Ec;
    rewrite ?bool_decide_eq_true, ?bool_decide_eq_false in El, Epw;
    repeat case_match; simplify_eq; naive_solver.
Qed.

Lemma udp_effect_safe d login password block s :
  hub_ok (hub s) ->
  match password with
  | Some pw => admitted s login pw -> authentic s d login block
  | None => authentic s d login block
  end ->
  let '(r, s') := udp_effect login password block (server_now_ns s) s in
  hub_ok (hub s') /\ ((s' = s /\ is_err r = true) \/ udp_published s d (hub s')).
Proof.
  intros Hok Hauth. unfold udp_effect.
  destruct (parse_udp_block block) as [[[[ack priority] t] data]|] eqn:Eb; [|by auto].
  apply parse_udp_block_Ok in Eb as (op & Eb & Hop).
  destruct (udp_topic s login password ack t) as [topic|] eqn:E; [|by auto]. simpl.
  split; [by apply hub_ok_published|]. right.
  apply udp_topic_Ok in E as (acl & Ha & Hp & Hi & Hw & Hadm).
  exists login, block, acl, op, priority, t, topic, data. split_and!; try done.
  destruct password as [pw|]; [|done]. by apply Hauth, Hadm.
Qed.

Lemma len_splitn2 c (l p : bytes) r : splitn2 c l = (p, Some r) -> (len r <= len l)%N.
Proof. intros H. apply splitn2_spec in H as [_ ->]. unfold len. rewrite length_app. simpl. lia. Qed.

Lemma parse_udp_header_len (frame : bytes) etp login block :
  parse_udp_header frame = Ok (etp, login, Some block) -> (len block <= len frame)%N.
Proof.
  unfold parse_udp_header. intros H. do 3 (case_match; [done|]).
  destruct (tag false (EncryptionType.from_byte _)); cbn [rbind] in H; [|done].
  destruct (splitn2 NUL (drop 5 frame)) as [l r] eqn:E.
  destruct (tag false (str_from_utf8 l)); cbn [rbind] in H; [|done]. simplify_eq.
  apply len_splitn2 in E. unfold len in *. rewrite length_drop in E. lia.
Qed.

Lemma packet_effect_safe frame s :
  hub_ok (hub s) -> (len frame < 2 ^ 64)%N ->
  exists r s', packet_effect frame s = Some (r, s') /\ hub_ok (hub s') /\
    ((s' = s /\ is_err r = true) \/ udp_published s frame (hub s')).
Proof.
  intros Hok Hlen. unfold packet_effect.
  destruct (parse_udp_header frame) as [[[etp login] [block|]]|e] eqn:Eh; [|by eauto 10..].
  apply parse_udp_header_Ok in Eh as Hd. destruct Hd as [Hd Hn].
  destruct (EncryptionType.need_decrypt etp) eqn:En.
  - apply parse_udp_header_len in Eh.
    destruct (auth_and_decr_opens (key_db s) block
                (if bool_decide (login = []) then bs "_" else login) etp En) as (r & -> & Hr); [lia|].
    destruct r as [b|e]; [|by eauto 10].
    pose proof (udp_effect_safe frame login None b s Hok
                  (by_key s frame login b etp block Hd Hn (Hr b eq_refl))) as H.
    destruct (udp_effect _ _ _ _ _) as [r s']. exists r, s'. by destruct H.
  - destruct (splitn2 NUL block) as [pw rest] eqn:Es. apply splitn2_spec in Es as [Hpn Es].
    destruct (str_from_utf8 pw) as [p|e] eqn:Ep; cbn [tag map_err]; [|by eauto 10].
    apply str_from_utf8_Ok in Ep as [-> _].
    destruct rest as [b|]; [|by eauto 10]. destruct etp; try done. subst block.
    pose proof (udp_effect_safe frame login (Some pw) b s Hok
                  (by_password s frame login b pw Hd Hn Hpn)) as H.
    destruct (udp_effect _ _ _ _ _) as [r s']. exists r, s'. by destruct H.
Qed.

(** ** Properties *)

(** C26: a publication that a client sends in a plain datagram is the server's publication of that
    topic and message under those credentials: it is carried out exactly when the credentials, the
    access rules and the topic allow it, the database stays untouched otherwise, and a client that
    asked for an acknowledgement learns which of the two happened. *)
Theorem udp_plain_exchange (size : N) (login password topic message packet : bytes) (ack : bool)
    (nonce : result bytes bytes) (w : World Server) :
  hub_ok (hub (shared w)) ->
  utf8 login -> NUL ∉ login -> utf8 password -> NUL ∉ password -> topic_text topic ->
  UdpClient.build_packet (UdpClient.with_auth login password UdpClient.connect) topic message ack
    nonce = Ok packet ->
  (len packet <= size)%N ->
  exchange size packet login (Some password) topic message ack w.
Proof.
  intros Hok Hlu Hln Hpu Hpn Ht Hb Hsize. apply exchange_block; [done..|].
  assert (packet = CONTROL_HEADER ++ to_le_bytes 2 PROTOCOL_VERSION ++ EncryptionType.to_byte No
    :: login ++ NUL :: (password ++ NUL :: UdpClient.message_block ack topic message)) as ->
    by by injection Hb as <-.
  unfold packet_effect. rewrite parse_client_header by done.
  change (EncryptionType.need_decrypt No) with false. cbv iota.
  rewrite splitn2_app by done. by rewrite str_from_utf8_valid.
Qed.

(** C27: the same for an encrypted datagram, when the server holds the client's key under its login:
    the packet opens to the block the client sealed, and the login needs no password. *)
Theorem udp_encrypted_exchange {AEL : AeadLaws} (size : N)
    (login key topic message packet nonce : bytes) (k : Key) (ack : bool) (w : World Server) :
  hub_ok (hub (shared w)) ->
  utf8 login -> NUL ∉ login -> topic_text topic -> length nonce = 12 ->
  (keys (key_db (shared w)) ≫= lookup (if bool_decide (login = []) then bs "_" else login)) =
    Some k ->
  cipher_aes_256 k = key ->
  UdpClient.build_packet (UdpClient.with_encryption_auth login key UdpClient.connect) topic message
    ack (Ok nonce) = Ok packet ->
  (len packet <= size)%N -> (size < 2 ^ 16)%N ->
  exchange size packet login None topic message ack w.
Proof.
  intros Hok Hlu Hln Ht Hnonce Hk Hkey Hb Hsize Hs. apply exchange_block; [done..|].
  unfold UdpClient.build_packet in Hb.
  cbn [udp_encrypt udp_login udp_password UdpClient.with_encryption_auth map_err rbind] in Hb.
  destruct (encrypt_aead aes_256_gcm key nonce (UdpClient.message_block ack topic message))
    as [[ct tg]|e] eqn:Ee; cbn [map_err rbind] in Hb; [|done].
  assert (packet = CONTROL_HEADER ++ to_le_bytes 2 PROTOCOL_VERSION
    ++ EncryptionType.to_byte Aes256Gcm :: login ++ NUL :: (nonce ++ ct ++ tg)) as ->.
  { injection Hb as <-. simpl. by rewrite <- !app_assoc. }
  pose proof (aead_seal _ _ _ _ _ _ Ee) as (Hct & _ & _).
  unfold packet_effect. rewrite parse_client_header by done.
  change (EncryptionType.need_decrypt Aes256Gcm) with true. cbv iota.
  rewrite (auth_and_decr_sealed _ _ k Aes256Gcm aes_256_gcm key nonce
    (UdpClient.message_block ack topic message) ct tg Hk); try done.
  - by simpl; rewrite Hkey.
  - revert Hsize. unfold len. rewrite !length_app. cbn [length]. rewrite !length_app. cbn [length].
    rewrite !length_app. lia.
Qed.

(** C28: whatever a datagram contains, the server processes it without a panic, and it either leaves
    the whole state as it was and does not report success, or it publishes the message of a block
    that the packet (cut to the buffer) carries in the name of a login and proves: the block is what
    the login's key opens the sealed rest of the packet to, or it comes after a password that admits
    the login. The topic, normalised and without wildcards, is one that the access rules of this
    login let it write. *)
Theorem udp_datagram_safe (size : N) (d : bytes) (w : World Server) :
  hub_ok (hub (shared w)) -> (size < 2 ^ 16)%N ->
  exists reply s', run (handle_datagram None size d) w = Some (Some reply, set_shared s' w) /\
    hub_ok (hub s') /\
    ((s' = shared w /\ reply <> Some (ack_packet RESPONSE_OK)) \/
     udp_published (shared w) (take (N.to_nat size) d) (hub s')).
Proof.
  intros Hok Hsize. rewrite run_handle_datagram by done.
  destruct (packet_effect_safe (take (N.to_nat size) d) (shared w) Hok) as (r & s' & -> & Hok' & H).
  { unfold len. rewrite length_take. lia. }
  eexists _, s'. split; [done|]. split; [done|].
  destruct H as [[-> He]|Hp]; [left|by right]. split; [done|].
  destruct r as [?|[e b]]; [done|]. pose proof (ack_code_parsed b e) as [Hno _].
  destruct (ack_code (Err (e, b))) as [code|]; [|done]. simpl. unfold ack_packet.
  intros [= ->]. by apply Hno.
Qed.

(** A block with priority 0, which the control stream takes like any other, is always refused
    and never acknowledged: the block is cut at its first NUL before its fields are read, and the
    priority comes before the topic's own NUL. *)
Theorem udp_priority_zero_refused (op : byte) (topic_data login : bytes) (password : option bytes)
    (timestamp : N) (w : World Server) :
  hub_ok (hub (shared w)) ->
  run (process_udp_block None login password (op :: x00 :: topic_data) timestamp) w =
    Some (Err (invalid_data (bs "invalid data block"), false), w) /\
  ack_code (Err (invalid_data (bs "invalid data block"), false)) = None.
Proof.
  intros Hok. split; [|done]. rewrite run_udp_block by done. unfold udp_effect, parse_udp_block.
  change x00 with NUL. destruct (decide (op = NUL)) as [->|Hop].
  - simpl. by rewrite set_shared_same.
  - rewrite splitn2_cons by done. simpl. by rewrite set_shared_same.
Qed.
End spec.

(** ** Witnesses *)

#[local] Existing Instance demo_bcrypt.

Definition demo_packet (c : UdpClient) : bytes :=
  match UdpClient.build_packet c (bs "sensors/1") (bs "on") true (Ok (replicate 12 x05)) with
  | Ok p => p
  | Err _ => []
  end.

(** [open_server] with a key for the anonymous login. *)
Definition keyed_server : Server :=
  mkServer demo_live_hub Counters.default (mkDb {[ bs "_" := Acl.new_full ]} [])
    Passwords.default
    (mkKeys None (Some {[ bs "_" := mkKey (replicate 16 x07) (replicate 32 x07) ]}))
    (mkLimits 0 8 64) false 1024 1024 (1%Z, 2%Z) [].

Definition udp_world (s : Server) : World Server :=
  mkWorld 0 (mkConn [] None [] []) (bs "deadline has elapsed") s.

Lemma udp_plain_exchange_witness :
  exchange 4096 (demo_packet (UdpClient.with_auth [] [] UdpClient.connect)) [] (Some [])
    (bs "sensors/1") (bs "on") true (udp_world open_server).
Proof.
  apply (udp_plain_exchange 4096 [] [] (bs "sensors/1") (bs "on")
           (demo_packet (UdpClient.with_auth [] [] UdpClient.connect)) true (Ok (replicate 12 x05)));
    [apply demo_live_ok|constructor|apply not_elem_of_nil|constructor|apply not_elem_of_nil
    |apply topic_text_ascii; vm_compute; reflexivity|vm_refl|vm_compute; discriminate].
Defined.

Lemma udp_encrypted_exchange_witness :
  exchange 4096
    (demo_packet (UdpClient.with_encryption_auth [] (replicate 32 x07) UdpClient.connect)) [] None
    (bs "sensors/1") (bs "on") true (udp_world keyed_server).
Proof.
  apply (udp_encrypted_exchange 4096 [] (replicate 32 x07) (bs "sensors/1") (bs "on")
           (demo_packet (UdpClient.with_encryption_auth [] (replicate 32 x07) UdpClient.connect))
           (replicate 12 x05) (mkKey (replicate 16 x07) (replicate 32 x07)) true);
    [apply demo_live_ok|constructor|apply not_elem_of_nil
    |apply topic_text_ascii; vm_compute; reflexivity|done|vm_refl|done|vm_refl
    |vm_compute; discriminate|vm_compute; reflexivity].
Defined.

Lemma udp_datagram_safe_witness :
  exists reply s', run (handle_datagram None 4096 (bs "junk")) (udp_world open_server) =
    Some (Some reply, set_shared s' (udp_world open_server)) /\ hub_ok (hub s').
Proof.
  destruct (udp_datagram_safe 4096 (bs "junk") (udp_world open_server) demo_live_ok)
    as (reply & s' & H1 & H2 & _); [vm_compute; reflexivity|].
  by exists reply, s'.
Defined.

Lemma udp_priority_zero_refused_witness :
  run (process_udp_block None [] (Some []) (OP_PUBLISH :: x00 :: bs "topic") 1)
      (udp_world open_server) =
    Some (Err (invalid_data (bs "invalid data block"), false), udp_world open_server).
Proof.
  apply (udp_priority_zero_refused OP_PUBLISH (bs "topic") [] (Some []) 1 (udp_world open_server)
           demo_live_ok).
Defined.
