(* ===== verification/Interleave.v ===== *)
(** * Programs side by side

    What the transition systems of the server (System.v) and of the client (ClientSystem.v) share:
    the steps of a program over a shared state, one effect each, and two logics for states that many
    programs change in any order. In the first, rely-guarantee reasoning, a program owns resources,
    keeps an invariant and leaves alone what the others own; the pool of all programs keeps the
    invariant when each of them does. In the second a program keeps a predicate of the state and of
    a ghost state, which only grows, under every single effect. *)

From S2P Require Import Prelude Utf8 Proto Io.

(** ** Steps *)

(** One effect of a program. Its reads and writes may have any outcome. *)
Inductive pstep {St A} : prog St A -> St -> prog St A -> St -> Prop :=
| ps_now k n s : pstep (Now k) s (k n) s
| ps_read n t k r s : (forall l, r = Ok l -> length l = n) -> pstep (ReadExact n t k) s (k r) s
| ps_write b t k r s : pstep (WriteAll b t k) s (k r) s
| ps_sleep t k s : pstep (Sleep t k) s k s
| ps_atomic X (f : St -> X * St) k s : pstep (Atomic f k) s (k (f s).1) (f s).2
| ps_await X (f : St -> option (X * St)) k s x s' :
    f s = Some (x, s') -> pstep (Await f k) s (k x) s'.

Definition forget {St A} (p : prog St A) : prog St unit := _ <-- p ;; Ret tt.

(** An aborted task stops at the next point where it awaits. *)
Definition at_await {St A} (p : prog St A) : bool :=
  match p with
  | ReadExact _ _ _ | WriteAll _ _ _ | Sleep _ _ | Await _ _ => true
  | Ret _ | Now _ | Atomic _ _ | Crash => false
  end.

(** Any number of steps. *)
Definition psteps {St A} (p : prog St A) (s : St) (p' : prog St A) (s' : St) : Prop :=
  rtc (fun x y => pstep x.1 x.2 y.1 y.2) (p, s) (p', s').

Lemma psteps_l {St A} (p q r : prog St A) s1 s2 s3 :
  pstep p s1 q s2 -> psteps q s2 r s3 -> psteps p s1 r s3.
Proof. intros H1 H2. by eapply rtc_l; [|exact H2]. Qed.

Lemma psteps_trans {St A} (p q r : prog St A) s1 s2 s3 :
  psteps p s1 q s2 -> psteps q s2 r s3 -> psteps p s1 r s3.
Proof. unfold psteps. intros H1 H2. by etrans. Qed.

Lemma write_all_shared {St} b t (w : World St) : shared (write_all b t w).2 = shared w.
Proof. unfold write_all. by repeat case_match. Qed.

(** What [run] computes for a program alone is a sequence of steps. *)
Lemma run_psteps {St A} (p : prog St A) a (w w' : World St) :
  run p w = Some (a, w') -> psteps p (shared w) (Ret a) (shared w').
Proof.
  revert w; induction p as [b|k IH|n t k IH|b t k IH|t k IH|X f k IH|X f k IH|];
    intros w Hrun; simpl in Hrun.
  - injection Hrun as -> ->. apply rtc_refl.
  - eapply psteps_l; [apply (ps_now k (clock w))|]. by apply IH.
  - destruct (read_exact n t w) as [r w1] eqn:E.
    destruct (read_exact_frame n t w) as [Hs _]. rewrite E in Hs. simpl in Hs.
    eapply psteps_l; [apply (ps_read n t k r)|].
    + intros l ->. by apply read_exact_Ok in E as [? _].
    + rewrite <- Hs. by apply IH.
  - destruct (write_all b t w) as [r w1] eqn:E.
    pose proof (write_all_shared b t w) as Hs. rewrite E in Hs. simpl in Hs.
    eapply psteps_l; [apply (ps_write b t k r)|]. rewrite <- Hs. by apply IH.
  - eapply psteps_l; [apply (ps_sleep t k)|]. by apply (IH (set_clock (clock w + t) w)).
  - eapply psteps_l; [apply (ps_atomic X f k)|].
    destruct (f (shared w)) as [x s1]. by apply (IH x (set_shared s1 w)).
  - destruct (f (shared w)) as [[x s1]|] eqn:E; [|done].
    eapply psteps_l; [by apply (ps_await X f k _ x s1)|]. by apply (IH x (set_shared s1 w)).
  - done.
Qed.

(** The first [n] effects of a program that runs alone; it stops where it has to wait. *)
Fixpoint run_for {St A} (n : nat) (p : prog St A) (w : World St) : prog St A * World St :=
  match n with
  | O => (p, w)
  | S n =>
      match p with
      | Ret _ => (p, w)
      | Now k => run_for n (k (clock w)) w
      | ReadExact l t k => let '(r, w') := read_exact l t w in run_for n (k r) w'
      | WriteAll b t k => let '(r, w') := write_all b t w in run_for n (k r) w'
      | Sleep t k => run_for n k (set_clock (clock w + t) w)
      | Atomic f k => let '(x, s) := f (shared w) in run_for n (k x) (set_shared s w)
      | Await f k =>
          match f (shared w) with
          | Some (x, s) => run_for n (k x) (set_shared s w)
          | None => (p, w)
          end
      | Crash => (p, w)
      end
  end.

Lemma run_for_psteps {St A} n (p : prog St A) (w : World St) :
  psteps p (shared w) (run_for n p w).1 (shared (run_for n p w).2).
Proof.
  revert p w; induction n as [|n IH]; intros p w; [apply rtc_refl|].
  destruct p as [a|k|l t k|b t k|t k|X f k|X f k|]; cbn [run_for].
  - apply rtc_refl.
  - eapply psteps_l; [apply (ps_now k (clock w))|apply IH].
  - destruct (read_exact l t w) as [r w1] eqn:E.
    destruct (read_exact_frame l t w) as [Hs _]. rewrite E in Hs. simpl in Hs.
    eapply psteps_l; [apply (ps_read l t k r)|rewrite <- Hs; apply IH].
    intros d ->. by apply read_exact_Ok in E as [? _].
  - destruct (write_all b t w) as [r w1] eqn:E.
    pose proof (write_all_shared b t w) as Hs. rewrite E in Hs. simpl in Hs.
    eapply psteps_l; [apply (ps_write b t k r)|rewrite <- Hs; apply IH].
  - eapply psteps_l; [apply (ps_sleep t k)|]. apply (IH k (set_clock (clock w + t) w)).
  - eapply psteps_l; [apply (ps_atomic X f k)|].
    destruct (f (shared w)) as [x s1]. apply (IH (k x) (set_shared s1 w)).
  - destruct (f (shared w)) as [[x s1]|] eqn:E; [|apply rtc_refl].
    eapply psteps_l; [by apply (ps_await X f k _ x s1)|]. apply (IH (k x) (set_shared s1 w)).
  - apply rtc_refl.
Qed.

(** A program that waits, and goes on waiting until the state changes. *)
Definition blocked {St A} (p : prog St A) (s : St) : bool :=
  match p with
  | Await f _ => match f s with Some _ => false | None => true end
  | _ => false
  end.

Lemma blocked_no_step {St A} (p : prog St A) s q s' : blocked p s = true -> ~ pstep p s q s'.
Proof. intros Hb Hs. destruct Hs; simpl in Hb; try done. by rewrite H in Hb. Qed.

(** The steps of a program, by its first effect. *)
Lemma pstep_inv {St A} (p p' : prog St A) s s' :
  pstep p s p' s' ->
  match p with
  | Ret _ => False
  | Now k => s' = s /\ exists n, p' = k n
  | ReadExact n t k => s' = s /\ exists r, p' = k r
  | WriteAll b t k => s' = s /\ exists r, p' = k r
  | Sleep t k => s' = s /\ p' = k
  | Atomic f k => s' = (f s).2 /\ p' = k (f s).1
  | Await f k => exists x, f s = Some (x, s') /\ p' = k x
  | Crash => False
  end.
Proof. destruct 1; eauto. Qed.

(** A program that neither ended, nor panicked, nor waits can go on. *)
Lemma pstep_exists {St A} (p : prog St A) s :
  blocked p s = false -> (exists a, p = Ret a) \/ p = Crash \/ exists p' s', pstep p s p' s'.
Proof.
  destruct p as [a|k|n t k|b t k|t k|X f k|X f k|]; simpl; intros Hb; [by left; eexists|right; right..|by right; left].
  - eexists _, _. apply (ps_now k 0).
  - eexists _, _. apply (ps_read n t k (Ok (replicate n x00))). intros l [= <-]. apply length_replicate.
  - eexists _, _. apply (ps_write b t k (Ok tt)).
  - eexists _, _. apply ps_sleep.
  - eexists _, _. apply ps_atomic.
  - destruct (f s) as [[x s']|] eqn:E; [|done]. eexists _, _. by apply (ps_await X f k s x s').
Qed.

(** The steps of the first part of a program are steps of the program. *)
Lemma pstep_bind {St A B} (m m' : prog St A) (f : A -> prog St B) s s' :
  pstep m s m' s' -> pstep (pbind f m) s (pbind f m') s'.
Proof.
  destruct 1 as [k n s|n t k r s Hr|b t k r s|t k s|X g k s|X g k s x s' E]; simpl.
  - apply (ps_now (fun n => pbind f (k n))).
  - by apply (ps_read n t (fun r => pbind f (k r))).
  - apply (ps_write b t (fun r => pbind f (k r))).
  - apply ps_sleep.
  - apply (ps_atomic X g (fun x => pbind f (k x))).
  - by apply (ps_await X g (fun x => pbind f (k x))).
Qed.

Lemma psteps_bind {St A B} (m m' : prog St A) (f : A -> prog St B) s s' :
  psteps m s m' s' -> psteps (pbind f m) s (pbind f m') s'.
Proof.
  unfold psteps at 1. remember (m, s) as x eqn:Ex. remember (m', s') as y eqn:Ey. intros H.
  revert m s Ex; induction H as [x|x [q s1] y Hstep _ IH]; intros m s ->; simplify_eq.
  - apply rtc_refl.
  - simpl in Hstep. eapply psteps_l; [by apply pstep_bind|by apply IH].
Qed.

(** ** Properties of effects *)

(** Every critical section of the program, as a partial function that waits where it is undefined,
    has the property [R]. *)
Section effects.
Context {St : Type}.
Variable R : forall X, (St -> option (X * St)) -> Prop.
Arguments R {X}.

Fixpoint effects {A} (p : prog St A) : Prop :=
  match p with
  | Ret _ => True
  | Now k => forall n, effects (k n)
  | ReadExact n t k => forall r, effects (k r)
  | WriteAll b t k => forall r, effects (k r)
  | Sleep t k => effects k
  | Atomic f k => R (fun s => Some (f s)) /\ forall s, effects (k (f s).1)
  | Await f k => R f /\ forall s x s', f s = Some (x, s') -> effects (k x)
  | Crash => True
  end.

Lemma effects_bind {A B} (m : prog St A) (f : A -> prog St B) :
  effects m -> (forall a, effects (f a)) -> effects (pbind f m).
Proof.
  intros Hm Hf. induction m as [a|k IH|n t k IH|b t k IH|t k IH|X g k IH|X g k IH|]; simpl in *; auto.
  - destruct Hm as [Hg Hk]. auto.
  - destruct Hm as [Hg Hk]. split; [done|]. intros s x s' E. eapply IH, Hk, E.
Qed.

Lemma effects_qbind {A B E} (m : prog St (result A E)) (f : A -> prog St (result B E)) :
  effects m -> (forall a, effects (f a)) -> effects (qbind m f).
Proof. intros Hm Hf. apply effects_bind; [done|]. by intros [a|e]. Qed.

Lemma effects_ret {A} (a : A) : effects (Ret a).
Proof. done. Qed.

Lemma effects_atomic {X} (f : St -> X * St) : R (fun s => Some (f s)) -> effects (atomic f).
Proof. done. Qed.

Lemma effects_await {X} (f : St -> option (X * St)) : R f -> effects (await f).
Proof. done. Qed.

Lemma effects_modify (f : St -> St) : R (fun s => Some (tt, f s)) -> effects (modify f).
Proof. done. Qed.

Lemma effects_asks {X} (f : St -> X) : R (fun s => Some (f s, s)) -> effects (asks f).
Proof. done. Qed.

Lemma effects_now : effects now.
Proof. done. Qed.

Lemma effects_sleep t : effects (sleep t).
Proof. done. Qed.

Lemma effects_lift {A E} (r : result A E) : effects (lift r).
Proof. done. Qed.

Lemma effects_read n t : effects (read_with_timeout n t).
Proof. done. Qed.

Lemma effects_write b t : effects (write_with_timeout b t).
Proof. done. Qed.

Lemma effects_swrite s b : effects (swrite s b).
Proof. done. Qed.

Lemma effects_sread s n : effects (sread s n).
Proof. done. Qed.

Lemma effects_reduced t op : effects (reduced t op).
Proof. done. Qed.

Lemma effects_frame max t : effects (read_frame_with_timeout max t).
Proof.
  apply effects_bind; [done|intros op]. apply effects_qbind; [done|intros l]. cbv zeta.
  by destruct (match max with Some _ => _ | None => _ end).
Qed.

Lemma effects_for_each {X E} (l : list X) (body : X -> prog St (result unit E)) :
  (forall x, effects (body x)) -> effects (for_each l body).
Proof. intros Hb. induction l as [|x l IH]; [done|]. by apply effects_qbind. Qed.

Lemma effects_iterate {X} fuel (body : prog St (option X)) : effects body -> effects (iterate fuel body).
Proof.
  intros Hb. induction fuel as [|fuel IH]; [done|]. apply effects_bind; [done|]. by intros [x|].
Qed.

Lemma effects_forget {A} (p : prog St A) : effects p -> effects (forget p).
Proof. intros. by apply effects_bind. Qed.
End effects.

Lemma effects_mono {St A} (R R' : forall X, (St -> option (X * St)) -> Prop) (p : prog St A) :
  (forall X f, R X f -> R' X f) -> effects R p -> effects R' p.
Proof.
  intros HR. induction p as [a|k IH|n t k IH|b t k IH|t k IH|X f k IH|X f k IH|]; simpl; auto.
  - intros [Hf Hk]. auto.
  - intros [Hf Hk]. eauto.
Qed.

Create HintDb effects.
#[export] Hint Resolve effects_ret effects_now effects_sleep effects_lift effects_read effects_write
  effects_swrite effects_sread effects_reduced effects_frame : effects.

(** Decompose a program along its binds and conditionals. *)
Ltac effects_step :=
  first
    [ assumption
    | solve [auto with effects]
    | apply effects_qbind; [|intros]
    | apply effects_bind; [|intros]
    | match goal with |- effects _ (match ?x with _ => _ end) => destruct x end
    | progress cbv zeta ].
Ltac effects := repeat effects_step.

(** A program that only looks at the state, and never waits for it to change. *)
Definition looks {St} X (f : St -> option (X * St)) : Prop := forall s, exists x, f s = Some (x, s).

Definition untouched {St A} (p : prog St A) : Prop := effects looks p.

Lemma looks_asks {St X} (f : St -> X) : looks X (fun s => Some (f s, s)).
Proof. intros s. by eexists. Qed.
#[export] Hint Resolve looks_asks : effects.
#[export] Hint Extern 1 (effects _ (asks _)) => apply effects_asks : effects.

(** ** Ownership *)

Section rely.
Context {St resource : Type}.
(** The invariant of the shared state, and what it is for a resource to be held in a state. *)
Variable ok : St -> Prop.
Variable holds : St -> resource -> Prop.
(** What is true of a state and any later one. *)
Variable leads : St -> St -> Prop.
Context `{!PreOrder leads}.

(** What a step of a program that owns [own] promises: the invariant, its own resources, and those
    of everybody else. *)
Definition guarantee (own : list resource) (s : St) (own' : list resource) (s' : St) : Prop :=
  ok s' /\ leads s s' /\ Forall (holds s') own' /\
  forall r, r ∉ own -> holds s r -> holds s' r /\ r ∉ own'.

(** A program that, owning [own], keeps the invariant until it ends with [Q]. *)
Fixpoint safe {A} (own : list resource) (p : prog St A) (Q : A -> list resource -> Prop) : Prop :=
  match p with
  | Ret a => Q a own
  | Now k => forall n, safe own (k n) Q
  | ReadExact n t k => forall r, (forall l, r = Ok l -> length l = n) -> safe own (k r) Q
  | WriteAll b t k => forall r, safe own (k r) Q
  | Sleep t k => safe own k Q
  | Atomic f k => forall s, ok s -> Forall (holds s) own ->
      exists own', guarantee own s own' (f s).2 /\ safe own' (k (f s).1) Q
  | Await f k => forall s, ok s -> Forall (holds s) own ->
      match f s with
      | Some (x, s') => exists own', guarantee own s own' s' /\ safe own' (k x) Q
      | None => True
      end
  | Crash => True
  end.

Lemma safe_mono {A} own (p : prog St A) (Q R : A -> list resource -> Prop) :
  (forall a o, Q a o -> R a o) -> safe own p Q -> safe own p R.
Proof.
  intros HQ. revert own; induction p as [a|k IH|n t k IH|b t k IH|t k IH|X f k IH|X f k IH|];
    intros own; simpl; auto.
  - intros H s Hs Ho. destruct (H s Hs Ho) as (o & Hg & Hk). exists o. auto.
  - intros H s Hs Ho. specialize (H s Hs Ho). destruct (f s) as [[x s']|]; [|done].
    destruct H as (o & Hg & Hk). exists o. auto.
Qed.

Lemma safe_bind {A B} own (m : prog St A) (f : A -> prog St B) Q :
  safe own m (fun a o => safe o (f a) Q) -> safe own (pbind f m) Q.
Proof.
  revert own; induction m as [a|k IH|n t k IH|b t k IH|t k IH|X g k IH|X g k IH|];
    intros own; simpl; auto.
  - intros H s Hs Ho. destruct (H s Hs Ho) as (o & Hg & Hk). exists o. auto.
  - intros H s Hs Ho. specialize (H s Hs Ho). destruct (g s) as [[x s']|]; [|done].
    destruct H as (o & Hg & Hk). exists o. auto.
Qed.

(** A program that keeps what it owns. *)
Definition neutral {A} (p : prog St A) : Prop := forall own, safe own p (fun _ o => o = own).

Lemma neutral_ret {A} (a : A) : neutral (Ret a).
Proof. by intros own. Qed.

Lemma neutral_bind {A B} (m : prog St A) (f : A -> prog St B) :
  neutral m -> (forall a, neutral (f a)) -> neutral (pbind f m).
Proof.
  intros Hm Hf own. apply safe_bind. eapply safe_mono; [|apply Hm].
  intros a o ->. apply Hf.
Qed.

Lemma neutral_qbind {A B E} (m : prog St (result A E)) (f : A -> prog St (result B E)) :
  neutral m -> (forall a, neutral (f a)) -> neutral (qbind m f).
Proof. intros Hm Hf. apply neutral_bind; [done|]. intros [a|e]; [apply Hf|apply neutral_ret]. Qed.

Lemma safe_neutral {A B} own (m : prog St A) (f : A -> prog St B) Q :
  neutral m -> (forall a, safe own (f a) Q) -> safe own (pbind f m) Q.
Proof. intros Hm Hf. apply safe_bind. eapply safe_mono; [|apply Hm]. intros a o ->. apply Hf. Qed.

Lemma safe_neutral_q {A B E} own (m : prog St (result A E))
    (f : A -> prog St (result B E)) (Q : result B E -> list resource -> Prop) :
  neutral m -> (forall e, Q (Err e) own) -> (forall a, safe own (f a) Q) -> safe own (qbind m f) Q.
Proof. intros Hm He Hf. apply safe_neutral; [done|]. intros [a|e]; [apply Hf|apply He]. Qed.

(** A critical section that keeps the invariant and everybody's resources. *)
Definition gentle (s s' : St) : Prop :=
  ok s -> ok s' /\ leads s s' /\ forall r, holds s r -> holds s' r.

Lemma gentle_refl s : gentle s s.
Proof. intros Hok. split; [done|]. by split. Qed.

Lemma gentle_trans s1 s2 s3 : gentle s1 s2 -> gentle s2 s3 -> gentle s1 s3.
Proof.
  intros H12 H23 Hok. destruct (H12 Hok) as (H1 & L1 & H2). destruct (H23 H1) as (H3 & L2 & H4).
  split; [done|]. split; [by etrans|auto].
Qed.

Lemma gentle_guarantee own s s' :
  gentle s s' -> ok s -> Forall (holds s) own -> guarantee own s own s'.
Proof.
  intros Hm Hok Ho. destruct (Hm Hok) as (Hok' & Hl & Hh). split; [done|]. split; [done|].
  split; [|auto].
  eapply Forall_impl; [exact Ho|]. apply Hh.
Qed.

Lemma neutral_untouched {A} (p : prog St A) : untouched p -> neutral p.
Proof.
  unfold neutral, untouched.
  induction p as [a|k IH|n t k IH|b t k IH|t k IH|X f k IH|X f k IH|]; intros H own; simpl in *; auto;
    destruct H as [Hf Hk]; intros s Hs Ho; destruct (Hf s) as [x E].
  - assert (f s = (x, s)) as E' by congruence. exists own. rewrite E'. simpl.
    split; [|specialize (Hk s); rewrite E' in Hk; by apply IH].
    split; [done|]. split; [reflexivity|]. by split; [|intros r Hr].
  - rewrite E. exists own. split; [|eapply IH, Hk, E].
    split; [done|]. split; [reflexivity|]. by split; [|intros r Hr].
Qed.

Lemma neutral_atomic {X} (f : St -> X * St) :
  (forall s, gentle s (f s).2) -> neutral (atomic f).
Proof. intros Hf own s Hs Ho. exists own. split; [by apply gentle_guarantee|done]. Qed.

Lemma neutral_modify (f : St -> St) : (forall s, gentle s (f s)) -> neutral (modify f).
Proof. intros Hf own s Hs Ho. exists own. split; [by apply gentle_guarantee|done]. Qed.

Lemma neutral_await {X} (f : St -> option (X * St)) :
  (forall s x s', f s = Some (x, s') -> gentle s s') -> neutral (await f).
Proof.
  intros Hf own s Hs Ho. destruct (f s) as [[x s']|] eqn:E; [|done].
  exists own. split; [|done]. apply gentle_guarantee; [by eapply Hf|done..].
Qed.

Lemma neutral_asks {X} (f : St -> X) : neutral (asks f).
Proof. intros own s Hs Ho. exists own. split; [apply gentle_guarantee; [apply gentle_refl|done..]|done]. Qed.

Lemma neutral_now : neutral now.
Proof. by intros own n. Qed.

Lemma neutral_sleep t : neutral (sleep t).
Proof. by intros own. Qed.

Lemma neutral_lift {A E} (r : result A E) : neutral (lift r).
Proof. by intros own. Qed.

Lemma neutral_read n t : neutral (read_with_timeout n t).
Proof. by intros own r. Qed.

Lemma neutral_write b t : neutral (write_with_timeout b t).
Proof. by intros own r. Qed.

Lemma neutral_for_each {X E} (l : list X) (body : X -> prog St (result unit E)) :
  (forall x, neutral (body x)) -> neutral (for_each l body).
Proof.
  intros Hb. induction l as [|x l IH]; [apply neutral_ret|]. by apply neutral_qbind.
Qed.

Lemma neutral_iterate {R} fuel (body : prog St (option R)) :
  neutral body -> neutral (iterate fuel body).
Proof.
  intros Hb. induction fuel as [|fuel IH]; [apply neutral_ret|].
  apply neutral_bind; [done|]. intros [x|]; [apply neutral_ret|done].
Qed.

Lemma neutral_forget {A} (p : prog St A) : neutral p -> neutral (forget p).
Proof. intros. apply neutral_bind; [done|]. intros. apply neutral_ret. Qed.

Lemma neutral_reduced t op : neutral (reduced t op).
Proof. by intros own n. Qed.

Lemma neutral_frame max t : neutral (read_frame_with_timeout max t).
Proof.
  apply neutral_bind; [apply neutral_now|intros op].
  apply neutral_qbind; [apply neutral_read|intros l]. cbv zeta.
  destruct (match max with Some _ => _ | None => _ end); [apply neutral_ret|].
  apply neutral_bind; [apply neutral_reduced|intros]. apply neutral_read.
Qed.

Lemma neutral_swrite s b : neutral (swrite s b).
Proof. apply neutral_write. Qed.

Lemma neutral_sread s n : neutral (sread s n).
Proof. apply neutral_read. Qed.

Definition ends_safely {A} (p : prog St A) : Prop := safe [] p (fun _ _ => True).

Lemma neutral_ends {A} (p : prog St A) : neutral p -> ends_safely p.
Proof. intros Hp. eapply safe_mono; [|apply Hp]. done. Qed.

Lemma forget_ends {A} (p : prog St A) : ends_safely p -> ends_safely (forget p).
Proof. intros Hp. apply safe_bind. eapply safe_mono; [|apply Hp]. done. Qed.

(** *** The pool of all programs *)

(** What every program owns, pairwise apart. *)
Record pool_ok (ps : list (prog St unit)) (s : St) (owns : list (list resource)) : Prop := {
  pok_state : ok s;
  pok_safe : Forall2 (fun p own => safe own p (fun _ _ => True)) ps owns;
  pok_holds : Forall (Forall (holds s)) owns;
  pok_apart i j oi oj r :
    owns !! i = Some oi -> owns !! j = Some oj -> i <> j -> r ∈ oi -> r ∉ oj;
}.

(** A step of a program is a step of its guarantee. *)
Lemma pstep_guarantee own p p' s s' :
  ok s -> Forall (holds s) own -> safe own p (fun _ _ => True) -> pstep p s p' s' ->
  exists own', guarantee own s own' s' /\ safe own' p' (fun (_ : unit) _ => True).
Proof.
  intros Hs Ho Hp Hstep. destruct Hstep; simpl in Hp;
    try (eexists own; split; [apply gentle_guarantee; [apply gentle_refl|done..]|by auto]).
  - by apply Hp.
  - specialize (Hp s Hs Ho). by rewrite H in Hp.
Qed.

Lemma pool_ok_empty s : ok s -> pool_ok [] s [].
Proof. intros Hs. split; [done|constructor|constructor|]. by intros i j oi oj r Hi. Qed.

Lemma pool_ok_step ps s owns i p p' s' :
  pool_ok ps s owns -> ps !! i = Some p -> pstep p s p' s' ->
  leads s s' /\ exists owns', pool_ok (<[i := p']> ps) s' owns'.
Proof.
  intros [Hs Ht Hh Ha] Hi Hp.
  destruct (Forall2_lookup_l _ _ _ _ _ Ht Hi) as (own & Hown & Hsafe).
  assert (Forall (holds s) own) as Ho by by eapply Forall_lookup_1 in Hh.
  destruct (pstep_guarantee own p p' s s' Hs Ho Hsafe Hp) as (own' & Hgu & Hsafe').
  destruct (Hgu) as (Hs' & _ & Ho' & Hg).
  assert (forall j oj r, owns !! j = Some oj -> i <> j -> r ∈ oj -> holds s' r /\ r ∉ own')
    as Hother.
  { intros j oj r Hj Hne Hr. apply Hg.
    - intros Hin. by eapply (Ha i j).
    - eapply Forall_lookup_1 in Hh; [|exact Hj]. rewrite Forall_forall in Hh. by apply Hh. }
  split; [apply Hgu|]. exists (<[i := own']> owns). split; [done| | |].
  - by apply Forall2_insert.
  - apply Forall_lookup_2. intros j oj Hj. apply list_lookup_insert_Some in Hj
      as [(-> & -> & _)|(Hne & Hj)]; [done|].
    apply Forall_forall. intros r Hr. by eapply Hother.
  - intros j k oj ok' r Hj Hk Hne Hrj Hrk.
    apply list_lookup_insert_Some in Hj as [(-> & -> & _)|(Hnj & Hj)];
      apply list_lookup_insert_Some in Hk as [(-> & -> & _)|(Hnk & Hk)]; [done|..].
    + by destruct (Hother k ok' r Hk Hnk Hrk).
    + by destruct (Hother j oj r Hj Hnj Hrj).
    + by eapply (Ha j k).
Qed.

(** A new program owns nothing. *)
Lemma pool_ok_spawn ps s owns p :
  pool_ok ps s owns -> ends_safely p -> pool_ok (ps ++ [p]) s (owns ++ [[]]).
Proof.
  intros [Hs Ht Hh Ha] Hp. split; [done| | |].
  - apply Forall2_app; [done|]. by constructor.
  - apply Forall_app. split; [done|]. by repeat constructor.
  - intros i j oi oj r Hi Hj Hne Hri Hrj.
    apply lookup_app_Some in Hi as [Hi|[_ Hi]];
      [|by apply list_lookup_singleton_Some in Hi as [_ <-]; inversion Hri].
    apply lookup_app_Some in Hj as [Hj|[_ Hj]];
      [|by apply list_lookup_singleton_Some in Hj as [_ <-]; inversion Hrj].
    by eapply (Ha i j).
Qed.

(** What happens outside the programs. *)
Lemma pool_ok_gentle ps s s' owns : pool_ok ps s owns -> gentle s s' -> pool_ok ps s' owns.
Proof.
  intros [Hs Ht Hh Ha] Hm. destruct (Hm Hs) as (Hs' & _ & Hf). split; [done..| |done].
  eapply Forall_impl; [exact Hh|]. intros own Ho. eapply Forall_impl; [exact Ho|]. apply Hf.
Qed.

(** A program that stops. *)
Lemma pool_ok_stop ps s owns i p :
  pool_ok ps s owns -> ps !! i = Some p -> pool_ok (<[i := Ret tt]> ps) s owns.
Proof.
  intros [Hs Ht Hh Ha] Hi. split; [done| |done..].
  destruct (Forall2_lookup_l _ _ _ _ _ Ht Hi) as (own & Hown & _).
  rewrite <- (list_insert_id owns i own) by done. by apply Forall2_insert.
Qed.
End rely.

Create HintDb neutral.
#[export] Hint Resolve neutral_ret neutral_asks neutral_now neutral_sleep neutral_lift neutral_read
  neutral_write neutral_modify neutral_frame neutral_reduced neutral_swrite neutral_sread
  gentle_refl : neutral.
#[export] Hint Extern 0 (PreOrder _) => typeclasses eauto : neutral.

(** Decompose a program along its binds and conditionals. *)
Ltac neutral_step :=
  first
    [ assumption
    | solve [auto with neutral]
    | apply neutral_qbind; [|intros]
    | apply neutral_bind; [|intros]
    | match goal with |- neutral _ _ _ (match ?x with _ => _ end) => destruct x end
    | progress cbv zeta ].
Ltac neutral := repeat neutral_step.

(** ** Predicates that every effect keeps *)

(** A ghost state, which every effect may let grow and none lets shrink. *)
Class Ghost (G : Type) : Type := {
  grows : relation G;
  #[global] grows_preorder :: PreOrder grows;
}.

Section logic.
Context {St G resource : Type} {GH : Ghost G}.
(** The invariant, and what it is for a resource to be held. *)
Variable I : G -> St -> Prop.
Variable holds : G -> St -> resource -> Prop.

(** A critical section that keeps the invariant and what anybody holds. *)
Definition onward (g1 : G) (s : St) (g2 : G) (s' : St) : Prop :=
  grows g1 g2 /\ I g2 s' /\ forall r, holds g1 s r -> holds g2 s' r.

(** Every critical section of the program keeps [I], from the ghost state [g] on, and it ends with
    [Q]. What [Q] says of the ghost state is what stays true when it grows further. *)
Fixpoint keeps {A} (g : G) (p : prog St A) (Q : G -> A -> Prop) : Prop :=
  match p with
  | Ret a => Q g a
  | Now k => forall n, keeps g (k n) Q
  | ReadExact n t k => forall r, (forall l, r = Ok l -> length l = n) -> keeps g (k r) Q
  | WriteAll b t k => forall r, keeps g (k r) Q
  | Sleep t k => keeps g k Q
  | Atomic f k => forall g1 s, grows g g1 -> I g1 s ->
      exists g2, onward g1 s g2 (f s).2 /\ keeps g2 (k (f s).1) Q
  | Await f k => forall g1 s, grows g g1 -> I g1 s ->
      match f s with
      | Some (x, s') => exists g2, onward g1 s g2 s' /\ keeps g2 (k x) Q
      | None => True
      end
  | Crash => True
  end.

(** Whatever its results are. *)
Definition kept {A} (g : G) (p : prog St A) : Prop := keeps g p (fun _ _ => True).

(** A result that is pure knowledge. *)
Definition gives {A} (R : A -> Prop) : G -> A -> Prop := fun _ a => R a.

Lemma keeps_mono {A} g (p : prog St A) (Q R : G -> A -> Prop) :
  (forall g' a, grows g g' -> Q g' a -> R g' a) -> keeps g p Q -> keeps g p R.
Proof.
  revert g; induction p as [a|k IH|n t k IH|b t k IH|t k IH|X f k IH|X f k IH|];
    intros g HQ; simpl; auto.
  - by apply HQ.
  - intros H g1 s Hg Hs. destruct (H g1 s Hg Hs) as (g2 & Ho & Hk). exists g2.
    split; [done|]. eapply IH; [|exact Hk]. intros g' a Hg'. apply HQ.
    transitivity g1; [done|transitivity g2; [apply Ho|done]].
  - intros H g1 s Hg Hs. specialize (H g1 s Hg Hs). destruct (f s) as [[x s']|]; [|done].
    destruct H as (g2 & Ho & Hk). exists g2.
    split; [done|]. eapply IH; [|exact Hk]. intros g' a Hg'. apply HQ.
    transitivity g1; [done|transitivity g2; [apply Ho|done]].
Qed.

(** A program goes on when others have let the ghost state grow. *)
Lemma keeps_grows {A} g g' (p : prog St A) (Q : G -> A -> Prop) :
  (forall a g1 g2, grows g1 g2 -> Q g1 a -> Q g2 a) -> grows g g' -> keeps g p Q -> keeps g' p Q.
Proof.
  intros HQ. revert g g'; induction p as [a|k IH|n t k IH|b t k IH|t k IH|X f k IH|X f k IH|];
    intros g g' Hg; simpl; eauto.
  - intros H g1 s Hg1 Hs. apply H; [by transitivity g'|done].
  - intros H g1 s Hg1 Hs. apply H; [by transitivity g'|done].
Qed.

Lemma kept_grows {A} g g' (p : prog St A) : grows g g' -> kept g p -> kept g' p.
Proof. by apply keeps_grows. Qed.

Lemma keeps_bind {A B} g (m : prog St A) (f : A -> prog St B) Q :
  keeps g m (fun g' a => keeps g' (f a) Q) -> keeps g (pbind f m) Q.
Proof.
  revert g; induction m as [a|k IH|n t k IH|b t k IH|t k IH|X h k IH|X h k IH|]; intros g; simpl; auto.
  - intros H g1 s Hg Hs. destruct (H g1 s Hg Hs) as (g2 & Ho & Hk). exists g2. auto.
  - intros H g1 s Hg Hs. specialize (H g1 s Hg Hs). destruct (h s) as [[x s']|]; [|done].
    destruct H as (g2 & Ho & Hk). exists g2. auto.
Qed.

Lemma kept_bind {A B} g (m : prog St A) (f : A -> prog St B) (R : G -> A -> Prop) Q :
  keeps g m R -> (forall g' a, grows g g' -> R g' a -> keeps g' (f a) Q) -> keeps g (pbind f m) Q.
Proof. intros Hm Hf. apply keeps_bind. by eapply keeps_mono; [|exact Hm]. Qed.

Lemma keeps_then {A B} g (m : prog St A) (f : A -> prog St B) Q :
  kept g m -> (forall g' a, grows g g' -> keeps g' (f a) Q) -> keeps g (pbind f m) Q.
Proof. intros Hm Hf. eapply kept_bind; [exact Hm|]. intros g' a Hg _. by apply Hf. Qed.

Lemma kept_then {A B} g (m : prog St A) (f : A -> prog St B) :
  kept g m -> (forall g' a, grows g g' -> kept g' (f a)) -> kept g (pbind f m).
Proof. apply keeps_then. Qed.

(** With what is known of a successful result. *)
Definition yields {A E} (R : A -> Prop) : G -> result A E -> Prop :=
  fun _ r => match r with Ok a => R a | Err _ => True end.

Lemma keeps_qbind {A B E} (R : A -> Prop) (Q : B -> Prop) g (m : prog St (result A E))
    (f : A -> prog St (result B E)) :
  keeps g m (yields R) -> (forall g' a, grows g g' -> R a -> keeps g' (f a) (yields Q)) ->
  keeps g (qbind m f) (yields Q).
Proof. intros Hm Hf. eapply kept_bind; [exact Hm|]. intros g' [a|e] Hg Ha; [by apply Hf|done]. Qed.

Lemma keeps_qthen {A B E} (Q : B -> Prop) g (m : prog St (result A E))
    (f : A -> prog St (result B E)) :
  kept g m -> (forall g' a, grows g g' -> keeps g' (f a) (yields Q)) ->
  keeps g (qbind m f) (yields Q).
Proof. intros Hm Hf. apply keeps_then; [done|]. intros g' [a|e] Hg; [by apply Hf|done]. Qed.

Lemma kept_qbind_with {A B E} (R : A -> Prop) g (m : prog St (result A E))
    (f : A -> prog St (result B E)) :
  keeps g m (yields R) -> (forall g' a, grows g g' -> R a -> kept g' (f a)) -> kept g (qbind m f).
Proof. intros Hm Hf. eapply kept_bind; [exact Hm|]. intros g' [a|e] Hg Ha; [by apply Hf|done]. Qed.

Lemma kept_qbind {A B E} g (m : prog St (result A E)) (f : A -> prog St (result B E)) :
  kept g m -> (forall g' a, grows g g' -> kept g' (f a)) -> kept g (qbind m f).
Proof. intros Hm Hf. apply keeps_then; [done|]. intros g' [a|e] Hg; [by apply Hf|done]. Qed.

Lemma kept_ret {A} g (a : A) : kept g (Ret a).
Proof. done. Qed.

Lemma kept_now g : kept g now.
Proof. by intros n. Qed.

Lemma kept_sleep g t : kept g (sleep t).
Proof. done. Qed.

Lemma kept_lift {A E} g (r : result A E) : kept g (lift r).
Proof. done. Qed.

Lemma onward_refl g s : I g s -> onward g s g s.
Proof. intros Hs. split; [reflexivity|]. by split. Qed.

(** A critical section, with the ghost state that it leaves. *)
Lemma keeps_atomic {X} g (f : St -> X * St) (Q : G -> X -> Prop) :
  (forall g1 s, grows g g1 -> I g1 s -> exists g2, onward g1 s g2 (f s).2 /\ Q g2 (f s).1) ->
  keeps g (atomic f) Q.
Proof. done. Qed.

Lemma keeps_asks {X} g (f : St -> X) (R : G -> X -> Prop) :
  (forall g1 s, grows g g1 -> I g1 s -> R g1 (f s)) -> keeps g (asks f) R.
Proof. intros HR g1 s Hg Hs. exists g1. split; [by apply onward_refl|]. by apply HR. Qed.

Lemma kept_asks {X} g (f : St -> X) : kept g (asks f).
Proof. by apply keeps_asks. Qed.

Lemma kept_atomic {X} g (f : St -> X * St) :
  (forall g1 s, I g1 s -> onward g1 s g1 (f s).2) -> kept g (atomic f).
Proof. intros Hf g1 s Hg Hs. exists g1. split; [by apply Hf|done]. Qed.

Lemma kept_modify g (f : St -> St) :
  (forall g1 s, I g1 s -> onward g1 s g1 (f s)) -> kept g (modify f).
Proof. intros Hf g1 s Hg Hs. exists g1. split; [by apply Hf|done]. Qed.

Lemma keeps_await {X} g (f : St -> option (X * St)) (Q : G -> X -> Prop) :
  (forall g1 s x s', grows g g1 -> I g1 s -> f s = Some (x, s') ->
     exists g2, onward g1 s g2 s' /\ Q g2 x) -> keeps g (await f) Q.
Proof.
  intros Hf g1 s Hg Hs. destruct (f s) as [[x s']|] eqn:E; [|done]. by apply (Hf g1 s).
Qed.

Lemma kept_await {X} g (f : St -> option (X * St)) :
  (forall g1 s x s', grows g g1 -> I g1 s -> f s = Some (x, s') -> onward g1 s g1 s') ->
  kept g (await f).
Proof.
  intros Hf. apply keeps_await. intros g1 s x s' Hg Hs E. exists g1. split; [by eapply Hf|done].
Qed.

Lemma keeps_read g n t : keeps g (read_with_timeout n t) (yields (fun l => length l = n)).
Proof. intros [l|e] Hl; simpl; [by apply Hl|done]. Qed.

Lemma kept_read g n t : kept g (read_with_timeout n t).
Proof. by intros r. Qed.

Lemma kept_write g b t : kept g (write_with_timeout b t).
Proof. by intros r. Qed.

Lemma kept_for_each {X E} g (l : list X) (body : X -> prog St (result unit E)) :
  (forall g' x, grows g g' -> x ∈ l -> kept g' (body x)) -> kept g (for_each l body).
Proof.
  revert g; induction l as [|x l IH]; intros g Hb; [done|]. apply kept_qbind.
  - apply Hb; [done|apply list_elem_of_here].
  - intros g1 _ Hg1. apply IH. intros g2 y Hg2 Hy. apply Hb; [by transitivity g1|].
    by apply list_elem_of_further.
Qed.

Lemma kept_iterate {R} g fuel (body : prog St (option R)) :
  (forall g', grows g g' -> kept g' body) -> kept g (iterate fuel body).
Proof.
  revert g; induction fuel as [|fuel IH]; intros g Hb; [done|].
  apply kept_then; [by apply Hb|]. intros g1 [x|] Hg; [done|]. apply IH.
  intros g2 Hg2. apply Hb. by transitivity g1.
Qed.

Lemma kept_reduced g t op : kept g (reduced t op).
Proof. by intros n. Qed.

(** The length field of a frame has 32 bits. *)
Lemma keeps_frame g max t :
  keeps g (read_frame_with_timeout max t) (yields (fun l => len l < 2 ^ 32)%N).
Proof.
  unfold read_frame_with_timeout. apply keeps_then; [apply kept_now|intros g1 op _].
  eapply kept_bind; [apply keeps_read|]. intros g2 [l|e] _ Hl; [|done]. cbv zeta.
  destruct (match max with Some _ => _ | None => _ end); [done|].
  apply keeps_then; [apply kept_reduced|intros g3 n _]. eapply keeps_mono; [|apply keeps_read].
  intros g4 [d|e] _ Hd; [|done]. unfold yields in *. pose proof (from_le_bytes_lt l). unfold len in *.
  rewrite Hd, N2Nat.id. rewrite Hl in *. done.
Qed.

Lemma kept_frame g max t : kept g (read_frame_with_timeout max t).
Proof. by eapply keeps_mono; [|apply keeps_frame]. Qed.

Lemma kept_swrite g s b : kept g (swrite s b).
Proof. apply kept_write. Qed.

Lemma kept_sread g s n : kept g (sread s n).
Proof. apply kept_read. Qed.

Lemma kept_forget {A} g (p : prog St A) : kept g p -> kept g (forget p).
Proof. intros Hp. by apply kept_then. Qed.

(** *** Together with ownership *)

(** A critical section of a program that holds [own] before and [own'] after it: everybody else
    keeps what he holds. *)
Definition handover (own : list resource) (g1 : G) (s : St) (own' : list resource) (g2 : G)
    (s' : St) : Prop :=
  grows g1 g2 /\ I g2 s' /\ Forall (holds g2 s') own' /\
  forall r, r ∉ own -> holds g1 s r -> holds g2 s' r /\ r ∉ own'.

(** As [keeps], for a program that may rely on the resources that it holds. *)
Fixpoint joint {A} (own : list resource) (g : G) (p : prog St A)
    (Q : list resource -> G -> A -> Prop) : Prop :=
  match p with
  | Ret a => Q own g a
  | Now k => forall n, joint own g (k n) Q
  | ReadExact n t k => forall r, (forall l, r = Ok l -> length l = n) -> joint own g (k r) Q
  | WriteAll b t k => forall r, joint own g (k r) Q
  | Sleep t k => joint own g k Q
  | Atomic f k => forall g1 s, grows g g1 -> I g1 s -> Forall (holds g1 s) own ->
      exists own' g2, handover own g1 s own' g2 (f s).2 /\ joint own' g2 (k (f s).1) Q
  | Await f k => forall g1 s, grows g g1 -> I g1 s -> Forall (holds g1 s) own ->
      match f s with
      | Some (x, s') => exists own' g2, handover own g1 s own' g2 s' /\ joint own' g2 (k x) Q
      | None => True
      end
  | Crash => True
  end.

(** Whatever it holds in the end. *)
Definition joins {A} (own : list resource) (g : G) (p : prog St A) : Prop :=
  joint own g p (fun _ _ _ => True).

Lemma onward_handover own g1 s g2 s' :
  onward g1 s g2 s' -> Forall (holds g1 s) own -> handover own g1 s own g2 s'.
Proof.
  intros (Hg & Hs & Hr) Ho. split; [done|]. split; [done|]. split; [|auto].
  eapply Forall_impl; [exact Ho|]. auto.
Qed.

Lemma joint_mono {A} own g (p : prog St A) (Q R : list resource -> G -> A -> Prop) :
  (forall o g' a, grows g g' -> Q o g' a -> R o g' a) -> joint own g p Q -> joint own g p R.
Proof.
  revert own g; induction p as [a|k IH|n t k IH|b t k IH|t k IH|X f k IH|X f k IH|];
    intros own g HQ; simpl; auto.
  - by apply HQ.
  - intros H g1 s Hg Hs Ho. destruct (H g1 s Hg Hs Ho) as (o & g2 & Hh & Hk). exists o, g2.
    split; [done|]. eapply IH; [|exact Hk]. intros o' g' a Hg'. apply HQ.
    transitivity g1; [done|transitivity g2; [apply Hh|done]].
  - intros H g1 s Hg Hs Ho. specialize (H g1 s Hg Hs Ho). destruct (f s) as [[x s']|]; [|done].
    destruct H as (o & g2 & Hh & Hk). exists o, g2. split; [done|]. eapply IH; [|exact Hk].
    intros o' g' a Hg'. apply HQ. transitivity g1; [done|transitivity g2; [apply Hh|done]].
Qed.

Lemma joins_grows {A} own g g' (p : prog St A) : grows g g' -> joins own g p -> joins own g' p.
Proof.
  unfold joins. revert own g g'; induction p as [a|k IH|n t k IH|b t k IH|t k IH|X f k IH|X f k IH|];
    intros own g g' Hg; simpl; eauto.
  - intros H g1 s Hg1 Hs. apply H; [by transitivity g'|done].
  - intros H g1 s Hg1 Hs. apply H; [by transitivity g'|done].
Qed.

Lemma joint_bind {A B} own g (m : prog St A) (f : A -> prog St B) R Q :
  joint own g m R -> (forall o g' a, grows g g' -> R o g' a -> joint o g' (f a) Q) ->
  joint own g (pbind f m) Q.
Proof.
  intros Hm Hf. apply (joint_mono _ _ _ R (fun o g' a => joint o g' (f a) Q)) in Hm; [|done].
  clear Hf. revert own g Hm.
  induction m as [a|k IH|n t k IH|b t k IH|t k IH|X h k IH|X h k IH|]; intros own g; simpl; auto.
  - intros H g1 s Hg Hs Ho. destruct (H g1 s Hg Hs Ho) as (o & g2 & Hh & Hk). exists o, g2. auto.
  - intros H g1 s Hg Hs Ho. specialize (H g1 s Hg Hs Ho). destruct (h s) as [[x s']|]; [|done].
    destruct H as (o & g2 & Hh & Hk). exists o, g2. auto.
Qed.

(** A program that needs nothing of what it holds. *)
Lemma joint_keeps {A} own g (p : prog St A) (Q : G -> A -> Prop) :
  keeps g p Q -> joint own g p (fun o g' a => o = own /\ Q g' a).
Proof.
  revert g; induction p as [a|k IH|n t k IH|b t k IH|t k IH|X f k IH|X f k IH|]; intros g;
    simpl; auto.
  - intros H g1 s Hg Hs Ho. destruct (H g1 s Hg Hs) as (g2 & Hw & Hk). exists own, g2.
    split; [by apply onward_handover|auto].
  - intros H g1 s Hg Hs Ho. specialize (H g1 s Hg Hs). destruct (f s) as [[x s']|]; [|done].
    destruct H as (g2 & Hw & Hk). exists own, g2. split; [by apply onward_handover|auto].
Qed.

Lemma joins_kept {A} own g (p : prog St A) : kept g p -> joins own g p.
Proof. intros H. eapply joint_mono; [|by apply joint_keeps]. done. Qed.

Lemma joint_after {A B} own g (m : prog St A) (f : A -> prog St B) (R : G -> A -> Prop) Q :
  keeps g m R -> (forall g' a, grows g g' -> R g' a -> joint own g' (f a) Q) ->
  joint own g (pbind f m) Q.
Proof.
  intros Hm Hf. eapply joint_bind; [by apply joint_keeps|]. intros o g' a Hg [-> HR]. by apply Hf.
Qed.

Lemma joint_then {A B} own g (m : prog St A) (f : A -> prog St B) Q :
  kept g m -> (forall g' a, grows g g' -> joint own g' (f a) Q) -> joint own g (pbind f m) Q.
Proof. intros Hm Hf. eapply joint_after; [exact Hm|]. auto. Qed.

Lemma joint_qthen {A B E} own g (m : prog St (result A E)) (f : A -> prog St (result B E))
    (Q : list resource -> G -> result B E -> Prop) :
  kept g m -> (forall g' e, Q own g' (Err e)) ->
  (forall g' a, grows g g' -> joint own g' (f a) Q) -> joint own g (qbind m f) Q.
Proof. intros Hm He Hf. apply joint_then; [done|]. intros g' [a|e] Hg; [by apply Hf|apply He]. Qed.

(** A step of a program. *)
Lemma pstep_joins {A} own g (p p' : prog St A) s s' :
  joins own g p -> pstep p s p' s' -> I g s -> Forall (holds g s) own ->
  exists own' g', handover own g s own' g' s' /\ joins own' g' p'.
Proof.
  unfold joins. intros Hp Hstep Hs Ho.
  assert (handover own g s own g s) as Hr by (apply onward_handover; [by apply onward_refl|done]).
  destruct Hstep; simpl in Hp; try (exists own, g; split; [done|]; by apply Hp).
  - apply (Hp g s); [reflexivity|done..].
  - specialize (Hp g s). rewrite H in Hp. apply Hp; [reflexivity|done..].
Qed.

(** *** Programs side by side *)

Record jointly (ps : list (prog St unit)) (g : G) (s : St) (owns : list (list resource)) : Prop := {
  jt_inv : I g s;
  jt_joins : Forall2 (fun own p => joins own g p) owns ps;
  jt_holds : Forall (Forall (holds g s)) owns;
  jt_apart i j oi oj r :
    owns !! i = Some oi -> owns !! j = Some oj -> i <> j -> r ∈ oi -> r ∉ oj;
}.

Lemma jointly_empty g s : I g s -> jointly [] g s [].
Proof. intros Hs. split; [done|constructor|constructor|]. by intros i j oi oj r Hi. Qed.

(** One of them takes a step, or ends: what it does is handed over. *)
Lemma jointly_handover ps g s owns i own own' p' g' s' :
  jointly ps g s owns -> owns !! i = Some own -> handover own g s own' g' s' ->
  joins own' g' p' -> jointly (<[i := p']> ps) g' s' (<[i := own']> owns).
Proof.
  intros [Hs Ht Hh Ha] Hi (Hg & Hs' & Ho' & Hr) Hp'.
  assert (forall j oj r, owns !! j = Some oj -> i <> j -> r ∈ oj -> holds g' s' r /\ r ∉ own')
    as Hother.
  { intros j oj r Hj Hne Hrj. apply Hr; [intros Hin; by eapply (Ha i j)|].
    eapply Forall_lookup_1 in Hh; [|exact Hj]. rewrite Forall_forall in Hh. by apply Hh. }
  split; [done| | |].
  - apply Forall2_insert; [|done]. eapply Forall2_impl; [exact Ht|]. intros o p.
    by apply joins_grows.
  - apply Forall_lookup_2. intros j oj [(-> & -> & _)|(Hne & Hj)]%list_lookup_insert_Some; [done|].
    apply Forall_forall. intros r Hrj. by eapply Hother.
  - intros j k oj ok r [(-> & -> & _)|(Hnj & Hj)]%list_lookup_insert_Some
      [(-> & -> & _)|(Hnk & Hk)]%list_lookup_insert_Some Hne Hrj Hrk; [done|..].
    + by destruct (Hother k ok r Hk Hnk Hrk).
    + by destruct (Hother j oj r Hj Hnj Hrj).
    + by eapply (Ha j k).
Qed.

Lemma jointly_step ps g s owns i p p' s' :
  jointly ps g s owns -> ps !! i = Some p -> pstep p s p' s' ->
  exists g' owns', grows g g' /\ jointly (<[i := p']> ps) g' s' owns'.
Proof.
  intros Hj Hi Hp. destruct (Forall2_lookup_r _ _ _ _ _ (jt_joins _ _ _ _ Hj) Hi) as (own & Ho & Hk).
  assert (Forall (holds g s) own) as Hh by by eapply Forall_lookup_1 in Ho; [|apply Hj].
  destruct (pstep_joins own g p p' s s' Hk Hp (jt_inv _ _ _ _ Hj) Hh) as (own' & g' & Hov & Hk').
  exists g', (<[i := own']> owns). split; [apply Hov|]. by eapply jointly_handover.
Qed.

(** A new program holds nothing. *)
Lemma jointly_spawn ps g s owns p :
  jointly ps g s owns -> joins [] g p -> jointly (ps ++ [p]) g s (owns ++ [[]]).
Proof.
  intros [Hs Ht Hh Ha] Hp. split; [done| | |].
  - apply Forall2_app; [done|]. by constructor.
  - apply Forall_app. split; [done|]. by repeat constructor.
  - intros i j oi oj r Hi Hj Hne Hri Hrj.
    apply lookup_app_Some in Hi as [Hi|[_ Hi]];
      [|by apply list_lookup_singleton_Some in Hi as [_ <-]; inversion Hri].
    apply lookup_app_Some in Hj as [Hj|[_ Hj]];
      [|by apply list_lookup_singleton_Some in Hj as [_ <-]; inversion Hrj].
    by eapply (Ha i j).
Qed.

(** What happens outside of the programs. *)
Lemma jointly_onward ps g s s' owns : jointly ps g s owns -> onward g s g s' -> jointly ps g s' owns.
Proof.
  intros [_ Ht Hh Ha] (_ & Hs & Hr). split; [done..| |done].
  eapply Forall_impl; [exact Hh|]. intros own Ho. eapply Forall_impl; [exact Ho|]. apply Hr.
Qed.

(** A program that stops. *)
Lemma jointly_stop ps g s owns i p :
  jointly ps g s owns -> ps !! i = Some p -> exists owns', jointly (<[i := Ret tt]> ps) g s owns'.
Proof.
  intros Hj Hi. destruct (Forall2_lookup_r _ _ _ _ _ (jt_joins _ _ _ _ Hj) Hi) as (own & Ho & _).
  exists (<[i := own]> owns). eapply jointly_handover; [done|done| |done].
  apply onward_handover; [apply onward_refl, Hj|]. by eapply Forall_lookup_1 in Ho; [|apply Hj].
Qed.
End logic.

Create HintDb kept.
#[export] Hint Resolve kept_ret kept_asks kept_now kept_sleep kept_lift kept_read kept_write
  kept_reduced kept_frame kept_swrite kept_sread : kept.

(** Decompose a program along its binds and conditionals. *)
Ltac kept_step :=
  first
    [ assumption
    | solve [auto with kept]
    | apply kept_qbind; [|intros]
    | apply kept_then; [|intros]
    | match goal with |- kept _ _ _ (match ?x with _ => _ end) => destruct x end
    | progress cbv zeta ].
Ltac kept := repeat kept_step.

Lemma untouched_kept {St G resource A} {GH : Ghost G} (I : G -> St -> Prop)
    (holds : G -> St -> resource -> Prop) g (p : prog St A) : untouched p -> kept I holds g p.
Proof.
  unfold kept, untouched.
  revert g; induction p as [a|k IH|n t k IH|b t k IH|t k IH|X f k IH|X f k IH|]; intros g; simpl; auto;
    intros [Hf Hk] g1 s Hg Hs; destruct (Hf s) as [x E].
  - assert (f s = (x, s)) as E' by congruence. exists g1. rewrite E'. simpl.
    split; [by apply onward_refl|]. specialize (Hk s). rewrite E' in Hk. by apply IH.
  - rewrite E. exists g1. split; [by apply onward_refl|]. eapply IH, Hk, E.
Qed.
