(* ===== verification/Broker.v ===== *)
(** * The abstract broker

    What may happen to the clients and queues of the server, without locks, stores, channels that
    close, tasks and connections: a table of members with the patterns they are subscribed to, and
    mailboxes, which are first-in first-out queues. System.v proves that the server, under every
    interleaving of its tasks, takes only steps of this broker; here are the steps, what follows
    from them for any number of steps, and the step that each operation on the hub is. The steps do
    not say when they are taken: which request changes what is the subject of Board.v. *)

From S2P Require Import Prelude Utf8 Proto Io Acl Topic Token Pubsub Reference PubsubSpec.
From S2P Require Import Passwords Keys Server ServerSpec.

(** ** The specification *)

Record Broker : Type := mkBroker {
  members : gmap bytes (ServerClient * gset bytes);
  boxes : gmap nat (list MessageFrame);
}.

(** Of a pattern with [#] before its last level the specification says only that it concerns no
    other member. *)
Inductive bstep : Broker -> Broker -> Prop :=
| b_join c ms bx :
    ms !! digest c = None -> bstep (mkBroker ms bx) (mkBroker (<[digest c := (c, ∅)]> ms) bx)
| b_leave d ms bx : bstep (mkBroker ms bx) (mkBroker (delete d ms) bx)
| b_subscribe p d ms bx :
    plain_pattern p ->
    bstep (mkBroker ms bx) (mkBroker (alter (fun '(c, ps) => (c, {[p]} ∪ ps)) d ms) bx)
| b_unsubscribe p d ms bx :
    plain_pattern p ->
    bstep (mkBroker ms bx) (mkBroker (alter (fun '(c, ps) => (c, ps ∖ {[p]})) d ms) bx)
| b_odd_pattern p d c ps ps' ms bx :
    ~ plain_pattern p -> ms !! d = Some (c, ps) ->
    bstep (mkBroker ms bx) (mkBroker (<[d := (c, ps')]> ms) bx)
| b_open ch ms bx : bx !! ch = None -> bstep (mkBroker ms bx) (mkBroker ms (<[ch := []]> bx))
| b_put m ch q ms bx :
    bx !! ch = Some q -> bstep (mkBroker ms bx) (mkBroker ms (<[ch := q ++ [m]]> bx))
| b_take m ch q ms bx :
    bx !! ch = Some (m :: q) -> bstep (mkBroker ms bx) (mkBroker ms (<[ch := q]> bx)).

Definition bsteps : Broker -> Broker -> Prop := rtc bstep.

#[export] Instance bsteps_preorder : PreOrder bsteps.
Proof. unfold bsteps. split; [by intros b|]. intros b1 b2 b3 H1 H2. by etrans. Qed.

Definition empty_broker : Broker := mkBroker ∅ ∅.

(** *** Order and loss *)

(** The mailbox goes on: what is in it later is what was in it and what came, without what was
    taken from the front. *)
Definition box_goes_on (ch : nat) (q : list MessageFrame) (b : Broker) : Prop :=
  exists q' taken added, boxes b !! ch = Some q' /\ q ++ added = taken ++ q'.

Lemma box_goes_on_step ch q b b' : bstep b b' -> box_goes_on ch q b -> box_goes_on ch q b'.
Proof.
  intros Hs (q0 & taken & added & Hq & E). unfold box_goes_on.
  assert (forall ch' q1, (forall q2, boxes b !! ch' = Some q2 -> ch = ch' ->
       exists taken' added', q ++ added' = taken' ++ q1) ->
    exists q2 taken' added', <[ch' := q1]> (boxes b) !! ch = Some q2 /\ q ++ added' = taken' ++ q2)
    as Hins.
  { intros ch' q1 H1. rewrite lookup_insert. case_decide as D; subst.
    - destruct (H1 q0 Hq eq_refl) as (t' & a' & E'). by exists q1, t', a'.
    - by exists q0, taken, added. }
  destruct Hs as [c ms bx|d ms bx|p d ms bx|p d ms bx|p d c ps ps' ms bx|ch' ms bx Hn|m ch' q1 ms bx Hb
    |m ch' q1 ms bx Hb]; simpl in *; try by exists q0, taken, added.
  - apply (Hins ch' []). intros q2 Hq2. congruence.
  - apply Hins. intros q2 Hq2 ->. simplify_eq.
    exists taken, (added ++ [m]). by rewrite !app_assoc, E.
  - apply Hins. intros q2 Hq2 ->. simplify_eq.
    exists (taken ++ [m]), added. by rewrite E, <- app_assoc.
Qed.

Lemma box_goes_on_steps ch q b b' :
  bsteps b b' -> boxes b !! ch = Some q -> box_goes_on ch q b'.
Proof.
  intros Hs Hq. assert (box_goes_on ch q b) as Hb.
  { exists q, [], []. by rewrite app_nil_r. }
  clear Hq. revert Hb; induction Hs as [b|b b1 b' Hstep _ IH]; [done|].
  intros Hb. apply IH. by eapply box_goes_on_step.
Qed.

(** ** The hub is a broker *)

Section hub.
Context {SMO : SubMapOps} {SML : SubMapLaws} {CHO : ChannelOps} {CHL : ChannelLaws}
  {SHO : Sha256Ops}.

Definition broker_of (h : Hub) : Broker :=
  mkBroker (view h) ((fun c => ch_queue (ch_view c)) <$> chans h).

(** An operation of the hub is steps of the broker. *)
Definition serves (h h' : Hub) : Prop := bsteps (broker_of h) (broker_of h').

#[export] Instance serves_preorder : PreOrder serves.
Proof. split; [intros h; apply rtc_refl|]. intros h1 h2 h3. unfold serves. apply transitivity. Qed.

Lemma serves_same h h' : view h' = view h -> chans h' = chans h -> serves h h'.
Proof. intros Hv Hc. unfold serves, broker_of. by rewrite Hv, Hc. Qed.

Lemma serves_update_chan f ch h :
  (forall c, ch_queue (ch_view (f c)) = ch_queue (ch_view c)) -> serves h (update_chan f ch h).
Proof.
  intros Hf. unfold serves. assert (broker_of (update_chan f ch h) = broker_of h) as ->; [|done].
  unfold broker_of. f_equal. apply map_eq. intros i. rewrite !lookup_fmap.
  rewrite update_chan_lookup. case_decide; subst; [|done].
  destruct (chans h !! i); simpl; [by rewrite Hf|done].
Qed.

Lemma serves_clone_sender ch h : serves h (update_chan ch_clone_sender ch h).
Proof. apply serves_update_chan. intros c. by rewrite ch_clone_sender_view. Qed.

Lemma serves_drop_sender ch h : serves h (update_chan ch_drop_sender ch h).
Proof. apply serves_update_chan. intros c. by rewrite ch_drop_sender_view. Qed.

Lemma serves_drop_receiver ch h : serves h (update_chan ch_drop_receiver ch h).
Proof. apply serves_update_chan. intros c. by rewrite ch_drop_receiver_view. Qed.

Lemma broker_set_chan ch c h :
  broker_of (set_chans (<[ch := c]> (chans h)) h) =
    mkBroker (view h) (<[ch := ch_queue (ch_view c)]> (boxes (broker_of h))).
Proof. unfold broker_of. simpl. by rewrite fmap_insert. Qed.

Lemma box_of h ch c : chans h !! ch = Some c -> boxes (broker_of h) !! ch = Some (ch_queue (ch_view c)).
Proof. intros E. simpl. by rewrite lookup_fmap, E. Qed.

(** A channel that is replaced by one with the same queue. *)
Lemma serves_same_queue ch c c' h :
  chans h !! ch = Some c -> ch_queue (ch_view c') = ch_queue (ch_view c) ->
  serves h (set_chans (<[ch := c']> (chans h)) h).
Proof.
  intros Hc Hq. unfold serves. rewrite broker_set_chan, Hq, insert_id by by apply box_of. done.
Qed.

Lemma serves_put m ch c c' h :
  chans h !! ch = Some c -> ch_queue (ch_view c') = ch_queue (ch_view c) ++ [m] ->
  serves h (set_chans (<[ch := c']> (chans h)) h).
Proof.
  intros Hc Hq. apply rtc_once. rewrite broker_set_chan, Hq. apply b_put. by apply box_of.
Qed.

Lemma serves_take m ch c c' h :
  chans h !! ch = Some c -> ch_queue (ch_view c) = m :: ch_queue (ch_view c') ->
  serves h (set_chans (<[ch := c']> (chans h)) h).
Proof.
  intros Hc Hq. apply rtc_once. rewrite broker_set_chan. apply (b_take m). rewrite <- Hq. by apply box_of.
Qed.

Lemma serves_new_channel n h : chans h !! next_id h = None -> serves h (new_channel n h).2.
Proof.
  intros Hn. apply rtc_once.
  assert (broker_of (new_channel n h).2 =
    mkBroker (view h) (<[next_id h := []]> (boxes (broker_of h)))) as ->.
  { unfold broker_of. simpl. by rewrite fmap_insert, ch_bounded_view. }
  apply b_open. simpl. by rewrite lookup_fmap, Hn.
Qed.

(** The patterns of a client. *)
Lemma plain_pattern_dec p : {plain_pattern p} + {~ plain_pattern p}.
Proof.
  destruct (decide (PathMask.collect (split_on slash p) = split_on slash p)) as [E|E].
  - left. unfold plain_pattern. rewrite <- E. apply collect_hash_last.
  - right. intros H. by apply E, hash_last_collect.
Defined.

Lemma serves_set_submap sm h :
  bsteps (broker_of h) (mkBroker (sm_view sm) (boxes (broker_of h))) -> serves h (set_submap sm h).
Proof. done. Qed.

(** Whatever happens to the patterns of one member. *)
Lemma bsteps_odd (p d : bytes) (ms ms' : gmap bytes (ServerClient * gset bytes))
    (bx : gmap nat (list MessageFrame)) :
  ~ plain_pattern p -> fst <$> ms' = fst <$> ms -> (forall d', d' <> d -> ms' !! d' = ms !! d') ->
  bsteps (mkBroker ms bx) (mkBroker ms' bx).
Proof.
  intros Hp Hf Ho. assert ((fst <$> ms') !! d = (fst <$> ms) !! d) as Hd by by rewrite Hf.
  rewrite !lookup_fmap in Hd. destruct (ms !! d) as [[c ps]|] eqn:E, (ms' !! d) as [[c' ps']|] eqn:E';
    simpl in Hd; try done.
  - injection Hd as ->. apply rtc_once.
    assert (ms' = <[d := (c, ps')]> ms) as -> by
      (apply map_eq; intros i; rewrite lookup_insert; case_decide; subst; [done|by apply Ho]).
    by eapply b_odd_pattern.
  - assert (ms' = ms) as ->; [|done]. apply map_eq. intros i. destruct (decide (i = d)) as [->|Hne];
      [congruence|by apply Ho].
Qed.

Lemma serves_subscribe d t c h : serves h (subscribe d t c h).2.
Proof.
  unfold subscribe. destruct (prepare_topic d t) as [p|e]; [|done]. simpl.
  apply serves_set_submap. destruct (plain_pattern_dec p) as [Hp|Hp].
  - rewrite sm_subscribe_plain by done. by apply rtc_once, b_subscribe.
  - eapply bsteps_odd; [exact Hp|apply sm_subscribe_clients|apply sm_subscribe_others].
Qed.

Lemma serves_unsubscribe d t c h : serves h (unsubscribe d t c h).2.
Proof.
  unfold unsubscribe. destruct (prepare_topic d t) as [p|e]; [|done]. simpl.
  apply serves_set_submap. destruct (plain_pattern_dec p) as [Hp|Hp].
  - rewrite sm_unsubscribe_plain by done. by apply rtc_once, b_unsubscribe.
  - eapply bsteps_odd; [exact Hp|apply sm_unsubscribe_clients|apply sm_unsubscribe_others].
Qed.

(** Members come and go. *)
Lemma serves_register lg ad h r h' : register_client lg ad h = Some (r, h') -> serves h h'.
Proof.
  unfold register_client. generalize (rng h) as answers. intros answers.
  revert h; induction answers as [|a answers IH]; intros h; [done|]. cbn [register_client_loop].
  destruct (Token.create a) as [tok|e]; [|intros [= <- <-]; by apply serves_same].
  set (c := mkServerClient _ _ _ _ _).
  destruct (sm_register c (submap_of (hub_db h))) as [new sm] eqn:E.
  destruct (view h !! digest c) as [m|] eqn:Ev.
  - destruct (sm_register_old c _ m Ev) as [Hn Hv]. rewrite E in Hn, Hv. simpl in Hn, Hv. subst new.
    intros Hr. etrans; [|by eapply IH]. by apply serves_same.
  - destruct (sm_register_new c _ Ev) as [Hn Hv]. rewrite E in Hn, Hv. simpl in Hn, Hv. subst new.
    intros [= <- <-]. apply rtc_once. unfold broker_of, view. simpl. rewrite Hv. by apply b_join.
Qed.

(** The objects of the clients are no part of the broker, but for the senders that go with them. *)
Lemma serves_update_cell f c h : serves h (update_cell f c h).
Proof. by apply serves_same. Qed.

Lemma serves_drop_client c h : serves h (drop_client c h).
Proof.
  unfold drop_client. destruct (strong <$> _) as [[|[|n]]|]; try done; [|by apply serves_update_cell].
  unfold drop_object, drop_sender. case_match; [|by apply serves_same].
  etrans; [|apply serves_drop_sender]. by apply serves_same.
Qed.

Lemma serves_clone_clients l h : serves h (clone_clients l h).
Proof. induction l as [|c l IH]; [done|]. etrans; [exact IH|by apply serves_update_cell]. Qed.

Lemma serves_unregister c h : serves h (unregister_client c h).
Proof.
  unfold unregister_client. set (h' := set_db _ h).
  assert (serves h h') as Hs.
  { apply rtc_once.
    assert (broker_of h' = mkBroker (delete (digest c) (view h)) (boxes (broker_of h))) as ->
      by (unfold broker_of, view; simpl; by rewrite sm_unregister_view).
    apply b_leave. }
  case_match; [|done]. etrans; [exact Hs|apply serves_drop_client].
Qed.

Lemma serves_register_dc tok ch h : serves h (register_data_channel tok ch h).2.
Proof.
  unfold register_data_channel. destruct (_ !! tok) as [c|]; [|apply serves_drop_sender].
  destruct (client_data_channel c h); [apply serves_drop_sender|]. simpl.
  etrans; [apply (serves_clone_sender ch)|by apply serves_same].
Qed.

Lemma serves_unregister_dc tok h : serves h (unregister_data_channel tok h).
Proof.
  unfold unregister_data_channel. destruct (_ !! tok) as [c|]; [|done].
  destruct (client_data_channel c h) as [ch|]; simpl; [|by apply serves_same].
  etrans; [|apply serves_drop_sender]. by apply serves_same.
Qed.

(** Sending and receiving. *)
Lemma serves_send m ch s b s' : chan_send m ch s = Some (b, s') -> serves (hub s) (hub s').
Proof.
  unfold chan_send. destruct (chans (hub s) !! ch) as [c|] eqn:Ec; [|by intros [= _ <-]].
  destruct (ch_send m c) as [[b' c']|] eqn:E; [|done]. intros [= _ <-]. simpl.
  destruct (view_open (ch_view c)) eqn:Ho.
  - destruct (view_full (ch_view c)) eqn:Hf; [by rewrite ch_send_full in E|].
    destruct (ch_send_room m c Ho Hf) as (c1 & E1 & Hv). rewrite E1 in E. simplify_eq.
    eapply serves_put; [done|]. by rewrite Hv.
  - destruct (ch_send_closed m c Ho) as (c1 & E1 & Hv). rewrite E1 in E. simplify_eq.
    eapply serves_same_queue; [done|]. by rewrite Hv.
Qed.

Lemma serves_recv ch s m s' : chan_recv ch s = Some (m, s') -> serves (hub s) (hub s').
Proof.
  unfold chan_recv. destruct (chans (hub s) !! ch) as [c|] eqn:Ec; [|by intros [= _ <-]].
  destruct (ch_recv c) as [[m' c']|] eqn:E; [|done]. intros [= _ <-]. simpl.
  destruct (ch_queue (ch_view c)) as [|m1 q] eqn:Eq.
  - destruct (view_open (ch_view c)) eqn:Ho; [by rewrite ch_recv_wait in E|].
    destruct (ch_recv_closed c Eq Ho) as (c1 & E1 & Hv). rewrite E1 in E. simplify_eq.
    eapply serves_same_queue; [done|]. by rewrite Hv.
  - destruct (ch_recv_message c m1 q Eq) as (c1 & E1 & Hv). rewrite E1 in E. simplify_eq.
    eapply serves_take; [done|]. by rewrite Eq, Hv.
Qed.
End hub.
