(* ===== verification/System.v ===== *)
(** * All tasks together

    The server as a transition system: any number of connections, datagram listeners and spawned
    tasks, each a program, take their steps in any order, over one shared state, while the machine's
    clock and the configuration files change. A step of a program is one effect; its reads and
    writes may have any outcome.

    The invariant is proved by the rely-guarantee reasoning of Interleave.v: a program owns the
    client it registered and the channel it made until it hands them over, every critical section it
    runs keeps the invariant and whatever the other programs own. In the same way every critical
    section is shown to be steps of the abstract broker of Broker.v, so the server refines it. *)

From S2P Require Import Prelude Utf8 Proto Io Commands Acl Topic Token Pubsub Reference PubsubSpec.
From S2P Require Import Passwords Keys Server ServerSpec Control ControlSpec Session SessionSpec Udp.
From S2P Require Import Broker Interleave.

Section system.
Context {SMO : SubMapOps} {SML : SubMapLaws} {CHO : ChannelOps} {CHL : ChannelLaws}
  {SHO : Sha256Ops} {BCO : BcryptOps} {AEO : AeadOps}.

(** ** The transition system *)

(** A program that runs, and the handle of its task when it was spawned. *)
Record Thread : Type := mkThread {
  handle : option nat;
  code : prog Server unit;
}.

Record Machine : Type := mkMachine {
  threads : list Thread;
  started : gset nat;
  server : Server;
}.

Section steps.
Variable replication_push : option (byte -> bytes -> bytes -> N -> prog Server unit).
Variable acceptor : option (prog Server (result unit bytes)).

(** What a listener starts: a connection's handler, the loop over datagrams, whose buffer has a
    16-bit size, or a program that only reads the state, as a request of the status pages is. *)
Inductive entry : prog Server unit -> Prop :=
| entry_tcp nodelay allow_no_tls fuel ad timeout :
    entry (forget (handle_tcp_stream replication_push nodelay acceptor allow_no_tls fuel ad timeout))
| entry_unix fuel path timeout :
    entry (forget (handle_unix_stream replication_push fuel path timeout))
| entry_udp size datagrams :
    (size < 2 ^ 16)%N -> entry (forget (handle_udp_listener replication_push size datagrams))
| entry_reader p : untouched p -> entry p.

Definition task_code (fuel : nat) (t : Task) : prog Server unit :=
  match t with
  | Pinger ch interval => forget (pinger fuel ch interval)
  | DataTask tok rx timeout interval _ _ =>
      forget (data_task fuel (mkSStream timeout) tok rx timeout interval)
  end.

(** The senders and receivers that a task's closure owns, dropped with it. *)
Definition drop_task (t : Task) (s : Server) : Server :=
  match t with
  | Pinger ch _ => with_hub (update_chan ch_drop_sender ch) s
  | DataTask _ rx _ _ _ _ => with_hub (update_chan ch_drop_receiver rx) s
  end.

Inductive step : Machine -> Machine -> Prop :=
| step_thread i h p p' s s' ts st :
    ts !! i = Some (mkThread h p) -> pstep p s p' s' ->
    step (mkMachine ts st s) (mkMachine (<[i := mkThread h p']> ts) st s')
| step_accept p s ts st :
    entry p -> step (mkMachine ts st s) (mkMachine (ts ++ [mkThread None p]) st s)
| step_task id t fuel s ts st :
    (id, t) ∈ spawned s -> id ∉ st ->
    step (mkMachine ts st s)
      (mkMachine (ts ++ [mkThread (Some id) (task_code fuel t)]) ({[id]} ∪ st) s)
| step_abort i id t p s ts st :
    ts !! i = Some (mkThread (Some id) p) -> at_await p = true ->
    (id, t) ∈ spawned s -> id ∈ aborted (hub s) ->
    step (mkMachine ts st s)
      (mkMachine (<[i := mkThread None (Ret tt)]> ts) st (drop_task t s))
| step_cancel id t s ts st :
    (id, t) ∈ spawned s -> id ∉ st -> id ∈ aborted (hub s) ->
    step (mkMachine ts st s) (mkMachine ts ({[id]} ∪ st) (drop_task t s))
| step_clock t s ts st : step (mkMachine ts st s) (mkMachine ts st (set_wall t s))
| step_reload_acl db s ts st : step (mkMachine ts st s) (mkMachine ts st (set_acl_db db s))
| step_reload_passwords db s ts st :
    step (mkMachine ts st s) (mkMachine ts st (set_password_db db s))
| step_reload_keys db s ts st : step (mkMachine ts st s) (mkMachine ts st (set_key_db db s)).

(** A server without clients and connections, whatever its configuration. *)
Definition initial (answers : list (result bytes bytes)) (c : Machine) : Prop :=
  threads c = [] /\ hub (server c) = empty_hub answers /\ counters (server c) = Counters.default /\
  spawned (server c) = [] /\ started c = ∅.

Inductive reaches (answers : list (result bytes bytes)) : Machine -> Prop :=
| reaches_initial c : initial answers c -> reaches answers c
| reaches_step c c' : reaches answers c -> step c c' -> reaches answers c'.

Lemma reaches_steps answers c c' : reaches answers c -> rtc step c c' -> reaches answers c'.
Proof. intros Hc Hs. induction Hs as [|c c1 c' Hstep _ IH]; [done|]. apply IH. by eapply reaches_step. Qed.

(** The steps of one thread are steps of the machine. *)
Lemma psteps_steps p q s s' i h ts st :
  psteps p s q s' -> ts !! i = Some (mkThread h p) ->
  rtc step (mkMachine ts st s) (mkMachine (<[i := mkThread h q]> ts) st s').
Proof.
  unfold psteps. remember (p, s) as x eqn:Ex. remember (q, s') as y eqn:Ey. intros H.
  revert p s ts Ex; induction H as [x|x [p1 s1] y Hstep _ IH]; intros p s ts -> Hi; simplify_eq.
  - by rewrite list_insert_id.
  - eapply rtc_l; [by eapply step_thread|]. simpl.
    rewrite <- (list_insert_insert_eq ts i (mkThread h q) (mkThread h p1)).
    apply (IH eq_refl p1 s1 _ eq_refl). apply list_lookup_insert_eq. by eapply lookup_lt_Some.
Qed.
End steps.

(** ** The invariant of the shared state *)

Definition counters_ok (c : Counters) : Prop :=
  (c_sub_ops c < 2 ^ 64 /\ c_pub_messages c < 2 ^ 64 /\ c_pub_bytes c < 2 ^ 64 /\
   c_sent_messages c < 2 ^ 64 /\ c_sent_bytes c < 2 ^ 64 /\ c_sent_latency c < 2 ^ 64)%N.

Record server_ok (s : Server) : Prop := {
  sok_hub : hub_ok (hub s);
  sok_counters : counters_ok (counters s);
}.

(** ** Ownership *)

Inductive resource : Type :=
| RClient (c : ServerClient)
| RChannel (ch : nat).

Definition holds (s : Server) (r : resource) : Prop :=
  match r with
  | RClient c => registered c (hub s)
  | RChannel ch => fresh_channel ch (hub s)
  end.

(** From a state to any later one the hub takes steps of the abstract broker. *)
Definition served (s s' : Server) : Prop := serves (hub s) (hub s').

#[local] Instance served_preorder : PreOrder served.
Proof. split; [intros s; apply rtc_refl|]. intros s1 s2 s3. unfold served. apply transitivity. Qed.

Lemma served_same s s' : hub s' = hub s -> served s s'.
Proof. unfold served. intros ->. apply rtc_refl. Qed.

#[local] Abbreviation safe := (safe server_ok holds served).
#[local] Abbreviation neutral := (neutral server_ok holds served).
#[local] Abbreviation guarantee := (guarantee server_ok holds served).
#[local] Abbreviation ends_safely := (ends_safely server_ok holds served).

(** *** Critical sections that concern nobody's resources *)

(** They keep the invariant, the registered clients and the channels not handed over yet, and are
    steps of the broker. *)
Definition mild (s s' : Server) : Prop :=
  server_ok s -> server_ok s' /\ by_token (hub s') = by_token (hub s) /\
  (forall ch, fresh_channel ch (hub s) -> fresh_channel ch (hub s')) /\ served s s'.

Lemma mild_refl s : mild s s.
Proof. intros Hok. split; [done|]. split; [done|]. by split. Qed.

Lemma mild_trans s1 s2 s3 : mild s1 s2 -> mild s2 s3 -> mild s1 s3.
Proof.
  intros H12 H23 Hok. destruct (H12 Hok) as (H1 & H2 & H3 & L1).
  destruct (H23 H1) as (H4 & H5 & H6 & L2).
  split; [done|]. split; [congruence|]. split; [auto|by etrans].
Qed.

Lemma mild_gentle s s' : mild s s' -> gentle server_ok holds served s s'.
Proof.
  intros Hm Hok. destruct (Hm Hok) as (Hok' & Hb & Hf & Hl). split; [done|]. split; [done|].
  intros [c|ch]; simpl; [|apply Hf]. unfold registered. by rewrite Hb.
Qed.

Lemma neutral_mild {X} (f : Server -> X * Server) :
  (forall s, mild s (f s).2) -> neutral (atomic f).
Proof. intros Hf. apply neutral_atomic. intros s. apply mild_gentle, Hf. Qed.

Lemma neutral_modify_mild (f : Server -> Server) : (forall s, mild s (f s)) -> neutral (modify f).
Proof. intros Hf. apply neutral_modify. intros s. apply mild_gentle, Hf. Qed.

Lemma neutral_await_mild {X} (f : Server -> option (X * Server)) :
  (forall s x s', f s = Some (x, s') -> mild s s') -> neutral (await f).
Proof. intros Hf. apply neutral_await. intros s x s' E. by eapply mild_gentle, Hf. Qed.

Lemma neutral_respond s b : neutral (respond_status s b).
Proof. apply neutral_write. Qed.
Hint Resolve neutral_respond : neutral.

(** *** The critical sections of the server *)

(** On the hub alone. *)
Definition keeps_hub (h h' : Hub) : Prop :=
  hub_ok h -> hub_ok h' /\ by_token h' = by_token h /\
  forall ch, fresh_channel ch h -> fresh_channel ch h'.

Definition mild_hub (h h' : Hub) : Prop := keeps_hub h h' /\ serves h h'.

Lemma mild_set_hub h' s : mild_hub (hub s) h' -> mild s (set_hub h' s).
Proof.
  intros [H Hl] [Hh Hc]. destruct (H Hh) as (H1 & H2 & H3). split; [by split|]. done.
Qed.

Lemma mild_with_hub f s : mild_hub (hub s) (f (hub s)) -> mild s (with_hub f s).
Proof. apply mild_set_hub. Qed.

Lemma mild_hub_refl h : mild_hub h h.
Proof. by split. Qed.

Lemma keeps_hub_trans h1 h2 h3 : keeps_hub h1 h2 -> keeps_hub h2 h3 -> keeps_hub h1 h3.
Proof.
  intros H12 H23 Hok. destruct (H12 Hok) as (H1 & H2 & H3). destruct (H23 H1) as (H4 & H5 & H6).
  split; [done|]. split; [congruence|auto].
Qed.

(** What makes a channel fresh in another hub. *)
Lemma fresh_channel_same ch h h' :
  (is_Some (chans h !! ch) -> is_Some (chans h' !! ch)) ->
  (forall i c', cells h' !! i = Some c' -> data_channel c' = Some ch ->
     exists i' c, cells h !! i' = Some c /\ data_channel c = Some ch) ->
  fresh_channel ch h -> fresh_channel ch h'.
Proof.
  intros Hs Hc [H1 H2]. split; [auto|]. intros i c' Hi Hch.
  destruct (Hc i c' Hi Hch) as (i' & c & Hi' & Hch'). by eapply H2.
Qed.

Lemma keeps_update_chan f ch h : keeps_hub h (update_chan f ch h).
Proof.
  intros Hok. split; [by apply hub_ok_update_chan|]. split; [done|]. intros ch'.
  apply fresh_channel_same; [|eauto]. intros [q Hq]. rewrite update_chan_lookup.
  case_decide; subst; rewrite Hq; by eexists.
Qed.

Lemma keeps_drop_sender ch h : keeps_hub h (drop_sender ch h).
Proof. destruct ch; [apply keeps_update_chan|done]. Qed.

Lemma keeps_update_cell f c h :
  (forall cell, data_channel (f cell) = data_channel cell \/ data_channel (f cell) = None) ->
  keeps_hub h (update_cell f c h).
Proof.
  intros Hf Hok. split; [by apply hub_ok_update_cell|]. split; [done|]. intros ch.
  apply fresh_channel_same; [done|]. simpl. intros i c'. rewrite lookup_alter.
  case_decide; [|by eauto].
  destruct (cells h !! sc_id c) as [cell|] eqn:E; simpl; [|done].
  intros [= <-] Hch. destruct (Hf cell) as [Hd|Hd]; [|congruence].
  exists (sc_id c), cell. split; [done|congruence].
Qed.

Lemma keeps_set_aborted ts h : keeps_hub h (set_aborted ts h).
Proof. intros Hok. split; [by apply hub_ok_set_aborted|done]. Qed.

Lemma mild_abort_tasks c h : mild_hub h (abort_tasks c h).
Proof.
  split; [|by apply serves_same].
  eapply keeps_hub_trans; [apply keeps_set_aborted|]. apply keeps_update_cell. auto.
Qed.

Lemma mild_register_task t c h : mild_hub h (register_task t c h).
Proof. split; [|by apply serves_same]. apply keeps_update_cell. auto. Qed.

Lemma mild_unregister_data_channel tok h : mild_hub h (unregister_data_channel tok h).
Proof.
  split; [|apply serves_unregister_dc]. unfold unregister_data_channel. case_match; [|done].
  eapply keeps_hub_trans; [|apply keeps_drop_sender]. apply keeps_update_cell. auto.
Qed.

Lemma mild_clone_sender ch h : mild_hub h (update_chan ch_clone_sender ch h).
Proof. split; [apply keeps_update_chan|apply serves_clone_sender]. Qed.

Lemma mild_close_sender ch h : mild_hub h (update_chan ch_drop_sender ch h).
Proof. split; [apply keeps_update_chan|apply serves_drop_sender]. Qed.

Lemma mild_close_receiver ch h : mild_hub h (update_chan ch_drop_receiver ch h).
Proof. split; [apply keeps_update_chan|apply serves_drop_receiver]. Qed.

(** The [Arc]s of the clients. *)
Lemma mild_update_cell f c h :
  (forall cell, data_channel (f cell) = data_channel cell \/ data_channel (f cell) = None) ->
  mild_hub h (update_cell f c h).
Proof. intros Hf. split; [by apply keeps_update_cell|by apply serves_update_cell]. Qed.

Lemma mild_hub_trans h1 h2 h3 : mild_hub h1 h2 -> mild_hub h2 h3 -> mild_hub h1 h3.
Proof. intros [H1 L1] [H2 L2]. split; [by eapply keeps_hub_trans|by etrans]. Qed.

Lemma mild_clone_clients l h : mild_hub h (clone_clients l h).
Proof.
  induction l as [|c l IH]; [by split|]. eapply mild_hub_trans; [exact IH|].
  apply mild_update_cell. auto.
Qed.

Lemma mild_drop_client c h : mild_hub h (drop_client c h).
Proof.
  split; [|apply serves_drop_client]. unfold drop_client.
  destruct (strong <$> _) as [[|[|n]]|]; try done; [|by apply keeps_update_cell; auto].
  unfold drop_object. eapply keeps_hub_trans; [|apply keeps_drop_sender].
  eapply keeps_hub_trans; [apply mild_abort_tasks|]. apply keeps_update_cell. auto.
Qed.

Lemma keeps_set_chan ch q h :
  is_Some (chans h !! ch) -> keeps_hub h (set_chans (<[ch := q]> (chans h)) h).
Proof.
  intros Hq Hok. split; [by apply hub_ok_set_chan|]. split; [done|]. intros ch'.
  apply fresh_channel_same; [|eauto]. simpl. rewrite lookup_insert. case_decide; [by eexists|done].
Qed.

Lemma keeps_set_submap sm h :
  fst <$> sm_view sm = fst <$> view h -> keeps_hub h (set_submap sm h).
Proof. intros E Hok. split; [by apply hub_ok_set_submap|done]. Qed.

Lemma mild_subscribe d t c h : mild_hub h (subscribe d t c h).2.
Proof.
  split; [|apply serves_subscribe]. unfold subscribe. destruct (prepare_topic d t); [|done].
  apply keeps_set_submap, sm_subscribe_clients.
Qed.

Lemma mild_unsubscribe d t c h : mild_hub h (unsubscribe d t c h).2.
Proof.
  split; [|apply serves_unsubscribe]. unfold unsubscribe. destruct (prepare_topic d t); [|done].
  apply keeps_set_submap, sm_unsubscribe_clients.
Qed.

Lemma mild_counters f s :
  (forall c, counters_ok c -> counters_ok (f c)) -> mild s (with_counters f s).
Proof.
  intros Hf [Hh Hc]. split; [split; [done|by apply Hf]|]. split; [done|]. split; [done|].
  by apply served_same.
Qed.

Lemma counters_ok_sub_ops c : counters_ok c -> counters_ok (Counters.count_sub_ops c).
Proof. unfold counters_ok. simpl. intros. pose proof (wrap_lt 64 (c_sub_ops c + 1)). tauto. Qed.

Lemma counters_ok_pub n c : counters_ok c -> counters_ok (Counters.count_pub_bytes n c).
Proof.
  unfold counters_ok. simpl. intros. pose proof (wrap_lt 64 (c_pub_messages c + 1)).
  pose proof (wrap_lt 64 (c_pub_bytes c + n)). tauto.
Qed.

Lemma counters_ok_sent n l c : counters_ok c -> counters_ok (Counters.count_sent_bytes n l c).
Proof.
  unfold counters_ok. simpl. intros. pose proof (wrap_lt 64 (c_sent_messages c + 1)).
  pose proof (wrap_lt 64 (c_sent_bytes c + n)). pose proof (wrap_lt 64 (c_sent_latency c + l)).
  tauto.
Qed.
Hint Resolve mild_refl mild_set_hub mild_with_hub mild_hub_refl mild_clone_sender mild_close_sender mild_close_receiver
  mild_abort_tasks mild_register_task mild_unregister_data_channel mild_counters mild_drop_client
  counters_ok_sub_ops counters_ok_pub counters_ok_sent neutral_modify_mild : neutral.

(** ** The programs of the server *)

Lemma mild_on_hub {X} (f : Hub -> X * Hub) :
  (forall h, mild_hub h (f h).2) -> neutral (on_hub f).
Proof.
  intros Hf. apply neutral_mild. intros s. destruct (f (hub s)) as [x h] eqn:E. simpl.
  apply mild_set_hub. specialize (Hf (hub s)). by rewrite E in Hf.
Qed.

Lemma mild_chan_send m ch s b s' : chan_send m ch s = Some (b, s') -> mild s s'.
Proof.
  intros Hs. pose proof (serves_send _ _ _ _ _ Hs) as Hl.
  unfold chan_send in Hs. repeat case_match; simplify_eq; [|apply mild_refl].
  apply mild_with_hub. split; [apply keeps_set_chan; by eexists|exact Hl].
Qed.

Lemma mild_chan_recv ch s m s' : chan_recv ch s = Some (m, s') -> mild s s'.
Proof.
  intros Hs. pose proof (serves_recv _ _ _ _ Hs) as Hl.
  unfold chan_recv in Hs. repeat case_match; simplify_eq; [|apply mild_refl].
  apply mild_with_hub. split; [apply keeps_set_chan; by eexists|exact Hl].
Qed.

Lemma mild_clone c h : mild_hub h (clone_data_channel c h).2.
Proof. unfold clone_data_channel. case_match; simpl; auto with neutral. Qed.

(** The identity of a new task. *)
Lemma mild_spawned t s :
  mild s (set_spawned (spawned s ++ [(next_id (hub s), t)])
            (with_hub (set_next (S (next_id (hub s)))) s)).
Proof.
  intros [Hh Hc]. split; [split; [|done]|].
  - apply hub_ok_set_next; [lia|done].
  - split; [done|]. split; [done|]. by apply serves_same.
Qed.

Lemma neutral_chan_send m ch : neutral (await (chan_send m ch)).
Proof. apply neutral_await_mild, mild_chan_send. Qed.

Lemma neutral_chan_recv ch : neutral (await (chan_recv ch)).
Proof. apply neutral_await_mild, mild_chan_recv. Qed.

Lemma neutral_clone c : neutral (on_hub (clone_data_channel c)).
Proof. apply mild_on_hub, mild_clone. Qed.

Lemma neutral_spawn t : neutral (spawn t).
Proof. apply neutral_mild, mild_spawned. Qed.
Hint Resolve neutral_chan_send neutral_chan_recv neutral_clone neutral_spawn : neutral.

Lemma neutral_close_sender ch : neutral (close_sender ch).
Proof. apply neutral_modify_mild. auto with neutral. Qed.

Lemma neutral_close_receiver ch : neutral (close_receiver ch).
Proof. apply neutral_modify_mild. auto with neutral. Qed.
Hint Resolve neutral_close_sender neutral_close_receiver : neutral.

Lemma neutral_drop_arc c : neutral (drop_arc c).
Proof. apply neutral_modify_mild. auto with neutral. Qed.
Hint Resolve neutral_drop_arc : neutral.

Lemma neutral_with_subscribers {R} topic (body : list ServerClient -> prog Server R) :
  (forall l, neutral (body l)) -> neutral (with_subscribers topic body).
Proof.
  intros Hb. unfold with_subscribers, drop_subscribers. neutral.
  - apply mild_on_hub. intros h. apply mild_clone_clients.
  - apply neutral_for_each. intros. neutral.
Qed.

Lemma neutral_push_one m c : neutral (push_one m c).
Proof. unfold push_one. neutral. Qed.

Lemma neutral_push subs p t m ts : neutral (push_to_subscribers subs p t m ts).
Proof.
  unfold push_to_subscribers. neutral. apply neutral_for_each. intros. apply neutral_push_one.
Qed.
Hint Resolve neutral_push : neutral.

Lemma mild_subscribe_topics client acl topics s :
  mild s (subscribe_topics client acl topics s).2.
Proof.
  revert s; induction topics as [|t ts IH]; intros s; [apply mild_refl|]. simpl.
  destruct (negb _); [apply mild_refl|].
  pose proof (mild_subscribe (max_depth s) t client (hub s)) as Hm.
  destruct (subscribe _ _ _ _) as [[]h]; [|by apply mild_set_hub].
  eapply mild_trans; [by apply mild_set_hub|]. eapply mild_trans; [|apply IH].
  auto with neutral.
Qed.

Lemma mild_unsubscribe_topics client topics s :
  mild s (unsubscribe_topics client topics s).2.
Proof.
  revert s; induction topics as [|t ts IH]; intros s; [apply mild_refl|]. simpl.
  pose proof (mild_unsubscribe (max_depth s) t client (hub s)) as Hm.
  destruct (unsubscribe _ _ _ _) as [[]h]; [|by apply mild_set_hub].
  eapply mild_trans; [by apply mild_set_hub|]. eapply mild_trans; [|apply IH].
  auto with neutral.
Qed.

Section programs.
Variable replication_push : option (byte -> bytes -> bytes -> N -> prog Server unit).
Variable acceptor : option (prog Server (result unit bytes)).
(** Replication and the TLS handshake do not touch the database of clients. *)
Hypothesis replication_neutral : forall push, replication_push = Some push ->
  forall p t d ts, neutral (push p t d ts).
Hypothesis acceptor_neutral : forall accept, acceptor = Some accept -> neutral accept.

Lemma neutral_deliver {R} p t d ts (answer : prog Server R) :
  neutral answer -> neutral (deliver replication_push p t d ts answer).
Proof.
  intros Ha. apply neutral_with_subscribers. intros l. destruct replication_push; neutral.
Qed.
#[local] Opaque deliver with_subscribers.

Lemma neutral_subscribe_topics client acl topics :
  neutral (atomic (subscribe_topics client acl topics)).
Proof. apply neutral_mild. intros. apply mild_subscribe_topics. Qed.

Lemma neutral_unsubscribe_topics client topics :
  neutral (atomic (unsubscribe_topics client topics)).
Proof. apply neutral_mild. intros. apply mild_unsubscribe_topics. Qed.
Hint Resolve neutral_subscribe_topics neutral_unsubscribe_topics : neutral.

Lemma neutral_control_step stream client acl timeout :
  neutral (control_step replication_push stream client acl timeout).
Proof.
  unfold control_step, op_nop, op_subscribe, op_unsubscribe, op_publish, op_publish_repl, op_bye.
  neutral; [apply neutral_deliver|apply neutral_with_subscribers; intros]; neutral.
Qed.

Lemma neutral_process_control stream client acl timeout fuel :
  neutral (process_control replication_push stream client acl timeout fuel).
Proof. apply neutral_iterate. pose proof neutral_control_step. neutral. Qed.

Lemma neutral_comm_mode allow mode : neutral (comm_mode acceptor allow mode).
Proof. unfold comm_mode. destruct acceptor; neutral. Qed.
Hint Resolve neutral_comm_mode : neutral.

Lemma neutral_init_tcp nodelay allow timeout :
  neutral (init_tcp_stream nodelay acceptor allow timeout).
Proof. unfold init_tcp_stream. neutral. Qed.

Lemma neutral_init_unix timeout : neutral (init_unix_stream timeout).
Proof. unfold init_unix_stream. neutral. Qed.

Lemma neutral_check_login ad lg pw : neutral (check_login ad lg pw).
Proof. unfold check_login. neutral. Qed.
Hint Resolve neutral_init_tcp neutral_init_unix neutral_check_login : neutral.

Lemma safe_on_hub {X} own (f : Hub -> X * Hub) (Q : X -> list resource -> Prop) :
  (forall s, server_ok s -> Forall (holds s) own -> exists own',
     guarantee own s own' (set_hub (f (hub s)).2 s) /\ Q (f (hub s)).1 own') ->
  safe own (on_hub f) Q.
Proof.
  intros H s Hs Ho. destruct (H s Hs Ho) as (own' & Hg & HQ). exists own'. simpl.
  by destruct (f (hub s)).
Qed.

Lemma guarantee_intro own s own' s' :
  server_ok s' -> served s s' -> Forall (holds s') own' ->
  (forall r, r ∉ own -> holds s r -> holds s' r /\ r ∉ own') -> guarantee own s own' s'.
Proof. intros Hs Hl Ho Hr. split; [done|]. split; [done|]. by split. Qed.

(** A new channel belongs to its maker until a client gets it. *)
Lemma guarantee_new_channel own n s :
  server_ok s -> Forall (holds s) own ->
  guarantee own s (RChannel (next_id (hub s)) :: own) (set_hub (new_channel n (hub s)).2 s).
Proof.
  intros [Hok Hc] Ho. pose proof (hub_ok_new_channel n _ Hok) as Hok'.
  pose proof (new_channel_fresh n _ Hok) as Hfresh.
  assert (forall r, holds s r -> holds (set_hub (new_channel n (hub s)).2 s) r) as Hh.
  { intros [c|ch]; [done|]. intros Hr. simpl. revert Hr.
    apply fresh_channel_same; [|simpl; eauto]. intros [q Hq]. simpl.
    rewrite lookup_insert. case_decide; [by eexists|by exists q]. }
  apply guarantee_intro; [by split| | |].
  - apply serves_new_channel. destruct (chans (hub s) !! next_id (hub s)) as [q|] eqn:E; [|done].
    assert (next_id (hub s) < next_id (hub s)); [|lia].
    apply (ok_chans_fresh _ (proj2 Hok)). by exists q.
  - constructor; [done|]. eapply Forall_impl; [exact Ho|]. apply Hh.
  - intros r Hr Hsr. split; [by apply Hh|]. rewrite not_elem_of_cons. split; [|done].
    intros ->. destruct Hsr as [Hsr _]. apply (ok_chans_fresh _ (proj2 Hok)) in Hsr. lia.
Qed.

(** Handing it over, or dropping it. *)
Lemma guarantee_register_dc own tok ch s :
  RChannel ch ∉ own -> server_ok s -> Forall (holds s) (RChannel ch :: own) ->
  guarantee (RChannel ch :: own) s own (set_hub (register_data_channel tok ch (hub s)).2 s).
Proof.
  intros Hnin [Hok Hc] [Hch Ho]%Forall_cons. simpl in Hch.
  pose proof (hub_ok_register_data_channel tok ch _ Hch Hok) as Hok'.
  assert (forall r, r <> RChannel ch -> holds s r ->
    holds (set_hub (register_data_channel tok ch (hub s)).2 s) r) as Hh.
  { intros [c|ch'] Hne; simpl.
    - unfold registered, by_token. by rewrite register_data_channel_db.
    - assert (ch' <> ch) as Hne' by congruence. unfold register_data_channel.
      destruct (_ !! tok) as [c|]; [|apply keeps_update_chan, Hok].
      destruct (client_data_channel c (hub s)); [apply keeps_update_chan, Hok|]. simpl.
      intros Hf. apply (keeps_update_chan ch_clone_sender ch _ Hok) in Hf. revert Hf.
      apply fresh_channel_same; [done|]. simpl. intros i c'.
      destruct (decide (sc_id c = i)) as [<-|Hi]; [|by rewrite !lookup_alter_ne by done; eauto].
      rewrite !lookup_alter_eq. destruct (cells (hub s) !! sc_id c); [|done].
      simpl. intros [= <-] [= <-]. done. }
  apply guarantee_intro; [by split|apply serves_register_dc| |].
  - rewrite Forall_forall in *. intros r Hr. apply Hh; [|by apply Ho]. by intros ->.
  - intros r [Hr1 Hr2]%not_elem_of_cons Hr. by split; [apply Hh|].
Qed.

Lemma neutral_launch_data_stream stream timeout : neutral (launch_data_stream stream timeout).
Proof.
  intros own. unfold launch_data_stream.
  apply safe_neutral; [auto with neutral|intros op_start].
  apply safe_neutral_q; [auto with neutral|done|intros tok]. cbv zeta.
  apply safe_neutral; [auto with neutral|intros t].
  apply safe_neutral_q; [auto with neutral|done|intros b].
  apply safe_neutral; [auto with neutral|intros size].
  apply safe_bind. unfold bounded. destruct (size =? 0)%N; [done|].
  apply safe_on_hub. intros s Hs Ho. exists (RChannel (next_id (hub s)) :: own).
  split; [by apply guarantee_new_channel|].
  assert (RChannel (next_id (hub s)) ∉ own) as Hnin.
  { intros Hin. rewrite Forall_forall in Ho. destruct (Ho _ Hin) as [Hlt _].
    apply (ok_chans_fresh _ (proj2 (sok_hub _ Hs))) in Hlt. lia. }
  cbn [new_channel fst]. set (ch := next_id (hub s)) in *. clearbody ch. clear s Hs Ho.
  apply safe_bind, safe_on_hub. intros s Hs Ho. exists own.
  split; [by apply guarantee_register_dc|].
  match goal with |- safe own ?p _ => assert (neutral p) as Hn; [|apply Hn] end. neutral.
Qed.

(** A client belongs to the session that registered it, until it unregisters it. *)
Lemma guarantee_register own lg ad s r h :
  server_ok s -> Forall (holds s) own -> register_client lg ad (hub s) = Some (r, h) ->
  guarantee own s (match r with Ok c => RClient c :: own | Err _ => own end) (set_hub h s) /\
  (forall c, r = Ok c -> RClient c ∉ own).
Proof.
  intros [Hok Hc] Ho Hr. pose proof (register_client_frame lg ad _ _ _ Hok Hr) as (Hfresh & _).
  destruct (register_client_effect lg ad _ _ _ Hok Hr) as [Hok' He].
  assert (forall r0, holds s r0 -> holds (set_hub h s) r0) as Hh.
  { intros [c|ch]; simpl; [|apply Hfresh]. unfold registered. intros Hreg. destruct r as [c'|e].
    - destruct He as (_ & _ & Hnew & -> & _). rewrite lookup_insert_ne; [done|]. congruence.
    - by destruct He as (_ & -> & _). }
  assert (Forall (holds (set_hub h s)) own) as Ho'
    by (eapply Forall_impl; [exact Ho|]; apply Hh).
  assert (forall c, r = Ok c -> forall r0, holds s r0 -> r0 <> RClient c) as Hne.
  { intros c -> r0 Hr0 ->. destruct He as (_ & _ & Hnew & _). simpl in Hr0.
    unfold registered in Hr0. congruence. }
  split.
  - pose proof (serves_register lg ad _ _ _ Hr) as Hl.
    destruct r as [c|e]; apply guarantee_intro; [by split|exact Hl| | |by split|exact Hl|by auto..].
    + constructor; [|done]. simpl. unfold registered. destruct He as (_ & _ & _ & -> & _).
      by rewrite lookup_insert_eq.
    + intros r0 Hr0 Hs0. split; [by apply Hh|]. apply not_elem_of_cons.
      split; [by eapply Hne|done].
  - intros c -> Hin. rewrite Forall_forall in Ho. by eapply Hne; [|by apply Ho|].
Qed.

Lemma fresh_unregister c ch h :
  registered c h -> hub_ok h -> fresh_channel ch h -> fresh_channel ch (unregister_client c h).
Proof.
  intros Hc Hok Hch. unfold unregister_client. case_match; [|done].
  by apply mild_drop_client; [apply hub_ok_delete_client|].
Qed.

Lemma guarantee_unregister own c s :
  RClient c ∉ own -> server_ok s -> Forall (holds s) (RClient c :: own) ->
  guarantee (RClient c :: own) s own (with_hub (unregister_client c) s).
Proof.
  intros Hnin [Hok Hc] [Hreg Ho]%Forall_cons. simpl in Hreg.
  assert (forall r, r <> RClient c -> holds s r -> holds (with_hub (unregister_client c) s) r) as Hh.
  { intros [c'|ch] Hne; simpl; [|by apply fresh_unregister]. intros Hr. apply registered_unregister. split; [done|].
    intros E. apply Hne. f_equal. by apply (registered_token (hub s)). }
  apply guarantee_intro; [by split; [apply hub_ok_unregister_client|]|apply serves_unregister| |].
  - rewrite Forall_forall in *. intros r Hr. apply Hh; [|by apply Ho]. by intros ->.
  - intros r [Hr1 Hr2]%not_elem_of_cons Hr. by split; [apply Hh|].
Qed.

Lemma safe_register own lg ad (Q : result ServerClient Error -> list resource -> Prop) :
  (forall e, Q (Err e) own) -> (forall c, RClient c ∉ own -> Q (Ok c) (RClient c :: own)) ->
  safe own (register lg ad) Q.
Proof.
  intros He Hc s Hs Ho. destruct (register_client lg ad (hub s)) as [[r h]|] eqn:E; [|done].
  destruct (guarantee_register own lg ad s r h Hs Ho E) as [Hg Hn].
  eexists. split; [exact Hg|]. destruct r; [apply Hc, Hn; done|apply He].
Qed.

(** The session begins, or does not. *)
Lemma safe_send_token {X} own stream c (x : X) (Q : result (option X) Error -> list resource -> Prop) :
  (forall e, Q (Err e) own) -> Q (Ok (Some x)) own -> safe own (send_token stream c x) Q.
Proof.
  intros He Hx. unfold send_token. apply safe_neutral; [auto with neutral|]. intros [[]|e]; [done|].
  apply safe_neutral; [auto with neutral|]. intros _. apply He.
Qed.

Lemma safe_serve own fuel stream c acl timeout Q :
  RClient c ∉ own -> (forall r, Q r own) -> (forall r, Q r (RClient c :: own)) ->
  safe (RClient c :: own) (serve replication_push fuel stream c acl timeout) Q.
Proof.
  intros Hn HQ HQ'. unfold serve. apply safe_neutral; [apply neutral_process_control|].
  intros [r|]; [|apply HQ']. apply safe_bind. intros s Hs Ho. exists own.
  split; [by apply guarantee_unregister|]. apply safe_neutral; [auto with neutral|].
  intros []. apply safe_neutral; [auto with neutral|]. intros []. apply HQ.
Qed.

(** *** Connections and tasks *)

Lemma handle_tcp_ends nodelay allow fuel ad timeout :
  ends_safely (handle_tcp_stream replication_push nodelay acceptor allow fuel ad timeout).
Proof.
  unfold ends_safely, handle_tcp_stream, start_tcp. apply safe_bind.
  apply safe_neutral_q; [auto with neutral|done|intros [stream st]].
  case_decide.
  - apply safe_neutral_q; [apply neutral_launch_data_stream|done|done].
  - apply safe_neutral_q; [apply neutral_frame|done|intros frame].
    apply safe_neutral_q; [auto with neutral|done|intros lp].
    apply safe_neutral_q; [auto with neutral|done|intros acl].
    apply safe_bind, safe_register; [done|intros c Hc].
    apply safe_send_token; [done|]. by apply safe_serve.
Qed.

Lemma handle_unix_ends fuel path timeout :
  ends_safely (handle_unix_stream replication_push fuel path timeout).
Proof.
  unfold ends_safely, handle_unix_stream, start_unix. apply safe_bind.
  apply safe_neutral_q; [auto with neutral|done|intros [stream st]].
  case_decide.
  - apply safe_neutral_q; [apply neutral_launch_data_stream|done|done].
  - apply safe_neutral_q; [apply neutral_frame|done|intros frame].
    apply safe_neutral_q; [auto with neutral|done|intros lg].
    apply safe_bind, safe_register; [done|intros c Hc].
    apply safe_send_token; [done|]. by apply safe_serve.
Qed.

Lemma neutral_udp_block lg pw block ts :
  neutral (process_udp_block replication_push lg pw block ts).
Proof. unfold process_udp_block, udp_authenticate. neutral. apply neutral_deliver, neutral_ret. Qed.
Hint Resolve neutral_udp_block : neutral.

Lemma neutral_udp_listener size ds : neutral (handle_udp_listener replication_push size ds).
Proof.
  induction ds as [|d ds IH]; [apply neutral_ret|]. cbn [handle_udp_listener].
  unfold handle_datagram, process_udp_packet. neutral.
Qed.

Lemma neutral_send_message stream timeout m : neutral (send_message stream timeout m).
Proof. unfold send_message. neutral. Qed.
Hint Resolve neutral_send_message : neutral.

Lemma neutral_data_stream fuel stream rx timeout interval last :
  neutral (handle_data_stream fuel stream rx timeout interval last).
Proof.
  revert last; induction fuel as [|fuel IH]; intros last; [apply neutral_ret|].
  cbn [handle_data_stream]. neutral; apply IH.
Qed.
Hint Resolve neutral_data_stream : neutral.

Lemma task_ends fuel t : ends_safely (task_code fuel t).
Proof.
  apply neutral_ends. destruct t; apply neutral_forget.
  - unfold pinger. neutral. apply neutral_iterate. neutral.
  - unfold data_task. neutral.
Qed.

Lemma entry_ends p : entry replication_push acceptor p -> ends_safely p.
Proof.
  destruct 1; [apply forget_ends, handle_tcp_ends|apply forget_ends, handle_unix_ends| |].
  - apply forget_ends, neutral_ends, neutral_udp_listener.
  - apply neutral_ends. by apply (neutral_untouched _ _ _).
Qed.

(** ** The invariant of the system *)

(** The programs of the machine own what they own apart from each other. *)
Definition machine_ok (c : Machine) (owns : list (list resource)) : Prop :=
  pool_ok server_ok holds served (map code (threads c)) (server c) owns.

Lemma mild_same s s' : hub s' = hub s -> counters s' = counters s -> mild s s'.
Proof.
  intros Hh Hc [Hok Hn]. split; [split; [by rewrite Hh|by rewrite Hc]|].
  split; [by rewrite Hh|]. split; [by rewrite Hh|by apply served_same].
Qed.

Lemma mild_drop_task t s : mild s (drop_task t s).
Proof. destruct t; apply mild_with_hub; [apply mild_close_sender|apply mild_close_receiver]. Qed.

Lemma machine_ok_mild ts st st' s s' owns :
  machine_ok (mkMachine ts st s) owns -> mild s s' -> machine_ok (mkMachine ts st' s') owns.
Proof. intros Hc Hm. eapply pool_ok_gentle; [exact Hc|by apply mild_gentle]. Qed.

Lemma machine_ok_spawn ts st st' s owns t :
  machine_ok (mkMachine ts st s) owns -> ends_safely (code t) ->
  machine_ok (mkMachine (ts ++ [t]) st' s) (owns ++ [[]]).
Proof. intros Hc Ht. unfold machine_ok. simpl. rewrite map_app. by apply pool_ok_spawn. Qed.

Lemma machine_ok_stop ts st s owns i h h' p :
  machine_ok (mkMachine ts st s) owns -> ts !! i = Some (mkThread h p) ->
  machine_ok (mkMachine (<[i := mkThread h' (Ret tt)]> ts) st s) owns.
Proof.
  intros Hc Hi. unfold machine_ok. simpl. rewrite list_fmap_insert.
  eapply pool_ok_stop; [exact Hc|]. simpl. by rewrite list_lookup_fmap, Hi.
Qed.

Lemma machine_ok_step c c' owns :
  step replication_push acceptor c c' -> machine_ok c owns ->
  served (server c) (server c') /\ exists owns', machine_ok c' owns'.
Proof.
  intros Hstep Hc.
  assert (forall ts st st' s s', machine_ok (mkMachine ts st s) owns -> mild s s' ->
    served s s' /\ exists owns', machine_ok (mkMachine ts st' s') owns') as Henv.
  { intros ts st st' s s' Hts Hm. split; [by apply (Hm (pok_state _ _ _ _ _ _ Hts))|].
    exists owns. by eapply machine_ok_mild. }
  destruct Hstep as
    [i h p p' s s' ts st Hi Hp|p s ts st Hp|id t fuel s ts st _ _|i id t p s ts st Hi _ _ _
    |id t s ts st _ _ _|t s ts st|db s ts st|db s ts st|db s ts st].
  - destruct (pool_ok_step _ _ _ _ _ _ i p p' s' Hc) as (Hl & owns' & Hc'); [|done|].
    { simpl. by rewrite list_lookup_fmap, Hi. }
    split; [exact Hl|]. exists owns'. unfold machine_ok. simpl. by rewrite list_fmap_insert.
  - split; [by apply served_same|]. eexists. eapply machine_ok_spawn; [exact Hc|by apply entry_ends].
  - split; [by apply served_same|]. eexists. eapply machine_ok_spawn; [exact Hc|apply task_ends].
  - eapply Henv; [by eapply machine_ok_stop|apply mild_drop_task].
  - eapply Henv; [exact Hc|apply mild_drop_task].
  - eapply Henv; [exact Hc|by apply mild_same].
  - eapply Henv; [exact Hc|by apply mild_same].
  - eapply Henv; [exact Hc|by apply mild_same].
  - eapply Henv; [exact Hc|by apply mild_same].
Qed.

Lemma reaches_machine_ok answers c :
  reaches replication_push acceptor answers c -> exists owns, machine_ok c owns.
Proof.
  induction 1 as [c (Ht & Hh & Hc & _)|c c' _ [owns Hok] Hstep];
    [|by apply (machine_ok_step _ _ owns Hstep)].
  exists []. unfold machine_ok. rewrite Ht. apply pool_ok_empty.
  split; [rewrite Hh; apply hub_ok_empty|rewrite Hc; by repeat split].
Qed.

End programs.

(** C2: whatever the tasks of the server do, in any order, with any outcome of their reads and
    writes, with tasks aborted in the middle, the clock changing and the configuration reloaded:
    the indexes and the store of the client database stay consistent and the counters stay in
    64 bits. Replication and the TLS handshake, which are not code of the server, may do anything
    that leaves the client database alone. *)
Theorem system_invariant replication_push acceptor answers c :
  (forall push, replication_push = Some push -> forall p t d ts, neutral (push p t d ts)) ->
  (forall accept, acceptor = Some accept -> neutral accept) ->
  reaches replication_push acceptor answers c -> server_ok (server c).
Proof.
  intros Hr Ha Hc. by destruct (reaches_machine_ok _ _ Hr Ha answers c Hc) as [owns []].
Qed.

(** However connections, datagrams and tasks interleave, every stretch of an execution is a sequence of
    steps of the broker of Broker.v, which says what may happen to members and mailboxes and leaves
    open when: that is the subject of Board.v. What a mailbox holds later is what it held followed
    by what came, without what was taken from the front: nothing is lost in the middle or
    overtaken. *)
Theorem server_refines_broker replication_push acceptor answers c c' :
  (forall push, replication_push = Some push -> forall p t d ts, neutral (push p t d ts)) ->
  (forall accept, acceptor = Some accept -> neutral accept) ->
  reaches replication_push acceptor answers c -> rtc (step replication_push acceptor) c c' ->
  bsteps (broker_of (hub (server c))) (broker_of (hub (server c'))) /\
  forall ch q, boxes (broker_of (hub (server c))) !! ch = Some q ->
    exists q' taken added, boxes (broker_of (hub (server c'))) !! ch = Some q' /\
      q ++ added = taken ++ q'.
Proof.
  intros Hr Ha Hc Hs. destruct (reaches_machine_ok _ _ Hr Ha answers c Hc) as [owns Hok].
  assert (served (server c) (server c')) as Hl.
  { clear Hc answers. revert owns Hok; induction Hs as [c|c c1 c' Hstep _ IH]; intros owns Hok; [done|].
    destruct (machine_ok_step _ _ Hr Ha c c1 owns Hstep Hok) as (Hl & owns1 & Hok1).
    etrans; [exact Hl|by eapply IH]. }
  split; [exact Hl|]. intros ch q Hq. by eapply box_goes_on_steps.
Qed.
End system.

(** ** A concrete run *)

#[local] Existing Instance demo_bcrypt.

(** Replication that takes a second, and an acceptor that accepts every handshake. *)
Definition slow_replication (priority : byte) (topic message : bytes) (timestamp : N) :
    prog Server unit := sleep 1.

Definition any_tls : prog Server (result unit bytes) := Ret (Ok tt).

Definition first_server : Server :=
  mkServer (empty_hub []) Counters.default (mkDb {[ bs "_" := Acl.new_full ]} [])
    Passwords.default Keys.default (mkLimits 0 8 64) true 1024 1024 (1%Z, 2%Z) [].

Definition first_handler : prog Server unit :=
  forget (handle_unix_stream (Some slow_replication) 10 (bs "/run/psrtd.sock") 5).

Lemma system_invariant_witness :
  exists c, reaches (Some slow_replication) (Some any_tls) [] c /\ length (threads c) = 1 /\ server_ok (server c).
Proof.
  exists (mkMachine [mkThread None first_handler] ∅ first_server).
  assert (reaches (Some slow_replication) (Some any_tls) []
            (mkMachine [mkThread None first_handler] ∅ first_server)) as H.
  { apply (reaches_step _ _ _ (mkMachine [] ∅ first_server)); [by apply reaches_initial|].
    apply (step_accept _ _ first_handler first_server []), entry_unix. }
  split; [exact H|]. split; [reflexivity|].
  eapply system_invariant; [| |exact H].
  - intros push [= <-] p t d ts. apply neutral_sleep.
  - intros accept [= <-]. apply neutral_ret.
Defined.
