(* ===== verification/Receivers.v ===== *)
(** * Who holds the receiving ends

    What the programs of the server wait for, and who holds the receiver of a channel: a connection
    that launches a data stream, then its task. [effects] (Interleave.v) walks over the programs that
    are not about receivers; [tends] follows the receiver through the others. *)

From S2P Require Import Prelude Utf8 Proto Io Commands Acl Topic Token Pubsub Reference PubsubSpec.
From S2P Require Import Passwords Keys Server ServerSpec Control ControlSpec Session SessionSpec Udp.
From S2P Require Import Interleave System.

Section receivers.
Context {SMO : SubMapOps} {SML : SubMapLaws} {CHO : ChannelOps} {CHL : ChannelLaws}
  {SHO : Sha256Ops} {BCO : BcryptOps} {AEO : AeadOps}.

(** ** Receivers *)

(** The capacity and the receivers of the channels. *)
Definition ends (h : Hub) : gmap nat (N * nat) :=
  (fun q => (ch_cap (ch_view q), ch_receivers (ch_view q))) <$> chans h.

(** A channel that somebody receives from. *)
Definition live (ch : nat) (s : Server) : Prop :=
  exists cap n, ends (hub s) !! ch = Some (cap, S n).

(** No channel holds more than it may. *)
Definition roomy (h : Hub) : Prop :=
  forall ch q, chans h !! ch = Some q -> (len (ch_queue (ch_view q)) <= ch_cap (ch_view q))%N.

(** The limits of the server, which do not change while it runs. *)
Variable L : Limits.

(** Channels have room, unless none is configured, and at most one receiver; identities are used
    once. *)
Record sane (s : Server) : Prop := {
  sn_limits : limits s = L;
  sn_ends ch cap n :
    ends (hub s) !! ch = Some (cap, n) ->
    ((0 < get_data_queue_size L)%N -> (0 < cap)%N) /\ n <= 1 /\ ch < next_id (hub s);
  sn_spawned id t : (id, t) ∈ spawned s -> id < next_id (hub s);
  sn_nodup : NoDup (spawned s).*1;
  sn_roomy : roomy (hub s);
}.

(** Critical sections that concern no receiver. *)
Record bland (s s' : Server) : Prop := {
  bl_limits : limits s' = limits s;
  bl_spawned : spawned s' = spawned s;
  bl_next : next_id (hub s) <= next_id (hub s');
  bl_ends : ends (hub s') = ends (hub s);
  bl_roomy : roomy (hub s) -> roomy (hub s');
}.

#[export] Instance bland_preorder : PreOrder bland.
Proof.
  split; [by split|]. intros s1 s2 s3 [A1 A2 A3 A4 A5] [B1 B2 B3 B4 B5].
  split; [congruence..|lia|congruence|auto].
Qed.

Lemma bland_sane s s' : bland s s' -> sane s -> sane s'.
Proof.
  intros [H1 H2 H3 H4 H5] [S1 S2 S3 S4 S5]. split; [congruence| | |by rewrite H2|auto].
  - intros ch cap n. rewrite H4. intros Hc. destruct (S2 _ _ _ Hc) as (? & ? & ?).
    split_and!; [done..|lia].
  - intros id t. rewrite H2. intros Hid%S3. lia.
Qed.

Lemma bland_live s s' ch : bland s s' -> live ch s' -> live ch s.
Proof. intros [_ _ _ H _]. unfold live. by rewrite H. Qed.

(** On the hub. *)
Definition bland_hub (h h' : Hub) : Prop :=
  next_id h <= next_id h' /\ ends h' = ends h /\ (roomy h -> roomy h').

Lemma bland_set_hub h' s : bland_hub (hub s) h' -> bland s (set_hub h' s).
Proof. intros (H1 & H2 & H3). by split. Qed.

Lemma bland_hub_trans h1 h2 h3 : bland_hub h1 h2 -> bland_hub h2 h3 -> bland_hub h1 h3.
Proof.
  intros (A1 & A2 & A3) (B1 & B2 & B3). split; [lia|]. split; [congruence|auto].
Qed.

Lemma bland_hub_refl h : bland_hub h h.
Proof. by split. Qed.

(** The channels do not change. *)
Lemma bland_chans h h' : next_id h <= next_id h' -> chans h' = chans h -> bland_hub h h'.
Proof. intros Hn Hc. split; [done|]. unfold ends, roomy. by rewrite Hc. Qed.

(** A channel is replaced by one with the same ends. *)
Lemma ends_insert ch q q' h :
  chans h !! ch = Some q -> ch_cap (ch_view q') = ch_cap (ch_view q) ->
  ch_receivers (ch_view q') = ch_receivers (ch_view q) ->
  ((len (ch_queue (ch_view q)) <= ch_cap (ch_view q))%N ->
   (len (ch_queue (ch_view q')) <= ch_cap (ch_view q))%N) ->
  bland_hub h (set_chans (<[ch := q']> (chans h)) h).
Proof.
  intros Hq H1 H2 H3. split; [done|]. split.
  - unfold ends. simpl. rewrite fmap_insert, H1, H2. apply insert_id. by rewrite lookup_fmap, Hq.
  - intros Hr ch' q1. simpl. rewrite lookup_insert. case_decide; [|apply Hr].
    intros [= <-]. rewrite H1. by eapply H3, Hr.
Qed.

Lemma roomy_update f ch h :
  (forall q, ch_cap (ch_view (f q)) = ch_cap (ch_view q) /\
             ch_queue (ch_view (f q)) = ch_queue (ch_view q)) ->
  roomy h -> roomy (update_chan f ch h).
Proof.
  intros Hf Hr ch' q. rewrite update_chan_lookup. case_decide; [|apply Hr]. subst.
  intros (q0 & Hq & ->)%fmap_Some. destruct (Hf q0) as [-> ->]. by eapply Hr.
Qed.

Lemma ends_update f ch h :
  (forall q, ch_cap (ch_view (f q)) = ch_cap (ch_view q) /\
             ch_receivers (ch_view (f q)) = ch_receivers (ch_view q) /\
             ch_queue (ch_view (f q)) = ch_queue (ch_view q)) ->
  bland_hub h (update_chan f ch h).
Proof.
  intros Hf. split; [done|]. split.
  - unfold ends. simpl. apply map_eq. intros i.
    rewrite !lookup_fmap, lookup_alter. case_decide; [|done]. subst.
    destruct (chans h !! i) as [q|]; [|done]. simpl. by destruct (Hf q) as (-> & -> & _).
  - by apply roomy_update; intros q; destruct (Hf q) as (? & _ & ?).
Qed.

Lemma bland_clone_sender ch h : bland_hub h (update_chan ch_clone_sender ch h).
Proof. apply ends_update. intros q. by rewrite ch_clone_sender_view. Qed.

Lemma bland_drop_sender ch h : bland_hub h (update_chan ch_drop_sender ch h).
Proof. apply ends_update. intros q. by rewrite ch_drop_sender_view. Qed.

Lemma bland_drop ch h : bland_hub h (drop_sender ch h).
Proof. destruct ch; [apply bland_drop_sender|apply bland_hub_refl]. Qed.

Lemma bland_unregister_dc tok h : bland_hub h (unregister_data_channel tok h).
Proof.
  unfold unregister_data_channel. case_match; [|apply bland_hub_refl].
  eapply bland_hub_trans; [|apply bland_drop]. by apply bland_chans.
Qed.

Lemma bland_register_dc tok ch h : bland_hub h (register_data_channel tok ch h).2.
Proof.
  unfold register_data_channel. repeat case_match; try apply bland_drop. simpl.
  eapply bland_hub_trans; [apply (bland_clone_sender ch)|]. by apply bland_chans.
Qed.

Lemma bland_drop_client c h : bland_hub h (drop_client c h).
Proof.
  unfold drop_client. destruct (strong <$> _) as [[|[|n]]|]; try by apply bland_chans.
  unfold drop_object. eapply bland_hub_trans; [|apply bland_drop]. by apply bland_chans.
Qed.

Lemma bland_clone_clients l h : bland_hub h (clone_clients l h).
Proof.
  induction l as [|c l IH]; [apply bland_hub_refl|].
  eapply bland_hub_trans; [exact IH|by apply bland_chans].
Qed.

Lemma bland_unregister_client c h : bland_hub h (unregister_client c h).
Proof.
  unfold unregister_client. case_match; [|by apply bland_chans].
  eapply bland_hub_trans; [|apply bland_drop_client]. by apply bland_chans.
Qed.

Lemma bland_clone c h : bland_hub h (clone_data_channel c h).2.
Proof.
  unfold clone_data_channel. case_match; [apply bland_clone_sender|apply bland_hub_refl].
Qed.

Lemma bland_register_loop answers lg ad h r h' :
  register_client_loop answers lg ad h = Some (r, h') -> bland_hub h h'.
Proof.
  revert h; induction answers as [|a answers IH]; intros h; [done|]. simpl.
  destruct (Token.create a); [|intros [= <- <-]; by apply bland_chans].
  destruct (sm_register _ _) as [[] sm]; [intros [= <- <-]; apply bland_chans; [simpl; lia|done]|].
  intros H. eapply bland_hub_trans; [|by eapply IH]. apply bland_chans; [simpl; lia|done].
Qed.

(** ** Waiting *)

(** A mailbox that takes no message: it is full, and somebody may still read it. *)
Definition stuffed (ch : nat) (s : Server) : Prop :=
  exists q, chans (hub s) !! ch = Some q /\ view_open (ch_view q) = true /\ view_full (ch_view q) = true.

(** What a critical section that is not about receivers waits for: a place in one mailbox, or the
    source of random bytes. *)
Definition waits {X} (f : Server -> option (X * Server)) (s : Server) : Prop :=
  (exists ch, stuffed ch s /\ forall s', ~ stuffed ch s' -> is_Some (f s')) \/
  exists lg ad, register_client lg ad (hub s) = None /\
    forall s', register_client lg ad (hub s') <> None -> is_Some (f s').

Definition polite X (f : Server -> option (X * Server)) : Prop :=
  forall s, sane s -> match f s with Some (_, s') => bland s s' | None => waits f s end.

Lemma chan_send_room m ch s : is_Some (chan_send m ch s) \/ stuffed ch s.
Proof.
  unfold chan_send, stuffed. destruct (chans (hub s) !! ch) as [q|] eqn:Eq; [|left; by eexists].
  destruct (view_open (ch_view q)) eqn:Eo.
  - destruct (view_full (ch_view q)) eqn:Ef; [right; by eexists|].
    destruct (ch_send_room m q Eo Ef) as (q' & -> & _). left. by eexists.
  - destruct (ch_send_closed m q Eo) as (q' & -> & _). left. by eexists.
Qed.

Lemma chan_send_bland m ch s b s' : chan_send m ch s = Some (b, s') -> bland s s'.
Proof.
  unfold chan_send. destruct (chans (hub s) !! ch) as [q|] eqn:Eq; [|by intros [= <- <-]].
  destruct (ch_send m q) as [[b1 q']|] eqn:Es; [|done]. intros [= <- <-].
  apply bland_set_hub. apply (ends_insert _ q); [done|..];
    (destruct (view_open (ch_view q)) eqn:Eo;
       [destruct (view_full (ch_view q)) eqn:Ef;
          [by rewrite (ch_send_full m q Eo Ef) in Es|
           destruct (ch_send_room m q Eo Ef) as (q1 & E1 & E2)]|
        destruct (ch_send_closed m q Eo) as (q1 & E1 & E2)]);
    rewrite E1 in Es; injection Es as <- <-; rewrite E2; try done.
  intros _. simpl. apply N.leb_gt in Ef. rewrite len_app. unfold len in *. simpl. lia.
Qed.

Lemma polite_send m ch : polite bool (chan_send m ch).
Proof.
  intros s _. destruct (chan_send m ch s) as [[b s']|] eqn:E; [by eapply chan_send_bland|].
  left. exists ch. split; [destruct (chan_send_room m ch s) as [[]|]; [congruence|done]|].
  intros s' Hn. by destruct (chan_send_room m ch s').
Qed.

Lemma polite_total {X} (f : Server -> X * Server) :
  (forall s, bland s (f s).2) -> polite X (fun s => Some (f s)).
Proof. intros H s _. specialize (H s). by destruct (f s). Qed.

Lemma polite_modify (f : Server -> Server) : (forall s, bland s (f s)) -> effects polite (modify f).
Proof. intros H. apply effects_modify. intros s _. apply H. Qed.

Lemma polite_asks {X} (f : Server -> X) : effects polite (asks f).
Proof. apply effects_asks. intros s _. reflexivity. Qed.

Lemma polite_on_hub {X} (f : Hub -> X * Hub) :
  (forall h, bland_hub h (f h).2) -> effects polite (on_hub f).
Proof.
  intros H. apply effects_atomic. intros s _. specialize (H (hub s)). destruct (f (hub s)) as [x h].
  by apply bland_set_hub.
Qed.

Lemma polite_with_hub f : (forall h, bland_hub h (f h)) -> effects polite (modify (with_hub f)).
Proof. intros H. apply polite_modify. intros s. apply bland_set_hub, H. Qed.

Lemma polite_counters f : effects polite (modify (with_counters f)).
Proof. by apply polite_modify. Qed.
#[local] Hint Resolve polite_asks polite_counters bland_hub_refl bland_clone_sender
  bland_drop_sender bland_unregister_dc bland_clone : effects.

Lemma polite_abort c : effects polite (modify (with_hub (abort_tasks c))).
Proof. apply polite_with_hub. intros h. by apply bland_chans. Qed.

Lemma polite_unregister c : effects polite (modify (with_hub (unregister_client c))).
Proof. apply polite_with_hub. intros h. apply bland_unregister_client. Qed.

Lemma polite_drop_arc c : effects polite (drop_arc c).
Proof. apply polite_with_hub. intros h. apply bland_drop_client. Qed.

Lemma polite_unregister_dc tok : effects polite (modify (with_hub (unregister_data_channel tok))).
Proof. apply polite_with_hub. auto with effects. Qed.

Lemma polite_close_sender ch : effects polite (modify (with_hub (update_chan ch_drop_sender ch))).
Proof. apply polite_with_hub. auto with effects. Qed.

Lemma polite_clone c : effects polite (on_hub (clone_data_channel c)).
Proof. apply polite_on_hub. auto with effects. Qed.

Lemma polite_await_send m ch : effects polite (await (chan_send m ch)).
Proof. apply effects_await, polite_send. Qed.

Lemma polite_register lg ad : effects polite (register lg ad).
Proof.
  apply effects_await. intros s _. destruct (register_client lg ad (hub s)) as [[r h]|] eqn:E.
  - by eapply bland_set_hub, bland_register_loop.
  - right. exists lg, ad. split; [done|]. intros s' H.
    destruct (register_client lg ad (hub s')) as [[r h]|]; [by eexists|done].
Qed.
#[local] Hint Resolve polite_drop_arc polite_abort polite_unregister polite_unregister_dc polite_close_sender
  polite_clone polite_await_send polite_register : effects.

(** ** The programs of the server *)

Lemma polite_push subs p t m ts : effects polite (push_to_subscribers subs p t m ts).
Proof.
  unfold push_to_subscribers. effects. apply effects_for_each. intros c. unfold push_one. effects.
Qed.
#[local] Hint Resolve polite_push : effects.

Lemma polite_with_subscribers {R} topic (body : list ServerClient -> prog Server R) :
  (forall l, effects polite (body l)) -> effects polite (with_subscribers topic body).
Proof.
  intros Hb. unfold with_subscribers, drop_subscribers. effects.
  - apply polite_on_hub. intros h. apply bland_clone_clients.
  - apply effects_for_each. intros c. effects.
Qed.

Lemma polite_deliver {R} p t d ts (answer : prog Server R) :
  effects polite answer -> effects polite (deliver None p t d ts answer).
Proof. intros Ha. apply polite_with_subscribers. intros l. effects. Qed.

Lemma bland_subscribe d t c h : bland_hub h (subscribe d t c h).2.
Proof. unfold subscribe. destruct (prepare_topic d t); by apply bland_chans. Qed.

Lemma bland_unsubscribe d t c h : bland_hub h (unsubscribe d t c h).2.
Proof. unfold unsubscribe. destruct (prepare_topic d t); by apply bland_chans. Qed.

Lemma bland_subscribe_topics client acl topics s : bland s (subscribe_topics client acl topics s).2.
Proof.
  revert s; induction topics as [|t ts IH]; intros s; [reflexivity|]. simpl.
  destruct (negb _); [reflexivity|].
  pose proof (bland_subscribe (max_depth s) t client (hub s)) as Hm.
  destruct (subscribe _ _ _ _) as [[]h]; [|by apply bland_set_hub].
  etransitivity; [by apply bland_set_hub|]. etransitivity; [|apply IH]. by split.
Qed.

Lemma bland_unsubscribe_topics client topics s : bland s (unsubscribe_topics client topics s).2.
Proof.
  revert s; induction topics as [|t ts IH]; intros s; [reflexivity|]. simpl.
  pose proof (bland_unsubscribe (max_depth s) t client (hub s)) as Hm.
  destruct (unsubscribe _ _ _ _) as [[]h]; [|by apply bland_set_hub].
  etransitivity; [by apply bland_set_hub|]. etransitivity; [|apply IH]. by split.
Qed.

Lemma polite_subscribe_topics client acl topics :
  effects polite (atomic (subscribe_topics client acl topics)).
Proof. apply effects_atomic, polite_total. intros. apply bland_subscribe_topics. Qed.

Lemma polite_unsubscribe_topics client topics :
  effects polite (atomic (unsubscribe_topics client topics)).
Proof. apply effects_atomic, polite_total. intros. apply bland_unsubscribe_topics. Qed.

Lemma polite_respond stream b : effects polite (respond_status stream b).
Proof. apply effects_write. Qed.
#[local] Opaque deliver with_subscribers.
#[local] Hint Resolve polite_subscribe_topics polite_unsubscribe_topics polite_respond : effects.

Lemma polite_process_control stream client acl timeout fuel :
  effects polite (process_control None stream client acl timeout fuel).
Proof.
  apply effects_iterate.
  unfold control_step, op_nop, op_subscribe, op_unsubscribe, op_publish, op_publish_repl, op_bye.
  effects. apply polite_deliver. effects.
Qed.
#[local] Hint Resolve polite_process_control : effects.

Lemma polite_serve fuel stream c acl timeout :
  effects polite (serve None fuel stream c acl timeout).
Proof. unfold serve. effects. Qed.

Lemma polite_udp_listener size ds : effects polite (handle_udp_listener None size ds).
Proof.
  induction ds as [|d ds IH]; [done|]. cbn [handle_udp_listener].
  unfold handle_datagram, process_udp_packet, process_udp_block, udp_authenticate. effects;
    by apply polite_deliver.
Qed.

Lemma polite_pinger fuel ch interval : effects polite (pinger fuel ch interval).
Proof. unfold pinger, close_sender. effects. apply effects_iterate. effects. Qed.

(** ** Who holds the receivers *)

(** A task that will receive from the channel when it starts. *)
Definition data_task_of (ch : nat) (t : Task) : Prop :=
  exists tok timeout interval un ad, t = DataTask tok ch timeout interval un ad.

(** A critical section, for a program that holds the receivers of [own] before and of [own'] after
    it: no receiver is lost, and only programs that may acquire one ([acq]) do. *)
Record moves (acq : Prop) (own : list nat) (s : Server) (own' : list nat) (s' : Server) : Prop := {
  mv_sane : sane s';
  mv_spawned x : x ∈ spawned s -> x ∈ spawned s';
  mv_cover ch : live ch s' ->
    ch ∈ own' \/
    (exists id t, (id, t) ∈ spawned s' /\ data_task_of ch t /\ id ∉ (spawned s).*1) \/
    (live ch s /\ ch ∉ own);
  mv_own : acq \/ forall ch, ch ∈ own' -> ch ∈ own;
}.

Lemma moves_bland acq own s s' : sane s -> bland s s' -> moves acq own s own s'.
Proof.
  intros Hs Hb. split; [by eapply bland_sane|by rewrite (bl_spawned _ _ Hb)| |by right].
  intros ch Hl. destruct (decide (ch ∈ own)); [by left|]. right; right. split; [|done].
  by eapply bland_live.
Qed.

Lemma moves_refl acq own s : sane s -> moves acq own s own s.
Proof. intros Hs. by apply moves_bland. Qed.

(** A program with receivers only waits for messages, only for those of its own channel, and only
    when it is a task: one that may acquire receivers does not wait while it holds one. *)
Definition waits_in {X} (acq : Prop) (own : list nat) (f : Server -> option (X * Server))
    (s : Server) : Prop :=
  match own with
  | [] => waits f s
  | _ => ~ acq /\
      exists ch q, own = [ch] /\ chans (hub s) !! ch = Some q /\ ch_queue (ch_view q) = []
  end.

(** A program in a loop of at least [n] more rounds, each of which takes a message from the receivers
    that it has: with receivers it does not end before. A message that it takes makes room. *)
Fixpoint tends {A} (acq : Prop) (own : list nat) (n : nat) (p : prog Server A)
    (Q : A -> list nat -> nat -> Prop) : Prop :=
  match p with
  | Ret a => Q a own n
  | Now k => forall m, tends acq own n (k m) Q
  | ReadExact _ t k => forall r, tends acq own n (k r) Q
  | WriteAll b t k => forall r, tends acq own n (k r) Q
  | Sleep t k => tends acq own n k Q
  | Atomic f k => forall s, sane s ->
      exists own', moves acq own s own' (f s).2 /\ tends acq own' n (k (f s).1) Q
  | Await f k => forall s, sane s ->
      match f s with
      | Some (x, s') => exists own', moves acq own s own' s' /\
          (forall ch, ch ∈ own -> ~ stuffed ch s') /\
          tends acq own' (match own with [] => n | _ => pred n end) (k x) Q
      | None => waits_in acq own f s
      end
  | Crash => own = []
  end.

(** The receivers are gone. *)
Definition returned {A} : A -> list nat -> nat -> Prop := fun _ o _ => o = [].

(** Or the rounds of the loop are. *)
Definition spent {A} : A -> list nat -> nat -> Prop := fun _ o n => o = [] \/ n = 0.

Lemma tends_mono {A} acq own n (p : prog Server A) (Q Q' : A -> list nat -> nat -> Prop) :
  (forall a o m, Q a o m -> Q' a o m) -> tends acq own n p Q -> tends acq own n p Q'.
Proof.
  intros HQ. revert own n; induction p as [a|k IH|l t k IH|b t k IH|t k IH|X f k IH|X f k IH|];
    intros own n; simpl; auto.
  - intros H s Hs. destruct (H s Hs) as (o & Hm & Hk). eauto.
  - intros H s Hs. specialize (H s Hs). destruct (f s) as [[x s']|]; [|done].
    destruct H as (o & Hm & Hr & Hk). eauto.
Qed.

Lemma tends_bind {A B} acq own n (m : prog Server A) (f : A -> prog Server B) Q :
  tends acq own n m (fun a o n => tends acq o n (f a) Q) -> tends acq own n (pbind f m) Q.
Proof.
  revert own n; induction m as [a|k IH|l t k IH|b t k IH|t k IH|X g k IH|X g k IH|]; intros own n;
    simpl; auto.
  - intros H s Hs. destruct (H s Hs) as (o & Hm & Hk). eauto.
  - intros H s Hs. specialize (H s Hs). destruct (g s) as [[x s']|]; [|done].
    destruct H as (o & Hm & Hr & Hk). eauto.
Qed.

Lemma moves_acq (acq acq' : Prop) own s own' s' :
  (acq -> acq') -> moves acq own s own' s' -> moves acq' own s own' s'.
Proof. intros Ha [H1 H2 H3 [H4|H4]]; split; auto. Qed.

Lemma tends_acq {A} (acq acq' : Prop) own n (p : prog Server A) Q :
  acq <-> acq' -> tends acq own n p Q -> tends acq' own n p Q.
Proof.
  intros Ha. revert own n; induction p as [a|k IH|l t k IH|b t k IH|t k IH|X f k IH|X f k IH|];
    intros own n; simpl; auto.
  - intros H s Hs. destruct (H s Hs) as (o & Hm & Hk). exists o.
    split; [by eapply moves_acq; [apply Ha|]|auto].
  - intros H s Hs. specialize (H s Hs). destruct (f s) as [[x s']|].
    + destruct H as (o & Hm & Hr & Hk). exists o.
      split; [by eapply moves_acq; [apply Ha|]|auto].
    + destruct own; [done|]. destruct H as [Hn H]. split; [by rewrite <- Ha|done].
Qed.

(** Programs that concern no receiver, for somebody who holds none. *)
Lemma tends_polite {A} acq n (p : prog Server A) : effects polite p -> tends acq [] n p returned.
Proof.
  induction p as [a|k IH|l t k IH|b t k IH|t k IH|X f k IH|X f k IH|]; simpl; auto; try done;
    intros [Hf Hk] s Hs; specialize (Hf s Hs); simpl in Hf.
  - exists []. split; [|apply IH, Hk]. destruct (f s). by apply moves_bland.
  - destruct (f s) as [[x s']|] eqn:E; [|done]. exists []. split; [by apply moves_bland|].
    split; [by intros ch ?%elem_of_nil|eauto].
Qed.

(** Those that do not wait, for anybody. *)
Definition prompt X (f : Server -> option (X * Server)) : Prop :=
  forall s, exists x s', f s = Some (x, s') /\ bland s s'.

(** A program without panics, and none of whose critical sections waits. *)
Fixpoint steady {A} (p : prog Server A) : Prop :=
  match p with
  | Ret _ => True
  | Now k => forall n, steady (k n)
  | ReadExact n t k => forall r, steady (k r)
  | WriteAll b t k => forall r, steady (k r)
  | Sleep t k => steady k
  | Atomic f k => prompt _ (fun s => Some (f s)) /\ forall s, steady (k (f s).1)
  | Await _ _ | Crash => False
  end.

Lemma steady_bind {A B} (m : prog Server A) (f : A -> prog Server B) :
  steady m -> (forall a, steady (f a)) -> steady (pbind f m).
Proof.
  intros Hm Hf. induction m as [a|k IH|n t k IH|b t k IH|t k IH|X g k IH|X g k IH|]; simpl in *; auto.
  destruct Hm as [Hg Hk]. auto.
Qed.

Lemma steady_qbind {A B E} (m : prog Server (result A E)) (f : A -> prog Server (result B E)) :
  steady m -> (forall a, steady (f a)) -> steady (qbind m f).
Proof. intros Hm Hf. apply steady_bind; [done|]. by intros [a|e]. Qed.

Lemma tends_steady {A} acq own n (p : prog Server A) :
  steady p -> tends acq own n p (fun _ o m => o = own /\ m = n).
Proof.
  induction p as [a|k IH|l t k IH|b t k IH|t k IH|X f k IH|X f k IH|]; simpl; auto; try done.
  intros [Hf Hk] s Hs; destruct (Hf s) as (x & s' & E & Hb).
  assert (f s = (x, s')) as E' by congruence. exists own. rewrite E'. simpl.
  split; [by apply moves_bland|]. specialize (Hk s). rewrite E' in Hk. by apply IH.
Qed.

Lemma tends_then {A B} acq own n (m : prog Server A) (f : A -> prog Server B) Q :
  steady m -> (forall a, tends acq own n (f a) Q) -> tends acq own n (pbind f m) Q.
Proof.
  intros Hm Hf. apply tends_bind. eapply tends_mono; [|by apply tends_steady].
  intros a o k [-> ->]. apply Hf.
Qed.

Lemma tends_qthen {A B E} acq own n (m : prog Server (result A E)) (f : A -> prog Server (result B E))
    (Q : result B E -> list nat -> nat -> Prop) :
  steady m -> (forall e, Q (Err e) own n) -> (forall a, tends acq own n (f a) Q) ->
  tends acq own n (qbind m f) Q.
Proof. intros Hm He Hf. apply tends_then; [done|]. intros [a|e]; [apply Hf|apply He]. Qed.

Lemma prompt_total {X} (f : Server -> X * Server) :
  (forall s, bland s (f s).2) -> prompt X (fun s => Some (f s)).
Proof. intros H s. exists (f s).1, (f s).2. by rewrite <- surjective_pairing. Qed.

Lemma steady_modify (f : Server -> Server) : (forall s, bland s (f s)) -> steady (modify f).
Proof. intros H. split; [|done]. intros s. eexists _, _. by split. Qed.

Lemma steady_asks {X} (f : Server -> X) : steady (asks f).
Proof. split; [|done]. intros s. by eexists _, _. Qed.

Lemma steady_ret {A} (a : A) : steady (Ret a).
Proof. done. Qed.

Lemma steady_lift {A E} (r : result A E) : steady (lift r).
Proof. done. Qed.

Lemma steady_now : steady now.
Proof. by intros n. Qed.

Lemma steady_reduced t op : steady (reduced t op).
Proof. by intros n. Qed.

Lemma steady_read n t : steady (read_with_timeout n t).
Proof. by intros r. Qed.

Lemma steady_sread stream n : steady (sread stream n).
Proof. by intros r. Qed.

Lemma steady_write b t : steady (write_with_timeout b t).
Proof. by intros r. Qed.

Lemma steady_swrite stream b : steady (swrite stream b).
Proof. by intros r. Qed.

Lemma steady_respond stream b : steady (respond_status stream b).
Proof. apply steady_swrite. Qed.

Lemma steady_counters f : steady (modify (with_counters f)).
Proof. by apply steady_modify. Qed.

Lemma steady_with_hub f : (forall h, bland_hub h (f h)) -> steady (modify (with_hub f)).
Proof. intros H. apply steady_modify. intros s. apply bland_set_hub, H. Qed.

Lemma steady_close_sender ch : steady (close_sender ch).
Proof. apply steady_with_hub, bland_drop_sender. Qed.

Lemma steady_register_task id c : steady (modify (with_hub (register_task id c))).
Proof. apply steady_with_hub. intros h. by apply bland_chans. Qed.

Lemma steady_drop_arc c : steady (drop_arc c).
Proof. apply steady_with_hub, bland_drop_client. Qed.

Lemma steady_unregister_dc tok : steady (modify (with_hub (unregister_data_channel tok))).
Proof. apply steady_with_hub, bland_unregister_dc. Qed.

Lemma steady_register_dc tok ch : steady (on_hub (register_data_channel tok ch)).
Proof.
  split; [|done]. apply prompt_total. intros s. pose proof (bland_register_dc tok ch (hub s)) as Hb.
  destruct (register_data_channel tok ch (hub s)). by apply bland_set_hub.
Qed.
Create HintDb steady.
#[local] Hint Resolve steady_asks steady_ret steady_lift steady_now steady_reduced steady_read
  steady_sread steady_write steady_swrite steady_respond steady_counters steady_close_sender
  steady_register_task steady_drop_arc steady_unregister_dc steady_register_dc : steady.

Lemma steady_send_message stream timeout m : steady (send_message stream timeout m).
Proof.
  unfold send_message. apply steady_bind; [auto with steady|intros n].
  apply steady_qbind; [auto with steady|intros []]. apply steady_qbind.
  - destruct (mdata m); [|done]. apply steady_bind; auto with steady.
  - intros []. destruct (timestamp m); [|done]. do 2 (apply steady_bind; [auto with steady|intros ?]).
    auto with steady.
Qed.

(** *** Making, handing over and dropping a receiver *)

Lemma moves_new_channel n s :
  sane s -> ((0 < get_data_queue_size L)%N -> (0 < n)%N) ->
  moves True [] s [next_id (hub s)] (set_hub (new_channel n (hub s)).2 s).
Proof.
  intros [S1 S2 S3 S4 S5] Hn.
  assert (forall ch, ends (new_channel n (hub s)).2 !! ch =
    if decide (next_id (hub s) = ch) then Some (n, 1) else ends (hub s) !! ch) as He.
  { intros ch. unfold ends. simpl. by rewrite fmap_insert, lookup_insert, ch_bounded_view. }
  split; [|done| |by left].
  - split; [done| | |done|].
    + intros ch cap r. simpl. rewrite He. case_decide.
      * intros [= <- <-]. split_and!; [done|lia..].
      * intros (? & ? & ?)%S2. split_and!; [done..|lia].
    + intros id t Hid%S3. simpl. lia.
    + intros ch q. simpl. rewrite lookup_insert. case_decide; [|apply S5]. intros [= <-].
      rewrite ch_bounded_view. unfold len. simpl. lia.
  - intros ch (cap & r & Hl). simpl in Hl. rewrite He in Hl. case_decide.
    + left. by apply list_elem_of_singleton.
    + right; right. split; [by eexists _, _|apply not_elem_of_nil].
Qed.

Definition spawned_with (t : Task) (s : Server) : Server :=
  set_spawned (spawned s ++ [(next_id (hub s), t)]) (with_hub (set_next (S (next_id (hub s)))) s).

Lemma moves_spawn t acq own own' s :
  sane s -> (forall ch, ch ∈ own -> ch ∈ own' \/ data_task_of ch t) ->
  (forall ch, ch ∈ own' -> ch ∈ own) -> moves acq own s own' (spawned_with t s).
Proof.
  intros [S1 S2 S3 S4 S5] Ho Ho'.
  assert (next_id (hub s) ∉ (spawned s).*1) as Hfresh.
  { intros ([id u] & E & Hin%S3)%list_elem_of_fmap. simpl in E. lia. }
  split; [|by intros x Hx; apply elem_of_app; left| |by right].
  - split; [done| | | |done].
    + intros ch cap n (? & ? & ?)%S2. simpl. split_and!; [done..|lia].
    + intros id u. simpl. rewrite elem_of_app, list_elem_of_singleton.
      intros [Hid%S3|[= -> ->]]; lia.
    + simpl. rewrite fmap_app. apply NoDup_app. split; [done|]. split.
      * intros id Hid Hin%list_elem_of_singleton. by subst.
      * apply NoDup_singleton.
  - intros ch Hl. destruct (decide (ch ∈ own)) as [Hin|]; [|by right; right].
    destruct (Ho ch Hin) as [|Ht]; [by left|]. right; left. exists (next_id (hub s)), t.
    split; [|done]. apply elem_of_app. right. by apply list_elem_of_singleton.
Qed.

(** The last receiver of a channel goes. *)
Lemma drop_receiver_ends ch s :
  sane s ->
  sane (with_hub (update_chan ch_drop_receiver ch) s) /\
  forall ch', live ch' (with_hub (update_chan ch_drop_receiver ch) s) -> live ch' s /\ ch' <> ch.
Proof.
  intros [S1 S2 S3 S4 S5].
  assert (forall ch', ends (hub (with_hub (update_chan ch_drop_receiver ch) s)) !! ch' =
    if decide (ch = ch') then (fun e => (e.1, pred e.2)) <$> ends (hub s) !! ch'
    else ends (hub s) !! ch') as He.
  { intros ch'. unfold ends. simpl. rewrite !lookup_fmap, lookup_alter. case_decide; [|done].
    subst. destruct (chans (hub s) !! ch') as [q|]; [|done]. simpl. by rewrite ch_drop_receiver_view. }
  split.
  - split; [done| |done..|].
    + intros ch' cap n. rewrite He. case_decide; [|apply S2].
      destruct (ends (hub s) !! ch') as [[cap' n']|] eqn:E; [|done]. intros [= <- <-].
      destruct (S2 _ _ _ E) as (? & ? & ?). split_and!; [done|lia|done].
    + apply roomy_update; [|done]. intros q. by rewrite ch_drop_receiver_view.
  - intros ch' (cap & n & Hl). rewrite He in Hl. case_decide; [|split; [by eexists _, _|congruence]].
    destruct (ends (hub s) !! ch') as [[cap' n']|] eqn:E; [|done]. injection Hl as _ Hn.
    destruct (S2 _ _ _ E) as (? & ? & ?). lia.
Qed.

Lemma moves_drop acq ch s :
  sane s -> moves acq [ch] s [] (with_hub (update_chan ch_drop_receiver ch) s).
Proof.
  intros Hs. destruct (drop_receiver_ends ch s Hs) as [Hs' Hl]. split; [done|done| |].
  - intros ch' [H1 H2]%Hl. right; right. split; [done|]. by rewrite list_elem_of_singleton.
  - right. intros ch' []%elem_of_nil.
Qed.

Lemma tends_close_receiver acq n ch : tends acq [ch] n (close_receiver ch) returned.
Proof. intros s Hs. exists []. split; [by apply moves_drop|done]. Qed.

(** The receiver goes, and then the program does what concerns none. *)
Lemma tends_close {A} acq n ch (f : unit -> prog Server A) :
  steady (f tt) -> tends acq [ch] n (pbind f (close_receiver ch)) returned.
Proof.
  intros Hf. apply tends_bind. eapply tends_mono; [|apply tends_close_receiver]. intros [] o m ->.
  eapply tends_mono; [|by apply tends_steady]. by intros a o' k [-> _].
Qed.

(** *** Data streams *)

Lemma tends_launch n stream timeout : tends True [] n (launch_data_stream stream timeout) returned.
Proof.
  unfold launch_data_stream. apply tends_then; [auto with steady|intros op].
  apply tends_qthen; [auto with steady|done|intros buf]. cbv zeta.
  apply tends_then; [auto with steady|intros t].
  apply tends_qthen; [auto with steady|done|intros b]. intros s Hs. exists [].
  split; [by apply moves_refl|]. cbn [fst]. rewrite (sn_limits _ Hs). clear s Hs. unfold bounded. cbn [pbind].
  destruct (get_data_queue_size L =? 0)%N; [done|].
  intros s Hs. exists [next_id (hub s)]. split; [by apply moves_new_channel|]. cbn [new_channel fst pbind].
  set (ch := next_id (hub s)). clearbody ch. clear s Hs.
  apply tends_then; [auto with steady|intros [[channel client]|e]].
  - apply tends_then; [auto with steady|intros [[]|e]].
    + cbv zeta. intros s Hs. exists [ch]. split; [apply (moves_spawn (Pinger channel _)); auto|].
      cbn [fst pbind]. apply tends_then; [auto with steady|intros []]. clear s Hs. intros s Hs. exists [].
      split.
      * apply moves_spawn; [done| |by intros ? []%elem_of_nil].
        intros c ->%list_elem_of_singleton. right. by eexists _, _, _, _, _.
      * cbn [fst pbind]. do 2 (apply tends_then; [auto with steady|intros []]). done.
    + do 2 (apply tends_then; [auto with steady|intros []]). by apply tends_close.
  - apply tends_then; [auto with steady|intros r]. by apply tends_close.
Qed.

(** A mailbox from which a message has been taken has room. *)
Lemma recv_room ch q m q' s :
  sane s -> chans (hub s) !! ch = Some q -> ch_recv q = Some (m, q') ->
  bland s (set_hub (set_chans (<[ch := q']> (chans (hub s))) (hub s)) s) /\
  ~ stuffed ch (set_hub (set_chans (<[ch := q']> (chans (hub s))) (hub s)) s).
Proof.
  intros Hs Hq Er. pose proof (sn_roomy _ Hs ch q Hq) as Hr. unfold stuffed. simpl.
  rewrite lookup_insert_eq. destruct (ch_queue (ch_view q)) as [|m1 l] eqn:El.
  - destruct (view_open (ch_view q)) eqn:Eo; [by rewrite (ch_recv_wait q El Eo) in Er|].
    destruct (ch_recv_closed q El Eo) as (q1 & E1 & E2). rewrite E1 in Er. injection Er as <- <-.
    split; [|intros (q2 & [= <-] & Ho & _); by rewrite E2, Eo in Ho].
    apply bland_set_hub, (ends_insert _ q); by rewrite ?E2.
  - destruct (ch_recv_message q m1 l El) as (q1 & E1 & E2). rewrite E1 in Er.
    injection Er as <- <-. split.
    + apply bland_set_hub, (ends_insert _ q); rewrite ?E2; try done. intros _. simpl.
      unfold len in *. simpl in Hr. lia.
    + intros (q2 & [= <-] & _ & Hf). revert Hf. rewrite E2. unfold view_full. simpl.
      intros Hf%N.leb_le. unfold len in *. simpl in Hr. lia.
Qed.

Lemma tends_recv acq n ch :
  ~ acq -> tends acq [ch] n (await (chan_recv ch)) (fun _ o m => o = [ch] /\ m = pred n).
Proof.
  intros Ha s Hs. unfold chan_recv. destruct (chans (hub s) !! ch) as [q|] eqn:Eq.
  - destruct (ch_recv q) as [[m q']|] eqn:Er.
    + destruct (recv_room ch q m q' s Hs Eq Er) as [Hb Hn]. exists [ch].
      split; [by apply moves_bland|]. split; [|done]. by intros c ->%list_elem_of_singleton.
    + split; [done|]. exists ch, q. split; [done|]. split; [done|].
      destruct (ch_queue (ch_view q)) as [|m1 l] eqn:El; [done|].
      destruct (ch_recv_message q m1 l El) as (q1 & E1 & _). congruence.
  - exists [ch]. split; [by apply moves_refl|]. split; [|done].
    intros c ->%list_elem_of_singleton (q & Hq & _). congruence.
Qed.

(** Each round of the loop takes a message. *)
Lemma tends_data_stream acq fuel stream rx timeout interval last :
  ~ acq -> tends acq [rx] fuel (handle_data_stream fuel stream rx timeout interval last)
    (fun r o m => o = [rx] /\ (r = None -> m = 0)).
Proof.
  intros Ha. revert last; induction fuel as [|fuel IH]; intros last; [done|].
  cbn [handle_data_stream]. apply tends_bind. eapply tends_mono; [|by apply tends_recv].
  intros [m|] o k [-> ->]; [|done]. cbv zeta. cbn [pred].
  apply tends_then; [auto with steady|intros n]. case_match; [apply IH|].
  apply tends_then; [|intros [[]|e]; [|by split]].
  - case_match; [auto with steady|apply steady_send_message].
  - apply tends_then; [auto with steady|intros n']. apply IH.
Qed.

Lemma tends_task acq fuel t :
  ~ acq ->
  tends acq match t with Pinger _ _ => [] | DataTask _ rx _ _ _ _ => [rx] end fuel (task_code fuel t)
    spent.
Proof.
  intros Ha. destruct t as [ch interval|tok rx timeout interval un ad]; cbn [task_code].
  - eapply tends_mono; [|apply tends_polite, effects_forget, polite_pinger]. by left.
  - unfold forget. apply tends_bind. unfold data_task. apply tends_then; [auto with steady|intros start].
    apply tends_bind. eapply tends_mono; [|by apply tends_data_stream].
    intros [r|] o m [-> Hm]; [|right; by apply Hm]. apply tends_bind.
    eapply tends_mono; [|apply tends_close_receiver]. intros [] o k ->.
    apply tends_then; [destruct r; auto with steady|intros []]. by left.
Qed.

(** *** Connections *)

Lemma looks_polite {A} (p : prog Server A) : untouched p -> effects polite p.
Proof.
  apply effects_mono. intros X f Hf s _. destruct (Hf s) as [x ->]. reflexivity.
Qed.

Section connections.
Variable acceptor : option (prog Server (result unit bytes)).
Hypothesis acceptor_untouched : forall accept, acceptor = Some accept -> untouched accept.

Lemma polite_init_tcp nodelay allow timeout :
  effects polite (init_tcp_stream nodelay acceptor allow timeout).
Proof.
  unfold init_tcp_stream, comm_mode. destruct acceptor as [accept|]; [|effects].
  pose proof (looks_polite _ (acceptor_untouched accept eq_refl)). effects.
Qed.

(** A program of a connection holds no receiver when it begins and none when it ends. *)
Definition clean {A} (p : prog Server A) : Prop := forall n, tends True [] n p returned.

Lemma tends_seq {A B} (m : prog Server A) (f : A -> prog Server B) :
  clean m -> (forall a, clean (f a)) -> clean (pbind f m).
Proof.
  intros Hm Hf n. apply tends_bind. eapply tends_mono; [|apply Hm]. intros a o k ->. apply Hf.
Qed.

Lemma tends_qseq {A B E} (m : prog Server (result A E)) (f : A -> prog Server (result B E)) :
  clean m -> (forall a, clean (f a)) -> clean (qbind m f).
Proof. intros Hm Hf. apply tends_seq; [done|]. intros [a|e]; [apply Hf|done]. Qed.

Lemma polite_send_token {A} stream c (session : A) : effects polite (send_token stream c session).
Proof. unfold send_token. effects. Qed.

Lemma tends_start_tcp nodelay allow ad timeout :
  clean (start_tcp nodelay acceptor allow ad timeout).
Proof.
  unfold start_tcp. apply tends_qseq; [intros n; apply tends_polite, polite_init_tcp|intros [stream st]].
  case_decide; [apply tends_qseq; [intros n; apply tends_launch|done]|]. intros n.
  apply tends_polite. unfold read_frame, check_login. effects.
Qed.

Lemma tends_start_unix path timeout : clean (start_unix path timeout).
Proof.
  unfold start_unix.
  apply tends_qseq; [intros n; apply tends_polite; unfold init_unix_stream; effects|intros [stream st]].
  case_decide; [apply tends_qseq; [intros n; apply tends_launch|done]|]. intros n.
  apply tends_polite. unfold read_frame. effects.
Qed.

Lemma tends_entry p : entry None acceptor p -> clean p.
Proof.
  intros Hp. destruct Hp as [nodelay allow fuel ad timeout|fuel path timeout|size ds _|p Hp].
  - apply tends_seq; [|done]. apply tends_seq; [apply tends_start_tcp|].
    intros [[[[stream c] acl]|]|e] n; [apply tends_polite, polite_serve|done..].
  - apply tends_seq; [|done]. apply tends_seq; [apply tends_start_unix|].
    intros [[[stream c]|]|e] n; [apply tends_polite, polite_serve|done..].
  - intros n. apply tends_polite, effects_forget, polite_udp_listener.
  - intros n. by apply tends_polite, looks_polite.
Qed.
End connections.
End receivers.
