(* ===== verification/Progress.v ===== *)
(** * No publisher waits for good

    A publisher waits when a mailbox that had room is full by the time it sends. In every execution
    of the machine of System.v the receiver of a channel is held by a connection that launches a data
    stream, by a task that has not started yet, or by the task of a data stream, and none of them
    waits while there are messages: whoever waits for a place waits for somebody who goes on. *)

From S2P Require Import Prelude Utf8 Proto Io Commands Acl Topic Token Pubsub Reference PubsubSpec.
From S2P Require Import Passwords Keys Server ServerSpec Control ControlSpec Session SessionSpec Udp.
From S2P Require Import Interleave System Receivers.

Section progress.
Context {SMO : SubMapOps} {SML : SubMapLaws} {CHO : ChannelOps} {CHL : ChannelLaws}
  {SHO : Sha256Ops} {BCO : BcryptOps} {AEO : AeadOps}.
Variable L : Limits.

#[local] Abbreviation sane := (sane L).
#[local] Abbreviation moves := (moves L).
#[local] Abbreviation tends := (tends L).

(** ** Progress *)

(** Whatever the outcome of its reads and writes, the program, alone, comes to a state with [goal]
    after finitely many steps, and does not wait before. *)
Inductive inevitably (goal : Server -> Prop) (p : prog Server unit) (s : Server) : Prop :=
| inev_now : goal s -> inevitably goal p s
| inev_step p1 s1 :
    pstep p s p1 s1 -> (forall p' s', pstep p s p' s' -> inevitably goal p' s') ->
    inevitably goal p s.

(** The mailbox takes messages again, or does not matter any more, or a task for it may start. *)
Definition relieved (st : gset nat) (ch : nat) (s : Server) : Prop :=
  ~ stuffed ch s \/ exists id t, (id, t) ∈ spawned s /\ data_task_of ch t /\ id ∉ st.

Definition started_tasks (st : gset nat) (s : Server) : Prop :=
  forall id, id ∈ st -> id ∈ (spawned s).*1.

Lemma stuffed_live ch s : stuffed ch s -> live ch s.
Proof.
  intros (q & Hq & Ho & _). unfold live, ends. rewrite lookup_fmap, Hq. simpl.
  unfold view_open in Ho. apply andb_prop in Ho as [_ Ho]. apply negb_true_iff in Ho.
  apply bool_decide_eq_false_1 in Ho. destruct (ch_receivers (ch_view q)) as [|n]; [done|]. by exists (ch_cap (ch_view q)), n.
Qed.

Lemma live_dec ch s : live ch s \/ ~ live ch s.
Proof.
  unfold live. destruct (ends (hub s) !! ch) as [[cap [|n]]|]; [right|left; by eauto|right];
    intros (? & ? & ?); simplify_eq.
Qed.

Lemma moves_started acq own s own' s' st :
  moves acq own s own' s' -> started_tasks st s -> started_tasks st s'.
Proof.
  intros Hm Hst id Hid. apply Hst in Hid. apply list_elem_of_fmap in Hid as ([id' t] & -> & Hin).
  apply list_elem_of_fmap. exists (id', t). split; [done|by apply (mv_spawned _ _ _ _ _ _ Hm)].
Qed.

(** After a critical section of the holder, the mailbox is relieved or still held. *)
Lemma moves_holder acq own s own' s' st ch :
  moves acq own s own' s' -> started_tasks st s -> ch ∈ own -> relieved st ch s' \/ ch ∈ own'.
Proof.
  intros Hm Hst Hin. destruct (live_dec ch s') as [Hl|Hl].
  - destruct (mv_cover _ _ _ _ _ _ Hm ch Hl) as [|[(id & t & H1 & H2 & H3)|[_ Hn]]]; [by right| |done].
    left. right. exists id, t. split_and!; [done..|]. by intros Hid%Hst.
  - left. left. by intros Hs%stuffed_live.
Qed.

Lemma pstep_tends {A} acq own n (p p' : prog Server A) s s' Q :
  tends acq own n p Q -> sane s -> pstep p s p' s' ->
  exists own' n', moves acq own s own' s' /\ tends acq own' n' p' Q /\
    (n' = n \/ n' = pred n /\ forall ch, ch ∈ own -> ~ stuffed ch s').
Proof.
  intros Hp Hs Hstep%pstep_inv. pose proof (moves_refl L acq own s Hs) as Hr.
  destruct p as [a|k|l t k|b t k|t k|X f k|X f k|]; simpl in Hp; [done| | | | | | |done].
  - destruct Hstep as [-> [m ->]]. exists own, n. auto.
  - destruct Hstep as [-> [r ->]]. exists own, n. auto.
  - destruct Hstep as [-> [r ->]]. exists own, n. auto.
  - destruct Hstep as [-> ->]. exists own, n. auto.
  - destruct Hstep as [-> ->]. destruct (Hp s Hs) as (own' & Hm & Hk). exists own', n. auto.
  - destruct Hstep as (x & E & ->). specialize (Hp s Hs). rewrite E in Hp.
    destruct Hp as (own' & Hm & Hn & Hk). eexists own', _. split; [exact Hm|]. split; [exact Hk|].
    destruct own; [by left|by right].
Qed.

(** The holder of a receiver does not wait, unless its mailbox is relieved. *)
Lemma holder_blocked {A} acq own n (p : prog Server A) s st ch Q :
  (0 < get_data_queue_size L)%N -> tends acq own n p Q -> sane s -> ch ∈ own ->
  blocked p s = true -> relieved st ch s.
Proof.
  intros HL Hp Hs Hin Hb. destruct p as [| | | | | |X f k|]; try done. simpl in Hp, Hb.
  specialize (Hp s Hs). destruct (f s) as [[x s']|]; [done|].
  destruct own as [|c own]; [by apply elem_of_nil in Hin|]. destruct Hp as (_ & ch1 & q & E & Hq & Hl).
  rewrite E in Hin. apply list_elem_of_singleton in Hin as ->. left. intros (q1 & Hq1 & _ & Hf).
  assert (q1 = q) as -> by congruence. unfold view_full in Hf. rewrite Hl in Hf.
  destruct (sn_ends _ _ Hs ch1 (ch_cap (ch_view q)) (ch_receivers (ch_view q))) as (Hcap & _);
    [by unfold ends; rewrite lookup_fmap, Hq|].
  apply N.leb_le in Hf. unfold len in Hf. simpl in Hf. specialize (Hcap HL). lia.
Qed.

(** One step of the holder, which has rounds left. *)
Lemma holder_step acq own n (p p' : prog Server unit) s s' st ch :
  tends acq own (S n) p spent -> sane s -> started_tasks st s -> ch ∈ own -> pstep p s p' s' ->
  relieved st ch s' \/
  exists own', tends acq own' (S n) p' spent /\ sane s' /\ started_tasks st s' /\ ch ∈ own'.
Proof.
  intros Hp Hs Hst Hin H'.
  destruct (pstep_tends _ _ _ _ _ _ _ _ Hp Hs H') as (own' & n' & Hm & Hp' & [->|[_ Hn]]);
    [|left; left; by apply Hn].
  destruct (moves_holder _ _ _ _ _ st ch Hm Hst Hin) as [Hr|Hin']; [by left|]. right.
  exists own'. split; [done|]. split; [apply Hm|]. split; [by eapply moves_started|done].
Qed.

Lemma holder_relieves acq own n (p : prog Server unit) s st ch :
  (0 < get_data_queue_size L)%N -> tends acq own (S n) p spent -> sane s ->
  started_tasks st s -> ch ∈ own -> inevitably (relieved st ch) p s.
Proof.
  intros HL. revert own s.
  assert (forall p own s, tends acq own (S n) p spent -> sane s -> started_tasks st s -> ch ∈ own ->
    (forall own' p' s', pstep p s p' s' -> tends acq own' (S n) p' spent -> sane s' ->
       started_tasks st s' -> ch ∈ own' -> inevitably (relieved st ch) p' s') ->
    inevitably (relieved st ch) p s) as Hgo.
  { clear p. intros p own s Hp Hs Hst Hin IH. destruct (blocked p s) eqn:Eb.
    { apply inev_now. by eapply holder_blocked. }
    destruct (pstep_exists p s Eb) as [[a ->]|[->|(p1 & s1 & H1)]].
    { simpl in Hp. destruct Hp as [->|]; [by apply elem_of_nil in Hin|done]. }
    { simpl in Hp. subst. by apply elem_of_nil in Hin. }
    apply (inev_step _ _ _ p1 s1 H1). intros p' s' H'.
    destruct (holder_step _ _ _ _ _ _ _ _ _ Hp Hs Hst Hin H') as [Hr|(own' & ? & ? & ? & ?)];
      [by apply inev_now|by eapply IH]. }
  induction p as [a|k IH|l t k IH|b t k IH|t k IH|X f k IH|X f k IH|]; intros own s Hp Hs Hst Hin;
    (eapply Hgo; [exact Hp|exact Hs|exact Hst|exact Hin|]); intros own' p' s' Hstep%pstep_inv ????.
  - done.
  - destruct Hstep as [-> [m ->]]. eauto.
  - destruct Hstep as [-> [r ->]]. eauto.
  - destruct Hstep as [-> [r ->]]. eauto.
  - destruct Hstep as [-> ->]. eauto.
  - destruct Hstep as [-> ->]. eauto.
  - destruct Hstep as (x & E & ->). eauto.
  - done.
Qed.

(** ** The machine *)

Section machine.
Variable acceptor : option (prog Server (result unit bytes)).
Hypothesis acceptor_untouched : forall accept, acceptor = Some accept -> untouched accept.

(** What a thread may do with the receivers [own], for at least [b] more rounds: that of a task has
    the receiver of its task. *)
Definition tended (b : nat) (s : Server) (t : Thread) (own : list nat) : Prop :=
  (exists n, tends (handle t = None) own n (code t) spent /\ b <= n) /\
  forall id, handle t = Some id -> exists task, (id, task) ∈ spawned s /\
    forall ch, ch ∈ own -> data_task_of ch task.

(** Every receiver is held by a thread, or by a task that has not started. *)
Record accounted (b : nat) (c : Machine) (owns : list (list nat)) : Prop := {
  ac_sane : sane (server c);
  ac_threads : Forall2 (tended b (server c)) (threads c) owns;
  ac_cover ch : live ch (server c) ->
    (exists i own, owns !! i = Some own /\ ch ∈ own) \/
    (exists id t, (id, t) ∈ spawned (server c) /\ data_task_of ch t /\ id ∉ started c);
  ac_started : started_tasks (started c) (server c);
}.

Lemma tended_spawned b s s' t own :
  (forall x, x ∈ spawned s -> x ∈ spawned s') -> tended b s t own -> tended b s' t own.
Proof.
  intros Hs [H1 H2]. split; [done|]. intros id Hid. destruct (H2 id Hid) as (task & H3 & H4). eauto.
Qed.

Lemma threads_spawned b s s' ts owns :
  (forall x, x ∈ spawned s -> x ∈ spawned s') ->
  Forall2 (tended b s) ts owns -> Forall2 (tended b s') ts owns.
Proof. intros Hs H. eapply Forall2_impl; [exact H|]. intros t own. by apply tended_spawned. Qed.

Lemma accounted_weaken b b' c owns : b' <= b -> accounted b c owns -> accounted b' c owns.
Proof.
  intros Hb [Hs Ht Hc Hst]. split; [done| |done..]. eapply Forall2_impl; [exact Ht|].
  intros t own [(n & Hn & Hle) Hid]. split; [|done]. exists n. split; [done|lia].
Qed.

(** A step of a thread, which may be a round of its loop. *)
Lemma accounted_thread b ts st s s' i h p p' owns :
  accounted b (mkMachine ts st s) owns -> ts !! i = Some (mkThread h p) -> pstep p s p' s' ->
  exists owns', accounted (pred b) (mkMachine (<[i := mkThread h p']> ts) st s') owns'.
Proof.
  intros Hacc Hi Hstep. pose proof (accounted_weaken b (pred b) _ _ ltac:(lia) Hacc) as Hacc'.
  destruct Hacc as [Hs Ht Hc Hst]. apply ac_threads in Hacc'. simpl in *.
  destruct (Forall2_lookup_l _ _ _ _ _ Ht Hi) as (own & Hown & [(n & Hp & Hle) Hid]). simpl in Hp, Hid.
  destruct (pstep_tends _ _ _ _ _ _ _ _ Hp Hs Hstep) as (own' & n' & Hm & Hp' & Hn').
  exists (<[i := own']> owns). split; simpl.
  - apply Hm.
  - apply Forall2_insert; [by eapply threads_spawned; [apply Hm|]|]. split.
    { exists n'. split; [done|]. destruct Hn' as [->|[-> _]]; lia. } simpl.
    intros id ->. destruct (Hid id eq_refl) as (task & H1 & H2). exists task.
    split; [by apply Hm|]. intros ch Hch. apply H2.
    destruct (mv_own _ _ _ _ _ _ Hm) as [|Hsub]; [done|by apply Hsub].
  - intros ch Hl. apply lookup_lt_Some in Hown as Hlt.
    destruct (mv_cover _ _ _ _ _ _ Hm ch Hl) as [Hin|[(id & t & H1 & H2 & H3)|[Hl0 Hn]]].
    + left. exists i, own'. by rewrite list_lookup_insert_eq.
    + right. exists id, t. split_and!; [done..|]. by intros Hin%Hst.
    + destruct (Hc ch Hl0) as [(j & o & Hj & Hin)|(id & t & H1 & H2 & H3)].
      * left. exists j, o. split; [|done]. rewrite list_lookup_insert_ne; [done|]. intros ->.
        congruence.
      * right. exists id, t. split_and!; [by apply Hm|done..].
  - by eapply moves_started.
Qed.

(** A change that concerns no receiver. *)
Lemma accounted_bland b ts st s s' owns :
  accounted b (mkMachine ts st s) owns -> bland s s' -> accounted b (mkMachine ts st s') owns.
Proof.
  intros [Hs Ht Hc Hst] Hb. simpl in *. pose proof (moves_bland L True [] _ _ Hs Hb) as Hm.
  split; simpl; [by eapply bland_sane| | |by eapply moves_started].
  - eapply threads_spawned; [apply Hm|done].
  - intros ch Hl. rewrite (bl_spawned _ _ Hb). by eapply Hc, bland_live.
Qed.

(** A new thread. *)
Lemma accounted_spawn b ts st st' s owns t own :
  accounted b (mkMachine ts st s) owns -> tended b s t own ->
  (forall ch id u, (id, u) ∈ spawned s -> data_task_of ch u -> id ∉ st -> id ∈ st' -> ch ∈ own) ->
  started_tasks st' s -> accounted b (mkMachine (ts ++ [t]) st' s) (owns ++ [own]).
Proof.
  intros [Hs Ht Hc Hst] Hn Hch Hst'. simpl in *. split; simpl; [done| | |done].
  - apply Forall2_app; [done|by constructor].
  - intros ch Hl. destruct (Hc ch Hl) as [(j & o & Hj & Hin)|(id & u & H1 & H2 & H3)].
    + left. exists j, o. split; [|done]. by apply lookup_app_l_Some.
    + destruct (decide (id ∈ st')) as [Hid|]; [|right; by exists id, u].
      left. exists (length owns), own. split; [|by eapply Hch].
      rewrite lookup_app_r by done. by rewrite Nat.sub_diag.
Qed.

Lemma spawned_unique s id t t' : sane s -> (id, t) ∈ spawned s -> (id, t') ∈ spawned s -> t = t'.
Proof.
  intros Hs H1 H2. apply list_elem_of_lookup in H1 as [i Hi], H2 as [j Hj].
  assert (i = j) as ->; [|congruence].
  apply (NoDup_lookup (spawned s).*1 i j id); [apply Hs| |]; by rewrite list_lookup_fmap, ?Hi, ?Hj.
Qed.

(** A task that is gone takes its receiver along. *)
Lemma drop_task_ends s t :
  sane s -> sane (drop_task t s) /\
  forall ch, live ch (drop_task t s) -> live ch s /\ ~ data_task_of ch t.
Proof.
  intros Hs. destruct t as [c iv|tok rx to iv un ad]; simpl.
  - assert (bland s (with_hub (update_chan ch_drop_sender c) s)) as Hb
      by apply bland_set_hub, bland_drop_sender.
    split; [by eapply bland_sane|]. intros ch Hl. split; [by eapply bland_live|].
    by intros (? & ? & ? & ? & ? & ?).
  - destruct (drop_receiver_ends L rx s Hs) as [H1 H2]. split; [done|]. intros ch [H3 H4]%H2.
    split; [done|]. intros (? & ? & ? & ? & ? & ?). congruence.
Qed.

Lemma spawned_drop_task s t : spawned (drop_task t s) = spawned s.
Proof. by destruct t. Qed.

Lemma accounted_drop b ts st st' s owns id t :
  accounted b (mkMachine ts st s) owns -> (id, t) ∈ spawned s -> st ⊆ st' -> st' ⊆ {[id]} ∪ st ->
  accounted b (mkMachine ts st' (drop_task t s)) owns.
Proof.
  intros [Hs Ht Hc Hst] Hin Hsub Hsup. simpl in *. destruct (drop_task_ends s t Hs) as [Hs' Hl].
  split; simpl; [done| | |].
  - eapply threads_spawned; [|exact Ht]. by rewrite spawned_drop_task.
  - intros ch [H1 H2]%Hl. rewrite spawned_drop_task.
    destruct (Hc ch H1) as [|(id' & t' & H3 & H4 & H5)]; [by left|].
    right. exists id', t'. split_and!; [done..|].
    intros [->%elem_of_singleton|]%Hsup%elem_of_union; [|done].
    by rewrite (spawned_unique s id t t' Hs Hin H3) in H2.
  - intros id'. rewrite spawned_drop_task.
    intros [->%elem_of_singleton|Hid]%Hsup%elem_of_union; [|by apply Hst].
    apply list_elem_of_fmap. by exists (id, t).
Qed.

(** A thread stops that holds no receiver of a live channel. *)
Lemma accounted_stop b ts st s owns i t :
  accounted b (mkMachine ts st s) owns -> ts !! i = Some t ->
  (forall own ch, owns !! i = Some own -> ch ∈ own -> ~ live ch s) ->
  accounted b (mkMachine (<[i := mkThread None (Ret tt)]> ts) st s) (<[i := []]> owns).
Proof.
  intros [Hs Ht Hc Hst] Hi Hn. simpl in *. split; simpl; [done| | |done].
  - apply Forall2_insert; [done|]. split; [exists b; split; [by left|done]|done].
  - intros ch Hl. destruct (Hc ch Hl) as [(j & o & Hj & Hin)|]; [|by right].
    left. exists j, o. split; [|done]. rewrite list_lookup_insert_ne; [done|]. intros <-.
    by eapply Hn.
Qed.

Lemma accounted_abort b ts st s owns i id t p :
  accounted b (mkMachine ts st s) owns -> ts !! i = Some (mkThread (Some id) p) ->
  (id, t) ∈ spawned s ->
  accounted b (mkMachine (<[i := mkThread None (Ret tt)]> ts) st (drop_task t s)) (<[i := []]> owns).
Proof.
  intros Hc Hi Hin. eapply accounted_stop; [by eapply accounted_drop; [exact Hc|exact Hin|set_solver..]|exact Hi|].
  intros own ch Hown Hch Hl. destruct Hc as [Hs Ht _ _]; simpl in *.
  destruct (Forall2_lookup_lr _ _ _ _ _ _ Ht Hi Hown) as [_ Hid].
  destruct (Hid id eq_refl) as (t' & H1 & H2).
  apply (drop_task_ends s t Hs) in Hl as [_ Hl]. apply Hl.
  rewrite (spawned_unique s id t t' Hs Hin H1). by apply H2.
Qed.

(** A task starts. *)
Lemma accounted_start b ts st s owns id t fuel :
  accounted b (mkMachine ts st s) owns -> (id, t) ∈ spawned s -> b <= fuel ->
  accounted b (mkMachine (ts ++ [mkThread (Some id) (task_code fuel t)]) ({[id]} ∪ st) s)
    (owns ++ [match t with Pinger _ _ => [] | DataTask _ rx _ _ _ _ => [rx] end]).
Proof.
  intros Hc Hin Hb. eapply accounted_spawn; [exact Hc| | |].
  - split; [exists fuel; split; [by apply tends_task|done]|]. intros id' [= <-]. exists t. split; [done|].
    destruct t as [|tok rx to iv un ad]; [by intros ch []%elem_of_nil|].
    intros ch ->%list_elem_of_singleton. by eexists _, _, _, _, _.
  - intros ch id' u Hu Hd H1 [->%elem_of_singleton|]%elem_of_union; [|done].
    rewrite (spawned_unique s id t u (ac_sane _ _ _ Hc) Hin Hu).
    destruct Hd as (? & ? & ? & ? & ? & ->). by apply list_elem_of_singleton.
  - intros id' [->%elem_of_singleton|Hid]%elem_of_union; [|by apply (ac_started _ _ _ Hc)].
    apply list_elem_of_fmap. by exists (id, t).
Qed.

(** The task that the step starts, if it starts one, may go round at least [F] times. *)
Definition long_tasks (F : nat) (c c' : Machine) : Prop :=
  forall id p, threads c' = threads c ++ [mkThread (Some id) p] ->
    exists fuel t, (id, t) ∈ spawned (server c) /\ F <= fuel /\ p = task_code fuel t.

Lemma accounted_step b F c c' owns :
  step None acceptor c c' -> long_tasks F c c' -> b <= F -> accounted b c owns ->
  exists owns', accounted (pred b) c' owns'.
Proof.
  intros Hstep Hlong HF Hc.
  assert ((exists owns', accounted b c' owns') -> exists owns', accounted (pred b) c' owns') as Hw.
  { intros [owns' H]. exists owns'. eapply accounted_weaken; [|exact H]. lia. }
  destruct Hstep as
    [i h p p' s s' ts st Hi Hp|p s ts st Hp|id t fuel s ts st Hin _|i id t p s ts st Hi _ Hin _
    |id t s ts st Hin _ _|t s ts st|db s ts st|db s ts st|db s ts st];
    [by eapply accounted_thread|apply Hw..].
  - exists (owns ++ [[]]). eapply accounted_spawn; [exact Hc| | |by apply (ac_started _ _ _ Hc)].
    + split; [|done]. exists b. split; [|done]. eapply tends_mono.
      2: by eapply tends_acq; [|by apply (tends_entry L acceptor)].
      by left.
    + by intros.
  - destruct (Hlong id (task_code fuel t) eq_refl) as (fuel' & t' & Hin' & Hle & ->). eexists.
    apply accounted_start; [exact Hc|exact Hin'|lia].
  - eexists. by eapply accounted_abort.
  - exists owns. eapply accounted_drop; [exact Hc|exact Hin|set_solver..].
  - exists owns. eapply accounted_bland; [exact Hc|by split].
  - exists owns. eapply accounted_bland; [exact Hc|by split].
  - exists owns. eapply accounted_bland; [exact Hc|by split].
  - exists owns. eapply accounted_bland; [exact Hc|by split].
Qed.
End machine.

(** What a blocked thread waits for. *)
Lemma tended_blocked b s t own :
  tended b s t own -> sane s -> blocked (code t) s = true ->
  (own = [] /\ exists ch, stuffed ch s /\ forall s', ~ stuffed ch s' -> blocked (code t) s' = false) \/
  (exists lg ad, register_client lg ad (hub s) = None /\
     forall s', register_client lg ad (hub s') <> None -> blocked (code t) s' = false) \/
  (exists id task ch q, handle t = Some id /\ (id, task) ∈ spawned s /\ data_task_of ch task /\
     chans (hub s) !! ch = Some q /\ ch_queue (ch_view q) = []).
Proof.
  intros [(n & Hp & _) Hid] Hs Hb. destruct t as [h p]. destruct p as [| | | | | |X f k|]; try done.
  simpl in *. specialize (Hp s Hs). destruct (f s) as [[x s']|]; [done|].
  destruct own as [|c own].
  - destruct Hp as [(ch & Hst & Hf)|(lg & ad & Hr & Hf)].
    + left. split; [done|]. exists ch. split; [done|]. intros s' Hn.
      by destruct (Hf s' Hn) as [[x s1] ->].
    + right; left. exists lg, ad. split; [done|]. intros s' Hn.
      by destruct (Hf s' Hn) as [[x s1] ->].
  - destruct Hp as (Ha & ch & q & E & Hq & Hl). right; right. destruct h as [id|]; [|done].
    destruct (Hid id eq_refl) as (task & H1 & H2). exists id, task, ch, q.
    split; [done|]. split; [done|]. split; [|done]. apply H2. rewrite E. by apply list_elem_of_singleton.
Qed.

(** The holder of the receiver of a full mailbox, and what it does. *)
Lemma accounted_relieves b c owns ch :
  (0 < get_data_queue_size L)%N -> accounted (S b) c owns -> stuffed ch (server c) ->
  (exists id task, (id, task) ∈ spawned (server c) /\ data_task_of ch task /\ id ∉ started c /\
     forall fuel,
       0 < fuel -> inevitably (relieved ({[id]} ∪ started c) ch) (task_code fuel task) (server c)) \/
  (exists j t own, threads c !! j = Some t /\ owns !! j = Some own /\ own <> [] /\
     inevitably (relieved (started c) ch) (code t) (server c)).
Proof.
  intros HL Hc Hst%stuffed_live. destruct Hc as [Hs Ht Hcover Hstart].
  destruct (Hcover ch Hst) as [(j & own & Hj & Hin)|(id & task & H1 & H2 & H3)].
  - right. destruct (Forall2_lookup_r _ _ _ _ _ Ht Hj) as (t & Htj & [([|n] & Hp & Hn) _]);
      [lia|].
    exists j, t, own. split; [done|]. split; [done|]. split; [by intros ->; apply elem_of_nil in Hin|].
    by eapply holder_relieves.
  - left. exists id, task. split; [done|]. split; [done|]. split; [done|].
    intros [|fuel] Hf; [lia|].
    eapply (holder_relieves False); [done|apply tends_task; tauto|done| |].
    + intros id' [->%elem_of_singleton|Hid]%elem_of_union; [|by apply Hstart].
      apply list_elem_of_fmap. by exists (id, task).
    + destruct H2 as (? & ? & ? & ? & ? & ->). by apply list_elem_of_singleton.
Qed.
End progress.

Section theorems.
Context {SMO : SubMapOps} {SML : SubMapLaws} {CHO : ChannelOps} {CHL : ChannelLaws}
  {SHO : Sha256Ops} {BCO : BcryptOps} {AEO : AeadOps}.
Variable acceptor : option (prog Server (result unit bytes)).

(** The machine after [k] steps, in an execution in which every task is started with enough fuel for
    at least [F] rounds of its loop. The loops of the program have no bound: each of its finite
    executions is such an execution for every [F]. *)
Inductive reaches_within (F : nat) (answers : list (result bytes bytes)) : nat -> Machine -> Prop :=
| within_initial c : initial answers c -> reaches_within F answers 0 c
| within_step k c c' :
    reaches_within F answers k c -> step None acceptor c c' -> long_tasks F c c' ->
    reaches_within F answers (S k) c'.

(** An execution that has started no task is one for every [F]. *)
Lemma step_started c c' : step None acceptor c c' -> started c ⊆ started c'.
Proof. destruct 1; set_solver. Qed.

Lemma reaches_untasked answers c :
  reaches None acceptor answers c -> started c = ∅ -> exists k, forall F, reaches_within F answers k c.
Proof.
  induction 1 as [c Hi|c c' _ IH Hstep]; intros Hst; [exists 0; intros F; by constructor|].
  destruct IH as [k Hk]; [pose proof (step_started c c' Hstep); set_solver|].
  exists (S k). intros F. eapply within_step; [apply Hk|exact Hstep|]. intros id p E. exfalso.
  destruct Hstep; simpl in *.
  1, 4, 6-9: (apply (f_equal length) in E; rewrite ?length_insert, length_app in E; simpl in E; lia).
  - by apply app_inj_2 in E as [_ [=]].
  - set_solver.
  - set_solver.
Qed.

Lemma reaches_within_accounted F answers k c :
  (forall accept, acceptor = Some accept -> untouched accept) ->
  reaches_within F answers k c -> exists owns, accounted (limits (server c)) (F - k) c owns.
Proof.
  intros Ha. induction 1 as [c Hi|k c c' _ [owns Hc] Hstep Hlong].
  - destruct Hi as (Ht & Hh & _ & Hsp & Hst). exists []. split.
    + split; [done| | | |]; rewrite ?Hh, ?Hsp.
      * intros ch cap n. unfold ends. simpl. by rewrite fmap_empty, lookup_empty.
      * by intros id t ?%elem_of_nil.
      * constructor.
      * by intros ch q.
    + rewrite Ht. constructor.
    + intros ch (cap & n & Hl). revert Hl. unfold ends. rewrite Hh. simpl.
      by rewrite fmap_empty, lookup_empty.
    + intros id Hid. rewrite Hst in Hid. by apply elem_of_empty in Hid.
  - destruct (accounted_step _ acceptor Ha (F - k) F c c' owns Hstep Hlong ltac:(lia) Hc)
      as [owns' Hc'].
    exists owns'. rewrite (sn_limits _ _ (ac_sane _ _ _ _ Hc')).
    by replace (F - S k) with (pred (F - k)) by lia.
Qed.

(** C24: nobody waits for good. In every state that the server reaches, a thread that waits is the task
    of a data stream whose mailbox is empty, or a session that gets no random bytes, or it waits for
    a place in one full mailbox. In this case somebody else holds the receiver of the mailbox, a task
    that has not started or a thread, and whatever the network does, it comes by itself, after
    finitely many steps in which it never waits, to a state in which the mailbox is not full or
    nobody will read it any more, which ends the wait, or in which a task for it is ready to start.
    The fuel of the tasks has no part in it: they have more rounds left than the execution has
    steps. *)
Theorem publisher_progress F answers k c i t :
  (forall accept, acceptor = Some accept -> untouched accept) ->
  reaches_within F answers k c -> k < F -> (0 < get_data_queue_size (limits (server c)))%N ->
  threads c !! i = Some t -> blocked (code t) (server c) = true ->
  (exists id task ch q, handle t = Some id /\ (id, task) ∈ spawned (server c) /\
     data_task_of ch task /\ chans (hub (server c)) !! ch = Some q /\ ch_queue (ch_view q) = []) \/
  (exists lg ad, register_client lg ad (hub (server c)) = None /\
     forall s', register_client lg ad (hub s') <> None -> blocked (code t) s' = false) \/
  exists ch, stuffed ch (server c) /\
    (forall s', ~ stuffed ch s' -> blocked (code t) s' = false) /\
    ((exists id task, (id, task) ∈ spawned (server c) /\ data_task_of ch task /\ id ∉ started c /\
        forall fuel, 0 < fuel ->
          inevitably (relieved ({[id]} ∪ started c) ch) (task_code fuel task) (server c)) \/
     (exists j t', threads c !! j = Some t' /\ j <> i /\
        inevitably (relieved (started c) ch) (code t') (server c))).
Proof.
  intros Ha Hc HF HL Hi Hb. destruct (reaches_within_accounted F answers k c Ha Hc) as [owns Hacc].
  destruct (F - k) as [|b] eqn:Eb; [lia|].
  destruct (Forall2_lookup_l _ _ _ _ _ (ac_threads _ _ _ _ Hacc) Hi) as (own & Hown & Ht).
  destruct (tended_blocked _ _ _ _ _ Ht (ac_sane _ _ _ _ Hacc) Hb) as [(-> & ch & Hst & Hw)|[Hr|Hd]];
    [|by right; left|by left].
  right; right. exists ch. split; [done|]. split; [done|].
  destruct (accounted_relieves _ b c owns ch HL Hacc Hst) as [Hp|(j & t' & own & Hj & Ho & Hne & Hr)];
    [by left|]. right. exists j, t'. split; [done|]. split; [|done]. intros ->. congruence.
Qed.
End theorems.
