(* ===== verification/Client.v ===== *)
(** * The client: src/src/client.rs

    [Config], the connection of a [Client] (greetings, login, data stream), its tasks
    ([run_control_stream], [run_data_stream] and the task that sends beacons) and its methods. The
    channel of commands, the channel of messages and the one-shot channels of the answers are in one
    shared state; sockets and TLS are parameters. *)

From S2P Require Import Prelude Utf8 Proto Duration Io Commands Pubsub.

Definition DEFAULT_TIMEOUT : N := 5 * 10 ^ 9.
Definition DEFAULT_QUEUE_SIZE : N := 8192.
Definition ERR_COMMUNCATION_LOST : bytes := bs "Communication lost".

(** ** [Config] *)

Record Config : Type := mkConfig {
  path : bytes;
  user : bytes;
  password : bytes;
  timeout : N;
  socket_wait_timeout : N;
  queue_size : N;
  tls : bool;
  tls_ca : option bytes;
  need_data_stream : bool;
}.

Module Config.

Definition new (path : bytes) : Config :=
  mkConfig path [] [] DEFAULT_TIMEOUT DEFAULT_TIMEOUT DEFAULT_QUEUE_SIZE false None true.

Definition set_auth (user password : bytes) (c : Config) : Config :=
  mkConfig (path c) user password (timeout c) (socket_wait_timeout c) (queue_size c) (tls c)
    (tls_ca c) (need_data_stream c).

Definition disable_data_stream (c : Config) : Config :=
  mkConfig (path c) (user c) (password c) (timeout c) (socket_wait_timeout c) (queue_size c)
    (tls c) (tls_ca c) false.

Definition set_timeout (timeout : N) (c : Config) : Config :=
  mkConfig (path c) (user c) (password c) timeout (socket_wait_timeout c) (queue_size c) (tls c)
    (tls_ca c) (need_data_stream c).

Definition set_socket_wait_timeout (timeout' : N) (c : Config) : Config :=
  mkConfig (path c) (user c) (password c) (timeout c) timeout' (queue_size c) (tls c) (tls_ca c)
    (need_data_stream c).

Definition set_queue_size (size : N) (c : Config) : Config :=
  mkConfig (path c) (user c) (password c) (timeout c) (socket_wait_timeout c) size (tls c)
    (tls_ca c) (need_data_stream c).

Definition set_tls (tls : bool) (c : Config) : Config :=
  mkConfig (path c) (user c) (password c) (timeout c) (socket_wait_timeout c) (queue_size c) tls
    (tls_ca c) (need_data_stream c).

Definition set_tls_ca (ca : option bytes) (c : Config) : Config :=
  mkConfig (path c) (user c) (password c) (timeout c) (socket_wait_timeout c) (queue_size c)
    (tls c) ca (need_data_stream c).

Definition build (c : Config) : Config := c.

Definition update_tls_ca (value : bytes) (c : Config) : Config := set_tls_ca (Some value) c.

Definition update_path (path : bytes) (c : Config) : Config :=
  mkConfig path (user c) (password c) (timeout c) (socket_wait_timeout c) (queue_size c) (tls c)
    (tls_ca c) (need_data_stream c).

(** The fields of a configuration as the parser of a file finds them; [None] is a field that is not
    there. *)
Record Fields : Type := mkFields {
  f_path : bytes;
  f_user : option bytes;
  f_password : option bytes;
  f_timeout : option f64;
  f_socket_wait_timeout : option f64;
  f_queue_size : option N;
  f_tls : option bool;
  f_tls_ca : option bytes;
  f_need_data_stream : option bool;
}.

Definition get_default_timeout : N := DEFAULT_TIMEOUT.
Definition get_default_queue_size : N := DEFAULT_QUEUE_SIZE.

(** [None] is a panic. *)
Definition de_float_as_duration (secs : f64) : option N := from_secs_f64 secs.

(** A field of seconds with its default. *)
Definition seconds (field : option f64) : option N :=
  match field with
  | Some secs => de_float_as_duration secs
  | None => Some get_default_timeout
  end.

(** [Config::deserialize] *)
Definition deserialize (f : Fields) : option Config :=
  timeout ← seconds (f_timeout f);
  socket_wait_timeout ← seconds (f_socket_wait_timeout f);
  Some (mkConfig (f_path f) (default [] (f_user f)) (default [] (f_password f)) timeout
          socket_wait_timeout (default get_default_queue_size (f_queue_size f))
          (default false (f_tls f)) (f_tls_ca f) (default false (f_need_data_stream f))).

End Config.

(** ** Shared state *)

(** A command and the channel of its answer. *)
Record Command : Type := mkCommand {
  control_command : ControlCommand;
  response_channel : option nat;
}.

(** [tokio::sync::oneshot]: the sender sends one value or is dropped. *)
Class OneshotOps : Type := {
  oneshot : Type -> Type;
  os_channel {M} : oneshot M;
  os_send {M} : M -> oneshot M -> oneshot M;
  os_drop_sender {M} : oneshot M -> oneshot M;
  (** [rx.await]: [None] while it waits, [Some None] when the sender was dropped. *)
  os_recv {M} : oneshot M -> option (option M);
}.

Class OneshotLaws `{OneshotOps} : Type := {
  os_recv_channel {M} : os_recv (M:=M) os_channel = None;
  os_recv_send {M} (m : M) o : os_recv o = None -> os_recv (os_send m o) = Some (Some m);
  os_recv_drop {M} (o : oneshot M) : os_recv o = None -> os_recv (os_drop_sender o) = Some None;
  os_recv_sent {M} (o : oneshot M) r : os_recv o = Some r -> os_recv (os_drop_sender o) = Some r;
}.

(** The tasks that [connect] spawns, with what their closures captured. *)
Inductive ClientTask : Type :=
| ClientDataTask
| ClientControlTask (path : bytes) (beacon_interval timeout : N)
| ClientPinger (beacon_interval : N).

(** The channels, the one-shot channels by identity, the flag [connected], the tasks and whether
    [shutdown] aborted them, and whether the client still holds the receiver of the messages. *)
Record ClientState `{ChannelOps} `{OneshotOps} : Type := mkClientState {
  commands : chan Command;
  messages : chan Message;
  oneshots : gmap nat (oneshot (result unit Error));
  next_oneshot : nat;
  connected : bool;
  tasks : list ClientTask;
  tasks_aborted : bool;
  data_channel : bool;
}.
Arguments mkClientState {_ _} _ _ _ _ _ _ _ _.

Section client.
Context {CHO : ChannelOps} {OSO : OneshotOps}.

Definition set_commands (c : chan Command) (s : ClientState) : ClientState :=
  mkClientState c (messages s) (oneshots s) (next_oneshot s) (connected s) (tasks s)
    (tasks_aborted s) (data_channel s).

Definition set_messages (c : chan Message) (s : ClientState) : ClientState :=
  mkClientState (commands s) c (oneshots s) (next_oneshot s) (connected s) (tasks s)
    (tasks_aborted s) (data_channel s).

Definition set_oneshots (m : gmap nat (oneshot (result unit Error))) (n : nat) (s : ClientState) :
    ClientState :=
  mkClientState (commands s) (messages s) m n (connected s) (tasks s) (tasks_aborted s)
    (data_channel s).

Definition set_connected (b : bool) (s : ClientState) : ClientState :=
  mkClientState (commands s) (messages s) (oneshots s) (next_oneshot s) b (tasks s)
    (tasks_aborted s) (data_channel s).

Definition abort_all (s : ClientState) : ClientState :=
  mkClientState (commands s) (messages s) (oneshots s) (next_oneshot s) (connected s) (tasks s)
    true (data_channel s).

Definition set_data_channel (b : bool) (s : ClientState) : ClientState :=
  mkClientState (commands s) (messages s) (oneshots s) (next_oneshot s) (connected s) (tasks s)
    (tasks_aborted s) b.

Definition with_commands (f : chan Command -> chan Command) (s : ClientState) : ClientState :=
  set_commands (f (commands s)) s.

Definition with_messages (f : chan Message -> chan Message) (s : ClientState) : ClientState :=
  set_messages (f (messages s)) s.

(** ** Channels *)

Definition send_command (c : Command) (s : ClientState) : option (bool * ClientState) :=
  match ch_send c (commands s) with
  | Some (b, q) => Some (b, set_commands q s)
  | None => None
  end.

Definition recv_command (s : ClientState) : option (option Command * ClientState) :=
  match ch_recv (commands s) with
  | Some (c, q) => Some (c, set_commands q s)
  | None => None
  end.

Definition send_data (m : Message) (s : ClientState) : option (bool * ClientState) :=
  match ch_send m (messages s) with
  | Some (b, q) => Some (b, set_messages q s)
  | None => None
  end.

Definition new_oneshot (s : ClientState) : nat * ClientState :=
  (next_oneshot s,
   set_oneshots (<[next_oneshot s := os_channel]> (oneshots s)) (S (next_oneshot s)) s).

Definition alter_oneshot (f : oneshot (result unit Error) -> oneshot (result unit Error)) (i : nat)
    (s : ClientState) : ClientState :=
  set_oneshots (alter f i (oneshots s)) (next_oneshot s) s.

(** [if let Some(ch) = cmd.response_channel { let _r = ch.send(r); }] *)
Definition answer (cmd : Command) (r : result unit Error) (s : ClientState) : ClientState :=
  match response_channel cmd with
  | Some i => alter_oneshot (os_send r) i s
  | None => s
  end.

(** The end of the scope of a command: its sender, if it is still there, is dropped. *)
Definition drop_command (cmd : Command) (s : ClientState) : ClientState :=
  match response_channel cmd with
  | Some i => alter_oneshot os_drop_sender i s
  | None => s
  end.

(** A shared operation under [time::timeout]: alone, the task can only wait for the timer. *)
Definition await_timeout {X} (t : N) (f : ClientState -> option (X * ClientState)) :
    prog ClientState (option X) :=
  let try_ := fun s => match f s with Some (x, s') => (Some x, s') | None => (None, s) end in
  r <-- atomic try_ ;;
  match r with
  | Some x => Ret (Some x)
  | None => _ <-- sleep t ;; atomic try_
  end.

(** ** The control task *)

Definition handle_err (cmd : Command) (code : byte) : prog ClientState (result unit Error) :=
  let err := if decide (code = RESPONSE_ERR_ACCESS) then access (bs "Operation access denied")
             else io (bs "Server response error " ++ show_hex (to_N code)) in
  _ <-- modify (answer cmd (Err err)) ;;
  Ret (if decide (kind err = Io) then Err err else Ok tt).

(** The code that was received: an answer, or an error. *)
Definition handle_code (cmd : Command) (code : byte) : prog ClientState (result unit Error) :=
  if decide (code = RESPONSE_OK) then _ <-- modify (answer cmd (Ok tt)) ;; Ret (Ok tt)
  else handle_err cmd code.

Definition process_reply (cmd : Command) (timeout op_start : N) :
    prog ClientState (result unit Error) :=
  t <-- reduced timeout op_start ;;
  response_buf <-? read_with_timeout 1 t ;;
  handle_code cmd (hd x00 response_buf).

(** The head of a replicated message: priority, timestamp, length. *)
Definition repl_head (priority : byte) (message : bytes) (timestamp : N) : bytes :=
  priority :: to_le_bytes 8 timestamp ++ to_le_bytes 4 (wrap 32 (len message)).

(** The [match] on the command, after its bytes were written. *)
Definition finish_command (cmd : Command) (timeout op_start : N) :
    prog ClientState (result unit Error) :=
  match control_command cmd with
  | Publish _ _ message =>
      t <-- reduced timeout op_start ;;
      _ <-? write_with_timeout message t ;;
      process_reply cmd timeout op_start
  | PublishRepl priority _ message timestamp =>
      t <-- reduced timeout op_start ;;
      response_buf <-? read_with_timeout 1 t ;;
      let code := hd x00 response_buf in
      if decide (code = RESPONSE_OK_WAITING) then
        t <-- reduced timeout op_start ;;
        _ <-? write_with_timeout (repl_head priority message timestamp) t ;;
        t <-- reduced timeout op_start ;;
        _ <-? write_with_timeout message t ;;
        process_reply cmd timeout op_start
      else if decide (code = RESPONSE_NOT_REQUIRED) then
        _ <-- modify (answer cmd (Ok tt)) ;; Ret (Ok tt)
      else handle_err cmd code
  | _ => process_reply cmd timeout op_start
  end.

(** One command: its bytes, its completion, the end of its scope. *)
Definition execute (stream : SStream) (cmd : Command) (timeout op_start : N) :
    prog ClientState (result unit Error) :=
  r <-- (_ <-? swrite stream (ControlCommand.as_bytes (control_command cmd)) ;;
         finish_command cmd timeout op_start) ;;
  _ <-- modify (drop_command cmd) ;;
  Ret r.

Fixpoint run_control_stream (fuel : nat) (stream : SStream) (beacon_interval timeout op_start : N) :
    prog ClientState (option (result unit Error)) :=
  match fuel with
  | O => Ret None
  | S fuel =>
      cmd <-- await recv_command ;;
      match cmd with
      | None => Ret (Some (Ok tt))
      | Some cmd =>
          n <-- now ;;
          if bool_decide (control_command cmd = Nop) && (n - op_start <? beacon_interval)%N then
            _ <-- modify (drop_command cmd) ;;
            run_control_stream fuel stream beacon_interval timeout op_start
          else
            r <-- execute stream cmd timeout n ;;
            match r with
            | Err e => Ret (Some (Err e))
            | Ok _ => run_control_stream fuel stream beacon_interval timeout n
            end
      end
  end.

(** The task [control_fut]. *)
Definition control_task (fuel : nat) (stream : SStream) (beacon_interval timeout : N) :
    prog ClientState (option (result unit Error)) :=
  op_start <-- now ;;
  r <-- run_control_stream fuel stream beacon_interval timeout op_start ;;
  _ <-- modify (with_commands ch_drop_receiver) ;;
  _ <-- modify (set_connected false) ;;
  Ret r.

(** The task [control_ping_fut]. *)
Definition control_pinger (fuel : nat) (beacon_interval : N) : prog ClientState (option unit) :=
  r <-- iterate fuel (
    _ <-- sleep beacon_interval ;;
    sent <-- await (send_command (mkCommand Nop None)) ;;
    if sent : bool then Ret None
    else _ <-- modify (set_connected false) ;; Ret (Some tt)) ;;
  _ <-- modify (with_commands ch_drop_sender) ;;
  Ret r.

(** ** The data task *)

(** The body of the loop: [None] goes round again. *)
Definition data_round (stream : SStream) : prog ClientState (option Error) :=
  let timeout := get_timeout stream in
  op_start <-- now ;;
  r <-- sread stream 1 ;;
  match r with
  | Err e => Ret (Some e)
  | Ok buf =>
      if decide (hd x00 buf = OP_NOP) then Ret None
      else if decide (hd x00 buf = RESPONSE_OK) then
        r <-- (t <-- reduced timeout op_start ;;
               prio <-? read_with_timeout 1 t ;;
               t <-- reduced timeout op_start ;;
               frame <-? read_frame_with_timeout None t ;;
               Ret (Ok (hd x00 prio, frame))) ;;
        match r with
        | Err e => Ret (Some e)
        | Ok (priority, frame) =>
            match (from_buf frame priority).2 with
            | Ok v =>
                sent <-- await (send_data v) ;;
                Ret (if sent : bool then None else Some (internal ERR_COMMUNCATION_LOST))
            | Err e => Ret None
            end
        end
      else
        _ <-- await (send_command (mkCommand Bye None)) ;;
        Ret (Some (invalid_data (bs "Invalid frame from the data channel")))
  end.

Definition run_data_stream (fuel : nat) (stream : SStream) : prog ClientState (option Error) :=
  iterate fuel (data_round stream).

(** The task [data_fut]. *)
Definition client_data_task (fuel : nat) (stream : SStream) : prog ClientState (option Error) :=
  r <-- run_data_stream fuel stream ;;
  _ <-- modify (with_messages ch_drop_sender) ;;
  _ <-- modify (with_commands ch_drop_sender) ;;
  _ <-- modify (set_connected false) ;;
  Ret r.

End client.

(** ** Methods *)

Module Client.

Section methods.
Context {CHO : ChannelOps} {OSO : OneshotOps}.
(** [Display] of the error of a timer. *)
Variable elapsed : bytes.

(** The macro [exec_command!]. *)
Definition exec_command (cmd : ControlCommand) (timeout : N) :
    prog ClientState (result unit Error) :=
  rx <-- atomic new_oneshot ;;
  sent <-- await_timeout timeout (send_command (mkCommand cmd (Some rx))) ;;
  match sent with
  | None => Ret (Err (from_elapsed elapsed))
  | Some false => Ret (Err (internal ERR_COMMUNCATION_LOST))
  | Some true =>
      r <-- await_timeout timeout (fun s =>
              match oneshots s !! rx with
              | Some o => match os_recv o with Some v => Some (v, s) | None => None end
              | None => None
              end) ;;
      Ret (match r with
           | None => Err (from_elapsed elapsed)
           | Some None => Err (internal ERR_COMMUNCATION_LOST)
           | Some (Some v) => v
           end)
  end.

Definition is_connected : prog ClientState bool := asks connected.

Definition take_data_channel : prog ClientState bool :=
  atomic (fun s => (data_channel s, set_data_channel false s)).

Definition subscribe (topic : bytes) (timeout : N) := exec_command (Subscribe topic) timeout.

Definition unsubscribe (topic : bytes) (timeout : N) := exec_command (Unsubscribe topic) timeout.

Definition subscribe_bulk (topics : list bytes) (timeout : N) :=
  exec_command (SubscribeBulk topics) timeout.

Definition unsubscribe_bulk (topics : list bytes) (timeout : N) :=
  exec_command (UnsubscribeBulk topics) timeout.

Definition publish (priority : byte) (topic message : bytes) (timeout : N) :=
  exec_command (Publish priority topic message) timeout.

Definition publish_repl (priority : byte) (topic message : bytes) (timestamp timeout : N) :=
  exec_command (PublishRepl priority topic message timestamp) timeout.

Definition shutdown : prog ClientState unit := modify abort_all.

Definition bye (timeout : N) : prog ClientState (result unit Error) :=
  _ <-? exec_command Bye timeout ;;
  _ <-- modify (set_connected false) ;;
  _ <-- shutdown ;;
  Ret (Ok tt).

(** [Drop for Client] *)
Definition drop : prog ClientState unit := shutdown.
End methods.

End Client.

(** ** [Client::connect] *)

(** [config.path.rsplitn(2, ':').last()]: the path without its last [:] and what follows. *)
Fixpoint before_last_colon (path : bytes) : option bytes :=
  match path with
  | [] => None
  | b :: path' =>
      match before_last_colon path' with
      | Some p => Some (b :: p)
      | None => if decide (b = x3a) then Some [] else None
      end
  end.

Definition path_domain (path : bytes) : bytes := default path (before_last_colon path).

(** The login frame, with the 32-bit length as the code computes it. *)
Definition auth_buf (c : Config) : bytes :=
  to_le_bytes 4 (wrap 32 (wrap 32 (wrap 32 (len (user c)) + wrap 32 (len (password c))) + 1))
    ++ user c ++ x00 :: password c.

(** [timeout.as_secs()], at most 255, on one byte. *)
Definition timeout_secs (c : Config) : N := N.min (timeout c / 10 ^ 9) 255.

(** [Duration::from_millis(timeout_secs * 1000 / 2)] *)
Definition client_beacon (c : Config) : N := timeout_secs c * 1000 / 2 * 10 ^ 6.

(** What the standard library, the sockets and TLS do during [connect]. *)
Record Net (St : Type) : Type := mkNet {
  (** [path.exists()], by the instant. *)
  path_exists : N -> bool;
  (** [time::timeout(t, connect(path)).await]. *)
  dial : N -> prog St (result unit IoFail);
  net_nodelay : result unit IoError;
  (** [builder.add_root_certificate(Certificate::from_pem(ca)?)] and [builder.build()]. *)
  load_ca : bytes -> result unit bytes;
  build_tls : result unit bytes;
  (** [connector.connect(domain, stream)]. *)
  tls_connect : bytes -> prog St (result unit bytes);
}.
Arguments path_exists {St} _ _.
Arguments dial {St} _ _.
Arguments net_nodelay {St} _.
Arguments load_ca {St} _ _.
Arguments build_tls {St} _.
Arguments tls_connect {St} _ _.

Section connect.
Context {St : Type}.
Variable net : Net St.

(** The wait for the UNIX socket: the start of the operation afterwards. *)
Fixpoint wait_socket (fuel : nat) (wait op_start : N) : prog St (option (result N Error)) :=
  match fuel with
  | O => Ret None
  | S fuel =>
      n <-- now ;;
      if path_exists net n then n <-- now ;; Ret (Some (Ok n))
      else
        _ <-- sleep (100 * 10 ^ 6) ;;
        n <-- now ;;
        if (wait <? n - op_start)%N then Ret (Some (Err (io (bs "UNIX socket not found"))))
        else wait_socket fuel wait op_start
  end.

(** [tls_builder], or the error of the certificate. *)
Definition tls_builder (c : Config) : result unit Error :=
  if tls c then
    match tls_ca c with
    | Some ca => map_err from_tls_error (load_ca net ca)
    | None => Ok tt
    end
  else Ok tt.

(** A stream is opened and greeted: the UNIX branch, then the TCP branch of the code. *)
Definition open_stream (c : Config) (header : bytes) (dial_timeout op_start : N) :
    prog St (result SStream Error) :=
  r <-- dial net dial_timeout ;;
  _ <-? lift (map_err from_io_fail r) ;;
  if is_unix_socket (path c) then
    t <-- reduced (timeout c) op_start ;;
    _ <-? write_with_timeout (header ++ [COMM_INSECURE]) t ;;
    Ret (Ok (mkSStream (timeout c)))
  else
    _ <-? lift (map_err from_io_error (net_nodelay net)) ;;
    if tls c then
      t <-- reduced (timeout c) op_start ;;
      _ <-? write_with_timeout (header ++ [COMM_TLS]) t ;;
      _ <-? lift (map_err from_tls_error (build_tls net)) ;;
      r <-- tls_connect net (path_domain (path c)) ;;
      _ <-? lift (map_err from_tls_error r) ;;
      Ret (Ok (mkSStream (timeout c)))
    else
      t <-- reduced (timeout c) op_start ;;
      _ <-? write_with_timeout (header ++ [COMM_INSECURE]) t ;;
      Ret (Ok (mkSStream (timeout c))).

(** The header and the version of the server. *)
Definition read_reply (c : Config) (header name : bytes) (op_start : N) :
    prog St (result unit Error) :=
  t <-- reduced (timeout c) op_start ;;
  buf <-? read_with_timeout 2 t ;;
  if negb (bool_decide (buf = header)) then
    Ret (Err (invalid_data (bs "Invalid " ++ name ++ bs " header")))
  else
    t <-- reduced (timeout c) op_start ;;
    buf <-? read_with_timeout 2 t ;;
    Ret (if negb (from_le_bytes buf =? PROTOCOL_VERSION)%N
         then Err (invalid_data (bs "Protocol version unsupported"))
         else Ok tt).

(** The control stream up to the token. *)
Definition log_in (c : Config) (op_start : N) : prog St (result bytes Error) :=
  _ <-? read_reply c CONTROL_HEADER (bs "control") op_start ;;
  t <-- reduced (timeout c) op_start ;;
  _ <-? write_with_timeout (auth_buf c) t ;;
  t <-- reduced (timeout c) op_start ;;
  r <-- read_with_timeout 32 t ;;
  Ret (match r with
       | Ok token_buf => Ok token_buf
       | Err _ => Err (access (bs "Login failed"))
       end).

Definition connect_control (fuel : nat) (c : Config) :
    prog St (option (result (SStream * bytes * N) Error)) :=
  match tls_builder c with
  | Err e => Ret (Some (Err e))
  | Ok _ =>
      op_start <-- now ;;
      r <-- (if is_unix_socket (path c) then
               n <-- now ;;
               if path_exists net n then Ret (Some (Ok op_start))
               else wait_socket fuel (socket_wait_timeout c) op_start
             else Ret (Some (Ok op_start))) ;;
      match r with
      | None => Ret None
      | Some (Err e) => Ret (Some (Err e))
      | Some (Ok op_start) =>
          r <-- (stream <-? open_stream c CONTROL_HEADER (timeout c) op_start ;;
                 token <-? log_in c op_start ;;
                 Ret (Ok (stream, token, op_start))) ;;
          Ret (Some r)
      end
  end.

(** The data stream, with the token. *)
Definition connect_data (c : Config) (token : bytes) (op_start : N) :
    prog St (result SStream Error) :=
  t <-- reduced (timeout c) op_start ;;
  stream <-? open_stream c DATA_HEADER t op_start ;;
  _ <-? read_reply c DATA_HEADER (bs "data") op_start ;;
  t <-- reduced (timeout c) op_start ;;
  _ <-? write_with_timeout token t ;;
  t <-- reduced (timeout c) op_start ;;
  _ <-? write_with_timeout [byte_of_N (timeout_secs c)] t ;;
  t <-- reduced (timeout c) op_start ;;
  response_buf <-? read_with_timeout 1 t ;;
  Ret (if decide (hd x00 response_buf = RESPONSE_OK) then Ok stream
       else Err (access (bs "Data stream authentication failed"))).
End connect.

Section connected.
Context {CHO : ChannelOps} {OSO : OneshotOps}.

(** The client that [connect] returns: its channels and the tasks it spawned. *)
Definition fresh_client (c : Config) : ClientState :=
  let beacon := client_beacon c in
  let commands := ch_clone_sender (ch_bounded (queue_size c)) in
  let commands := if need_data_stream c then ch_clone_sender commands else commands in
  mkClientState commands (ch_bounded (queue_size c)) ∅ 0 true
    ((if need_data_stream c then [ClientDataTask] else [])
       ++ [ClientControlTask (path c) beacon (timeout c); ClientPinger beacon])
    false (need_data_stream c).

(** [async_channel::bounded(config.queue_size)] panics when the size is 0. *)
Definition new_client (c : Config) : option ClientState :=
  if (queue_size c =? 0)%N then None else Some (fresh_client c).

(** How [connect] ends. *)
Inductive Connected : Type :=
| Returned (r : result ClientState Error)
| ConnectPanics.

(** [Client::connect], alone: the control connection is that of the world, the data connection the
    one given. The command channel is made when the token is there, before the data connection. *)
Definition connect (net : Net unit) (fuel : nat) (c : Config) (data_conn : Conn)
    (w : World unit) : option Connected :=
  match run (connect_control net fuel c) w with
  | None | Some (None, _) => None
  | Some (Some (Err e), _) => Some (Returned (Err e))
  | Some (Some (Ok (_, token, op_start)), w') =>
      match new_client c with
      | None => Some ConnectPanics
      | Some client =>
          if need_data_stream c then
            match run (connect_data net c token op_start)
                    (mkWorld (clock w') data_conn (elapsed_display w') tt) with
            | None => None
            | Some (Err e, _) => Some (Returned (Err e))
            | Some (Ok _, _) => Some (Returned (Ok client))
            end
          else Some (Returned (Ok client))
      end
  end.
End connected.
