(* ===== verification/ClientSpec.v ===== *)
(** * Commands of the client, against the server

    The two ends of the protocol put together: what the client's tasks write is what the server's
    read and the other way round. This file has the connections that carry all their bytes at once,
    which Delivery.v, LoginSpec.v and ReplicationSpec.v use as well, and follows a command from its
    caller to the server and back. Time and failures are in ControlSpec.v, SessionSpec.v and
    ExecuteSpec.v. *)

From Stdlib Require Floats.SpecFloat.
From S2P Require Import Prelude Utf8 Proto Duration Io Commands Acl Topic Token Pubsub Reference.
From S2P Require Import PubsubSpec Passwords Keys Server ServerSpec Control ControlSpec Session.
From S2P Require Import SessionSpec Client.

(** ** Configurations *)

(** A configuration is read with the defaults of [new], but without the data stream, or it is not
    read at all, and then one of its two times is not a duration. *)
Theorem deserialize_spec f :
  match Config.deserialize f with
  | Some c =>
      Config.seconds (Config.f_timeout f) = Some (Client.timeout c) /\
      Config.seconds (Config.f_socket_wait_timeout f) = Some (socket_wait_timeout c) /\
      (f = Config.mkFields (Config.f_path f) None None None None None None None None ->
       c = Config.disable_data_stream (Config.new (Config.f_path f)))
  | None => exists secs, (Config.f_timeout f = Some secs \/ Config.f_socket_wait_timeout f = Some secs) /\
      from_secs_f64 secs = None
  end.
Proof.
  unfold Config.deserialize, Config.seconds, Config.de_float_as_duration.
  destruct f as [p u pw t t' q tl ca nd]; cbn.
  destruct t as [t|]; [destruct (from_secs_f64 t) as [n|] eqn:E; [|cbn; by eauto]|];
    (destruct t' as [t'|]; [destruct (from_secs_f64 t') as [n'|] eqn:E'; [|cbn; by eauto]|]);
    cbn; (split; [done|]); (split; [done|]); intros [=]; by subst.
Qed.

(** [Duration::from_secs_f64] panics where [deserialize] could return an error. *)
Theorem negative_timeout_panics f m e :
  Config.f_timeout f = Some (SpecFloat.S754_finite true m e) -> Config.deserialize f = None.
Proof. unfold Config.deserialize. by intros ->. Qed.

(** ** Connections without delays *)

Lemma set_clock_same {St} (w : World St) : set_clock (clock w) w = w.
Proof. by destruct w. Qed.

Lemma arrival_ready t l : arrival t (ready l) = t.
Proof. induction l as [|b l IH]; [done|]. simpl. fold (ready l). rewrite IH. lia. Qed.

Lemma run_read_ready {St} n t (w : World St) l rest :
  inp (conn w) = ready l ++ rest -> length l = n ->
  run (read_with_timeout n t) w = Some (Ok l, set_inp rest w).
Proof.
  intros Hi Hl. rewrite run_read, (read_exact_prefix (ready l) rest);
    [|done|by rewrite length_ready|apply available_ready].
  rewrite arrival_ready. simpl. by rewrite map_snd_ready.
Qed.

Lemma run_frame_ready {St} max t (w : World St) payload rest :
  inp (conn w) = ready (frame payload) ++ rest -> (len payload < 2 ^ 32)%N ->
  (forall m, max = Some m -> (len payload <= m)%N) ->
  run (read_frame_with_timeout max t) w = Some (Ok payload, set_inp rest w).
Proof.
  intros Hi Hl Hm. unfold frame in Hi. rewrite ready_app, <- app_assoc in Hi.
  rewrite run_read_frame, (read_exact_prefix (ready (to_le_bytes 4 (len payload))) (ready payload ++ rest));
    [|done|by rewrite length_ready, length_to_le_bytes|apply available_ready].
  rewrite map_snd_ready, arrival_ready. cbn zeta. rewrite from_to_le_bytes_small by done.
  replace (match max with Some m => _ | None => false end) with false by
    (destruct max as [m|]; [|done]; symmetry; apply N.ltb_ge; auto).
  rewrite (read_exact_prefix (ready payload) rest);
    [|done|rewrite length_ready; unfold len; lia|apply available_ready].
  rewrite arrival_ready, map_snd_ready. by destruct w.
Qed.

Lemma run_write_calm {St} b t (w : World St) :
  wr (conn w) = [] ->
  run (write_with_timeout b t) w = Some (Ok tt, set_wr [] (out (conn w) ++ [b]) w).
Proof.
  intros Hw. rewrite run_write. unfold write_all. rewrite Hw. cbn [hd tl].
  rewrite (proj2 (N.leb_le 0 t)) by lia. simpl. by rewrite N.add_0_r.
Qed.

(** ** One command *)

Section commands.
Context {CHO : ChannelOps} {CHL : ChannelLaws} {OSO : OneshotOps} {OSL : OneshotLaws}.

(** What a response code means to the caller. *)
Definition reply_of (code : byte) : result unit Error :=
  if decide (code = RESPONSE_OK) then Ok tt
  else if decide (code = RESPONSE_ERR_ACCESS) then Err (access (bs "Operation access denied"))
  else Err (io (bs "Server response error " ++ show_hex (to_N code))).

(** What it means to the connection: every failure but a denial ends it. *)
Definition survives (r : result unit Error) : result unit Error :=
  match r with
  | Err e => if decide (kind e = Io) then Err e else Ok tt
  | Ok _ => Ok tt
  end.

(** The command's own bytes, and those of a message. *)
Definition request (c : ControlCommand) : list bytes :=
  ControlCommand.as_bytes c :: match c with Publish _ _ message => [message] | _ => [] end.

Lemma run_handle_code cmd code (w : World ClientState) :
  run (handle_code cmd code) w =
    Some (survives (reply_of code), set_shared (answer cmd (reply_of code) (shared w)) w).
Proof.
  unfold handle_code, handle_err, reply_of. destruct (decide (code = RESPONSE_OK)); [done|].
  by destruct (decide (code = RESPONSE_ERR_ACCESS)).
Qed.

Lemma run_process_reply cmd t op code rest (w : World ClientState) :
  inp (conn w) = ready [code] ++ rest ->
  run (process_reply cmd t op) w =
    Some (survives (reply_of code),
          set_shared (answer cmd (reply_of code) (shared w)) (set_inp rest w)).
Proof.
  intros Hi. unfold process_reply. rewrite run_bind, run_reduced, run_qbind.
  rewrite (run_read_ready 1 _ w [code] rest) by done. by rewrite run_handle_code.
Qed.

(** A command and the answer to it. *)
Lemma run_execute stream cmd t op code rest (w : World ClientState) :
  (forall p tp m ts, control_command cmd <> PublishRepl p tp m ts) ->
  wr (conn w) = [] -> inp (conn w) = ready [code] ++ rest ->
  run (execute stream cmd t op) w =
    Some (survives (reply_of code),
      set_shared (drop_command cmd (answer cmd (reply_of code) (shared w)))
        (set_inp rest (set_wr [] (out (conn w) ++ request (control_command cmd)) w))).
Proof.
  intros Hn Hw Hi. unfold execute. rewrite run_bind, run_qbind. unfold swrite.
  rewrite run_write_calm by done.
  assert (run (finish_command cmd t op)
            (set_wr [] (out (conn w) ++ [ControlCommand.as_bytes (control_command cmd)]) w) =
          Some (survives (reply_of code), set_shared (answer cmd (reply_of code) (shared w))
            (set_inp rest (set_wr [] (out (conn w) ++ request (control_command cmd)) w)))) as ->;
    [|done].
  unfold finish_command. destruct (control_command cmd) eqn:Ec;
    try (by rewrite (run_process_reply _ _ _ code rest)); [|by destruct (Hn priority topic message timestamp)].
  rewrite run_bind, run_reduced, run_qbind, run_write_calm by done.
  rewrite (run_process_reply _ _ _ code rest) by done. simpl. by rewrite <- app_assoc.
Qed.

(** The caller's one-shot channel after the answer. *)
Lemma answered cmd i o r (s : ClientState) :
  response_channel cmd = Some i -> oneshots s !! i = Some o -> os_recv o = None ->
  exists o', oneshots (drop_command cmd (answer cmd r s)) !! i = Some o' /\
    os_recv o' = Some (Some r).
Proof.
  intros Hi Ho Hr. unfold drop_command, answer. rewrite Hi. simpl.
  rewrite !lookup_alter_eq, Ho. simpl. eexists. split; [done|].
  by apply os_recv_sent, os_recv_send.
Qed.

(** A command whose answer never comes. *)
Lemma run_execute_lost stream cmd t op (w : World ClientState) :
  (forall p tp m ts, control_command cmd <> PublishRepl p tp m ts) ->
  wr (conn w) = [] -> inp (conn w) = [] ->
  exists e w', run (execute stream cmd t op) w = Some (Err e, w') /\
    shared w' = drop_command cmd (shared w) /\
    out (conn w') = out (conn w) ++ request (control_command cmd).
Proof.
  intros Hn Hw Hi. unfold execute. rewrite run_bind, run_qbind. unfold swrite.
  rewrite run_write_calm by done. set (w1 := set_wr [] _ w).
  assert (forall w2 : World ClientState, inp (conn w2) = [] -> exists e w3,
    run (process_reply cmd t op) w2 = Some (Err e, w3) /\ shared w3 = shared w2 /\
    out (conn w3) = out (conn w2)) as Hlost.
  { intros w2 Hi2. unfold process_reply. rewrite run_bind, run_reduced, run_qbind, run_read.
    set (t' := reduce_timeout t op (clock w2)).
    pose proof (read_exact_frame 1 t' w2) as (Hs & _ & Ho & _).
    destruct (read_exact 1 t' w2) as [[l|e] w3] eqn:E; simpl in *.
    - apply read_exact_Ok in E as [Hl Happ]. rewrite Hi2 in Happ.
      destruct l; [done|discriminate].
    - by eexists _, w3. }
  assert (exists e w2, run (finish_command cmd t op) w1 = Some (Err e, w2) /\
    shared w2 = shared w /\ out (conn w2) = out (conn w) ++ request (control_command cmd))
    as (e & w2 & -> & Hs & Ho).
  { unfold finish_command. destruct (control_command cmd) eqn:Ec;
      try (destruct (Hlost w1 Hi) as (e & w3 & H1 & H2 & H3); exists e, w3;
           split; [exact H1|]; split; [by rewrite H2|by rewrite H3]);
      [|by destruct (Hn priority topic message timestamp)].
    rewrite run_bind, run_reduced, run_qbind, run_write_calm by done.
    destruct (Hlost (set_wr [] (out (conn w1) ++ [message]) w1) Hi) as (e & w3 & H1 & H2 & H3).
    exists e, w3. split; [exact H1|]. split; [by rewrite H2|]. rewrite H3. simpl.
    by rewrite <- app_assoc. }
  eexists e, _. split; [done|]. simpl. by rewrite Hs, Ho.
Qed.
End commands.

(** ** Both ends *)

Section exchange.
Context {SMO : SubMapOps} {SML : SubMapLaws} {CHO : ChannelOps} {CHL : ChannelLaws}
  {SHO : Sha256Ops} {BCO : BcryptOps} {OSO : OneshotOps} {OSL : OneshotLaws}.

Lemma arrives_ready {w : World Server} {l rest t} :
  inp (conn w) = ready l ++ rest -> arrives w (ready l) l t rest.
Proof. intros Hi. split; [done|]. split; [apply map_snd_ready|apply available_ready]. Qed.

Lemma run_respond_calm stream status b (w : World Server) :
  wr (conn w) = [] ->
  run (_ <-? respond_status stream status ;; Ret (Ok (b : bool))) w =
    Some (Ok b, set_wr [] (out (conn w) ++ [[status]]) w).
Proof.
  intros Hw. rewrite run_qbind. unfold respond_status, swrite. by rewrite run_write_calm.
Qed.

(** C6: a publication from the caller's command to its answer: the server's round on exactly the
    bytes of the client's command, and the client's command on exactly the bytes of the server's
    response. The caller learns of success only when the message, under the topic it gave, was
    delivered to the subscribers with the permission of the access rules; it is denied exactly when
    the rules do not let it write the topic; in every case but success the server's database and
    queues are as they were. *)
Theorem publish_exchange (stream cstream : SStream) (client : ServerClient) (acl : Acl)
    (priority : byte) (topic message : bytes) (i : nat) (o : oneshot (result unit Error))
    (t op : N) (ws : World Server) (wc : World ClientState) (rest : list (N * byte)) :
  topic_text topic -> payload_fits (Publish priority topic message) ->
  (len (command_payload (Publish priority topic message)) <= max_pub_size (shared ws))%N ->
  hub_ok (hub (shared ws)) ->
  wr (conn ws) = [] -> out (conn ws) = [] -> wr (conn wc) = [] -> out (conn wc) = [] ->
  oneshots (shared wc) !! i = Some o -> os_recv o = None ->
  inp (conn ws) = ready (concat (request (Publish priority topic message))) ++ rest ->
  exists r ws', run (control_step None stream client acl (ss_timeout stream)) ws = Some (r, ws') /\
    (inp (conn wc) = ready (concat (out (conn ws'))) -> exists rc wc' o',
       run (execute cstream (mkCommand (Publish priority topic message) (Some i)) t op) wc =
         Some (rc, wc') /\
       out (conn wc') = request (Publish priority topic message) /\
       oneshots (shared wc') !! i = Some o' /\
       let depth := max_depth (shared ws) in
       match os_recv o' with
       | Some (Some (Ok _)) => exists tp,
           prepare_topic depth topic = Ok tp /\ contains_invalid tp = false /\
           Acl.allow_write acl tp = true /\
           hub (shared ws') = published priority tp message (server_now_ns (shared ws))
                                (hub (shared ws))
       | Some (Some (Err e)) =>
           hub (shared ws') = hub (shared ws) /\
           (kind e = AccessDenied <-> exists tp, prepare_topic depth topic = Ok tp /\
              contains_invalid tp = false /\ Acl.allow_write acl tp = false)
       | Some None =>
           hub (shared ws') = hub (shared ws) /\ (exists e, r = Err e) /\
           exists tp, prepare_topic depth topic = Ok tp /\ contains_invalid tp = true
       | None => False
       end).
Proof.
  intros Ht Hfit Hmax Hok Hws Hos Hwc Hoc Ho Hr Hi.
  assert (concat (request (Publish priority topic message)) =
    OP_PUBLISH :: priority :: frame (topic ++ x00 :: message)) as Hreq.
  { rewrite <- as_bytes_publish by done. simpl. by rewrite app_nil_r. }
  rewrite Hreq in Hi. pose proof (arrives_ready (t:=ss_timeout stream) Hi) as Ha.
  destruct (run_publish stream client acl priority _ _ _ _ Ha Hfit Hmax Hok) as (c & _ & Hrun).
  rewrite Hrun. unfold publish_effect. rewrite split_publication_text by done.
  set (cmd := mkCommand (Publish priority topic message) (Some i)).
  assert (forall code, inp (conn wc) = ready (concat [[code]]) ->
    exists rc wc' o', run (execute cstream cmd t op) wc = Some (rc, wc') /\
      out (conn wc') = request (Publish priority topic message) /\
      oneshots (shared wc') !! i = Some o' /\ os_recv o' = Some (Some (reply_of code))) as Hans.
  { intros code Hin. eexists _, _. rewrite (run_execute cstream cmd t op code []);
      [|done|done|by rewrite app_nil_r].
    destruct (answered cmd i o (reply_of code) (shared wc)) as (o' & H1 & H2); [done..|].
    exists o'. split; [done|]. simpl. by rewrite Hoc. }
  destruct (prepare_topic (max_depth _) topic) as [tp|e] eqn:Ep;
    [destruct (contains_invalid tp) eqn:Ec; [|destruct (Acl.allow_write acl tp) eqn:Ea]|].
  - eexists _, _. split; [done|]. intros Hin. simpl in Hin. rewrite Hos in Hin.
    destruct (run_execute_lost cstream cmd t op wc) as (e & wc' & H1 & H2 & H3); [done..|].
    eexists _, wc', (os_drop_sender o). split; [exact H1|].
    split; [by rewrite H3, Hoc|]. split; [by rewrite H2; simpl; rewrite lookup_alter_eq, Ho|].
    cbv zeta. rewrite os_recv_drop by done. split; [done|]. split; [by eexists|]. by exists tp.
  - rewrite run_respond_calm by done. eexists _, _. split; [done|]. simpl. rewrite Hos.
    intros Hin. destruct (Hans _ Hin) as (rc & wc' & o' & H1 & H2 & H3 & H4).
    exists rc, wc', o'. do 3 (split; [done|]). rewrite H4. simpl. by exists tp.
  - rewrite run_respond_calm by done. eexists _, _. split; [done|]. simpl. rewrite Hos.
    intros Hin. destruct (Hans _ Hin) as (rc & wc' & o' & H1 & H2 & H3 & H4).
    exists rc, wc', o'. do 3 (split; [done|]). rewrite H4. simpl. split; [done|].
    split; [|done]. intros _. by exists tp.
  - rewrite run_respond_calm by done. eexists _, _. split; [done|]. simpl. rewrite Hos.
    intros Hin. destruct (Hans _ Hin) as (rc & wc' & o' & H1 & H2 & H3 & H4).
    exists rc, wc', o'. do 3 (split; [done|]). rewrite H4. simpl. split; [done|].
    split; [done|]. by intros (tp & [=] & _).
Qed.
End exchange.

(** ** Witnesses *)

(** A one-shot channel: nothing yet, a value, or a dropped sender. *)
#[export] Instance ref_oneshot : OneshotOps := {|
  oneshot M := option (option M);
  os_channel M := None;
  os_send M m o := match o with None => Some (Some m) | Some r => Some r end;
  os_drop_sender M o := match o with None => Some None | Some r => Some r end;
  os_recv M o := o;
|}.

#[export] Program Instance ref_oneshot_laws : OneshotLaws.
Next Obligation. done. Qed.
Next Obligation. intros M m o E. simpl in *. by rewrite E. Qed.
Next Obligation. intros M o E. simpl in *. by rewrite E. Qed.
Next Obligation. intros M o r E. simpl in *. by rewrite E. Qed.

#[local] Existing Instance demo_bcrypt.

Definition demo_config : Config := Config.new (bs "localhost:2873").

Definition demo_net : Net unit :=
  mkNet unit (fun _ => true) (fun _ => Ret (Ok tt)) (Ok tt) (fun _ => Ok tt) (Ok tt)
    (fun _ => Ret (Ok tt)).

(** A client that waits for an answer, with the bytes it is going to read. *)
Definition client_world (input : bytes) : World ClientState :=
  mkWorld 0 (mkConn (ready input) None [] []) (bs "deadline has elapsed")
    (mkClientState (ch_bounded 8) (ch_bounded 8) {[ 0 := os_channel ]} 1 true [] false true).

Definition demo_publish : ControlCommand := Publish x7f (bs "sensors/1") (bs "on").

Lemma publish_exchange_witness :
  exists r ws' rc wc' o',
    run (control_step None (mkSStream 5) demo_client Acl.new_full 5)
      (demo_world (concat (request demo_publish))) = Some (r, ws') /\
    out (conn ws') = [[RESPONSE_OK]] /\
    run (execute (mkSStream 5) (mkCommand demo_publish (Some 0)) 5 0)
      (client_world [RESPONSE_OK]) = Some (rc, wc') /\
    oneshots (shared wc') !! 0 = Some o' /\ os_recv o' <> Some None.
Proof.
  assert (match run (control_step None (mkSStream 5) demo_client Acl.new_full 5)
            (demo_world (concat (request demo_publish))) with
          | Some (_, ws') => out (conn ws')
          | None => []
          end = [[RESPONSE_OK]]) as Hout by vm_refl.
  destruct (publish_exchange (mkSStream 5) (mkSStream 5) demo_client Acl.new_full x7f
              (bs "sensors/1") (bs "on") 0 os_channel 5 0
              (demo_world (concat (request demo_publish))) (client_world [RESPONSE_OK]) [])
    as (r & ws' & Hr & Hx);
    [apply topic_text_ascii; vm_compute; reflexivity|vm_compute; reflexivity
    |vm_compute; discriminate|apply demo_live_ok|reflexivity|reflexivity|reflexivity|reflexivity
    |reflexivity|reflexivity|by rewrite app_nil_r|].
  fold demo_publish in Hr, Hx. change (ss_timeout (mkSStream 5)) with 5%N in Hr.
  rewrite Hr in Hout. destruct Hx as (rc & wc' & o' & H1 & _ & H3 & H4); [by rewrite Hout|].
  exists r, ws', rc, wc', o'. do 4 (split; [assumption|]). intros E. rewrite E in H4.
  destruct H4 as (_ & [e ->] & _).
  assert (match run (control_step None (mkSStream 5) demo_client Acl.new_full 5)
            (demo_world (concat (request demo_publish))) with
          | Some (Ok _, _) => true | _ => false end = true) as Hok by vm_refl.
  by rewrite Hr in Hok.
Defined.
