(* ===== verification/Board.v ===== *)
(** * The board: what the sessions of the server do together

    An executable specification of the server as its clients see it: a table of the members, each
    with the patterns it follows and the queue of its data stream, and an interpreter of requests on
    this table. The theorem runs the programs of the server ([serve] around [process_control], and
    [handle_data_stream]) on the bytes that clients send, one request or one message after the
    other, for any number of clients and in any order, and finds that every answer, every byte of a
    data stream and the state of the hub after it are those of the interpreter. *)

From S2P Require Import Prelude Utf8 Proto Io Commands Client ClientSpec Acl Topic Token Pubsub.
From S2P Require Import Reference PubsubSpec Passwords Keys Server ServerSpec Control ControlSpec.
From S2P Require Import Session SessionSpec.

(** ** The specification *)

Record Member : Type := mkMember {
  who : ServerClient;
  patterns : gset bytes;
  queue : option (ChanView MessageFrame);
}.

(** The members, by the digest of their token. *)
Abbreviation Board := (gmap bytes Member).

Inductive Outcome : Type :=
| Waits
| Done (written : bytes) (goes_on : bool).

(** A client with these access rules sends a command at this time; the data stream of a client,
    where the last frame was written at [last], looks for a message at [clock]. *)
Inductive Event : Type :=
| Ask (c : ServerClient) (acl : Acl) (time : Z * Z) (cmd : ControlCommand)
| Take (c : ServerClient) (clock last interval : N).

(** The normal forms of the topics before the first one that is refused, and the status. *)
Fixpoint admits (acl : Acl) (depth : N) (ts : list bytes) : list bytes * byte :=
  match ts with
  | [] => ([], RESPONSE_OK)
  | t :: ts =>
      if Acl.allow_read acl t then
        match prepare_topic depth t with
        | Ok p => let '(ps, st) := admits acl depth ts in (p :: ps, st)
        | Err _ => ([], RESPONSE_ERR)
        end
      else ([], RESPONSE_ERR_ACCESS)
  end.

(** The same without rules: whoever leaves a topic needs no permission. *)
Fixpoint normals (depth : N) (ts : list bytes) : list bytes * byte :=
  match ts with
  | [] => ([], RESPONSE_OK)
  | t :: ts =>
      match prepare_topic depth t with
      | Ok p => let '(ps, st) := normals depth ts in (p :: ps, st)
      | Err _ => ([], RESPONSE_ERR)
      end
  end.

Definition with_patterns (f : gset bytes -> gset bytes) (x : Member) : Member :=
  mkMember (who x) (f (patterns x)) (queue x).

Definition with_queue (f : ChanView MessageFrame -> option (ChanView MessageFrame)) (x : Member) :
    Member :=
  mkMember (who x) (patterns x) (queue x ≫= f).

(** What the data stream writes for a message: beacons only when the interval is over. *)
Definition letter (clock last interval : N) (m : MessageFrame) : bytes :=
  if decide (hd x00 (mframe m) = OP_NOP)
  then if (clock - last <? interval)%N then [] else [OP_NOP]
  else mframe m ++ default [] (mdata m).

Section board.
Context {SMO : SubMapOps} {SML : SubMapLaws}.
(** The limit of depth. *)
Variable depth : N.

Definition follows (t : bytes) (x : Member) : bool :=
  existsb (fun p => pattern_matches p t) (elements (patterns x)).

(** Every member that follows the topic is offered the message: without room it loses its queue. *)
Definition post (t : bytes) (m : MessageFrame) (b : Board) : Board :=
  (fun x => if follows t x then with_queue (offer m) x else x) <$> b.

Definition responds_on (b : Board) (st : byte) : Outcome * Board := (Done [st] true, b).

Definition leaves (c : ServerClient) (written : bytes) (b : Board) : Outcome * Board :=
  (Done written false, delete (digest c) b).

Definition ask (c : ServerClient) (acl : Acl) (now : N) (cmd : ControlCommand) (b : Board) :
    Outcome * Board :=
  let subscribes '(ps, st) :=
    responds_on (alter (with_patterns (fun qs => list_to_set ps ∪ qs)) (digest c) b) st in
  let unsubscribes '(ps, st) :=
    responds_on (alter (with_patterns (fun qs => qs ∖ list_to_set ps)) (digest c) b) st in
  match cmd with
  | Nop => responds_on b RESPONSE_OK
  | Subscribe t => subscribes (admits acl depth [t])
  | SubscribeBulk ts => subscribes (admits acl depth ts)
  | Unsubscribe t => unsubscribes (normals depth [t])
  | UnsubscribeBulk ts => unsubscribes (normals depth ts)
  | Publish priority t message =>
      match prepare_topic depth t with
      | Err _ => responds_on b RESPONSE_ERR
      | Ok t =>
          if contains_invalid t then leaves c [] b
          else if Acl.allow_write acl t
          then responds_on (post t (message_frame priority t message now) b) RESPONSE_OK
          else responds_on b RESPONSE_ERR_ACCESS
      end
  | PublishRepl _ _ _ _ => leaves c [] b
  | Bye => leaves c [RESPONSE_OK] b
  end.

Definition take_letter (c : ServerClient) (clock last interval : N) (x : Member) (b : Board) :
    Outcome * Board :=
  match queue x with
  | None => (Waits, b)
  | Some v =>
      match ch_queue v with
      | m :: q =>
          (Done (letter clock last interval m) true,
           alter (with_queue (fun v => Some (mkChanView (ch_cap v) q (ch_senders v) (ch_receivers v))))
             (digest c) b)
      | [] => if view_open v then (Waits, b) else (Done [] false, b)
      end
  end.

(** Who is no member does nothing. *)
Definition board_step (e : Event) (b : Board) : Outcome * Board :=
  let c := match e with Ask c _ _ _ | Take c _ _ _ => c end in
  match b !! digest c with
  | None => (Waits, b)
  | Some x =>
      if decide (who x = c) then
        match e with
        | Ask c acl time cmd => ask c acl (now_ns time) cmd b
        | Take c clock last interval => take_letter c clock last interval x b
        end
      else (Waits, b)
  end.
End board.

(** A run of events, on the board and on the server. *)
Fixpoint steps {S} (step : Event -> S -> Outcome * S) (es : list Event) (s : S) :
    list Outcome * S :=
  match es with
  | [] => ([], s)
  | e :: es =>
      let '(o, s) := step e s in
      let '(os, s) := steps step es s in
      (o :: os, s)
  end.

(** ** The server *)

Section server.
Context {SMO : SubMapOps} {SML : SubMapLaws} {CHO : ChannelOps} {CHL : ChannelLaws}
  {SHO : Sha256Ops} {BCO : BcryptOps}.
(** The timeout of the connections. *)
Variable T : N.

(** A connection on which these bytes have come, and which takes what is written. *)
Definition asking (clock : N) (input : bytes) (s : Server) : World Server :=
  mkWorld clock (mkConn (ready input) None [] []) [] s.

(** One round of a loop: it goes on when it has no result yet; the server stays when it waits. *)
Definition settle {R} (s : Server) (r : option (option R * World Server)) : Outcome * Server :=
  match r with
  | None => (Waits, s)
  | Some (r, w) =>
      (Done (concat (out (conn w))) (match r with None => true | Some _ => false end), shared w)
  end.

Definition server_step (e : Event) (s : Server) : Outcome * Server :=
  let c := match e with Ask c _ _ _ | Take c _ _ _ => c end in
  if decide (clients_by_token (hub_db (hub s)) !! token c = Some c) then
    match e with
    | Ask c acl time cmd =>
        settle s (run (serve None 1 (mkSStream T) c acl T)
                    (asking 0 (concat (request cmd)) (set_wall time s)))
    | Take c clock last interval =>
        match client_data_channel c (hub s) with
        | None => (Waits, s)
        | Some ch =>
            settle s (run (handle_data_stream 1 (mkSStream T) ch T interval last) (asking clock [] s))
        end
    end
  else (Waits, s).

(** The board of a hub. *)
Definition board_of (h : Hub) : Board :=
  (fun '(c, ps) => mkMember c ps (queue_of c h)) <$> view h.

(** *** The hub and its board *)

Lemma board_lookup h d :
  board_of h !! d = (fun '(c, ps) => mkMember c ps (queue_of c h)) <$> view h !! d.
Proof. unfold board_of. by rewrite lookup_fmap. Qed.

(** Who is registered is on the board, under its own digest. *)
Lemma board_registered h c :
  hub_ok h -> (registered c h <-> exists x, board_of h !! digest c = Some x /\ who x = c).
Proof.
  intros [Hok _]. setoid_rewrite board_lookup. split.
  - intros [ps Hps]%registered_view; [|done]. rewrite Hps. by eexists.
  - intros (x & Hx & Hw). destruct (view h !! digest c) as [[c' ps]|] eqn:E; simplify_eq/=.
    by apply view_registered in E as [].
Qed.

Lemma board_patterns h h' f d :
  view h' = alter (fun '(c, ps) => (c, f ps)) d (view h) -> cells h' = cells h ->
  chans h' = chans h -> board_of h' = alter (with_patterns f) d (board_of h).
Proof.
  intros Hv Hc Hch. apply map_eq. intros i. rewrite board_lookup, Hv, !lookup_alter, !board_lookup.
  assert (forall c, queue_of c h' = queue_of c h) as Hq
    by (intros c; unfold queue_of, client_data_channel; by rewrite Hc, Hch).
  case_decide; [subst|]; destruct (view h !! _) as [[c ps]|]; simpl; unfold with_patterns; simpl;
    by rewrite ?Hq.
Qed.

(** Two hubs with the same members whose queues agree but for those that [f] tells about. *)
Lemma board_queues h h' (f : Member -> Member) :
  hub_ok h -> view h' = view h ->
  (forall c ps, registered c h -> view h !! digest c = Some (c, ps) ->
     mkMember c ps (queue_of c h') = f (mkMember c ps (queue_of c h))) ->
  board_of h' = f <$> board_of h.
Proof.
  intros [Hok _] Hv Hq. apply map_eq. intros i. rewrite lookup_fmap, !board_lookup, Hv.
  destruct (view h !! i) as [[c ps]|] eqn:E; [|done]. simpl. f_equal.
  pose proof (view_registered h i c ps Hok E) as [Hr <-]. by apply Hq.
Qed.

Lemma board_published priority topic data ts h :
  hub_ok h ->
  board_of (published priority topic data ts h) =
    post topic (message_frame priority topic data ts) (board_of h).
Proof.
  intros Hok. destruct (published_spread priority topic data ts h Hok) as [Hdb Hq].
  apply board_queues; [done|unfold view; by rewrite Hdb|]. intros c ps Hr Hv.
  rewrite (Hq c Hr). unfold follows. simpl.
  assert (existsb (fun p => pattern_matches p topic) (elements ps) =
    bool_decide (c ∈ get_subscribers topic h)) as ->; [|by case_bool_decide].
  apply eq_true_iff_eq. rewrite bool_decide_eq_true, get_subscribers_spec, existsb_exists.
  setoid_rewrite <- list_elem_of_In. setoid_rewrite elem_of_elements. split.
  - intros (p & ? & ?). by exists ps, p.
  - intros (ps' & p & Hv' & ? & ?). exists p. by rewrite Hv in Hv'; simplify_eq.
Qed.

(** *** The end of a session *)

(** Nothing happened to the objects of other clients. *)
Record apart (c : ServerClient) (h h' : Hub) : Prop := {
  ap_cells i : i <> sc_id c -> cells h' !! i = cells h !! i;
  ap_chans ch : client_data_channel c h <> Some ch -> chans h' !! ch = chans h !! ch;
  ap_own : client_data_channel c h' = client_data_channel c h \/ client_data_channel c h' = None;
}.

Lemma apart_trans c h1 h2 h3 : apart c h1 h2 -> apart c h2 h3 -> apart c h1 h3.
Proof.
  intros [A1 A2 A3] [B1 B2 B3]. split.
  - intros i Hi. by rewrite B1, A1.
  - intros ch Hch. rewrite B2; [by apply A2|]. by destruct A3 as [-> | ->].
  - by destruct B3 as [-> | ->]; [|right].
Qed.

Lemma apart_update_cell f c h :
  (forall cell, data_channel (f cell) = data_channel cell \/ data_channel (f cell) = None) ->
  apart c h (update_cell f c h).
Proof.
  intros Hf. split; [|done|].
  - intros i Hi. simpl. by rewrite lookup_alter_ne.
  - unfold client_data_channel. simpl. rewrite lookup_alter_eq.
    destruct (cells h !! sc_id c) as [cell|]; simpl; [apply Hf|by left].
Qed.

Lemma apart_abort_tasks c h : apart c h (abort_tasks c h).
Proof.
  destruct (apart_update_cell (fun cell => mkCell (data_channel cell) [] (strong cell)) c
    (set_aborted (list_to_set (default [] (tasks <$> cells h !! sc_id c)) ∪ aborted h) h)) as [A B C];
    [by left|]. by split.
Qed.

Lemma apart_drop_sender c h h' :
  apart c h h' -> apart c h (drop_sender (client_data_channel c h) h').
Proof.
  intros [A B C]. destruct (client_data_channel c h) as [ch0|] eqn:E; [|by split; rewrite ?E].
  split; rewrite ?E; [done| |done]. intros ch Hch. simpl.
  rewrite lookup_alter_ne by congruence. apply B. congruence.
Qed.

Lemma apart_drop_client c h : apart c h (drop_client c h).
Proof.
  unfold drop_client. destruct (strong <$> _) as [[|[|n]]|]; try (by split; auto);
    [|by apply apart_update_cell; left].
  apply apart_drop_sender. eapply apart_trans; [apply apart_abort_tasks|].
  apply apart_update_cell. by right.
Qed.

Lemma apart_queue c c' h h' :
  hub_ok h -> registered c h -> registered c' h -> c' <> c -> apart c h h' ->
  queue_of c' h' = queue_of c' h.
Proof.
  intros [_ Hst] Hc Hc' Hne [A B _].
  assert (sc_id c' <> sc_id c) as Hid by (intros E; by apply Hne, (ok_id _ Hst)).
  unfold queue_of, client_data_channel. rewrite A by done.
  destruct (cells h !! sc_id c' ≫= data_channel) as [ch|] eqn:E; [|done]. simpl. rewrite B; [done|].
  unfold client_data_channel. intros E'. apply bind_Some in E as (x & ? & ?).
  apply bind_Some in E' as (y & ? & ?). by apply Hid, (ok_slot_inj _ Hst _ _ x y ch).
Qed.

(** What [serve] does when the control loop has ended. *)
Definition session_end (c : ServerClient) (h : Hub) : Hub :=
  drop_client c (abort_tasks c (unregister_client c h)).

Lemma view_session_end c h : view (session_end c h) = delete (digest c) (view h).
Proof.
  unfold view, session_end. rewrite hub_db_drop_client. simpl.
  rewrite hub_db_unregister_client. apply sm_unregister_view.
Qed.

Lemma apart_session_end c h : registered c h -> apart c h (session_end c h).
Proof.
  intros Hc. unfold session_end. eapply apart_trans; [|apply apart_drop_client].
  eapply apart_trans; [|apply apart_abort_tasks]. unfold unregister_client.
  unfold registered, by_token in Hc. rewrite Hc.
  destruct (apart_drop_client c (set_db (mkServerClientDB (sm_unregister c (submap_of (hub_db h)))
    (delete (token c) (clients_by_token (hub_db h)))) h)) as [A1 A2 A3]. by split.
Qed.

Lemma board_session_end c h :
  hub_ok h -> registered c h -> board_of (session_end c h) = delete (digest c) (board_of h).
Proof.
  intros Hok Hc. apply map_eq. intros i.
  rewrite board_lookup, view_session_end, !lookup_delete, board_lookup.
  case_decide; [done|]. destruct (view h !! i) as [[c' ps]|] eqn:E; [|done]. simpl. do 2 f_equal.
  apply view_registered in E as [Hc' <-]; [|apply Hok].
  apply (apart_queue c); [done..| |by apply apart_session_end]. by intros ->.
Qed.

Lemma hub_ok_session_end c h : hub_ok h -> registered c h -> hub_ok (session_end c h).
Proof. intros. by apply hub_ok_drop_client, hub_ok_abort_tasks, hub_ok_unregister_client. Qed.

(** *** The loops over topics *)

Definition settings (s : Server) : Limits * N * N := (limits s, max_pub_size s, max_topic_length s).

Lemma with_patterns_twice (f g : gset bytes -> gset bytes) (k : gset bytes -> gset bytes)
    (d : bytes) (b : Board) :
  (forall qs, f (g qs) = k qs) ->
  alter (with_patterns f) d (alter (with_patterns g) d b) = alter (with_patterns k) d b.
Proof.
  intros Hk. apply map_eq. intros i. rewrite !lookup_alter. repeat case_decide; try done.
  destruct (b !! _) as [x|]; [|done]. simpl. unfold with_patterns. simpl. by rewrite Hk.
Qed.

Lemma with_patterns_none (f : gset bytes -> gset bytes) (d : bytes) (b : Board) :
  (forall qs, f qs = qs) -> alter (with_patterns f) d b = b.
Proof.
  intros Hf. apply map_eq. intros i. rewrite lookup_alter. case_decide; [subst|done].
  destruct (b !! _) as [[]|]; [|done]. simpl. unfold with_patterns. simpl. by rewrite Hf.
Qed.

(** The normal form has [#], if at all, as its last level. *)
Definition plain_topic (depth : N) (t : bytes) : Prop :=
  forall p, prepare_topic depth t = Ok p -> plain_pattern p.

Lemma subscribe_topics_board c acl ts s :
  Forall (plain_topic (max_depth s)) ts ->
  let '(ps, st) := admits acl (max_depth s) ts in
  let '(st', s') := subscribe_topics c acl ts s in
  st' = st /\ settings s' = settings s /\
  board_of (hub s') =
    alter (with_patterns (fun qs => list_to_set ps ∪ qs)) (digest c) (board_of (hub s)).
Proof.
  revert s; induction ts as [|t ts IH]; intros s; cbn [admits subscribe_topics].
  - intros _. split_and!; [done..|]. rewrite with_patterns_none; [done|]. intros qs. simpl. set_solver.
  - intros [Ht Hts]%Forall_cons.
    destruct (Acl.allow_read acl t); cbn [negb];
      [|split_and!; [done..|]; rewrite with_patterns_none; [done|]; intros qs; simpl; set_solver].
    unfold subscribe. unfold plain_topic in Ht. destruct (prepare_topic (max_depth s) t) as [p|e];
      [|split_and!; [done..|]; rewrite with_patterns_none; [done|]; intros qs; simpl; set_solver].
    set (s1 := with_counters _ _). specialize (IH s1 Hts). change (max_depth s1) with (max_depth s) in IH.
    destruct (admits acl (max_depth s) ts) as [ps st]. destruct (subscribe_topics _ _ _ s1) as [st' s'].
    destruct IH as (-> & -> & ->). split_and!; [done..|].
    rewrite (board_patterns (hub s) (hub s1) (fun qs => {[p]} ∪ qs) (digest c)); [|..|done|done];
      [|by apply sm_subscribe_plain, Ht].
    apply with_patterns_twice. intros qs. simpl. set_solver.
Qed.

Lemma unsubscribe_topics_board c ts s :
  Forall (plain_topic (max_depth s)) ts ->
  let '(ps, st) := normals (max_depth s) ts in
  let '(success, s') := unsubscribe_topics c ts s in
  (if success then RESPONSE_OK else RESPONSE_ERR) = st /\ settings s' = settings s /\
  board_of (hub s') =
    alter (with_patterns (fun qs => qs ∖ list_to_set ps)) (digest c) (board_of (hub s)).
Proof.
  revert s; induction ts as [|t ts IH]; intros s; cbn [normals unsubscribe_topics].
  - intros _. split_and!; [done..|]. rewrite with_patterns_none; [done|]. intros qs. simpl. set_solver.
  - intros [Ht Hts]%Forall_cons.
    unfold unsubscribe. unfold plain_topic in Ht. destruct (prepare_topic (max_depth s) t) as [p|e];
      [|split_and!; [done..|]; rewrite with_patterns_none; [done|]; intros qs; simpl; set_solver].
    set (s1 := with_counters _ _). specialize (IH s1 Hts). change (max_depth s1) with (max_depth s) in IH.
    destruct (normals (max_depth s) ts) as [ps st]. destruct (unsubscribe_topics _ _ s1) as [st' s'].
    destruct IH as (-> & -> & ->). split_and!; [done..|].
    rewrite (board_patterns (hub s) (hub s1) (fun qs => qs ∖ {[p]}) (digest c)); [|..|done|done];
      [|by apply sm_unsubscribe_plain, Ht].
    apply with_patterns_twice. intros qs. simpl. set_solver.
Qed.

(** *** A request *)

Definition named (cmd : ControlCommand) : list bytes :=
  match cmd with
  | Subscribe t | Unsubscribe t | Publish _ t _ => [t]
  | SubscribeBulk ts | UnsubscribeBulk ts => ts
  | Nop | PublishRepl _ _ _ _ | Bye => []
  end.

(** The limits of the protocol and of the server, and topics that are text. *)
Definition proper (s : Server) (cmd : ControlCommand) : Prop :=
  payload_fits cmd /\ Forall topic_text (named cmd) /\
  match cmd with
  | Publish _ _ _ => (len (command_payload cmd) <= max_pub_size s)%N
  | _ => (len (command_payload cmd) <= max_topic_length s)%N /\
      Forall (plain_topic (max_depth s)) (named cmd)
  end.

(** What a round of the control loop leaves, when the board says [o] and [b]. *)
Definition agrees (s : Server) (o : Outcome * Board) (c : ServerClient) (r : result bool Error)
    (w : World Server) : Prop :=
  settings (shared w) = settings s /\
  exists b, o = (Done (concat (out (conn w))) (match r with Ok true => true | _ => false end), b) /\
    b = match r with
        | Ok true => board_of (hub (shared w))
        | _ => delete (digest c) (board_of (hub (shared w)))
        end.

Section round.
Variables (c : ServerClient) (acl : Acl) (s : Server).
Hypothesis Hok : hub_ok (hub s).
Let stream := mkSStream T.
Let d := max_depth s.
Let b := board_of (hub s).

Lemma asking_arrives clock input : arrives (asking clock input s) (ready input) input T [].
Proof. apply arrives_ready. simpl. by rewrite app_nil_r. Qed.

(** Commands without arguments, and the one that the server does not know. *)
Lemma ask_simple cmd op more :
  concat (request cmd) = op :: more ->
  ((cmd = Nop /\ op = OP_NOP) \/ (cmd = Bye /\ op = OP_BYE) \/
   (op = OP_PUBLISH_REPL /\ exists p t m ts, cmd = PublishRepl p t m ts)) ->
  exists r w, run (control_step None stream c acl T) (asking 0 (concat (request cmd)) s) = Some (r, w) /\
    agrees s (ask d c acl (server_now_ns s) cmd b) c r w.
Proof.
  intros Hr Hc. pose proof (asking_arrives 0 (op :: more)) as Ha. rewrite Hr.
  apply (run_command stream c acl) in Ha as (t & tb & _ & _ & E). cbn [stream ss_timeout] in E. rewrite E. clear E.
  destruct Hc as [[-> ->]|[[-> ->]|[-> (p & t' & m & ts & ->)]]].
  - rewrite decide_True by done. unfold op_nop. rewrite run_respond_calm by done.
    eexists _, _. split; [done|]. split; [done|]. by eexists.
  - rewrite !decide_False, decide_True by done. unfold op_bye. rewrite run_respond_calm by done.
    eexists _, _. split; [done|]. split; [done|]. by eexists.
  - rewrite !decide_False, decide_True by done.
    eexists _, _. split; [done|]. split; [done|]. by eexists.
Qed.

Lemma ask_subscribe cmd payload topics :
  concat (request cmd) = OP_SUBSCRIBE :: frame payload -> parse_topics payload = Ok topics ->
  (len payload < 2 ^ 32)%N -> (len payload <= max_topic_length s)%N ->
  Forall (plain_topic d) topics ->
  ask d c acl (server_now_ns s) cmd b =
    (let '(ps, st) := admits acl d topics in
     responds_on (alter (with_patterns (fun qs => list_to_set ps ∪ qs)) (digest c) b) st) ->
  exists r w, run (control_step None stream c acl T) (asking 0 (concat (request cmd)) s) = Some (r, w) /\
    agrees s (ask d c acl (server_now_ns s) cmd b) c r w.
Proof.
  intros Hr Hp Hl Hm Hpl ->. rewrite Hr. pose proof (asking_arrives 0 (OP_SUBSCRIBE :: frame payload)) as Ha.
  destruct (run_subscribe stream c acl _ _ _ _ _ Ha Hl Hm Hp) as (t & _ & E). cbn [stream ss_timeout] in E. rewrite E.
  pose proof (subscribe_topics_board c acl topics s Hpl) as H. fold d in H.
  change (shared (asking 0 _ s)) with s. destruct (admits acl d topics) as [ps st].
  destruct (subscribe_topics c acl topics s) as [st' s']. destruct H as (-> & Hs & Hb).
  rewrite run_respond_calm by done. eexists _, _. split; [done|]. split; [exact Hs|].
  eexists. split; [reflexivity|]. symmetry. exact Hb.
Qed.

Lemma ask_unsubscribe cmd payload topics :
  concat (request cmd) = OP_UNSUBSCRIBE :: frame payload -> parse_topics payload = Ok topics ->
  (len payload < 2 ^ 32)%N -> (len payload <= max_topic_length s)%N ->
  Forall (plain_topic d) topics ->
  ask d c acl (server_now_ns s) cmd b =
    (let '(ps, st) := normals d topics in
     responds_on (alter (with_patterns (fun qs => qs ∖ list_to_set ps)) (digest c) b) st) ->
  exists r w, run (control_step None stream c acl T) (asking 0 (concat (request cmd)) s) = Some (r, w) /\
    agrees s (ask d c acl (server_now_ns s) cmd b) c r w.
Proof.
  intros Hr Hp Hl Hm Hpl ->. rewrite Hr. pose proof (asking_arrives 0 (OP_UNSUBSCRIBE :: frame payload)) as Ha.
  destruct (run_unsubscribe stream c acl _ _ _ _ _ Ha Hl Hm Hp) as (t & _ & E). cbn [stream ss_timeout] in E. rewrite E.
  pose proof (unsubscribe_topics_board c topics s Hpl) as H. fold d in H.
  change (shared (asking 0 _ s)) with s. destruct (normals d topics) as [ps st].
  destruct (unsubscribe_topics c topics s) as [success s']. destruct H as (-> & Hs & Hb).
  rewrite run_respond_calm by done. eexists _, _. split; [done|]. split; [exact Hs|].
  eexists. split; [reflexivity|]. symmetry. exact Hb.
Qed.

Lemma ask_publish priority t m :
  topic_text t -> payload_fits (Publish priority t m) ->
  (len (command_payload (Publish priority t m)) <= max_pub_size s)%N ->
  exists r w, run (control_step None stream c acl T)
      (asking 0 (concat (request (Publish priority t m))) s) = Some (r, w) /\
    agrees s (ask d c acl (server_now_ns s) (Publish priority t m) b) c r w.
Proof.
  intros Ht Hfit Hm.
  assert (concat (request (Publish priority t m)) = OP_PUBLISH :: priority :: frame (t ++ x00 :: m)) as ->
    by (rewrite <- as_bytes_publish by done; simpl; by rewrite app_nil_r).
  pose proof (asking_arrives 0 (OP_PUBLISH :: priority :: frame (t ++ x00 :: m))) as Ha.
  destruct (run_publish stream c acl _ _ _ _ _ Ha Hfit Hm Hok) as (k & _ & E). cbn [stream ss_timeout] in E. rewrite E.
  unfold publish_effect, ask. rewrite split_publication_text by done.
  change (max_depth (with_counters _ _)) with d.
  destruct (prepare_topic d t) as [tp|e]; [destruct (contains_invalid tp);
    [|destruct (Acl.allow_write acl tp)]|].
  - eexists _, _. split; [done|]. split; [done|]. by eexists.
  - rewrite run_respond_calm by done. eexists _, _. split; [done|]. split; [done|].
    eexists. split; [reflexivity|]. symmetry. by apply (board_published _ _ _ _ (hub s)).
  - rewrite run_respond_calm by done. eexists _, _. split; [done|]. split; [done|]. by eexists.
  - rewrite run_respond_calm by done. eexists _, _. split; [done|]. split; [done|]. by eexists.
Qed.

Lemma ask_round cmd :
  proper s cmd ->
  exists r w, run (control_step None stream c acl T) (asking 0 (concat (request cmd)) s) = Some (r, w) /\
    agrees s (ask d c acl (server_now_ns s) cmd b) c r w.
Proof.
  intros (Hfit & Ht & Hl). destruct cmd as [|t|ts|t|ts|p t m|p t m ts|]; simpl in Ht.
  - eapply ask_simple; [done|]. by left.
  - destruct Hl as [Hl Hp]. apply (ask_subscribe _ t [t]); [|by apply parse_topics_one, Forall_singleton|done..].
    rewrite <- (as_bytes_subscribe (Subscribe t)) by auto. apply app_nil_r.
  - destruct Hl as [Hl Hp]. apply (ask_subscribe _ (ControlCommand.bulk_body ts) ts);
      [|by apply parse_topics_bulk|done..].
    rewrite <- (as_bytes_bulk (SubscribeBulk ts)) by auto. apply app_nil_r.
  - destruct Hl as [Hl Hp]. apply (ask_unsubscribe _ t [t]); [|by apply parse_topics_one, Forall_singleton|done..].
    rewrite <- (as_bytes_subscribe (Unsubscribe t)) by auto. apply app_nil_r.
  - destruct Hl as [Hl Hp]. apply (ask_unsubscribe _ (ControlCommand.bulk_body ts) ts);
      [|by apply parse_topics_bulk|done..].
    rewrite <- (as_bytes_bulk (UnsubscribeBulk ts)) by auto. apply app_nil_r.
  - by apply ask_publish; [apply Forall_singleton|..].
  - eapply ask_simple; [reflexivity|]. right. right. split; [done|]. by eexists _, _, _, _.
  - eapply ask_simple; [reflexivity|]. right. by left.
Qed.
End round.

(** *** A message of a data stream *)

Lemma run_send_frame stream t m (w : World Server) :
  wr (conn w) = [] -> exists s' o,
    run (send_message stream t m) w = Some (Ok tt, set_shared s' (set_wr [] (out (conn w) ++ o) w)) /\
    concat o = mframe m ++ default [] (mdata m) /\ hub s' = hub (shared w) /\
    settings s' = settings (shared w).
Proof.
  intros Hw. unfold send_message. rewrite run_bind. cbn [run now]. rewrite run_qbind.
  unfold swrite. rewrite run_write_calm by done. rewrite run_qbind. destruct (mdata m) as [data|].
  - rewrite run_bind, run_reduced, run_write_calm by done. cbn [conn set_wr out]. rewrite <- app_assoc.
    exists (match timestamp m with
            | Some ts => with_counters (Counters.count_sent_bytes (message_size m)
                           (latency_mks (server_now_ns (shared w)) ts)) (shared w)
            | None => shared w
            end), [mframe m; data].
    split; [by destruct (timestamp m)|]. split; [simpl; by rewrite app_nil_r|].
    by destruct (timestamp m).
  - exists (match timestamp m with
            | Some ts => with_counters (Counters.count_sent_bytes (message_size m)
                           (latency_mks (server_now_ns (shared w)) ts)) (shared w)
            | None => shared w
            end), [mframe m].
    split; [by destruct (timestamp m)|]. split; [done|].
    by destruct (timestamp m).
Qed.

Section stream.
Variables (c : ServerClient) (s : Server) (ch : nat) (q : chan MessageFrame).
Hypotheses (Hok : hub_ok (hub s)) (Hc : registered c (hub s)).
Hypotheses (Hch : client_data_channel c (hub s) = Some ch) (Hq : chans (hub s) !! ch = Some q).

Lemma queue_of_own : queue_of c (hub s) = Some (ch_view q).
Proof. unfold queue_of. rewrite Hch. simpl. by rewrite Hq. Qed.

(** The channel is the one of this client alone. *)
Lemma board_set_chan q' f :
  f (ch_view q) = Some (ch_view q') ->
  board_of (set_chans (<[ch := q']> (chans (hub s))) (hub s)) =
    alter (with_queue f) (digest c) (board_of (hub s)).
Proof.
  intros Hf. apply map_eq. intros i. rewrite board_lookup, lookup_alter, !board_lookup.
  change (view (set_chans _ (hub s))) with (view (hub s)).
  case_decide as E; [subst i|]; (destruct (view (hub s) !! _) as [[c' ps]|] eqn:Hv; [|done]); simpl; do 2 f_equal.
  - apply view_registered in Hv as [Hc' Hd]; [|apply Hok].
    rewrite (registered_digest (hub s) c' c) by (done || apply Hok).
    unfold with_queue. simpl. rewrite queue_of_own. simpl. rewrite Hf. do 2 f_equal.
    unfold queue_of, client_data_channel in *. simpl. rewrite Hch. simpl. by rewrite lookup_insert_eq.
  - apply view_registered in Hv as [Hc' Hd]; [|apply Hok].
    unfold queue_of, client_data_channel in *. simpl.
    destruct (cells (hub s) !! sc_id c' ≫= data_channel) as [ch'|] eqn:E'; [|done]. simpl.
    rewrite lookup_insert_ne; [done|]. intros <-. apply bind_Some in E' as (y & ? & ?).
    apply bind_Some in Hch as (z & ? & ?). apply E.
    rewrite <- Hd. f_equal. symmetry. apply (ok_id _ (proj2 Hok)); [done..|].
    by apply (ok_slot_inj _ (proj2 Hok) _ _ y z ch).
Qed.

Lemma take_round t0 last interval ps :
  let '(o, s') := settle s
    (run (handle_data_stream 1 (mkSStream T) ch T interval last) (asking t0 [] s)) in
  (o, board_of (hub s')) =
    take_letter c t0 last interval (mkMember c ps (queue_of c (hub s))) (board_of (hub s)) /\
  settings s' = settings s /\
  (hub s' = hub s \/ exists q', hub s' = set_chans (<[ch := q']> (chans (hub s))) (hub s)).
Proof.
  cbn [handle_data_stream]. rewrite run_bind. cbn [run await]. unfold chan_recv, take_letter.
  change (shared (asking t0 [] s)) with s. rewrite Hq, queue_of_own. cbn [Board.queue].
  destruct (ch_queue (ch_view q)) as [|m l] eqn:El.
  - destruct (view_open (ch_view q)) eqn:Eo.
    + rewrite (ch_recv_wait q) by done. simpl. split; [done|]. split; [done|]. by left.
    + destruct (ch_recv_closed q El Eo) as (q' & -> & Hv). simpl. split; [|split; [done|by right; eexists]].
      f_equal. rewrite (board_set_chan q' Some) by by rewrite Hv.
      apply map_eq. intros i. rewrite lookup_alter. case_decide; [subst i|done].
      destruct (board_of (hub s) !! digest c) as [[w0 p0 q0]|]; [|done]. simpl. unfold with_queue. simpl. by destruct q0.
  - destruct (ch_recv_message q m l El) as (q' & -> & Hv). cbn [fmap option_fmap option_map].
    set (s1 := with_hub _ s).
    assert (board_of (hub s1) = alter (with_queue (fun v => Some (mkChanView (ch_cap v) l
      (ch_senders v) (ch_receivers v)))) (digest c) (board_of (hub s))) as Hb
      by (apply (board_set_chan q'); by rewrite Hv).
    rewrite run_bind, run_now. cbn [clock set_shared asking]. unfold letter. case_decide as En.
    + rewrite bool_decide_eq_true_2 by done. cbn [andb]. destruct (_ <? interval)%N.
      * simpl. split; [f_equal; exact Hb|]. split; [done|]. right. by eexists.
      * rewrite run_bind. unfold swrite. rewrite run_write_calm by done. simpl.
        split; [f_equal; exact Hb|]. split; [done|]. right. by eexists.
    + rewrite bool_decide_eq_false_2 by done. cbn [andb]. rewrite run_bind.
      destruct (run_send_frame (mkSStream T) T m (set_shared s1 (asking t0 [] s)) eq_refl)
        as (s' & o & -> & Ho & Hh & Hs). simpl in *. rewrite Ho, Hh.
      split; [f_equal; exact Hb|]. split; [done|]. right. by eexists.
Qed.
End stream.

(** *** One event, and a run *)

Lemma run_serve_round c acl s (w : World Server) r w1 :
  run (control_step None (mkSStream T) c acl T) w = Some (r, w1) ->
  settle s (run (serve None 1 (mkSStream T) c acl T) w) =
    (Done (concat (out (conn w1))) (match r with Ok true => true | _ => false end),
     match r with Ok true => shared w1 | _ => with_hub (session_end c) (shared w1) end).
Proof.
  intros E. unfold serve, process_control. cbn [iterate]. rewrite !run_bind, E. cbn [run].
  by destruct r as [[]|e].
Qed.

Definition proper_event (s : Server) (e : Event) : Prop :=
  match e with
  | Ask _ _ _ cmd => proper s cmd
  | Take _ _ _ _ => True
  end.

Lemma proper_settings s s' cmd : settings s' = settings s -> proper s cmd -> proper s' cmd.
Proof.
  intros [= E1 E2 E3] (H1 & H2 & H3). unfold proper, max_depth in *. rewrite E1, E2, E3. done.
Qed.

Lemma step_agrees e s :
  hub_ok (hub s) -> proper_event s e ->
  let '(o, s') := server_step e s in
  board_step (max_depth s) e (board_of (hub s)) = (o, board_of (hub s')) /\
  settings s' = settings s /\ hub_ok (hub s').
Proof.
  intros Hok Hp. unfold server_step, board_step.
  set (c := match e with Ask c _ _ _ | Take c _ _ _ => c end).
  case_decide as Hc.
  2:{ split; [|done]. destruct (board_of (hub s) !! digest c) as [x|] eqn:Ex; [|done].
      case_decide as Ew; [|done]. destruct Hc. apply (board_registered (hub s) c Hok). by exists x. }
  apply (proj1 (board_registered _ c Hok)) in Hc as Hx. destruct Hx as (x & Hx & Hw).
  rewrite Hx, decide_True by done. destruct e as [c0 acl t cmd|c0 t0 last interval]; subst c; simpl in *.
  - set (s0 := set_wall t s).
    destruct (ask_round c0 acl s0 Hok cmd) as (r & w & Hr & Hs & b & Ho & Hb); [by apply (proper_settings s)|].
    pose proof (run_serve_round c0 acl s (asking 0 (concat (request cmd)) s0) r w Hr) as Hset.
    destruct (returns_control_step (mkSStream T) c0 acl (by_token (hub s)) (asking 0 (concat (request cmd)) s0)
      Hok eq_refl) as (r' & w' & Hr' & Hok' & HB & _).
    change (ss_timeout (mkSStream T)) with T in Hr'. rewrite Hr in Hr'. injection Hr' as <- <-.
    assert (registered c0 (hub (shared w))) as Hc' by (unfold registered; rewrite HB; exact Hc).
    destruct (settle _ _) as [o s']. injection Hset as -> ->.
    change (server_now_ns s0) with (now_ns t) in Ho. change (max_depth s0) with (max_depth s) in Ho.
    change (hub s0) with (hub s) in Ho. rewrite Ho, Hb.
    destruct r as [[]|e0]; simpl; rewrite ?board_session_end by done; split_and!; try done;
      by apply hub_ok_session_end.
  - destruct (client_data_channel c0 (hub s)) as [ch|] eqn:Ech.
    2:{ split; [|done]. rewrite board_lookup in Hx. destruct (view (hub s) !! digest c0) as [[c1 ps]|]; [|done].
        simplify_eq/=. unfold take_letter. simpl. unfold queue_of. by rewrite Ech. }
    pose proof Ech as (cell & Hcell & Hd)%bind_Some.
    destruct (ok_slot _ (proj2 Hok) _ _ _ Hcell Hd) as [q Hq].
    pose proof (take_round c0 s ch q Hok Hc Ech Hq t0 last interval (patterns x)) as H.
    destruct (settle _ _) as [o s']. destruct H as (H & Hs & Hh).
    rewrite board_lookup in Hx. destruct (view (hub s) !! digest c0) as [[c1 ps]|]; [|done].
    injection Hx as <-. simpl in *. subst c1. rewrite <- H. split; [done|]. split; [done|].
    destruct Hh as [-> | [q' ->]]; [done|by apply hub_ok_set_chan].
Qed.

(** C3: the server refines the board. However many clients there are, and in whatever order they send
    their commands and their data streams take messages, the programs of the server, on the bytes
    of these commands, answer as the board says, write on the data streams what the board says and
    leave the members, their patterns and their queues as the board has them: a subscription is
    admitted by the rules of reading and lasts until it is taken back or the session ends, a
    publication that the rules of writing admit is offered once to every member that follows its
    topic, and each message is written once, in the order of the queue. *)
Theorem server_refines_board (es : list Event) (s : Server) :
  hub_ok (hub s) -> Forall (proper_event s) es ->
  let '(answers, s') := steps server_step es s in
  steps (board_step (max_depth s)) es (board_of (hub s)) = (answers, board_of (hub s')) /\
  hub_ok (hub s').
Proof.
  revert s; induction es as [|e es IH]; intros s Hok; [done|]. intros [He Hes]%Forall_cons.
  cbn [steps]. pose proof (step_agrees e s Hok He) as H. destruct (server_step e s) as [o s1].
  destruct H as (-> & Hs & Hok1).
  assert (Forall (proper_event s1) es) as Hes1.
  { eapply Forall_impl; [exact Hes|]. intros []; [|done]. by apply proper_settings. }
  specialize (IH s1 Hok1 Hes1). assert (max_depth s1 = max_depth s) as Ed
    by (unfold max_depth; by injection Hs as ->).
  rewrite Ed in IH.
  destruct (steps server_step es s1) as [os s2]. destruct IH as [-> Hok2]. done.
Qed.
End server.

(** ** Witness *)

#[local] Existing Instance demo_bcrypt.

(** A client that may only read. *)
Definition reader_acl : Acl :=
  mkAcl false false (Some (PathMaskList.new {[PathMask.new_any]})) None.

Definition demo_publication : ControlCommand := Publish x7f (bs "sensors/1") (bs "on").

(** The client that follows [sensors/+] publishes, is refused under rules that let nobody write,
    takes the message from its data stream, stops following the topic, publishes once more to nobody,
    and leaves; afterwards it is no member. *)
Definition demo_events : list Event :=
  [Ask demo_client Acl.new_full (0%Z, 9%Z) demo_publication;
   Ask demo_client reader_acl (0%Z, 9%Z) demo_publication;
   Take demo_client 0 0 5;
   Take demo_client 0 0 5;
   Ask demo_client reader_acl (0%Z, 9%Z) (Unsubscribe (bs "sensors/+"));
   Ask demo_client Acl.new_full (0%Z, 9%Z) demo_publication;
   Take demo_client 0 0 5;
   Ask demo_client reader_acl (0%Z, 9%Z) Bye;
   Ask demo_client Acl.new_full (0%Z, 9%Z) demo_publication].

Lemma demo_events_proper : Forall (proper_event demo_server) demo_events.
Proof.
  assert (proper demo_server demo_publication) as Hp.
  { split; [vm_compute; reflexivity|]. split; [|vm_compute; discriminate].
    apply Forall_singleton, topic_text_ascii. vm_compute. reflexivity. }
  repeat apply Forall_cons_2; try apply Forall_nil_2; try exact Hp; try exact I.
  - split; [vm_compute; reflexivity|]. split; [|split; [vm_compute; discriminate|]].
    + apply Forall_singleton, topic_text_ascii. vm_compute. reflexivity.
    + apply Forall_singleton. intros p. change (max_depth demo_server) with 64%N. simpl named.
      assert (prepare_topic 64 (bs "sensors/+") = Ok (bs "sensors/+")) as -> by vm_refl.
      intros [= <-]. apply plain_demo.
  - split; [vm_compute; reflexivity|]. split; [apply Forall_nil_2|].
    split; [vm_compute; discriminate|apply Forall_nil_2].
Qed.

Lemma server_refines_board_witness :
  exists s', steps (server_step 5) demo_events demo_server =
    ([Done [RESPONSE_OK] true;
      Done [RESPONSE_ERR_ACCESS] true;
      Done (message_head x7f (bs "sensors/1") (bs "on") ++ bs "on") true;
      Waits;
      Done [RESPONSE_OK] true;
      Done [RESPONSE_OK] true;
      Waits;
      Done [RESPONSE_OK] false;
      Waits], s') /\ board_of (hub s') = ∅.
Proof.
  pose proof (server_refines_board 5 demo_events demo_server demo_live_ok demo_events_proper) as H.
  destruct (steps (server_step 5) demo_events demo_server) as [answers s']. destruct H as [H _].
  exists s'. split.
  - f_equal. apply (f_equal fst) in H. simpl fst in H at 2. rewrite <- H. vm_refl.
  - apply (f_equal snd) in H. simpl snd in H at 2. rewrite <- H. vm_refl.
Defined.
