(* ===== verification/Delivery.v ===== *)
(** * From a publisher to a subscriber

    What the data stream of the server writes for a queue of messages and beacons, the data stream
    of the client reads back; and a publication followed from the control stream of the publisher
    through the queue of a subscriber to the queue of that subscriber's client. *)

From S2P Require Import Prelude Utf8 Proto Io Commands Acl Topic Token Pubsub Reference.
From S2P Require Import PubsubSpec Passwords Keys Server ServerSpec Control ControlSpec Session.
From S2P Require Import SessionSpec Client ClientSpec.

Section delivery.
Context {SMO : SubMapOps} {SML : SubMapLaws} {CHO : ChannelOps} {CHL : ChannelLaws}
  {SHO : Sha256Ops} {BCO : BcryptOps} {OSO : OneshotOps} {OSL : OneshotLaws}.

(** ** A data stream *)

(** What a data channel carries: beacons, and messages with their timestamps. *)
Inductive Queued : Type :=
| Beacon
| Sent (priority : byte) (topic data : bytes) (timestamp : N).

Definition frame_of (x : Queued) : MessageFrame :=
  match x with
  | Beacon => empty_message
  | Sent p t d ts => message_frame p t d ts
  end.

Definition wire (x : Queued) : bytes :=
  match x with
  | Beacon => [OP_NOP]
  | Sent p t d _ => RESPONSE_OK :: p :: frame (t ++ x00 :: d)
  end.

Definition message_of (x : Queued) : option Message :=
  match x with
  | Beacon => None
  | Sent p t d _ => Some (mkMessage p t d)
  end.

(** Messages that the length field can describe, under topics as [prepare_topic] leaves them. *)
Definition deliverable (x : Queued) : Prop :=
  match x with
  | Beacon => True
  | Sent p t d _ => NUL ∉ t /\ utf8 t /\ (len (t ++ x00 :: d) < 2 ^ 32)%N
  end.

Lemma message_head_wire p t d ts :
  deliverable (Sent p t d ts) -> message_head p t d ++ d = wire (Sent p t d ts).
Proof.
  simpl. unfold message_head, frame. rewrite len_app, len_cons. intros (_ & _ & Hl).
  rewrite (wrap_small 32 (len t)), (wrap_small 32 (len d)), wrap_small by lia.
  replace (len t + len d + 1)%N with (len t + (1 + len d))%N by lia.
  by rewrite <- !app_assoc.
Qed.

Lemma run_send_message stream T x p t d ts (w : World Server) :
  x = Sent p t d ts -> wr (conn w) = [] -> exists s',
    run (send_message stream T (frame_of x)) w =
      Some (Ok tt, set_shared s' (set_wr [] (out (conn w) ++ [message_head p t d; d]) w)) /\
    hub s' = hub (shared w).
Proof.
  intros -> Hw. unfold send_message. rewrite run_bind. cbn [run now]. rewrite run_qbind.
  unfold swrite. rewrite run_write_calm by done. cbn [frame_of message_frame mdata mframe timestamp].
  rewrite run_qbind, run_bind, run_reduced, run_write_calm by done.
  rewrite run_bind. cbn [run asks]. rewrite run_bind. cbn [run modify].
  eexists. split; [cbn; rewrite <- app_assoc; reflexivity|reflexivity].
Qed.

(** The channel of a data stream: what it holds, and whether senders are left. *)
Definition holding (ch : nat) (q : list Queued) (open : bool) (s : Server) : Prop :=
  exists c, chans (hub s) !! ch = Some c /\ ch_queue (ch_view c) = map frame_of q /\
    view_open (ch_view c) = open.

Lemma run_recv_closed ch w : holding ch [] false (shared w) ->
  exists s', run (await (chan_recv ch)) w = Some (None, set_shared s' w).
Proof.
  intros (c & Hc & Hq & Ho). destruct (ch_recv_closed c Hq Ho) as (c' & Hr & _).
  cbn [run await]. unfold chan_recv. rewrite Hc, Hr. by eexists.
Qed.

Lemma run_recv_next ch x q open w : holding ch (x :: q) open (shared w) ->
  exists s', run (await (chan_recv ch)) w = Some (Some (frame_of x), set_shared s' w) /\
    holding ch q open s'.
Proof.
  intros (c & Hc & Hq & Ho). destruct (ch_recv_message c _ _ Hq) as (c' & Hr & Hv).
  cbn [run await]. unfold chan_recv. rewrite Hc, Hr. eexists. split; [done|].
  exists c'. simpl. rewrite lookup_insert_eq, Hv. split; [done|]. split; [done|].
  by rewrite <- Ho.
Qed.

(** The server's end: everything but superfluous beacons goes out, in order, and then the loop goes
    on with an empty queue. *)
Lemma run_data_stream_server stream T interval ch open fuel q last (w : World Server) :
  wr (conn w) = [] -> holding ch q open (shared w) -> Forall deliverable q ->
  exists q' last' w',
    run (handle_data_stream (length q + fuel) stream ch T interval last) w =
      run (handle_data_stream fuel stream ch T interval last') w' /\
    holding ch [] open (shared w') /\
    concat (out (conn w')) = concat (out (conn w)) ++ concat (map wire q') /\
    omap message_of q' = omap message_of q /\ length q' <= length q /\ Forall deliverable q'.
Proof.
  revert last w; induction q as [|x q IH]; intros last w Hw Hd Hq.
  { exists [], last, w. split; [done|]. split; [done|]. simpl. by rewrite app_nil_r. }
  cbn [length Nat.add handle_data_stream]. rewrite run_bind.
  destruct (run_recv_next ch x q open w Hd) as (s1 & -> & Hd1). apply Forall_cons in Hq as [Hx Hq].
  rewrite run_bind. cbn [run now]. destruct x as [|p t d ts].
  - cbn [frame_of empty_message mframe hd]. rewrite bool_decide_eq_true_2 by done.
    destruct (_ <? interval)%N; cbn [andb].
    + destruct (IH last (set_shared s1 w)) as (q' & l' & w' & Hr & Hh & Ho & Hm & Hl & Hq');
        [done..|].
      exists q', l', w'. split; [exact Hr|]. split; [done|]. split; [exact Ho|]. split; [done|].
      split; [lia|done].
    + rewrite run_bind. unfold swrite. rewrite run_write_calm by done. rewrite run_bind.
      cbn [run now].
      destruct (IH (clock w) (set_wr [] (out (conn w) ++ [[OP_NOP]]) (set_shared s1 w)))
        as (q' & l' & w' & Hr & Hh & Ho & Hm & Hl & Hq'); [done..|].
      exists (Beacon :: q'), l', w'. split; [exact Hr|]. split; [done|]. split.
      { rewrite Ho. simpl. rewrite concat_app, <- app_assoc. done. }
      split; [done|]. split; [simpl; lia|by constructor].
  - assert (bool_decide (hd x00 (mframe (frame_of (Sent p t d ts))) = OP_NOP) = false) as ->
      by by apply bool_decide_eq_false_2.
    cbn [andb]. rewrite run_bind.
    destruct (run_send_message stream T _ p t d ts (set_shared s1 w) eq_refl) as (s2 & -> & Hs2);
      [done|]. rewrite run_bind. cbn [run now].
    match goal with |- context [run _ ?w2] => set (w3 := w2) end.
    destruct (IH (clock w3) w3) as (q' & l' & w' & Hr & Hh & Ho & Hm & Hl & Hq'); [done| |done|].
    { destruct Hd1 as (c & H1 & H2 & H3). exists c. unfold w3. simpl. rewrite Hs2. done. }
    exists (Sent p t d ts :: q'), l', w'. split; [exact Hr|]. split; [done|]. split.
    { rewrite Ho. unfold w3. cbn [conn set_shared set_wr out concat map].
      rewrite concat_app. cbn [concat]. rewrite app_nil_r.
      by rewrite (message_head_wire p t d ts), <- app_assoc. }
    split; [exact (f_equal (cons (mkMessage p t d)) Hm)|]. split; [simpl; lia|by constructor].
Qed.

(** The client's end: one round takes one item of the stream. *)
Lemma run_data_round stream x rest (w : World ClientState) :
  deliverable x -> inp (conn w) = ready (wire x) ++ rest ->
  view_open (ch_view (messages (shared w))) = true ->
  (message_of x <> None ->
   len (ch_queue (ch_view (messages (shared w)))) < ch_cap (ch_view (messages (shared w))))%N ->
  exists s', run (data_round stream) w = Some (None, set_shared s' (set_inp rest w)) /\
    ch_view (messages s') =
      let v := ch_view (messages (shared w)) in
      match message_of x with Some m => view_push m v | None => v end.
Proof.
  intros Hx Hi Hopen Hroom. unfold data_round. rewrite run_bind. cbn [run now].
  rewrite run_bind. unfold sread. destruct x as [|p t d ts].
  - rewrite (run_read_ready 1 _ w [OP_NOP] rest) by done. cbn [hd]. rewrite decide_True by done.
    exists (shared w). split; [by destruct w|done].
  - destruct Hx as (Hn & Hu & Hl). unfold wire in Hi.
    rewrite (run_read_ready 1 _ w [RESPONSE_OK] (ready (p :: frame (t ++ x00 :: d)) ++ rest)) by done.
    cbn [hd]. rewrite decide_False, decide_True by done.
    rewrite run_bind, run_bind, run_reduced, run_qbind.
    rewrite (run_read_ready 1 _ _ [p] (ready (frame (t ++ x00 :: d)) ++ rest)) by done.
    rewrite run_bind, run_reduced, run_qbind.
    rewrite (run_frame_ready None _ _ (t ++ x00 :: d) rest) by done. cbn [run hd].
    change x00 with NUL. rewrite from_buf_app by done. cbn [snd].
    rewrite str_from_utf8_valid by done. cbn [run].
    destruct (ch_send_room (mkMessage p t d) (messages (shared w)) Hopen) as (c' & Hs & Hv);
      [by apply N.leb_gt, Hroom|].
    cbn. unfold send_data. cbn. rewrite Hs. cbn. eexists. split; [done|]. done.
Qed.

(** A channel to which messages were pushed. *)
Definition view_extend {M} (ms : list M) (v : ChanView M) : ChanView M :=
  mkChanView (ch_cap v) (ch_queue v ++ ms) (ch_senders v) (ch_receivers v).

Lemma run_data_stream_view stream fuel q (w : World ClientState) :
  length q < fuel -> Forall deliverable q -> inp (conn w) = ready (concat (map wire q)) ->
  view_open (ch_view (messages (shared w))) = true ->
  let v := ch_view (messages (shared w)) in
  (len (ch_queue v ++ omap message_of q) <= ch_cap v)%N ->
  exists e w', run (run_data_stream fuel stream) w = Some (Some e, w') /\
    ch_view (messages (shared w')) = view_extend (omap message_of q) v.
Proof.
  revert fuel w; induction q as [|x q IH]; intros fuel w Hf Hq Hi Hopen v Hroom;
    (destruct fuel as [|fuel]; [simpl in Hf; lia|]); unfold run_data_stream; cbn [iterate];
    rewrite run_bind.
  - unfold data_round. rewrite run_bind. cbn [run now]. rewrite run_bind. unfold sread.
    rewrite run_read. pose proof (read_exact_frame 1 (ss_timeout stream) w) as [Hs _].
    destruct (read_exact 1 (ss_timeout stream) w) as [[l|e] w1] eqn:E; cbn [fst snd map_err] in *.
    + apply read_exact_Ok in E as [Hl Happ]. rewrite Hi in Happ. destruct l; discriminate.
    + eexists _, w1. split; [done|]. rewrite Hs. fold v. unfold view_extend. cbn [omap list_omap].
      rewrite app_nil_r. by destruct v.
  - apply Forall_cons in Hq as [Hx Hq]. simpl in Hi. rewrite ready_app in Hi.
    assert (omap message_of (x :: q) =
            match message_of x with Some m => [m] | None => [] end ++ omap message_of q) as Hm
      by by destruct x.
    rewrite Hm in *.
    destruct (run_data_round stream x _ w Hx Hi Hopen) as (s' & -> & Hv).
    { fold v. intros Hne. destruct (message_of x) as [m|]; [|done]. rewrite !len_app in Hroom.
      rewrite len_cons in Hroom. lia. }
    cbv zeta in Hv. fold v in Hv.
    destruct (IH fuel (set_shared s' (set_inp (ready (concat (map wire q))) w)))
      as (e & w' & Hr & Hq'); [simpl in Hf; lia|done|done|..].
    + simpl. rewrite Hv. by destruct (message_of x).
    + simpl. rewrite Hv. destruct (message_of x); simpl; [|done]. by rewrite <- app_assoc.
    + exists e, w'. split; [exact Hr|]. rewrite Hq'. simpl. rewrite Hv.
      destruct (message_of x); simpl; [|done]. unfold view_extend. simpl. by rewrite <- app_assoc.
Qed.

Lemma run_data_stream_client stream fuel q (w : World ClientState) :
  length q < fuel -> Forall deliverable q -> inp (conn w) = ready (concat (map wire q)) ->
  view_open (ch_view (messages (shared w))) = true ->
  let v := ch_view (messages (shared w)) in
  (len (ch_queue v ++ omap message_of q) <= ch_cap v)%N ->
  exists e w', run (run_data_stream fuel stream) w = Some (Some e, w') /\
    ch_queue (ch_view (messages (shared w'))) = ch_queue v ++ omap message_of q.
Proof.
  intros Hf Hq Hi Ho v Hr. destruct (run_data_stream_view stream fuel q w) as (e & w' & H & Hv);
    [done..|]. exists e, w'. by rewrite Hv.
Qed.

(** Whatever the queue of a client's data channel holds when its senders are gone, messages and
    beacons in any order, the server's data stream writes bytes from which the client's data stream
    recovers exactly the messages, in the same order, with their topics, priorities and bodies, as
    long as the client's own queue has room for them. *)
Theorem message_stream_delivery (stream cstream : SStream) (T interval last : N)
    (ch fuel cfuel : nat) (q : list Queued) (ws : World Server) (wc : World ClientState) :
  holding ch q false (shared ws) -> Forall deliverable q ->
  wr (conn ws) = [] -> out (conn ws) = [] -> length q < fuel -> length q < cfuel ->
  view_open (ch_view (messages (shared wc))) = true ->
  (len (ch_queue (ch_view (messages (shared wc))) ++ omap message_of q)
     <= ch_cap (ch_view (messages (shared wc))))%N ->
  exists ws', run (handle_data_stream fuel stream ch T interval last) ws =
      Some (Some (Ok tt), ws') /\
    (inp (conn wc) = ready (concat (out (conn ws'))) ->
     exists e wc', run (run_data_stream cfuel cstream) wc = Some (Some e, wc') /\
       ch_queue (ch_view (messages (shared wc'))) =
         ch_queue (ch_view (messages (shared wc))) ++ omap message_of q).
Proof.
  intros Hd Hq Hw Ho Hf Hcf Hopen Hroom.
  destruct (run_data_stream_server stream T interval ch false (fuel - length q) q last ws Hw Hd Hq)
    as (q' & l' & w1 & Hr & Hh & Hout & Hm & Hl & Hq').
  replace (length q + (fuel - length q)) with fuel in Hr by lia.
  destruct (fuel - length q) as [|k] eqn:Ek; [lia|]. rewrite Hr. cbn [handle_data_stream].
  rewrite run_bind. destruct (run_recv_closed ch w1 Hh) as (s' & ->).
  eexists. split; [done|]. simpl. rewrite Hout, Ho. intros Hi. rewrite <- Hm in *.
  apply run_data_stream_client; [lia|done|done|done|done].
Qed.

(** ** From the publisher to the subscriber *)

(** A subscriber with a data channel that has room. *)
Record listening (c : ServerClient) (ch : nat) (q : list Queued) (h : Hub) : Prop := {
  li_registered : registered c h;
  li_channel : client_data_channel c h = Some ch;
  li_queue v : queue_of c h = Some v -> ch_queue v = map frame_of q /\ view_full v = false /\
    view_open v = true;
}.

(** A publication arrives in the queue of a subscriber with room. *)
Lemma published_queue p tp d ts c ch q (s : Server) :
  hub_ok (hub s) -> listening c ch q (hub s) -> c ∈ get_subscribers tp (hub s) ->
  forall s', hub s' = published p tp d ts (hub s) ->
  holding ch (q ++ [Sent p tp d ts]) true s'.
Proof.
  intros Hok [Hc Hch Hv] Hin s' Hs'.
  assert (forall c', c' ∈ get_subscribers tp (hub s) -> registered c' (hub s)) as Hreg
    by (intros c'; apply subscribers_registered, Hok).
  assert (exists v, queue_of c (hub s) = Some v) as [v Eq].
  { unfold queue_of. rewrite Hch. simpl. pose proof Hch as (cell & Hcell & Hd)%bind_Some.
    destruct (ok_slot _ (proj2 Hok) _ _ _ Hcell Hd) as [x ->]. by eexists. }
  destruct (Hv v Eq) as (Hq & Hf & Ho).
  pose proof (queue_of_deliver (message_frame p tp d ts) (get_subscribers tp (hub s)) (hub s) c
                Hok Hreg ltac:(eapply NoDup_fmap_1; apply sm_get_subscribers_nodup) Hc) as Hd.
  rewrite bool_decide_eq_true_2, Eq in Hd by done. simpl in Hd. unfold offer in Hd.
  rewrite Hf, bool_decide_eq_false_2 in Hd
    by (intros E; unfold view_open in Ho; rewrite E in Ho; by rewrite andb_false_r in Ho).
  fold (published p tp d ts (hub s)) in Hd. rewrite <- Hs' in Hd.
  unfold queue_of in Hd. apply bind_Some in Hd as (ch' & Hch' & (cv & Hcv & Hview)%fmap_Some).
  assert (ch' = ch) as ->.
  { rewrite Hs' in Hch'. apply (deliver_channel _ _ _ _ _ Hok Hreg Hc) in Hch'. congruence. }
  exists cv. split; [done|]. rewrite <- Hview. simpl. rewrite Hq, map_app. done.
Qed.

(** C5: from the publisher to the subscriber. A publication that the rules admit, under a topic that
    normalises to [tp], is answered with success; the data stream of every subscriber of [tp] whose
    queue has room then sends what was in the queue and after it this message; and the data stream
    of that subscriber's client puts into the client's queue exactly those messages, the published
    one last, with its priority, its topic [tp] and its body. *)
Theorem publication_arrives (stream dstream cstream : SStream) (client sub : ServerClient)
    (acl : Acl) (priority : byte) (topic tp message : bytes) (ch : nat) (q : list Queued)
    (T interval last : N) (ws wd : World Server) (wc : World ClientState)
    (rest : list (N * byte)) :
  topic_text topic -> payload_fits (Publish priority topic message) ->
  (len (command_payload (Publish priority topic message)) <= max_pub_size (shared ws))%N ->
  hub_ok (hub (shared ws)) -> wr (conn ws) = [] ->
  inp (conn ws) = ready (concat (request (Publish priority topic message))) ++ rest ->
  prepare_topic (max_depth (shared ws)) topic = Ok tp -> contains_invalid tp = false ->
  Acl.allow_write acl tp = true ->
  sub ∈ get_subscribers tp (hub (shared ws)) -> listening sub ch q (hub (shared ws)) ->
  Forall deliverable q ->
  exists ws', run (control_step None stream client acl (ss_timeout stream)) ws =
      Some (Ok true, ws') /\ out (conn ws') = out (conn ws) ++ [[RESPONSE_OK]] /\
    (hub (shared wd) = hub (shared ws') -> wr (conn wd) = [] -> out (conn wd) = [] ->
     exists wd', run (handle_data_stream (S (length q)) dstream ch T interval last) wd =
         Some (None, wd') /\
       (inp (conn wc) = ready (concat (out (conn wd'))) ->
        view_open (ch_view (messages (shared wc))) = true ->
        (len (ch_queue (ch_view (messages (shared wc)))) + len q
           < ch_cap (ch_view (messages (shared wc))))%N ->
        exists e wc', run (run_data_stream (2 + length q) cstream) wc = Some (Some e, wc') /\
          ch_queue (ch_view (messages (shared wc'))) =
            ch_queue (ch_view (messages (shared wc))) ++ omap message_of q ++
              [mkMessage priority tp message])).
Proof.
  intros Ht Hfit Hmax Hok Hw Hi Hp Hc Ha Hin Hli Hq.
  assert (concat (request (Publish priority topic message)) =
    OP_PUBLISH :: priority :: frame (topic ++ x00 :: message)) as Hreq.
  { rewrite <- as_bytes_publish by done. simpl. by rewrite app_nil_r. }
  rewrite Hreq in Hi. pose proof (arrives_ready (t:=ss_timeout stream) Hi) as Har.
  destruct (run_publish stream client acl priority _ _ _ _ Har Hfit Hmax Hok) as (c & _ & Hrun).
  unfold publish_effect in Hrun. rewrite split_publication_text in Hrun by done.
  change (max_depth (with_counters _ (shared ws))) with (max_depth (shared ws)) in Hrun.
  rewrite Hp, Hc, Ha in Hrun. rewrite run_respond_calm in Hrun by done.
  eexists. split; [exact Hrun|]. split; [done|]. intros Hwd Hwrd Houtd. simpl in Hwd.
  set (ts := server_now_ns (shared ws)) in *.
  pose proof (published_queue priority tp message ts sub ch q (shared ws) Hok Hli Hin _ Hwd) as Hh.
  assert (Forall deliverable (q ++ [Sent priority tp message ts])) as Hq'.
  { apply Forall_app. split; [done|]. constructor; [|done]. destruct Ht as (_ & Hu & Hn). split_and!.
    - intros Hin'. by apply Hn, (prepare_topic_elem _ _ _ _ Hp).
    - by eapply prepare_topic_utf8.
    - pose proof (prepare_topic_length _ _ _ Hp). unfold payload_fits in Hfit. simpl in Hfit.
      unfold len in *. rewrite length_app in *. simpl in *. lia. }
  destruct (run_data_stream_server dstream T interval ch true 0 _ last wd Hwrd Hh Hq')
    as (q' & l' & wd' & Hr & _ & Hout & Hm & Hl & Hd).
  rewrite length_app, Nat.add_0_r, Nat.add_comm in Hr. simpl in Hr. eexists. split; [exact Hr|].
  rewrite Hout, Houtd. intros Hinc Hopen Hroom.
  assert (omap message_of (q ++ [Sent priority tp message ts]) =
    omap message_of q ++ [mkMessage priority tp message]) as Homap by by rewrite omap_app.
  rewrite Homap in Hm.
  destruct (run_data_stream_client cstream (2 + length q) q' wc) as (e & wc' & H1 & H2);
    [rewrite length_app in Hl; simpl in Hl; lia|done|done|done| |].
  - rewrite Hm, !len_app. assert (len (omap message_of q) <= len q)%N as Hle.
    { assert (length (omap message_of q) <= length q); [|unfold len; lia].
      clear. induction q as [|[] q IH]; [done|..]; cbn in *; lia. }
    change (len [mkMessage priority tp message]) with 1%N. lia.
  - exists e, wc'. split; [exact H1|]. by rewrite H2, Hm.
Qed.
End delivery.

(** ** Witnesses *)

#[local] Existing Instance demo_bcrypt.

(** A beacon and two messages, and no senders. *)
Definition demo_queue : list Queued :=
  [Beacon; Sent x01 (bs "a") (bs "1") 7; Sent x02 (bs "b/c") (bs "22") 8].

Definition drained_world : World Server :=
  mkWorld 0 (mkConn [] None [] []) (bs "deadline has elapsed")
    (with_hub (set_chans (<[5 := mkChanView 8 (map frame_of demo_queue) 0 1]> (chans demo_live_hub)))
       demo_server).

Lemma demo_deliverable : Forall deliverable demo_queue.
Proof.
  assert (forall p t d ts, topic_text t -> (len (t ++ x00 :: d) < 2 ^ 32)%N ->
    deliverable (Sent p t d ts)) as Hdel by by intros p t d ts (_ & Hu & Hn) Hl.
  do 2 (constructor; [try done|]); [|constructor; [|constructor]];
    (apply Hdel; [apply topic_text_ascii; vm_compute; reflexivity|vm_compute; reflexivity]).
Qed.

Lemma message_stream_delivery_witness :
  exists ws' e wc',
    run (handle_data_stream 5 (mkSStream 5) 5 5 0 0) drained_world = Some (Some (Ok tt), ws') /\
    run (run_data_stream 5 (mkSStream 5)) (client_world (concat (out (conn ws')))) =
      Some (Some e, wc') /\
    ch_queue (ch_view (messages (shared wc'))) =
      [mkMessage x01 (bs "a") (bs "1"); mkMessage x02 (bs "b/c") (bs "22")].
Proof.
  assert (holding 5 demo_queue false (shared drained_world)) as Hd.
  { exists (mkChanView 8 (map frame_of demo_queue) 0 1). simpl.
    rewrite lookup_insert_eq. done. }
  pose (out_of := match run (handle_data_stream 5 (mkSStream 5) 5 5 0 0) drained_world with
                  | Some (_, ws') => concat (out (conn ws')) | None => [] end).
  destruct (message_stream_delivery (mkSStream 5) (mkSStream 5) 5 0 0 5 5 5 demo_queue
              drained_world (client_world out_of) Hd demo_deliverable) as (ws' & Hr & Hx);
    [done|done|simpl; lia|simpl; lia|done|vm_compute; discriminate|].
  assert (out_of = concat (out (conn ws'))) as E by (unfold out_of; rewrite Hr; reflexivity).
  clearbody out_of. subst out_of. destruct Hx as (e & wc' & H1 & H2); [reflexivity|].
  exists ws', e, wc'. split; [exact Hr|]. split; [exact H1|exact H2].
Defined.

(** The server after [demo_publish], the world of its subscriber's data stream, and what that
    stream writes. *)
Definition published_server : Server :=
  match run (control_step None (mkSStream 5) demo_client Acl.new_full 5)
          (demo_world (concat (request demo_publish))) with
  | Some (_, ws') => shared ws'
  | None => demo_server
  end.

Definition stream_world (s : Server) : World Server := mkWorld 0 (mkConn [] None [] []) [] s.

Definition streamed (s : Server) : bytes :=
  match run (handle_data_stream 1 (mkSStream 5) 1 5 5 0) (stream_world s) with
  | Some (_, wd') => concat (out (conn wd'))
  | None => []
  end.

Lemma demo_subscribed : demo_client ∈ get_subscribers (bs "sensors/1") demo_live_hub.
Proof.
  apply get_subscribers_spec. exists {[ bs "sensors/+" ]}, (bs "sensors/+").
  split; [unfold view; vm_refl|]. split; [by apply elem_of_singleton|vm_refl].
Qed.

Lemma demo_listening : listening demo_client 1 [] demo_live_hub.
Proof.
  split; [apply demo_live_registered|vm_refl|]. intros v.
  assert (queue_of demo_client demo_live_hub = Some (mkChanView 8 [] 2 1)) as -> by vm_refl.
  by intros [= <-].
Qed.

Lemma publication_arrives_witness :
  exists ws' e wc',
    run (control_step None (mkSStream 5) demo_client Acl.new_full 5)
      (demo_world (concat (request demo_publish))) = Some (Ok true, ws') /\
    run (run_data_stream 2 (mkSStream 5)) (client_world (streamed (shared ws'))) =
      Some (Some e, wc') /\
    ch_queue (ch_view (messages (shared wc'))) = [mkMessage x7f (bs "sensors/1") (bs "on")].
Proof.
  destruct (publication_arrives (mkSStream 5) (mkSStream 5) (mkSStream 5) demo_client demo_client
              Acl.new_full x7f (bs "sensors/1") (bs "sensors/1") (bs "on") 1 [] 5 5 0
              (demo_world (concat (request demo_publish)))
              (stream_world published_server) (client_world (streamed published_server)) [])
    as (ws' & Hr & _ & Hx);
    [apply topic_text_ascii; vm_compute; reflexivity|vm_compute; reflexivity
    |vm_compute; discriminate|apply demo_live_ok|reflexivity|by rewrite app_nil_r|vm_refl|vm_refl
    |vm_refl|apply demo_subscribed|apply demo_listening|constructor|].
  change (ss_timeout (mkSStream 5)) with 5%N in Hr. fold demo_publish in Hr.
  assert (published_server = shared ws') as E by (unfold published_server; rewrite Hr; reflexivity).
  rewrite E in Hx. destruct Hx as (wd' & Hd & Hx); [reflexivity|reflexivity|reflexivity|].
  destruct Hx as (e & wc' & H1 & H2);
    [unfold streamed; cbn [length] in Hd; rewrite Hd; reflexivity|reflexivity|vm_compute; reflexivity|].
  exists ws', e, wc'. split; [exact Hr|]. split; [exact H1|exact H2].
Defined.
