(* ===== verification/LoginSpec.v ===== *)
(** * Connecting

    The connect of the client against the start of a connection at the server: the login of the
    control stream, and the token of the data stream. *)

From S2P Require Import Prelude Utf8 Proto Io Commands Acl Topic Token Pubsub Reference.
From S2P Require Import PubsubSpec Passwords Keys Server ServerSpec Control ControlSpec Session.
From S2P Require Import SessionSpec Client ClientSpec.

Section login.
Context {SMO : SubMapOps} {SML : SubMapLaws} {CHO : ChannelOps} {CHL : ChannelLaws}
  {SHO : Sha256Ops} {BCO : BcryptOps} {OSO : OneshotOps} {OSL : OneshotLaws}.

(** ** Login *)

(** A configuration whose credentials fit in a login frame of the server. *)
Definition login_fits (c : Config) : Prop :=
  utf8 (user c) /\ utf8 (password c) /\ NUL ∉ user c /\
  (len (user c ++ x00 :: password c) <= MAX_AUTH_FRAME_SIZE)%N.

Lemma auth_buf_frame c : login_fits c -> auth_buf c = frame (user c ++ x00 :: password c).
Proof.
  intros (_ & _ & _ & Hl). unfold auth_buf, frame, MAX_AUTH_FRAME_SIZE in *.
  rewrite len_app, len_cons in *.
  rewrite (wrap_small 32 (len (user c))), (wrap_small 32 (len (password c))),
    (wrap_small 32 (len (user c) + _)), wrap_small by lia.
  by replace (len (user c) + len (password c) + 1)%N
    with (len (user c) + (1 + len (password c)))%N by lia.
Qed.

(** What a client without TLS sends before the token. *)
Definition login_request (c : Config) : bytes := CONTROL_HEADER ++ COMM_INSECURE :: auth_buf c.

(** What the server answers: its header and version. *)
Definition server_hello : bytes := CONTROL_HEADER ++ to_le_bytes 2 PROTOCOL_VERSION.

Lemma parse_login_text u p :
  utf8 u -> utf8 p -> NUL ∉ u -> parse_login (u ++ x00 :: p) = Ok (u, p).
Proof.
  intros Hu Hp Hn. unfold parse_login. change x00 with NUL. rewrite splitn2_app by done.
  rewrite str_from_utf8_valid by done. simpl. by rewrite str_from_utf8_valid.
Qed.

(** The random source fills the buffer of a token. *)
Definition rng_ok (answers : list (result bytes bytes)) : Prop :=
  Forall (fun a => match a with Ok l => length l = 32 | Err _ => True end) answers.

Lemma register_loop_token answers lg ad h c h' :
  rng_ok answers -> register_client_loop answers lg ad h = Some (Ok c, h') ->
  length (token c) = 32.
Proof.
  intros Ha. revert h; induction Ha as [|a answers Ha _ IH]; intros h; [done|].
  cbn [register_client_loop]. unfold Token.create. destruct a as [l|e]; [|done].
  cbn [map_err]. destruct (sm_register _ _) as [[] sm]; [|apply IH]. by intros [= <- _].
Qed.

(** The server's end of a login. *)
Lemma run_start_tcp_login acceptor addr T c (w : World Server) r w' :
  login_fits c -> wr (conn w) = [] -> out (conn w) = [] ->
  hub_ok (hub (shared w)) -> rng_ok (rng (hub (shared w))) ->
  inp (conn w) = ready (login_request c) ->
  run (start_tcp (Ok tt) acceptor true addr T) w = Some (r, w') ->
  match r with
  | Ok (Some (_, cl, acl)) =>
      out (conn w') = [server_hello; token cl] /\ length (token cl) = 32 /\
      login cl = user c /\ admitted (shared w) (user c) (password c) /\
      get_acl (shared w) (user c) = Some acl /\
      one_more cl (hub (shared w)) (hub (shared w'))
  | Ok None => False
  | Err e =>
      out (conn w') = [server_hello] /\
      by_token (hub (shared w')) = by_token (hub (shared w)) /\
      (kind e = AccessDenied \/ kind e = Io) /\
      (kind e = AccessDenied -> admitted (shared w) (user c) (password c) ->
         get_acl (shared w) (user c) = None)
  end.
Proof.
  intros Hfit Hw Ho Hok Hrng Hi. unfold start_tcp. rewrite run_qbind.
  unfold init_tcp_stream. rewrite run_qbind. cbn [run lift map_err]. rewrite run_qbind.
  unfold login_request in Hi. rewrite auth_buf_frame in Hi by done.
  rewrite (run_read_ready 3 T w (CONTROL_HEADER ++ [COMM_INSECURE])
             (ready (frame (user c ++ x00 :: password c)))) by done.
  rewrite run_qbind. cbn [run lift].
  replace (stream_type_of (CONTROL_HEADER ++ [COMM_INSECURE])) with (Ok (E:=Error) Control)
    by reflexivity.
  rewrite run_qbind. cbn [nth CONTROL_HEADER app]. unfold comm_mode.
  rewrite decide_True by done. cbn [run]. rewrite run_qbind. unfold swrite at 1.
  rewrite run_write_calm by done. cbn [run]. rewrite decide_False by done.
  destruct Hfit as (Hu & Hp & Hn & Hl). assert (len (user c ++ x00 :: password c) < 2 ^ 32)%N
    by (unfold MAX_AUTH_FRAME_SIZE in Hl; lia).
  rewrite run_qbind. unfold read_frame.
  rewrite (run_frame_ready _ _ _ (user c ++ x00 :: password c) []);
    [|by rewrite app_nil_r|done|by intros m [= <-]].
  rewrite run_qbind. cbn [run lift]. rewrite parse_login_text by done.
  rewrite run_qbind. cbn [fst snd].
  match goal with |- context [run (check_login _ _ _) ?w2] => set (w1 := w2) end.
  assert (shared w1 = shared w /\ wr (conn w1) = [] /\ out (conn w1) = [server_hello])
    as (Hs1 & Hw1 & Ho1) by (unfold w1; simpl; by rewrite Ho). clearbody w1.
  destruct (run_check_login addr (user c) (password c) w1) as (ra & -> & Ha).
  rewrite Hs1 in Ha. destruct ra as [acl|e];
    [|intros [= <- <-]; rewrite Ho1, Hs1; destruct Ha; auto].
  destruct Ha as [Hadm Hacl]. rewrite run_qbind.
  pose proof (run_register (user c) addr w1) as Hreg. rewrite Hs1 in Hreg. specialize (Hreg Hok).
  destruct (run (register _ _) w1) as [[rr w2]|] eqn:Er; [|done].
  destruct Hreg as (h' & -> & Hok' & Hrr). destruct rr as [cl|e].
  2:{ intros [= <- <-]. simpl. rewrite Ho1. split; [done|]. split; [done|].
      cbn [run register await] in Er.
      destruct (register_client _ _ _) as [[[c1|e1] h1]|] eqn:Ereg; [done| |done].
      assert (e1 = e) as -> by congruence. rewrite Hs1 in Ereg.
      destruct (register_client_effect _ _ _ _ _ Hok Ereg) as (_ & Hk & _).
      split; [by right|]. by rewrite Hk. }
  destruct Hrr as (Hlg & _ & Hnew & Hb). unfold send_token. rewrite run_bind. unfold swrite.
  rewrite run_write_calm by done. cbn [run]. intros [= <- <-]. simpl. rewrite Ho1.
  split; [done|]. split.
  { cbn [run register await] in Er.
    destruct (register_client _ _ _) as [[[c1|e1] h1]|] eqn:Ereg; [|done..].
    assert (c1 = cl) as -> by congruence. rewrite Hs1 in Ereg.
    by eapply register_loop_token in Ereg. }
  done.
Qed.

(** A TCP client without TLS whose connection opens at once. *)
Record plain_tcp {St} (net : Net St) (c : Config) : Prop := {
  pt_tls : tls c = false;
  pt_path : is_unix_socket (path c) = false;
  pt_dial t : dial net t = Ret (Ok tt);
  pt_nodelay : net_nodelay net = Ok tt;
}.

Lemma run_open_stream {St} (net : Net St) c header t op (w : World St) :
  plain_tcp net c -> wr (conn w) = [] ->
  run (open_stream net c header t op) w =
    Some (Ok (mkSStream (timeout c)), set_wr [] (out (conn w) ++ [header ++ [COMM_INSECURE]]) w).
Proof.
  intros [Ht Hp Hd Hn] Hw. unfold open_stream. rewrite run_bind, Hd. cbn [run].
  rewrite run_qbind. cbn [run lift map_err]. rewrite Hp, run_qbind, Hn. cbn [run lift map_err].
  rewrite Ht, run_bind, run_reduced, run_qbind. by rewrite run_write_calm.
Qed.

Lemma run_read_reply {St} c header name op rest (w : World St) :
  length header = 2 ->
  inp (conn w) = ready (header ++ to_le_bytes 2 PROTOCOL_VERSION) ++ rest ->
  run (read_reply c header name op) w = Some (Ok tt, set_inp rest w).
Proof.
  intros Hl Hi. unfold read_reply. rewrite run_bind, run_reduced, run_qbind.
  rewrite (run_read_ready 2 _ w header (ready (to_le_bytes 2 PROTOCOL_VERSION) ++ rest))
    by (rewrite ?Hi, ?ready_app, <- ?app_assoc; done).
  rewrite bool_decide_eq_true_2 by done. cbn [negb]. rewrite run_bind, run_reduced, run_qbind.
  by rewrite (run_read_ready 2 _ _ (to_le_bytes 2 PROTOCOL_VERSION) rest).
Qed.

(** The client's end, up to the answer to its login. *)
Lemma run_connect_control (net : Net unit) fuel c token_in (w : World unit) :
  plain_tcp net c -> wr (conn w) = [] -> out (conn w) = [] ->
  inp (conn w) = ready (server_hello ++ token_in) -> token_in = [] \/ length token_in = 32 ->
  exists w', run (connect_control net fuel c) w =
      Some (Some (if decide (token_in = []) then Err (access (bs "Login failed"))
                  else Ok (mkSStream (timeout c), token_in, clock w)), w') /\
    concat (out (conn w')) = login_request c.
Proof.
  intros Hnet Hw Ho Hi Htok. unfold connect_control, tls_builder.
  rewrite (pt_tls _ _ Hnet), run_bind. cbn [run now]. rewrite (pt_path _ _ Hnet), run_bind.
  cbn [run]. rewrite run_bind, run_qbind, (run_open_stream net c) by done.
  rewrite run_qbind. unfold log_in. rewrite run_qbind.
  rewrite (run_read_reply c CONTROL_HEADER _ _ (ready token_in));
    [|done|rewrite <- ready_app; exact Hi].
  rewrite run_bind, run_reduced, run_qbind, run_write_calm by done.
  rewrite run_bind, run_reduced, run_bind.
  match goal with |- context [run (read_with_timeout _ _) ?w2] => set (w1 := w2) end.
  assert (concat (out (conn w1)) = login_request c) as Hreq
    by (unfold w1, login_request; simpl; rewrite Ho; simpl; by rewrite app_nil_r).
  assert (inp (conn w1) = ready token_in) as Hin by done.
  clearbody w1. match goal with |- context [read_with_timeout _ ?t] => set (t1 := t) end.
  case_decide as Hnil.
  - rewrite Hnil in Hin. rewrite run_read. pose proof (read_exact_frame 32 t1 w1) as (_ & _ & Hout & _).
    destruct (read_exact 32 t1 w1) as [[l|e] w2] eqn:E.
    + apply read_exact_Ok in E as [Hl Happ]. rewrite Hin in Happ. destruct l; discriminate.
    + eexists. split; [done|]. simpl in *. by rewrite Hout.
  - destruct Htok as [|Hl]; [done|]. rewrite (run_read_ready 32 _ w1 token_in []);
      [|by rewrite app_nil_r|done]. eexists. split; [done|]. done.
Qed.

(** C8: a login from one end to the other. On exactly the bytes that the client's [connect] sends, the
    server either registers one new client with these credentials, which passed the check and have
    access rules, and the client gets this client's token; or it registers nobody, because the
    credentials do not pass, have no access rules, or the random source failed, and [connect]
    reports that the login failed. *)
Theorem login_exchange (acceptor : option (prog Server (result unit bytes))) (addr : bytes)
    (T : N) (c : Config) (net : Net unit) (fuel : nat) (ws ws' : World Server) (wc : World unit)
    (r : result (option (SStream * ServerClient * Acl)) Error) :
  login_fits c -> plain_tcp net c ->
  wr (conn ws) = [] -> out (conn ws) = [] -> wr (conn wc) = [] -> out (conn wc) = [] ->
  hub_ok (hub (shared ws)) -> rng_ok (rng (hub (shared ws))) ->
  inp (conn ws) = ready (login_request c) ->
  run (start_tcp (Ok tt) acceptor true addr T) ws = Some (r, ws') ->
  inp (conn wc) = ready (concat (out (conn ws'))) ->
  exists rc wc', run (connect_control net fuel c) wc = Some (Some rc, wc') /\
    concat (out (conn wc')) = login_request c /\
    match r with
    | Ok (Some (_, cl, acl)) =>
        rc = Ok (mkSStream (timeout c), token cl, clock wc) /\
        login cl = user c /\ admitted (shared ws) (user c) (password c) /\
        get_acl (shared ws) (user c) = Some acl /\
        one_more cl (hub (shared ws)) (hub (shared ws'))
    | Ok None => False
    | Err e =>
        rc = Err (access (bs "Login failed")) /\
        by_token (hub (shared ws')) = by_token (hub (shared ws)) /\
        (kind e = Io \/
         (admitted (shared ws) (user c) (password c) -> get_acl (shared ws) (user c) = None))
    end.
Proof.
  intros Hfit Hnet Hws Hos Hwc Hoc Hok Hrng Hi Hr Hin.
  pose proof (run_start_tcp_login _ _ _ _ _ _ _ Hfit Hws Hos Hok Hrng Hi Hr) as H.
  destruct r as [[[[s cl] acl]|]|e]; [|done|].
  - destruct H as (Ho & Hl & H). rewrite Ho in Hin. cbn [concat] in Hin.
    rewrite app_nil_r in Hin.
    destruct (run_connect_control net fuel c (token cl) wc Hnet Hwc Hoc Hin) as (wc' & Hrun & Hout);
      [by right|]. eexists _, wc'. split; [exact Hrun|]. split; [done|].
    rewrite decide_False by by intros E; rewrite E in Hl. done.
  - destruct H as (Ho & Hb & Hk & H). rewrite Ho in Hin. cbn [concat] in Hin.
    destruct (run_connect_control net fuel c [] wc Hnet Hwc Hoc Hin) as (wc' & Hrun & Hout);
      [by left|]. eexists _, wc'. split; [exact Hrun|]. split; [done|].
    split; [done|]. split; [done|]. destruct Hk; auto.
Qed.

(** ** The data stream *)

Definition data_request (c : Config) (tok : bytes) : bytes :=
  DATA_HEADER ++ COMM_INSECURE :: tok ++ [byte_of_N (timeout_secs c)].

Definition data_hello : bytes := DATA_HEADER ++ to_le_bytes 2 PROTOCOL_VERSION.

(** The token belongs to a registered client whose data channel is free. *)
Definition attachable (tok : bytes) (h : Hub) : Prop :=
  exists cl, registered cl h /\ token cl = tok /\ client_data_channel cl h = None.

Lemma register_data_channel_attachable tok n h :
  hub_ok h ->
  let '(ch, h1) := new_channel n h in
  match (register_data_channel tok ch h1).1 with
  | Ok _ => attachable tok h
  | Err _ => ~ attachable tok h
  end.
Proof.
  intros Hok. simpl. unfold register_data_channel. simpl.
  destruct (clients_by_token (hub_db h) !! tok) as [cl|] eqn:E.
  - destruct (ok_token _ (proj1 Hok) _ _ E) as [Ht _].
    assert (registered cl h) as Hr by by unfold registered; rewrite Ht.
    replace (client_data_channel cl (set_next _ _)) with (client_data_channel cl h) by done.
    destruct (client_data_channel cl h) eqn:Ec; simpl; [|by exists cl].
    intros (cl' & H1 & H2 & H3). unfold registered, by_token in H1. congruence.
  - intros (cl' & H1 & H2 & _). unfold registered, by_token in H1. congruence.
Qed.

(** The server's end. *)
Lemma run_launch_calm stream T c tok (w : World Server) :
  (0 < get_data_queue_size (limits (shared w)))%N ->
  hub_ok (hub (shared w)) -> length tok = 32 -> wr (conn w) = [] ->
  inp (conn w) = ready (tok ++ [byte_of_N (timeout_secs c)]) ->
  exists r w', run (launch_data_stream stream T) w = Some (r, w') /\
    match r with
    | Ok _ => out (conn w') = out (conn w) ++ [[RESPONSE_OK]] /\
        attachable tok (hub (shared w)) /\
        launch_ok tok T (byte_of_N (timeout_secs c)) (hub (shared w)) (shared w')
          (spawned (shared w))
    | Err _ => out (conn w') = out (conn w) ++ [[RESPONSE_ERR]] /\
        ~ attachable tok (hub (shared w)) /\ spawned (shared w') = spawned (shared w)
    end.
Proof.
  intros Hq Hok Hl Hw Hi. unfold launch_data_stream. rewrite run_bind. cbn [run now].
  rewrite run_qbind. unfold sread. rewrite ready_app in Hi.
  rewrite (run_read_ready 32 _ w tok _ Hi Hl). cbv zeta. rewrite run_bind, run_reduced, run_qbind.
  rewrite (run_read_ready 1 _ _ [byte_of_N (timeout_secs c)] []) by (by rewrite ?app_nil_r).
  change (Token.from tok) with tok.
  match goal with |- context [run _ ?w2] => set (w1 := w2) end.
  assert (shared w1 = shared w /\ out (conn w1) = out (conn w) /\ wr (conn w1) = [])
    as (Hs1 & Ho1 & Hw1) by done. clearbody w1. rewrite <- Hs1, <- Ho1 in *.
  pose proof (run_launch_tail stream tok (byte_of_N (timeout_secs c)) T w1 Hok) as Htail.
  pose proof (register_data_channel_attachable tok (get_data_queue_size (limits (shared w1)))
                _ Hok) as Hatt.
  cbv zeta in Htail. rewrite run_bind. cbn [run asks].
  replace (set_shared (shared w1) w1) with w1 by by destruct w1.
  unfold bounded. destruct (N.eqb_spec (get_data_queue_size (limits (shared w1))) 0) as [E|_]; [lia|].
  rewrite run_bind, run_on_hub. destruct (new_channel _ (hub (shared w1))) as [ch h1].
  cbn [fst snd] in *. rewrite run_bind, run_on_hub. simpl (hub (shared (set_shared _ _))).
  destruct (register_data_channel tok ch h1) as [res h2]. cbn [fst snd] in *.
  destruct Htail as (r & w' & Hr & _ & _ & Hx). exists r, w'. split; [exact Hr|].
  destruct res as [[channel client]|e]; rewrite run_bind in Hr; unfold respond_status, swrite in Hr;
    rewrite run_write_calm in Hr by done.
  - destruct r as [[]|e]; [split; [|done]|].
    + revert Hr. do 2 (rewrite run_bind; cbn [run spawn atomic]; rewrite run_bind; cbn [run modify]).
      rewrite run_bind. cbn [run drop_arc modify]. by intros [= <-].
    + revert Hr. do 2 (rewrite run_bind; cbn [run spawn atomic]; rewrite run_bind; cbn [run modify]).
      rewrite run_bind. by cbn [run drop_arc modify].
  - revert Hr. rewrite run_bind. cbn [run close_receiver modify]. by intros [= <- <-].
Qed.

Lemma run_start_tcp_data acceptor peer T c tok (w : World Server) :
  (0 < get_data_queue_size (limits (shared w)))%N ->
  hub_ok (hub (shared w)) -> length tok = 32 -> wr (conn w) = [] -> out (conn w) = [] ->
  inp (conn w) = ready (data_request c tok) ->
  exists r w', run (start_tcp (Ok tt) acceptor true peer T) w = Some (r, w') /\
    match r with
    | Ok (Some _) => False
    | Ok None => out (conn w') = [data_hello; [RESPONSE_OK]] /\
        attachable tok (hub (shared w)) /\
        launch_ok tok T (byte_of_N (timeout_secs c)) (hub (shared w)) (shared w')
          (spawned (shared w))
    | Err _ => out (conn w') = [data_hello; [RESPONSE_ERR]] /\
        ~ attachable tok (hub (shared w)) /\ spawned (shared w') = spawned (shared w)
    end.
Proof.
  intros Hq Hok Hl Hw Ho Hi. unfold start_tcp. rewrite run_qbind.
  unfold init_tcp_stream. rewrite run_qbind. cbn [run lift map_err]. rewrite run_qbind.
  rewrite (run_read_ready 3 T w (DATA_HEADER ++ [COMM_INSECURE])
             (ready (tok ++ [byte_of_N (timeout_secs c)]))) by done.
  rewrite run_qbind. cbn [run lift].
  replace (stream_type_of (DATA_HEADER ++ [COMM_INSECURE])) with (Ok (E:=Error) Data) by reflexivity.
  rewrite run_qbind. cbn [nth DATA_HEADER app]. unfold comm_mode.
  rewrite decide_True by done. cbn [run]. rewrite run_qbind. unfold swrite at 1.
  rewrite run_write_calm by done. cbn [run]. rewrite decide_True by done. rewrite run_qbind.
  match goal with |- context [run (launch_data_stream ?st _) ?w2] =>
    destruct (run_launch_calm st T c tok w2) as (r & w' & -> & H); [done..|] end.
  simpl in H. rewrite Ho in H. destruct r as [[]|e].
  - eexists _, w'. split; [done|]. exact H.
  - eexists _, w'. split; [done|]. exact H.
Qed.

(** The client's end. *)
Lemma run_connect_data (net : Net unit) c tok op resp (w : World unit) :
  plain_tcp net c -> wr (conn w) = [] -> out (conn w) = [] ->
  inp (conn w) = ready (concat [data_hello; resp]) -> length resp = 1 ->
  exists w', run (connect_data net c tok op) w =
      Some (if decide (hd x00 resp = RESPONSE_OK) then Ok (mkSStream (timeout c))
            else Err (access (bs "Data stream authentication failed")), w') /\
    concat (out (conn w')) = data_request c tok.
Proof.
  intros Hnet Hw Ho Hi Hl. unfold connect_data. rewrite run_bind, run_reduced, run_qbind.
  rewrite (run_open_stream net c) by done. rewrite run_qbind.
  rewrite (run_read_reply c DATA_HEADER _ _ (ready resp));
    [|done|rewrite <- ready_app; cbn [concat] in Hi; rewrite app_nil_r in Hi; exact Hi].
  rewrite run_bind, run_reduced, run_qbind, run_write_calm by done.
  rewrite run_bind, run_reduced, run_qbind, run_write_calm by done.
  rewrite run_bind, run_reduced, run_qbind.
  rewrite (run_read_ready 1 _ _ resp []); [|by rewrite app_nil_r|done]. cbn [run].
  eexists. split; [done|]. unfold data_request. simpl. by rewrite Ho.
Qed.

Lemma beacon_agrees c :
  (to_N (byte_of_N (timeout_secs c)) * 1000 / 2 * 1000000)%N = client_beacon c.
Proof.
  rewrite to_N_byte_of_N. unfold client_beacon. rewrite N.mod_small; [done|].
  unfold timeout_secs. lia.
Qed.

(** With queues of size 0 there is no answer: the task of the connection panics when it makes the
    channel, whatever the token is. *)
Lemma run_launch_panics stream T c tok (w : World Server) :
  get_data_queue_size (limits (shared w)) = 0%N -> length tok = 32 ->
  inp (conn w) = ready (tok ++ [byte_of_N (timeout_secs c)]) ->
  run (launch_data_stream stream T) w = None.
Proof.
  intros Hq Hl Hi. unfold launch_data_stream. rewrite run_bind. cbn [run now].
  rewrite run_qbind. unfold sread. rewrite ready_app in Hi.
  rewrite (run_read_ready 32 _ w tok _ Hi Hl). cbv zeta. rewrite run_bind, run_reduced, run_qbind.
  rewrite (run_read_ready 1 _ _ [byte_of_N (timeout_secs c)] []) by (by rewrite ?app_nil_r).
  rewrite run_bind. cbn [run asks set_inp shared]. unfold bounded. by rewrite Hq, run_bind.
Qed.

(** C17: the data stream from one end to the other. When the queues of the server have room at all, then
    with the token of a client the server attaches the stream exactly when that client is registered
    and has no data channel yet, and only then [connect] succeeds; the server's task sends its
    beacons at the interval the client expects. *)
Theorem data_stream_exchange (acceptor : option (prog Server (result unit bytes))) (peer : bytes)
    (T op : N) (c : Config) (tok : bytes) (net : Net unit) (ws : World Server) (wc : World unit) :
  plain_tcp net c -> length tok = 32 ->
  wr (conn ws) = [] -> out (conn ws) = [] -> wr (conn wc) = [] -> out (conn wc) = [] ->
  hub_ok (hub (shared ws)) -> (0 < get_data_queue_size (limits (shared ws)))%N ->
  inp (conn ws) = ready (data_request c tok) ->
  exists r ws', run (start_tcp (Ok tt) acceptor true peer T) ws = Some (r, ws') /\
    (inp (conn wc) = ready (concat (out (conn ws'))) -> exists rc wc',
       run (connect_data net c tok op) wc = Some (rc, wc') /\
       concat (out (conn wc')) = data_request c tok /\
       match rc with
       | Ok _ => r = Ok None /\ attachable tok (hub (shared ws)) /\
           exists cl ch p1 p2, registered cl (hub (shared ws)) /\ token cl = tok /\
             client_data_channel cl (hub (shared ws')) = Some ch /\
             spawned (shared ws') = spawned (shared ws) ++
               [(p1, Pinger ch (client_beacon c));
                (p2, DataTask tok ch T (client_beacon c) (format_login (login cl)) (addr cl))]
       | Err e => is_err r = true /\ ~ attachable tok (hub (shared ws)) /\
           e = access (bs "Data stream authentication failed") /\
           spawned (shared ws') = spawned (shared ws)
       end).
Proof.
  intros Hnet Hl Hws Hos Hwc Hoc Hok Hq Hi.
  destruct (run_start_tcp_data acceptor peer T c tok ws Hq Hok Hl Hws Hos Hi) as (r & ws' & Hr & H).
  exists r, ws'. split; [exact Hr|]. intros Hin.
  destruct r as [[]|e]; [done| |].
  - destruct H as (Ho & Hatt & Hlaunch). rewrite Ho in Hin.
    destruct (run_connect_data net c tok op [RESPONSE_OK] wc Hnet Hwc Hoc Hin eq_refl)
      as (wc' & Hrun & Hout). eexists _, wc'. split; [exact Hrun|]. split; [done|].
    cbn. split; [done|]. split; [done|].
    destruct Hlaunch as (cl & ch & p1 & p2 & interval & -> & H1 & H2 & _ & H4 & H5 & _).
    exists cl, ch, p1, p2. rewrite beacon_agrees in H5. done.
  - destruct H as (Ho & Hatt & Hs). rewrite Ho in Hin.
    destruct (run_connect_data net c tok op [RESPONSE_ERR] wc Hnet Hwc Hoc Hin eq_refl)
      as (wc' & Hrun & Hout). eexists _, wc'. split; [exact Hrun|]. split; [done|].
    by cbn.
Qed.
End login.

(** ** Witnesses *)

#[local] Existing Instance demo_bcrypt.

Lemma login_exchange_witness :
  exists r ws' rc wc',
    run (start_tcp (Ok tt) None true (bs "10.0.0.2:5000") 5)
      (session_world (login_request demo_config) []) = Some (r, ws') /\
    run (connect_control demo_net 0 demo_config)
      (mkWorld 0 (mkConn (ready (concat (out (conn ws')))) None [] []) [] tt) =
      Some (Some rc, wc') /\
    concat (out (conn wc')) = login_request demo_config.
Proof.
  assert (match run (start_tcp (Ok tt) None true (bs "10.0.0.2:5000") 5)
            (session_world (login_request demo_config) []) with
          | Some _ => true | None => false end = true) as H by vm_refl.
  destruct (run (start_tcp _ _ _ _ _) _) as [[r ws']|] eqn:E; [|done].
  destruct (login_exchange None (bs "10.0.0.2:5000") 5 demo_config demo_net 0
              (session_world (login_request demo_config) []) ws'
              (mkWorld 0 (mkConn (ready (concat (out (conn ws')))) None [] []) [] tt) r)
    as (rc & wc' & H1 & H2 & _).
  - repeat split; [constructor|constructor|apply not_elem_of_nil|vm_compute; discriminate].
  - by constructor.
  - reflexivity.
  - reflexivity.
  - reflexivity.
  - reflexivity.
  - apply demo_live_ok.
  - assert (rng (hub (shared (session_world (login_request demo_config) []))) =
            [Ok (demo_token x02)]) as -> by vm_refl. by repeat constructor.
  - reflexivity.
  - exact E.
  - reflexivity.
  - exists r, ws', rc, wc'. split; [reflexivity|]. split; [exact H1|exact H2].
Defined.

(** A client that is registered and has no data channel. *)
Definition idle_world (input : bytes) : World Server :=
  mkWorld 0 (mkConn (ready input) None [] []) (bs "deadline has elapsed")
    (set_hub demo_hub demo_server).

Lemma data_stream_exchange_witness :
  exists r ws' rc wc',
    run (start_tcp (Ok tt) None true (bs "10.0.0.2:5001") 5)
      (idle_world (data_request demo_config (demo_token x01))) = Some (r, ws') /\
    run (connect_data demo_net demo_config (demo_token x01) 0)
      (mkWorld 0 (mkConn (ready (concat (out (conn ws')))) None [] []) [] tt) =
      Some (rc, wc') /\
    concat (out (conn wc')) = data_request demo_config (demo_token x01) /\
    attachable (demo_token x01) demo_hub.
Proof.
  pose (out_of := match run (start_tcp (Ok tt) None true (bs "10.0.0.2:5001") 5)
                    (idle_world (data_request demo_config (demo_token x01))) with
                  | Some (_, ws') => concat (out (conn ws')) | None => [] end).
  destruct (data_stream_exchange None (bs "10.0.0.2:5001") 5 0 demo_config (demo_token x01) demo_net
              (idle_world (data_request demo_config (demo_token x01)))
              (mkWorld 0 (mkConn (ready out_of) None [] []) [] tt))
    as (r & ws' & Hr & Hx);
    [by constructor|reflexivity|reflexivity|reflexivity|reflexivity|reflexivity
    |apply demo_ok|reflexivity|reflexivity|].
  assert (out_of = concat (out (conn ws'))) as E by (unfold out_of; rewrite Hr; reflexivity).
  clearbody out_of. subst out_of. destruct Hx as (rc & wc' & H1 & H2 & _); [reflexivity|].
  exists r, ws', rc, wc'. split; [exact Hr|]. split; [exact H1|]. split; [exact H2|].
  exists demo_client. split; [apply demo_registered|]. split; [reflexivity|]. vm_refl.
Defined.
