(* ===== verification/ConnectSpec.v ===== *)
(** * How long [connect] takes

    [Client::connect] of Client.v ends, and when: it waits for a UNIX socket at most as long as it is
    told, and then everything is under one timeout, except the two TLS handshakes, which have none. *)

From S2P Require Import Prelude Utf8 Proto Io Commands Pubsub Reference Client ClientSpec LoginSpec.

(** ** Programs with a deadline *)

(** The program ends at the instant [X] at the latest. *)
Definition ends_by {St A} (X : N) (p : prog St A) (w : World St) : Prop :=
  returns p w (fun _ w' => (clock w <= clock w' <= X)%N).

Section ends_by.
Context {St : Type}.
Implicit Types w : World St.

Lemma ends_by_ret {A} X (a : A) w : (clock w <= X)%N -> ends_by X (Ret a) w.
Proof. intros. by apply returns_ret. Qed.

Lemma ends_by_bind {A B} X Y (m : prog St A) (f : A -> prog St B) w :
  ends_by X m w ->
  (forall a w', (clock w <= clock w' <= X)%N -> ends_by Y (f a) w') -> ends_by Y (pbind f m) w.
Proof.
  intros Hm Hf. apply returns_bind. eapply returns_mono; [exact Hm|]. intros a w1 H1.
  eapply returns_mono; [by apply Hf|]. intros b w2 H2. simpl in *. lia.
Qed.

Lemma ends_by_qbind {A B E} X Y (m : prog St (result A E)) (f : A -> prog St (result B E)) w :
  ends_by X m w -> (X <= Y)%N ->
  (forall a w', (clock w <= clock w' <= X)%N -> ends_by Y (f a) w') -> ends_by Y (qbind m f) w.
Proof.
  intros Hm HX Hf. eapply ends_by_bind; [exact Hm|].
  intros [a|e] w1 H1; [by apply Hf|]. apply ends_by_ret. lia.
Qed.

Lemma ends_by_weaken {A} X Y (p : prog St A) w : ends_by X p w -> (X <= Y)%N -> ends_by Y p w.
Proof. intros Hp HX. eapply returns_mono; [exact Hp|]. intros a w1 H1. simpl in *. lia. Qed.

Lemma ends_by_read n t X w : (clock w + t <= X)%N -> ends_by X (read_with_timeout n t) w.
Proof.
  intros. eexists _, _. split; [apply run_read|]. pose proof (read_exact_time n t w). lia.
Qed.

Lemma ends_by_write b t X w : (clock w + t <= X)%N -> ends_by X (write_with_timeout b t) w.
Proof.
  intros. eexists _, _. split; [apply run_write|]. pose proof (write_all_time b t w). lia.
Qed.

(** What is left of a timeout ends before it is over, or at once. *)
Lemma ends_by_reduced {B} T op X Y (f : N -> prog St B) w :
  (op <= clock w <= X)%N -> (op + T <= X)%N ->
  (forall t, (clock w + t <= X)%N -> ends_by Y (f t) w) -> ends_by Y (pbind f (reduced T op)) w.
Proof.
  intros Hop HX Hf. unfold ends_by. apply returns_bind. eexists _, _. split; [apply run_reduced|].
  apply Hf. rewrite reduce_timeout_deadline; lia.
Qed.

Lemma ends_by_lift {A E} (r : result A E) X w : (clock w <= X)%N -> ends_by X (lift r) w.
Proof. apply ends_by_ret. Qed.
End ends_by.

(** A program whose steps are all within the deadline. *)
Ltac in_time :=
  repeat first
    [ apply ends_by_ret; lia
    | apply ends_by_lift; lia
    | apply ends_by_read; lia
    | apply ends_by_write; lia
    | lazymatch goal with |- ends_by ?X (pbind _ (reduced _ _)) _ =>
        apply (ends_by_reduced _ _ X); [lia|lia|intros ? ?] end
    | eapply ends_by_qbind; [|apply N.le_refl|intros ? ? ?]
    | lazymatch goal with |- ends_by ?X (pbind _ _) _ => apply (ends_by_bind X); [|intros ? ? ?] end
    | case_match ].

(** ** The phases of [connect] *)

(** The network: a connection is made or given up within its timeout, and a TLS handshake takes at
    most [h]. *)
Record punctual {St} (net : Net St) (c : Config) (h : N) : Prop := {
  pn_dial t w : ends_by (clock w + t) (dial net t) w;
  pn_handshake d w : tls c = true -> is_unix_socket (path c) = false ->
    ends_by (clock w + h) (tls_connect net d) w;
}.

Section phases.
Context {St : Type}.
Variable net : Net St.
Variable c : Config.
Variable h : N.
Hypothesis net_punctual : punctual net c h.
Implicit Types w : World St.

#[local] Abbreviation T := (timeout c).

Lemma open_stream_ends header dial_timeout op X w :
  (op <= clock w)%N -> (op + T <= X)%N -> (clock w + dial_timeout <= X)%N ->
  ends_by (X + h) (open_stream net c header dial_timeout op) w.
Proof.
  intros Hop HT Hd. unfold open_stream.
  eapply (ends_by_bind (clock w + dial_timeout)); [apply (pn_dial _ _ _ net_punctual)|].
  intros r w1 H1. eapply (ends_by_qbind X); [in_time|lia|intros [] w2 H2].
  destruct (is_unix_socket (path c)) eqn:Hu.
  { apply (ends_by_weaken X); [|lia]. in_time. }
  eapply (ends_by_qbind X); [in_time|lia|intros [] w3 H3].
  destruct (tls c) eqn:Ht; [|apply (ends_by_weaken X); [in_time|lia]].
  apply (ends_by_reduced _ _ X); [lia|lia|intros t Ht'].
  eapply (ends_by_qbind X); [in_time|lia|intros [] w4 H4].
  eapply (ends_by_qbind X); [in_time|lia|intros [] w5 H5].
  eapply (ends_by_bind (clock w5 + h)); [by apply (pn_handshake _ _ _ net_punctual)|].
  intros r' w6 H6. in_time.
Qed.

Lemma read_reply_ends header name op X w :
  (op <= clock w <= X)%N -> (op + T <= X)%N -> ends_by X (read_reply c header name op) w.
Proof. intros. unfold read_reply. in_time. Qed.

Lemma log_in_ends op X w :
  (op <= clock w <= X)%N -> (op + T <= X)%N -> ends_by X (log_in c op) w.
Proof.
  intros. unfold log_in. eapply ends_by_qbind; [by apply read_reply_ends|lia|intros [] w1 H1].
  in_time.
Qed.

(** The data stream, whose handshake may begin when the timeout ends. *)
Lemma connect_data_ends token op X w :
  (op <= clock w <= X)%N -> (op + T <= X)%N -> ends_by (X + h) (connect_data net c token op) w.
Proof.
  intros. unfold connect_data. apply (ends_by_reduced _ _ X); [lia|lia|intros t Ht].
  apply (ends_by_qbind (X + h)); [apply open_stream_ends; lia|lia|intros stream w1 H1].
  apply (ends_by_qbind (X + h)); [apply read_reply_ends; lia|lia|intros [] w2 H2]. in_time.
Qed.

(** *** The UNIX socket *)

Definition sleep_step : N := 100 * 10 ^ 6.

(** The longest wait for a socket that never comes: the timeout, and a step of the loop. *)
Definition socket_wait : N :=
  if is_unix_socket (path c) then socket_wait_timeout c + sleep_step else 0.

(** The loop gives up in the round after the timeout. *)
Lemma wait_socket_returns fuel wait op w :
  (op <= clock w)%N -> (wait < clock w - op + sleep_step * N.of_nat fuel)%N ->
  (clock w <= op + wait)%N ->
  returns (wait_socket net fuel wait op) w (fun r w' =>
    (clock w <= clock w' <= op + wait + sleep_step)%N /\
    (r = Some (Ok (clock w')) \/ exists e, r = Some (Err e))).
Proof.
  revert w; induction fuel as [|fuel IH]; intros w Hop Hf Hw; [lia|]. cbn [wait_socket].
  apply returns_bind. eexists _, _. split; [apply run_now|]. destruct (path_exists net (clock w)).
  { apply returns_bind. eexists _, _. split; [apply run_now|]. apply returns_ret. split; [lia|by left]. }
  apply returns_bind. exists tt, (set_clock (clock w + sleep_step) w). split; [done|].
  apply returns_bind. eexists _, _. split; [apply run_now|]. simpl.
  destruct (N.ltb_spec wait (clock w + sleep_step - op)) as [Hgt|Hle].
  - apply returns_ret. simpl. split; [lia|]. right. by eexists.
  - eapply returns_mono; [apply IH; simpl; lia|]. intros r w' [H1 H2]. simpl in *. split; [lia|done].
Qed.

(** *** The control connection *)

Lemma connect_control_returns fuel w :
  (socket_wait_timeout c / sleep_step < N.of_nat fuel)%N ->
  returns (connect_control net fuel c) w (fun r w' =>
    (clock w <= clock w' <= clock w + socket_wait + T + h)%N /\
    match r with
    | None => False
    | Some (Err _) => True
    | Some (Ok (_, _, op)) =>
        (clock w <= op <= clock w + socket_wait)%N /\ (op <= clock w' <= op + T + h)%N
    end).
Proof.
  intros Hf. assert (socket_wait_timeout c < sleep_step * N.of_nat fuel)%N as Hw.
  { pose proof (N.mul_succ_div_gt (socket_wait_timeout c) sleep_step ltac:(done)).
    assert (sleep_step * N.succ (socket_wait_timeout c / sleep_step) <= sleep_step * N.of_nat fuel)%N
      by (apply N.mul_le_mono_l; lia). lia. }
  unfold connect_control. destruct (tls_builder net c); [|apply returns_ret; split; [lia|done]].
  apply returns_bind. eexists _, _. split; [apply run_now|]. apply returns_bind.
  eapply (returns_mono _ _ (fun r w' => (clock w <= clock w' <= clock w + socket_wait)%N /\
    (r = Some (Ok (clock w')) \/ exists e, r = Some (Err e)))).
  - unfold socket_wait. destruct (is_unix_socket (path c)).
    + apply returns_bind. eexists _, _. split; [apply run_now|].
      destruct (path_exists net (clock w)); [apply returns_ret; split; [lia|by left]|].
      eapply returns_mono; [apply wait_socket_returns; lia|]. simpl. intros r w' [H1 H2].
      split; [lia|done].
    + apply returns_ret. split; [lia|by left].
  - intros r w1 [H1 [->|[e ->]]]; [|apply returns_ret; split; [lia|done]].
    apply returns_bind, returns_qbind.
    eapply returns_mono; [by apply (open_stream_ends _ _ _ (clock w1 + T)); lia|].
    intros [stream|e] w2 H2; simpl in *; [|apply returns_ret; split; [lia|done]].
    apply returns_qbind.
    eapply returns_mono; [apply (log_in_ends _ (clock w1 + T + h)); lia|].
    intros [token|e] w3 H3; simpl in *; (apply returns_ret, returns_ret || apply returns_ret);
      (split; [lia|]); [|done]. lia.
Qed.
End phases.

(** C22: [connect] ends, and when. With a network that gives up connections within their timeout and
    TLS handshakes that take at most [h], it waits for a UNIX socket no longer than its timeout and
    100 milliseconds, in as many rounds; from then on the control connection takes at most the
    timeout and one handshake, and both connections the timeout and two handshakes, whatever the
    server sends or does not send. *)
Theorem connect_bounded {CHO : ChannelOps} {OSO : OneshotOps} (net : Net unit) (c : Config) (h : N)
    (fuel : nat) (data_conn : Conn) (w : World unit) :
  punctual net c h -> (socket_wait_timeout c / sleep_step < N.of_nat fuel)%N ->
  exists r w1, run (connect_control net fuel c) w = Some (Some r, w1) /\
    (clock w1 <= clock w + socket_wait c + timeout c + h)%N /\
    match r with
    | Ok (_, token, op_start) =>
        exists r2 w2, run (connect_data net c token op_start)
            (mkWorld (clock w1) data_conn (elapsed_display w1) tt) = Some (r2, w2) /\
          (clock w2 <= clock w + socket_wait c + timeout c + 2 * h)%N
    | Err _ => True
    end /\
    is_Some (connect net fuel c data_conn w).
Proof.
  intros Hn Hf. destruct (connect_control_returns net c h Hn fuel w Hf) as (r & w1 & Hr & Ht & Hop).
  destruct r as [r|]; [|done]. exists r, w1. unfold connect. rewrite Hr.
  split; [done|]. split; [lia|]. destruct r as [[[stream token] op]|e]; [|by split; [|eexists]].
  destruct Hop as [H1 H2].
  destruct (connect_data_ends net c h Hn token op (op + timeout c + h)
              (mkWorld (clock w1) data_conn (elapsed_display w1) tt)) as (r2 & w2 & Hr2 & H3);
    [simpl; lia|lia|].
  rewrite Hr2. split; [exists r2, w2; split; [done|simpl in *; lia]|].
  destruct (new_client c); [|by eexists]. destruct (need_data_stream c); [destruct r2|]; by eexists.
Qed.

(** The handshake has no timeout: against a peer that never completes it, [connect] never returns,
    whatever the timeout is. *)
Theorem handshake_untimed {CHO : ChannelOps} {OSO : OneshotOps} (net : Net unit) (c : Config)
    (fuel : nat) (data_conn : Conn) (w : World unit) :
  tls c = true -> is_unix_socket (path c) = false -> tls_builder net c = Ok tt ->
  (forall t, dial net t = Ret (Ok tt)) -> net_nodelay net = Ok tt -> build_tls net = Ok tt ->
  wr (conn w) = [] -> (forall d w', run (tls_connect net d) w' = None) ->
  connect net fuel c data_conn w = None.
Proof.
  intros Ht Hu Hb Hd Hn Hbt Hw Hs. unfold connect, connect_control. rewrite Hb, Hu.
  rewrite run_bind, run_now, run_bind. cbn [run]. rewrite run_bind, run_qbind. unfold open_stream.
  rewrite run_bind, Hd. cbn [run]. rewrite run_qbind. cbn [run lift map_err].
  rewrite Hu, run_qbind, Hn. cbn [run lift map_err]. rewrite Ht, run_bind, run_reduced, run_qbind.
  rewrite run_write_calm by done. rewrite run_qbind, Hbt. cbn [run lift map_err].
  by rewrite run_bind, Hs.
Qed.

(** ** A concrete connection *)

(** A UNIX socket that appears after a quarter of a second, with a server that never answers. *)
Definition late_net : Net unit :=
  mkNet unit (fun n => (250 * 10 ^ 6 <=? n)%N) (fun _ => Ret (Ok tt)) (Ok tt) (fun _ => Ok tt) (Ok tt)
    (fun _ => Ret (Ok tt)).

Definition late_config : Config := Config.new (bs "/run/psrtd.sock").

Definition late_world : World unit := mkWorld 0 (mkConn [] None [] []) [] tt.

Lemma connect_bounded_witness :
  exists r w1, run (connect_control late_net 51 late_config) late_world = Some (Some r, w1) /\
    clock w1 = (53 * 10 ^ 8)%N /\ (clock w1 <= socket_wait late_config + timeout late_config)%N /\
    is_Some (connect late_net 51 late_config (mkConn [] None [] []) late_world).
Proof.
  destruct (connect_bounded late_net late_config 0 51 (mkConn [] None [] []) late_world)
    as (r & w1 & Hr & Ht & _ & Hs).
  - split; [intros t w; apply ends_by_ret; lia|intros d w _ _; apply ends_by_ret; lia].
  - vm_compute. reflexivity.
  - exists r, w1. split; [exact Hr|]. split; [|split; [|exact Hs]].
    + assert (match run (connect_control late_net 51 late_config) late_world with
              | Some (_, w) => bool_decide (clock w = (53 * 10 ^ 8)%N) | None => false end = true)
        as H by vm_refl.
      rewrite Hr in H. by apply bool_decide_eq_true_1 in H.
    + by rewrite N.add_0_r in Ht.
Defined.
