(* ===== verification/ReplicationSpec.v ===== *)
(** * Replication to another node

    [publish_repl] at the client against [OP_PUBLISH_REPL] at the server: the message is asked for,
    sent and delivered exactly when somebody is subscribed to its topic there. *)

From S2P Require Import Prelude Utf8 Proto Io Commands Acl Topic Token Pubsub Reference.
From S2P Require Import PubsubSpec Passwords Keys Server ServerSpec Control ControlSpec Session.
From S2P Require Import SessionSpec Client ClientSpec Delivery.

Section exchange.
Context {SMO : SubMapOps} {SML : SubMapLaws} {CHO : ChannelOps} {CHL : ChannelLaws}
  {SHO : Sha256Ops} {BCO : BcryptOps} {OSO : OneshotOps} {OSL : OneshotLaws}.

Section replication.
Variable push : byte -> bytes -> bytes -> N -> prog Server unit.
Variables (stream cstream : SStream) (client : ServerClient) (acl : Acl).
Variables (priority : byte) (topic message : bytes) (ts : N).

(** What the other node says to the topic of a message. *)
Definition repl_status (s : Server) : byte :=
  if Acl.is_replicator acl then
    if bool_decide (get_subscribers topic (hub s) = []) then RESPONSE_NOT_REQUIRED
    else RESPONSE_OK_WAITING
  else RESPONSE_ERR_ACCESS.

(** The message, which follows only when it is waited for. *)
Definition repl_body (s : Server) : bytes :=
  if decide (repl_status s = RESPONSE_OK_WAITING) then repl_head priority message ts ++ message
  else [].

(** Who gets it. *)
Definition repl_delivered (s : Server) : Hub :=
  if decide (repl_status s = RESPONSE_OK_WAITING) then
    published priority topic message ts (hub s)
  else hub s.

Definition repl_responses (s : Server) : list bytes :=
  if decide (repl_status s = RESPONSE_OK_WAITING) then [[RESPONSE_OK_WAITING]; [RESPONSE_OK]]
  else [[repl_status s]].

Lemma as_bytes_repl :
  (len topic < 2 ^ 32)%N ->
  ControlCommand.as_bytes (PublishRepl priority topic message ts) = OP_PUBLISH_REPL :: frame topic.
Proof. intros Hl. simpl. unfold ControlCommand.len_u32, frame. by rewrite wrap_small. Qed.

Lemma repl_head_frame :
  (len message < 2 ^ 32)%N ->
  repl_head priority message ts ++ message = priority :: to_le_bytes 8 ts ++ frame message.
Proof.
  intros Hl. unfold repl_head, frame. rewrite wrap_small by done. cbn [app].
  by rewrite <- app_assoc.
Qed.

(** The message is waited for, and delivered to the subscribers. *)
Lemma run_repl_scope op (w : World Server) :
  (len message < 2 ^ 32)%N -> (len message <= max_pub_size (shared w))%N -> (ts < 2 ^ 64)%N ->
  hub_ok (hub (shared w)) -> wr (conn w) = [] ->
  get_subscribers topic (hub (shared w)) <> [] ->
  inp (conn w) = ready (repl_head priority message ts ++ message) ->
  exists w', run (with_subscribers topic (fun subscribers =>
      if bool_decide (subscribers = []) then
        _ <-? respond_status stream RESPONSE_NOT_REQUIRED ;; Ret (Ok true)
      else
        _ <-? respond_status stream RESPONSE_OK_WAITING ;;
        t <-- reduced (ss_timeout stream) op ;;
        prio <-? read_with_timeout 1 t ;;
        t <-- reduced (ss_timeout stream) op ;;
        ts_buf <-? read_with_timeout 8 t ;;
        max <-- asks max_pub_size ;;
        t <-- reduced (ss_timeout stream) op ;;
        data <-? read_frame_with_timeout (Some max) t ;;
        _ <-- push_to_subscribers subscribers (hd DEFAULT_PRIORITY prio) topic data
                (from_le_bytes ts_buf) ;;
        _ <-? respond_status stream RESPONSE_OK ;;
        Ret (Ok true))) w = Some (Ok true, w') /\ inp (conn w') = [] /\
    out (conn w') = out (conn w) ++ [[RESPONSE_OK_WAITING]; [RESPONSE_OK]] /\
    hub (shared w') = published priority topic message ts (hub (shared w)).
Proof.
  intros Hml Hmm Hts Hok Hw Hsub Hi. rewrite repl_head_frame in Hi by done.
  set (l := get_subscribers topic (hub (shared w))).
  set (w1 := set_shared (with_hub (clone_clients l) (shared w)) w).
  assert (hub_ok (hub (shared w1))) as Hok1 by by apply hub_ok_clone_clients.
  assert (forall c, c ∈ l -> registered c (hub (shared w1))) as Hreg.
  { intros c Hc. apply (registered_db _ (hub (shared w))); [apply hub_db_clone_clients|].
    revert Hc. apply subscribers_registered, Hok. }
  eexists. split.
  - eapply run_scope; fold l w1.
    + rewrite bool_decide_eq_false_2 by done.
      rewrite run_qbind. unfold respond_status at 1, swrite. rewrite run_write_calm by done.
      rewrite run_bind, run_reduced, run_qbind.
      rewrite (run_read_ready 1 _ _ [priority] (ready (to_le_bytes 8 ts ++ frame message))) by done.
      rewrite run_bind, run_reduced, run_qbind.
      rewrite (run_read_ready 8 _ _ (to_le_bytes 8 ts) (ready (frame message)));
        [|apply ready_app|by rewrite length_to_le_bytes].
      rewrite run_bind. cbn [run asks]. rewrite run_bind, run_reduced, run_qbind.
      rewrite (run_frame_ready _ _ _ message []);
        [|simpl; by rewrite app_nil_r|done|by intros m [= <-]].
      cbn [hd]. rewrite from_to_le_bytes_small by done. rewrite run_bind.
      rewrite run_push_to_subscribers by done.
      rewrite run_respond_calm by done. reflexivity.
    + simpl. by rewrite deliver_clones.
  - split; [done|]. split; [|done]. simpl. by rewrite <- app_assoc.
Qed.

Lemma run_publish_repl (w : World Server) :
  utf8 topic -> (len topic < 2 ^ 32)%N -> (len topic <= max_topic_length (shared w))%N ->
  (len message < 2 ^ 32)%N -> (len message <= max_pub_size (shared w))%N -> (ts < 2 ^ 64)%N ->
  hub_ok (hub (shared w)) -> wr (conn w) = [] ->
  inp (conn w) = ready (OP_PUBLISH_REPL :: frame topic ++ repl_body (shared w)) ->
  exists w', run (control_step (Some push) stream client acl (ss_timeout stream)) w =
      Some (Ok true, w') /\ inp (conn w') = [] /\
    out (conn w') = out (conn w) ++ repl_responses (shared w) /\
    hub (shared w') = repl_delivered (shared w).
Proof.
  intros Hu Htl Htm Hml Hmm Hts Hok Hw Hi. unfold control_step. rewrite run_bind. cbn [run now].
  rewrite run_qbind. unfold sread.
  rewrite (run_read_ready 1 _ w [OP_PUBLISH_REPL] (ready (frame topic ++ repl_body (shared w))))
    by done. cbn [hd].
  rewrite !decide_False, decide_True by done. unfold op_publish_repl.
  rewrite run_bind. cbn [run asks]. rewrite run_bind, run_reduced, run_qbind.
  rewrite (run_frame_ready _ _ _ topic (ready (repl_body (shared w))));
    [|apply ready_app|done|by intros m [= <-]].
  rewrite run_qbind. cbn [run lift]. rewrite str_from_utf8_valid by done.
  match goal with |- context [run _ ?w2] => set (w1 := w2) end.
  assert (shared w1 = shared w /\ wr (conn w1) = [] /\ out (conn w1) = out (conn w) /\
          inp (conn w1) = ready (repl_body (shared w))) as (Hs1 & Hw1 & Ho1 & Hi1) by done.
  clearbody w1. unfold repl_responses, repl_delivered, repl_body, repl_status in *.
  destruct (Acl.is_replicator acl).
  2:{ rewrite decide_False in * by done. rewrite run_respond_calm by done. eexists.
      split; [done|]. simpl. by rewrite Ho1, Hs1, Hi1. }
  rewrite <- Hs1, <- Ho1 in *. case_bool_decide as Esub.
  - rewrite decide_False in * by done. eexists. split.
    + eapply run_scope; rewrite Esub; [|reflexivity].
      rewrite bool_decide_eq_true_2 by done. by rewrite run_respond_calm.
    + simpl. by rewrite Hi1.
  - rewrite decide_True in * by done. by apply run_repl_scope.
Qed.

Definition repl_command (i : nat) : Command :=
  mkCommand (PublishRepl priority topic message ts) (Some i).

(** The answer of the caller. *)
Definition repl_answer (s : Server) : result unit Error :=
  if Acl.is_replicator acl then Ok tt else Err (access (bs "Operation access denied")).

Lemma run_execute_repl i t op (s : Server) (w : World ClientState) :
  wr (conn w) = [] -> out (conn w) = [] -> inp (conn w) = ready (concat (repl_responses s)) ->
  exists w', run (execute cstream (repl_command i) t op) w = Some (Ok tt, w') /\
    concat (out (conn w')) =
      ControlCommand.as_bytes (PublishRepl priority topic message ts) ++ repl_body s /\
    shared w' = drop_command (repl_command i) (answer (repl_command i) (repl_answer s) (shared w)).
Proof.
  intros Hw Ho Hi. unfold execute. rewrite run_bind, run_qbind. unfold swrite.
  rewrite run_write_calm by done. unfold finish_command. cbn [control_command repl_command].
  rewrite run_bind, run_reduced, run_qbind.
  match goal with |- context [run (read_with_timeout _ _) ?w2] => set (w1 := w2) end.
  assert (shared w1 = shared w /\ wr (conn w1) = [] /\ inp (conn w1) = inp (conn w) /\
    out (conn w1) = [ControlCommand.as_bytes (PublishRepl priority topic message ts)])
    as (Hs1 & Hw1 & Hi1 & Ho1) by (unfold w1; simpl; by rewrite Ho).
  clearbody w1. rewrite Hi in Hi1.
  unfold repl_responses, repl_body, repl_status, repl_answer in *.
  destruct (Acl.is_replicator acl); [case_bool_decide|].
  - rewrite decide_False in * by done.
    rewrite (run_read_ready 1 _ _ [RESPONSE_NOT_REQUIRED] []); [|rewrite app_nil_r; exact Hi1|done].
    cbn [hd]. rewrite decide_False, decide_True by done. rewrite run_bind. cbn [run modify].
    rewrite run_bind. cbn [run modify]. eexists. split; [done|]. simpl. by rewrite Ho1, Hs1.
  - rewrite decide_True in * by done.
    rewrite (run_read_ready 1 _ _ [RESPONSE_OK_WAITING] (ready [RESPONSE_OK])) by done.
    cbn [hd]. rewrite decide_True by done.
    rewrite run_bind, run_reduced, run_qbind, run_write_calm by done.
    rewrite run_bind, run_reduced, run_qbind, run_write_calm by done.
    rewrite (run_process_reply _ _ _ RESPONSE_OK []) by done.
    rewrite run_bind. cbn [run modify]. eexists. split; [done|]. simpl. rewrite Ho1, Hs1. simpl.
    by rewrite app_nil_r.
  - rewrite decide_False in * by done.
    rewrite (run_read_ready 1 _ _ [RESPONSE_ERR_ACCESS] []); [|rewrite app_nil_r; exact Hi1|done].
    cbn [hd]. rewrite !decide_False by done. unfold handle_err.
    destruct (decide (RESPONSE_ERR_ACCESS = RESPONSE_ERR_ACCESS)) as [_|[]]; [|done].
    rewrite run_bind. cbn [run modify]. rewrite run_bind. cbn [run modify].
    eexists. split; [done|]. simpl. by rewrite Ho1, Hs1.
Qed.
End replication.

(** C9: the replication of a message to another node. The other node asks for the message only when the
    sender may replicate and somebody there is subscribed to its topic; it then delivers it, with
    the priority and the timestamp it had, to its subscribers; the client sends the body exactly
    when it is asked for; and its caller learns of a denial when the sender may not replicate, and
    of success otherwise. *)
Theorem replication_exchange (push : byte -> bytes -> bytes -> N -> prog Server unit)
    (stream cstream : SStream) (client : ServerClient) (acl : Acl) (priority : byte)
    (topic message : bytes) (ts : N) (i : nat) (o : oneshot (result unit Error)) (t op : N)
    (ws : World Server) (wc : World ClientState) :
  utf8 topic -> (len topic < 2 ^ 32)%N -> (len topic <= max_topic_length (shared ws))%N ->
  (len message < 2 ^ 32)%N -> (len message <= max_pub_size (shared ws))%N -> (ts < 2 ^ 64)%N ->
  hub_ok (hub (shared ws)) ->
  wr (conn ws) = [] -> out (conn ws) = [] -> wr (conn wc) = [] -> out (conn wc) = [] ->
  oneshots (shared wc) !! i = Some o -> os_recv o = None ->
  let subscribers := get_subscribers topic (hub (shared ws)) in
  let wanted := Acl.is_replicator acl && negb (bool_decide (subscribers = [])) in
  inp (conn ws) = ready (ControlCommand.as_bytes (PublishRepl priority topic message ts) ++
    if wanted then repl_head priority message ts ++ message else []) ->
  exists ws', run (control_step (Some push) stream client acl (ss_timeout stream)) ws =
      Some (Ok true, ws') /\ inp (conn ws') = [] /\
    hub (shared ws') = (if wanted then published priority topic message ts (hub (shared ws))
                        else hub (shared ws)) /\
    (inp (conn wc) = ready (concat (out (conn ws'))) -> exists wc' o',
       run (execute cstream (mkCommand (PublishRepl priority topic message ts) (Some i)) t op) wc =
         Some (Ok tt, wc') /\
       ready (concat (out (conn wc'))) = inp (conn ws) /\
       oneshots (shared wc') !! i = Some o' /\
       os_recv o' = Some (Some (if Acl.is_replicator acl then Ok tt
                                else Err (access (bs "Operation access denied"))))).
Proof.
  intros Hu Htl Htm Hml Hmm Hts Hok Hws Hos Hwc Hoc Ho Hr subscribers wanted Hi.
  assert ((if wanted then repl_head priority message ts ++ message else []) =
    repl_body acl priority topic message ts (shared ws)) as Hbody.
  { unfold repl_body, repl_status, wanted, subscribers.
    by destruct (Acl.is_replicator acl); [case_bool_decide|]. }
  rewrite Hbody in Hi. rewrite as_bytes_repl in Hi by done.
  destruct (run_publish_repl push stream client acl priority topic message ts ws)
    as (ws' & Hrun & Hin & Hout & Hhub); [done..|].
  exists ws'. split; [exact Hrun|]. split; [done|]. split.
  { rewrite Hhub. unfold repl_delivered, repl_status, wanted, subscribers.
    by destruct (Acl.is_replicator acl); [case_bool_decide|]. }
  rewrite Hout, Hos. intros Hic.
  destruct (run_execute_repl cstream acl priority topic message ts i t op (shared ws) wc Hwc Hoc Hic)
    as (wc' & Hc & Hco & Hcs).
  destruct (answered (repl_command priority topic message ts i) i o (repl_answer acl (shared ws))
              (shared wc)) as (o' & H1 & H2); [done..|].
  exists wc', o'. split; [exact Hc|]. split; [by rewrite Hco, Hi, as_bytes_repl|].
  split; [by rewrite Hcs|done].
Qed.
End exchange.

(** ** Witness *)

#[local] Existing Instance demo_bcrypt.

(** The replication of a message to a node with a subscriber, by an administrator. *)
Definition repl_input : bytes :=
  ControlCommand.as_bytes (PublishRepl x7f (bs "sensors/1") (bs "on") 7) ++
    repl_head x7f (bs "on") 7 ++ bs "on".

Lemma replication_exchange_witness :
  exists ws' wc' o',
    run (control_step (Some (fun _ _ _ _ => sleep 1)) (mkSStream 5) demo_client Acl.new_full 5)
      (demo_world repl_input) = Some (Ok true, ws') /\
    hub (shared ws') = published x7f (bs "sensors/1") (bs "on") 7 demo_live_hub /\
    run (execute (mkSStream 5) (mkCommand (PublishRepl x7f (bs "sensors/1") (bs "on") 7) (Some 0)) 5 0)
      (client_world (concat (out (conn ws')))) = Some (Ok tt, wc') /\
    oneshots (shared wc') !! 0 = Some o' /\ os_recv o' = Some (Some (Ok tt)).
Proof.
  pose (sent := match run (control_step (Some (fun _ _ _ _ => sleep 1)) (mkSStream 5) demo_client
                             Acl.new_full 5) (demo_world repl_input) with
                | Some (_, ws') => concat (out (conn ws')) | None => [] end).
  assert (negb (bool_decide (get_subscribers (bs "sensors/1") demo_live_hub = [])) = true) as Hsub.
  { apply negb_true_iff, bool_decide_eq_false. intros E. pose proof demo_subscribed as H.
    rewrite E in H. by apply not_elem_of_nil in H. }
  destruct (replication_exchange (fun _ _ _ _ => sleep 1) (mkSStream 5) (mkSStream 5) demo_client
              Acl.new_full x7f (bs "sensors/1") (bs "on") 7 0 os_channel 5 0
              (demo_world repl_input) (client_world sent))
    as (ws' & Hr & _ & Hh & Hx);
    [apply (topic_text_ascii (bs "sensors/1")); vm_compute; reflexivity|vm_compute; reflexivity
    |vm_compute; discriminate|vm_compute; reflexivity|vm_compute; discriminate|reflexivity
    |apply demo_live_ok|reflexivity|reflexivity|reflexivity|reflexivity|reflexivity|reflexivity
    |change (hub (shared (demo_world repl_input))) with demo_live_hub; rewrite Hsub; reflexivity|].
  change (ss_timeout (mkSStream 5)) with 5%N in Hr.
  change (hub (shared (demo_world repl_input))) with demo_live_hub in Hh. rewrite Hsub in Hh.
  assert (sent = concat (out (conn ws'))) as E by (unfold sent; rewrite Hr; reflexivity).
  clearbody sent. subst sent. destruct Hx as (wc' & o' & H1 & _ & H3 & H4); [reflexivity|].
  exists ws', wc', o'. split; [exact Hr|]. split; [exact Hh|]. split; [exact H1|].
  split; [exact H3|exact H4].
Defined.
