(* ===== verification/Queues.v ===== *)
(** * What the hub holds for whom

    The type of the hub behind Frames.v: every data channel that was handed to a client, the one that
    is registered under the token that the data stream presented, belongs to this client from then
    on, and holds beacons and messages that are well formed, that their publishers may send and that
    this client may read. Whom a channel and a client object belong to is ghost state, two tables
    that only grow: the program forgets it when a channel is taken from its client, and a publisher
    may still send into the channel then. For each operation of pubsub.rs there is one lemma that it
    keeps the type. *)

From S2P Require Import Prelude Utf8 Proto Io Commands Acl Topic Token Pubsub Reference PubsubSpec.
From S2P Require Import Passwords Keys Server ServerSpec Control ControlSpec Session Client ClientSpec.
From S2P Require Import Delivery Broker Interleave Pubsub.

(** ** Messages *)

(** A message whose topic is one that [prepare_topic] returns under the limit of depth, without
    wildcards, or a beacon. *)
Definition well_typed (depth : N) (x : Queued) : Prop :=
  deliverable x /\
  match x with
  | Beacon => True
  | Sent _ t _ _ =>
      contains_invalid t = false /\ normal t /\ (N.of_nat (count slash t) <= depth)%N
  end.

(** The program pushes a topic that [prepare_topic] took from text, with a body that together are
    not too long. *)
Lemma prepared_well_typed depth p t r d ts :
  prepare_topic depth t = Ok r -> utf8 t -> NUL ∉ t -> contains_invalid r = false ->
  (len t + len d + 1 < 2 ^ 32)%N -> well_typed depth (Sent p r d ts).
Proof.
  intros Hp Hu Hn Hc Hl. split; [split_and!|split_and!].
  - intros Hin. by eapply Hn, prepare_topic_elem.
  - by eapply prepare_topic_utf8.
  - pose proof (prepare_topic_length _ _ _ Hp). rewrite len_app, len_cons. unfold len in *. lia.
  - done.
  - unfold normal. rewrite (prepare_topic_levels _ _ _ Hp). apply normal_levels_idem.
  - rewrite prepare_topic_eq in Hp. cbv zeta in Hp. case_match eqn:E; simplify_eq.
    by apply N.ltb_ge in E.
Qed.

(** A message under a topic of a given set. *)
Definition permitted (P : bytes -> Prop) (x : Queued) : Prop :=
  match x with Beacon => True | Sent _ t _ _ => P t end.

(** ** The ghost state *)

(** The clients that were registered, by the identity of their object, and the owners of the channels
    that were handed over. *)
Record Owners : Type := mkOwners {
  clients_of : gmap nat ServerClient;
  channel_of : gmap nat ServerClient;
}.

Definition no_owners : Owners := mkOwners ∅ ∅.

Definition add_client (i : nat) (c : ServerClient) (g : Owners) : Owners :=
  mkOwners (<[i := c]> (clients_of g)) (channel_of g).

Definition add_channel (ch : nat) (c : ServerClient) (g : Owners) : Owners :=
  mkOwners (clients_of g) (<[ch := c]> (channel_of g)).

Definition owners_grow (g g' : Owners) : Prop :=
  clients_of g ⊆ clients_of g' /\ channel_of g ⊆ channel_of g'.

#[export] Instance owners_grow_preorder : PreOrder owners_grow.
Proof.
  split; [by intros g|]. intros g1 g2 g3 [A1 A2] [B1 B2]. split; by etrans.
Qed.

#[export] Instance owners_ghost : Ghost Owners := {| grows := owners_grow |}.

Definition owned (g : Owners) (c : ServerClient) : Prop := clients_of g !! sc_id c = Some c.

Lemma clients_grow (g g' : Owners) i c :
  grows g g' -> clients_of g !! i = Some c -> clients_of g' !! i = Some c.
Proof. intros [Hg _] Hi. by eapply lookup_weaken. Qed.

Lemma channels_grow (g g' : Owners) ch c :
  grows g g' -> channel_of g !! ch = Some c -> channel_of g' !! ch = Some c.
Proof. intros [_ Hg] Hi. by eapply lookup_weaken. Qed.

Lemma owned_grows (g g' : Owners) c : grows g g' -> owned g c -> owned g' c.
Proof. apply clients_grow. Qed.

Section queues.
Context {SMO : SubMapOps} {SML : SubMapLaws} {CHO : ChannelOps} {CHL : ChannelLaws}
  {SHO : Sha256Ops}.
(** The limit of depth, the topics that may be published, and those that a client may read. *)
Variable depth : N.
Variable P : bytes -> Prop.
Variable R : ServerClient -> bytes -> Prop.

(** What may be in the channel of a client, and in one that nobody has yet. *)
Definition admissible (o : option ServerClient) (x : Queued) : Prop :=
  well_typed depth x /\ permitted P x /\
  match o with Some c => permitted (R c) x | None => x = Beacon end.

Definition well_queued (o : option ServerClient) (q : list MessageFrame) : Prop :=
  exists l, q = map frame_of l /\ Forall (admissible o) l.

Lemma well_queued_nil o : well_queued o [].
Proof. by exists []. Qed.

Lemma well_queued_suffix o k q : well_queued o (k ++ q) -> well_queued o q.
Proof.
  induction k as [|m k IH]; [done|]. intros ([|x l] & E & Hl); simplify_eq/=.
  apply Forall_cons in Hl as [_ Hl]. apply IH. by exists l.
Qed.

Lemma well_queued_snoc o x q :
  admissible o x -> well_queued o q -> well_queued o (q ++ [frame_of x]).
Proof.
  intros Hx (l & -> & Hl). exists (l ++ [x]). rewrite map_app. split; [done|].
  apply Forall_app. by rewrite Forall_singleton.
Qed.

(** The channel is handed over. *)
Lemma well_queued_give c q : well_queued None q -> well_queued (Some c) q.
Proof.
  intros (l & -> & Hl). exists l. split; [done|]. eapply Forall_impl; [exact Hl|].
  by intros x (H1 & H2 & ->).
Qed.

(** ** The type of the hub *)

(** What a client is subscribed to, it may read. *)
Definition covered (c : ServerClient) (ps : gset bytes) : Prop :=
  forall p t, p ∈ ps -> pattern_matches p t = true -> R c t.

Record hub_typed (g : Owners) (h : Hub) : Prop := {
  ht_clients i c : clients_of g !! i = Some c -> i < next_id h;
  ht_channels ch c : channel_of g !! ch = Some c -> ch < next_id h;
  ht_tokens tok c : by_token h !! tok = Some c -> owned g c /\ token c = tok;
  ht_members d c ps :
    view h !! d = Some (c, ps) -> digest c = d /\ owned g c /\ covered c ps;
  ht_slots i cell ch :
    cells h !! i = Some cell -> data_channel cell = Some ch ->
    exists c, clients_of g !! i = Some c /\ channel_of g !! ch = Some c;
  ht_queues ch q :
    chans h !! ch = Some q -> well_queued (channel_of g !! ch) (ch_queue (ch_view q));
}.

(** A new identity, and whom it belongs to. *)
Lemma grows_next (g : Owners) h c : hub_typed g h -> grows g (add_client (next_id h) c g).
Proof.
  intros Hh. split; [|done]. apply insert_subseteq.
  destruct (clients_of g !! next_id h) eqn:E; [|done]. apply (ht_clients g h Hh) in E. lia.
Qed.

Lemma grows_channel (g : Owners) ch c : channel_of g !! ch = None -> grows g (add_channel ch c g).
Proof. intros H. split; [done|]. by apply insert_subseteq. Qed.

(** *** Operations that add nothing *)

(** What the hub holds afterwards it held before, and a queue is the rest of what it was. *)
Record fades (h h' : Hub) : Prop := {
  fd_next : next_id h <= next_id h';
  fd_tokens : by_token h' ⊆ by_token h;
  fd_members d c ps :
    view h' !! d = Some (c, ps) -> exists ps0, view h !! d = Some (c, ps0) /\ ps ⊆ ps0;
  fd_slots i cell ch :
    cells h' !! i = Some cell -> data_channel cell = Some ch ->
    exists cell0, cells h !! i = Some cell0 /\ data_channel cell0 = Some ch;
  fd_queues ch c :
    chans h' !! ch = Some c ->
    exists c0 k, chans h !! ch = Some c0 /\ ch_queue (ch_view c0) = k ++ ch_queue (ch_view c);
}.

Lemma fades_same h h' :
  next_id h <= next_id h' -> hub_db h' = hub_db h -> cells h' = cells h -> chans h' = chans h ->
  fades h h'.
Proof.
  intros Hn Hd Hc Hch. split; unfold by_token, view; rewrite ?Hd, ?Hc, ?Hch; try done.
  - by eauto.
  - by eauto.
  - intros ch c E. by exists c, [].
Qed.

#[export] Instance fades_preorder : PreOrder fades.
Proof.
  split; [intros h; by apply fades_same|]. intros h1 h2 h3 [A1 A2 A3 A4 A5] [B1 B2 B3 B4 B5].
  split; [lia|by etrans| | |].
  - intros d c ps E. destruct (B3 d c ps E) as (ps2 & E2 & H2).
    destruct (A3 d c ps2 E2) as (ps1 & E1 & H1). exists ps1. split; [done|by etrans].
  - intros i cell ch E D. destruct (B4 i cell ch E D) as (cell2 & E2 & D2). by eapply A4.
  - intros ch c E. destruct (B5 ch c E) as (c2 & k2 & E2 & H2).
    destruct (A5 ch c2 E2) as (c1 & k1 & E1 & H1). exists c1, (k1 ++ k2).
    split; [done|]. by rewrite H1, H2, app_assoc.
Qed.

Lemma hub_typed_fades g h h' : fades h h' -> hub_typed g h -> hub_typed g h'.
Proof.
  intros [F1 F2 F3 F4 F5] [H1 H1' H2 H3 H4 H5]. split.
  - intros i c E%H1. lia.
  - intros i c E%H1'. lia.
  - intros tok c E. apply H2. by eapply lookup_weaken.
  - intros d c ps E. destruct (F3 d c ps E) as (ps0 & E0 & Hps).
    destruct (H3 d c ps0 E0) as (Hd & Hc & Hcov). split_and!; [done..|].
    intros p t Hp. apply Hcov. set_solver.
  - intros i cell ch E D. destruct (F4 i cell ch E D) as (cell0 & E0 & D0). by eapply H4.
  - intros ch c E. destruct (F5 ch c E) as (c0 & k & E0 & Hq).
    pose proof (H5 ch c0 E0) as Hw. rewrite Hq in Hw. by eapply well_queued_suffix.
Qed.

Lemma fades_set_chan ch c0 c k h :
  chans h !! ch = Some c0 -> ch_queue (ch_view c0) = k ++ ch_queue (ch_view c) ->
  fades h (set_chans (<[ch := c]> (chans h)) h).
Proof.
  intros E Hq. split; simpl; [done|done|by eauto|by eauto|].
  intros ch' c'. rewrite lookup_insert. case_decide as D.
  - subst. intros [= <-]. by exists c0, k.
  - intros E'. by exists c', [].
Qed.

Lemma fades_update_chan f ch h :
  (forall c, ch_queue (ch_view (f c)) = ch_queue (ch_view c)) -> fades h (update_chan f ch h).
Proof.
  intros Hf. split; [done|done|by eauto|simpl; by eauto|].
  intros ch' c. rewrite update_chan_lookup. case_decide; [|intros E; by exists c, []].
  subst. intros (c0 & E0 & ->)%fmap_Some. exists c0, []. by rewrite Hf.
Qed.

Lemma fades_clone_sender ch h : fades h (update_chan ch_clone_sender ch h).
Proof. apply fades_update_chan. intros c. by rewrite ch_clone_sender_view. Qed.

Lemma fades_close_sender ch h : fades h (update_chan ch_drop_sender ch h).
Proof. apply fades_update_chan. intros c. by rewrite ch_drop_sender_view. Qed.

Lemma fades_close_receiver ch h : fades h (update_chan ch_drop_receiver ch h).
Proof. apply fades_update_chan. intros c. by rewrite ch_drop_receiver_view. Qed.

Lemma fades_drop_sender ch h : fades h (drop_sender ch h).
Proof. destruct ch; [apply fades_close_sender|done]. Qed.

Lemma fades_update_cell f c h :
  (forall cell, data_channel (f cell) = data_channel cell \/ data_channel (f cell) = None) ->
  fades h (update_cell f c h).
Proof.
  intros Hf. split; [done|done|by eauto| |intros ch c' E; by exists c', []].
  intros i cell ch. simpl. rewrite lookup_alter. case_decide; [|by eauto].
  intros (cell0 & E0 & ->)%fmap_Some D. subst i. exists cell0. split; [done|].
  destruct (Hf cell0); congruence.
Qed.

Lemma fades_abort_tasks c h : fades h (abort_tasks c h).
Proof.
  etrans; [|apply fades_update_cell; by left]. by apply fades_same.
Qed.

Lemma fades_register_task t c h : fades h (register_task t c h).
Proof. apply fades_update_cell. by left. Qed.

Lemma fades_unregister_data_channel tok h : fades h (unregister_data_channel tok h).
Proof.
  unfold unregister_data_channel. case_match; [|done].
  etrans; [|apply fades_drop_sender]. apply fades_update_cell. by right.
Qed.

Lemma fades_clone_clients l h : fades h (clone_clients l h).
Proof.
  induction l as [|c l IH]; [done|]. etrans; [exact IH|]. apply fades_update_cell. by left.
Qed.

Lemma fades_drop_client c h : fades h (drop_client c h).
Proof.
  unfold drop_client. destruct (strong <$> _) as [[|[|n]]|]; try done;
    [|apply fades_update_cell; by left].
  unfold drop_object. etrans; [|apply fades_drop_sender]. etrans; [apply fades_abort_tasks|].
  apply fades_update_cell. by right.
Qed.

Lemma fades_delete_client c h :
  fades h (set_db (mkServerClientDB (sm_unregister c (submap_of (hub_db h)))
                     (delete (token c) (clients_by_token (hub_db h)))) h).
Proof.
  split; [done| | |by eauto|intros ch c' E; by exists c', []].
  - apply delete_subseteq.
  - intros d c' ps. unfold view. simpl. rewrite sm_unregister_view.
    rewrite lookup_delete. case_decide; [done|by eauto].
Qed.

Lemma fades_unregister_client c h : fades h (unregister_client c h).
Proof.
  unfold unregister_client. case_match; [|apply fades_delete_client].
  etrans; [apply fades_delete_client|apply fades_drop_client].
Qed.

Lemma fades_unsubscribe n t c h : fades h (unsubscribe n t c h).2.
Proof.
  unfold unsubscribe. destruct (prepare_topic n t) as [p|e]; [|done].
  split; [done|done| |by eauto|intros ch c' E; by exists c', []].
  intros d c0 ps. apply sm_unsubscribe_fewer.
Qed.

Lemma fades_clone_data_channel c h : fades h (clone_data_channel c h).2.
Proof. unfold clone_data_channel. case_match; [apply fades_clone_sender|done]. Qed.

(** *** Operations that add something *)

(** Everything but the queues follows the tables when they grow. *)
Lemma hub_typed_grows g g' h :
  grows g g' -> hub_typed g h ->
  (forall i c, clients_of g' !! i = Some c -> i < next_id h) ->
  (forall ch c, channel_of g' !! ch = Some c -> ch < next_id h) ->
  (forall ch q, chans h !! ch = Some q -> well_queued (channel_of g' !! ch) (ch_queue (ch_view q))) ->
  hub_typed g' h.
Proof.
  intros Hg [_ _ H2 H3 H4 _] H1 H1' H5. split; [done|done| | | |done].
  - intros tok c E. destruct (H2 tok c E). split; [by eapply owned_grows|done].
  - intros d' c ps E. destruct (H3 d' c ps E) as (? & ? & ?).
    split_and!; [done|by eapply owned_grows|done].
  - intros i cell ch E D. destruct (H4 i cell ch E D) as (c & ? & ?). exists c.
    split; [by eapply clients_grow|by eapply channels_grow].
Qed.

(** A fresh identity. *)
Lemma hub_typed_next g h c :
  hub_typed g h -> hub_typed (add_client (next_id h) c g) (set_next (S (next_id h)) h).
Proof.
  intros Hh. eapply hub_typed_grows; [by apply grows_next| | | |exact (ht_queues g h Hh)].
  - eapply hub_typed_fades; [|exact Hh]. apply fades_same; [simpl; lia|done..].
  - intros i c'. simpl. rewrite lookup_insert. case_decide; [lia|].
    intros E%(ht_clients g h Hh). lia.
  - intros ch c' E%(ht_channels g h Hh). simpl. lia.
Qed.

Lemma hub_typed_set_chan g ch q h :
  well_queued (channel_of g !! ch) (ch_queue (ch_view q)) -> hub_typed g h ->
  hub_typed g (set_chans (<[ch := q]> (chans h)) h).
Proof.
  intros Hq [H1 H1' H2 H3 H4 H5]. split; simpl; [done..|].
  intros ch' q'. rewrite lookup_insert. case_decide as D; [|apply H5]. subst. by intros [= <-].
Qed.

(** A channel that nobody has yet. *)
Lemma hub_typed_new g n h :
  hub_typed g h -> hub_typed g (new_channel n h).2 /\ channel_of g !! next_id h = None.
Proof.
  intros Hh. split.
  - apply (hub_typed_set_chan g (next_id h) (ch_bounded n) (set_next (S (next_id h)) h)).
    + rewrite ch_bounded_view. apply well_queued_nil.
    + eapply hub_typed_fades; [|exact Hh]. apply fades_same; [simpl; lia|done..].
  - destruct (channel_of g !! next_id h) eqn:E; [|done]. apply (ht_channels g h Hh) in E. lia.
Qed.

(** It is handed to the client that has the token. *)
Lemma hub_typed_register_dc g tok ch h r h' :
  channel_of g !! ch = None -> is_Some (chans h !! ch) -> (forall i, is_Some (chans h !! i) -> i < next_id h) ->
  hub_typed g h -> register_data_channel tok ch h = (r, h') ->
  match r with
  | Ok (channel, c) =>
      channel = ch /\ token c = tok /\ hub_typed (add_channel ch c g) h'
  | Err _ => hub_typed g h'
  end.
Proof.
  intros Hnone Hch Hfresh Hh. unfold register_data_channel.
  destruct (clients_by_token (hub_db h) !! tok) as [c|] eqn:Ec;
    [|intros [= <- <-]; by apply (hub_typed_fades g h); [apply fades_close_sender|]].
  destruct (client_data_channel c h);
    [intros [= <- <-]; by apply (hub_typed_fades g h); [apply fades_close_sender|]|].
  intros [= <- <-]. destruct (ht_tokens g h Hh tok c Ec) as [Hc Hd].
  split; [done|]. split; [done|]. eapply hub_typed_fades; [apply fades_update_cell; by left|].
  pose proof (hub_typed_fades g h _ (fades_clone_sender ch h) Hh) as Hh'.
  eapply (hub_typed_grows g (add_channel ch c g)) in Hh'; [|by apply grows_channel|apply Hh'| |].
  - destruct Hh' as [H1 H1' H2 H3 H4 H5]. split; simpl; [done..| |done].
    intros i cell ch'. rewrite lookup_alter. case_decide; [|apply H4]. subst i.
    intros (cell0 & E0 & ->)%fmap_Some. simpl. intros [= <-]. exists c.
    split; [exact Hc|apply lookup_insert_eq].
  - intros ch' c'. simpl. rewrite lookup_insert. case_decide; [|apply (ht_channels g h Hh)].
    subst. intros _. by apply Hfresh.
  - intros ch' q Eq. simpl. rewrite lookup_insert. case_decide; [|by apply (ht_queues _ _ Hh')].
    subst. apply well_queued_give. rewrite <- Hnone. by apply (ht_queues _ _ Hh').
Qed.

Lemma hub_typed_register g lg ad h r h' :
  register_client lg ad h = Some (r, h') -> hub_typed g h ->
  exists g', grows g g' /\ channel_of g' = channel_of g /\ hub_typed g' h' /\
    forall c, r = Ok c -> login c = lg.
Proof.
  unfold register_client. generalize (rng h) as answers. intros answers.
  revert h; induction answers as [|a answers IH]; intros h; [done|]. cbn [register_client_loop].
  destruct (Token.create a) as [tok|e]; [|intros [= <- <-] Hh].
  2:{ exists g. split_and!; [done|done| |done]. eapply hub_typed_fades; [|exact Hh]. by apply fades_same. }
  set (c := mkServerClient _ _ _ _ _).
  destruct (sm_register c (submap_of (hub_db h))) as [new sm] eqn:E.
  destruct (view h !! digest c) as [m|] eqn:Ev.
  - destruct (sm_register_old c _ m Ev) as [Hn Hv]. rewrite E in Hn, Hv. simpl in Hn, Hv. subst new.
    intros Hr Hh. apply IH in Hr; [done|]. eapply hub_typed_fades; [|exact Hh].
    split; simpl; [lia|done| |by eauto|intros ch c' E'; by exists c', []].
    intros d c0 ps. unfold view. simpl. rewrite Hv. by eauto.
  - destruct (sm_register_new c _ Ev) as [Hn Hv]. rewrite E in Hn, Hv. simpl in Hn, Hv. subst new.
    intros [= <- <-] Hh. exists (add_client (next_id h) c g).
    split; [by apply grows_next|]. split; [done|]. split; [|by intros c' [= <-]].
    apply (hub_typed_next g h c) in Hh. destruct Hh as [H1 H1' H2 H3 H4 H5]. split; simpl.
    + exact H1.
    + exact H1'.
    + intros tok' c'. unfold by_token. simpl. rewrite lookup_insert. case_decide; [|apply H2].
      subst tok'. intros [= <-]. split; [|done]. apply lookup_insert_eq.
    + intros d c' ps. unfold view. simpl. rewrite Hv, lookup_insert. case_decide; [|apply H3].
      subst d. intros [= <- <-]. split; [done|]. split; [apply lookup_insert_eq|].
      intros p t Hp. set_solver.
    + intros i cell ch. rewrite lookup_insert. case_decide; [by intros [= <-]|apply H4].
    + exact H5.
Qed.

(** What may be subscribed to: a pattern with [#] before its last level stands for any. *)
Definition may_match (p t : bytes) : Prop :=
  plain_pattern p -> mqtt_matches (split_on slash p) (split_on slash t).

(** The registered client with the digest subscribes. *)
Lemma hub_typed_subscribe g n t c h :
  (forall p u, prepare_topic n t = Ok p -> may_match p u -> R c u) ->
  (fst <$> view h) !! digest c = Some c -> hub_typed g h -> hub_typed g (subscribe n t c h).2.
Proof.
  intros HR Hview Hh. unfold subscribe. destruct (prepare_topic n t) as [p|e]; [|done]. simpl.
  destruct Hh as [H1 H1' H2 H3 H4 H5]. split; simpl; [done..| |done|done].
  intros d c' ps. unfold view. simpl. intros E.
  assert (exists ps0, view h !! d = Some (c', ps0)) as (ps0 & E0).
  { apply view_lookup. unfold view. rewrite <- (sm_subscribe_clients p c), lookup_fmap, E. done. }
  destruct (H3 d c' ps0 E0) as (Hd & Hc & Hcov). split_and!; [done..|].
  destruct (decide (d = digest c)) as [Hdc|Hne].
  - assert (c' = c) as ->. { rewrite <- Hdc, lookup_fmap, E0 in Hview. by injection Hview. }
    intros p' u Hp' Hm. destruct (plain_pattern_dec p) as [Hp|Hp].
    + rewrite (sm_subscribe_plain p c _ Hp), Hdc, lookup_alter_eq in E. rewrite Hdc in E0.
      unfold view in E0. rewrite E0 in E. simplify_eq/=. apply elem_of_union in Hp' as [Hp'|Hp'].
      * apply elem_of_singleton in Hp'. subst p'. apply (HR p); [done|]. intros _.
        by apply pattern_matches_upper.
      * by eapply Hcov.
    + apply (HR p); [done|]. by intros ?.
  - rewrite sm_subscribe_others in E by done. unfold view in E0. rewrite E0 in E. by simplify_eq.
Qed.

(** The subscribers may read what they get. *)
Lemma hub_typed_subscribers g t h c :
  hub_typed g h -> c ∈ get_subscribers t h -> owned g c /\ R c t.
Proof.
  intros Hh (ps & p & E & Hp & Hm)%sm_get_subscribers_spec.
  destruct (ht_members g h Hh _ _ _ E) as (_ & Hc & Hcov). split; [done|by eapply Hcov].
Qed.

(** The channel that a client has. *)
Lemma hub_typed_slot g c ch h :
  hub_typed g h -> owned g c -> client_data_channel c h = Some ch -> channel_of g !! ch = Some c.
Proof.
  unfold client_data_channel. intros Hh Hc (cell & E & D)%bind_Some.
  destruct (ht_slots g h Hh _ _ _ E D) as (d & Hd & Hch). unfold owned in Hc. congruence.
Qed.

Lemma hub_typed_empty answers : hub_typed no_owners (empty_hub answers).
Proof.
  split; simpl; try by intros *; rewrite lookup_empty.
  - intros tok c. unfold by_token. simpl. by rewrite lookup_empty.
  - intros d c ps. unfold view. simpl. by rewrite sm_view_new, lookup_empty.
Qed.
End queues.
