(* ===== verification/Frames.v ===== *)
(** * What travels to the subscribers

    The type of the data channels: in every state that the machine of System.v reaches, whatever the
    connections, datagrams and tasks did, a data channel holds beacons and messages, each message
    with a topic that is text without NULs and wildcards, normalised and within the depth limit, and
    a size that the length field can express. It is the condition under which Delivery.v shows
    that the data stream of the client reads back what that of the server writes, so the two results
    are put together here. The type has a second part, the permission: under access rules that let
    nobody publish outside of a set of topics, the messages of the channels are under topics of that
    set. And a third one, confidentiality: the messages of the channel of a data stream are under topics
    that the read rules admit for the client whose token it presented. The proof uses the logic of
    predicates that every effect keeps, from Interleave.v, with the owners of the channels as ghost
    state, the operations on the hub from Queues.v, and one lemma for each place where a message is
    made; the concrete executions are in Runs.v. Replication
    is left out: [OP_PUBLISH_REPL] hands on the topic of another node as it comes, and the module
    that sends it is not part of the repository. *)

From S2P Require Import Prelude Utf8 Proto Io Commands Acl Topic Token Pubsub Reference PubsubSpec.
From S2P Require Import Passwords Keys Server ServerSpec Control ControlSpec Session SessionSpec Udp.
From S2P Require Import UdpSpec Broker Interleave System Client ClientSpec Delivery Queues.

(** ** Access rules *)

(** Rules that let nobody publish outside of a given set of topics, and rules under which every
    subscription that is admitted stays within a given set. *)
Definition grants (P : bytes -> Prop) (acl : Acl) : Prop :=
  forall topic, Acl.allow_write acl topic = true -> P topic.

Definition grants_read (Q : bytes -> Prop) (acl : Acl) : Prop :=
  forall depth sent pattern topic,
    Acl.allow_read acl sent = true -> prepare_topic depth sent = Ok pattern ->
    may_match pattern topic -> Q topic.

(** The rules of [login], which are those of [_] for an anonymous client. *)
Definition rules_of (db : Db) (login : bytes) : option Acl :=
  Db.get_acl db (if bool_decide (login = []) then bs "_" else login).

(** Everybody publishes within [P], and a login reads within [Q login]. *)
Definition rules_within (P : bytes -> Prop) (Q : bytes -> bytes -> Prop) (db : Db) : Prop :=
  forall login acl, rules_of db login = Some acl -> grants P acl /\ grants_read (Q login) acl.

Section networked.
Context {SMO : SubMapOps} {CHO : ChannelOps} {SHO : Sha256Ops} {BCO : BcryptOps} {AEO : AeadOps}.
Variable acceptor : option (prog Server (result unit bytes)).

(** What comes over the network: the connections and datagrams that need credentials, and what only
    reads the state. *)
Inductive networked : prog Server unit -> Prop :=
| networked_tcp nodelay allow_no_tls fuel ad timeout :
    networked (forget (handle_tcp_stream None nodelay acceptor allow_no_tls fuel ad timeout))
| networked_udp size datagrams :
    (size < 2 ^ 16)%N -> networked (forget (handle_udp_listener None size datagrams))
| networked_reader p : untouched p -> networked p.

(** What may run: UNIX sockets, which are not under the rules, only when these forbid nothing. *)
Definition authorised (P : bytes -> Prop) (Q : bytes -> bytes -> Prop) (p : prog Server unit) : Prop :=
  networked p \/ (forall topic, P topic) /\ forall login topic, Q login topic.
End networked.

Section frames.
Context {SMO : SubMapOps} {SML : SubMapLaws} {CHO : ChannelOps} {CHL : ChannelLaws}
  {SHO : Sha256Ops} {BCO : BcryptOps} {AEO : AeadOps} {AEL : AeadLaws}.
Variable L : Limits.
Variable P : bytes -> Prop.
Variable Q : bytes -> bytes -> Prop.
(** The access rules that the server may have, all within [P] and [Q]. *)
Variable D : Db -> Prop.
Hypothesis D_within : forall db, D db -> rules_within P Q db.

#[local] Abbreviation depth := (max_topic_depth L).
(** What a client may read is what its login may. *)
#[local] Abbreviation R := (fun c => Q (login c)).
#[local] Abbreviation hub_typed := (hub_typed depth P R).
#[local] Abbreviation admissible := (admissible depth P R).

(** A data task reads the channel of the client whose token it has, under the name of this client. *)
Definition task_of (g : Owners) (t : Task) : Prop :=
  match t with
  | Pinger _ _ => True
  | DataTask tok rx _ _ un ad =>
      exists c, channel_of g !! rx = Some c /\ tok = token c /\ un = format_login (login c) /\
        ad = addr c
  end.

Record typed (g : Owners) (s : Server) : Prop := {
  ty_limits : limits s = L;
  ty_hub : hub_typed g (hub s);
  ty_rules : D (acl_db s);
  ty_tasks id t : (id, t) ∈ spawned s -> task_of g t;
}.

(** On top of the invariant of System.v. *)
Definition sound (g : Owners) (s : Server) : Prop := server_ok s /\ typed g s.

(** A new channel is in nobody's hands but its maker's. *)
Definition held (g : Owners) (s : Server) (r : resource) : Prop :=
  holds s r /\ match r with RChannel ch => channel_of g !! ch = None | RClient _ => True end.

#[local] Abbreviation keeps := (keeps sound held).
#[local] Abbreviation kept := (kept sound held).
#[local] Abbreviation onward := (onward sound held).
#[local] Abbreviation handover := (handover sound held).
#[local] Abbreviation joint := (joint sound held).
#[local] Abbreviation joins := (joins sound held).

(** *** Critical sections *)

Lemma task_of_grows g g' t : grows g g' -> task_of g t -> task_of g' t.
Proof.
  intros Hg. destruct t as [|tok rx tm n un ad]; [done|]. intros (c & Hc & H). exists c.
  split; [by eapply channels_grow|done].
Qed.

Lemma typed_set_hub g g' h s :
  grows g g' -> typed g s -> hub_typed g' h -> typed g' (set_hub h s).
Proof.
  intros Hg [H1 _ H3 H4] Hh. split; [done..|]. intros id t Hin. eapply task_of_grows; [exact Hg|].
  by eapply H4.
Qed.

(** What is mild leaves everything in its holder's hands. *)
Lemma onward_mild g s s' : sound g s -> mild s s' -> typed g s' -> onward g s g s'.
Proof.
  intros [Hok _] Hm Ht. destruct (Hm Hok) as (Hok' & Hb & Hf & _).
  split; [done|]. split; [by split|]. intros [c|ch] [Hr Hg]; (split; [|done]); simpl in *.
  - unfold registered. by rewrite Hb.
  - by apply Hf.
Qed.

(** On everything but the hub. *)
Lemma typed_same g s s' :
  typed g s -> limits s' = limits s -> hub s' = hub s -> acl_db s' = acl_db s ->
  spawned s' = spawned s -> typed g s'.
Proof. intros [H1 H2 H3 H4] Hl Hh Ha Hs. split; rewrite ?Hl, ?Hh, ?Ha, ?Hs; done. Qed.

Lemma typed_rules g s login acl :
  typed g s -> Server.get_acl s login = Some acl -> grants P acl /\ grants_read (Q login) acl.
Proof. intros Hs. apply D_within, (ty_rules g s Hs). Qed.

Lemma typed_depth g s : typed g s -> max_depth s = depth.
Proof. intros Hs. unfold max_depth. by rewrite (ty_limits g s Hs). Qed.

(** *** Programs *)

Lemma kept_respond g s b : kept g (respond_status s b).
Proof. apply kept_write. Qed.
#[local] Hint Resolve kept_respond : kept.

(** An operation on the hub that adds nothing to it. *)
Lemma onward_hub g h s : sound g s -> fades (hub s) h -> mild_hub (hub s) h -> onward g s g (set_hub h s).
Proof.
  intros Hs Hf Hm. apply onward_mild; [done|by apply mild_set_hub|].
  apply (typed_set_hub g); [done|apply Hs|]. eapply hub_typed_fades; [exact Hf|apply Hs].
Qed.

Lemma kept_fades g (f : Hub -> Hub) :
  (forall h, fades h (f h)) -> (forall h, mild_hub h (f h)) -> kept g (modify (with_hub f)).
Proof. intros Hf Hm. apply kept_modify. intros g1 s Hs. by apply onward_hub. Qed.

Lemma keeps_on_hub {X} g (f : Hub -> X * Hub) (F : Owners -> X -> Prop) :
  (forall h, fades h (f h).2) -> (forall h, mild_hub h (f h).2) ->
  (forall g1 h, grows g g1 -> hub_typed g1 h -> F g1 (f h).1) -> keeps g (on_hub f) F.
Proof.
  intros Hf Hm HF. apply keeps_atomic. intros g1 s Hg Hs.
  specialize (Hf (hub s)). specialize (Hm (hub s)). specialize (HF g1 (hub s) Hg (ty_hub _ _ (proj2 Hs))).
  destruct (f (hub s)) as [x h]. exists g1. split; [by apply onward_hub|done].
Qed.

Lemma kept_counters g f :
  (forall c, counters_ok c -> counters_ok (f c)) -> kept g (modify (with_counters f)).
Proof.
  intros Hf. apply kept_modify. intros g1 s Hs.
  apply onward_mild; [done|by apply mild_counters|by apply (typed_same g1 s); [apply Hs|..]].
Qed.

(** Into the channel of a client goes only what is admissible for it. *)
Lemma kept_chan_send g x ch :
  (forall g1, grows g g1 -> admissible (channel_of g1 !! ch) x) ->
  kept g (await (chan_send (frame_of x) ch)).
Proof.
  intros Hx. apply kept_await. intros g1 s b s' Hg Hs Hsend.
  apply onward_mild; [done|by eapply mild_chan_send|]. destruct Hs as [_ Hs].
  unfold chan_send in Hsend. destruct (chans (hub s) !! ch) as [c|] eqn:Ec; [|by simplify_eq].
  destruct (ch_send (frame_of x) c) as [[b' c']|] eqn:E; [|done]. simplify_eq.
  pose proof (ty_hub g1 s Hs) as Hh. pose proof (ht_queues _ _ _ _ _ Hh ch c Ec) as Hq.
  apply (typed_set_hub g1); [done..|]. apply hub_typed_set_chan; [|done].
  destruct (view_open (ch_view c)) eqn:Ho.
  - destruct (view_full (ch_view c)) eqn:Hf; [by rewrite ch_send_full in E|].
    destruct (ch_send_room (frame_of x) c Ho Hf) as (c1 & E1 & Hv). rewrite E1 in E. simplify_eq.
    rewrite Hv. apply well_queued_snoc; [by apply Hx|done].
  - destruct (ch_send_closed (frame_of x) c Ho) as (c1 & E1 & Hv). rewrite E1 in E. simplify_eq.
    by rewrite Hv.
Qed.

Lemma kept_chan_recv g ch : kept g (await (chan_recv ch)).
Proof.
  apply kept_await. intros g1 s m s' _ Hs Hrecv.
  apply onward_mild; [done|by eapply mild_chan_recv|]. destruct Hs as [_ Hs]. unfold chan_recv in Hrecv.
  destruct (chans (hub s) !! ch) as [c|] eqn:Ec; [|by simplify_eq].
  destruct (ch_recv c) as [[m' c']|] eqn:E; [|done]. simplify_eq.
  assert (exists k, ch_queue (ch_view c) = k ++ ch_queue (ch_view c')) as [k Hk].
  { destruct (ch_queue (ch_view c)) as [|m1 q] eqn:Eq.
    - destruct (view_open (ch_view c)) eqn:Ho; [by rewrite ch_recv_wait in E|].
      destruct (ch_recv_closed c Eq Ho) as (c1 & E1 & Hv). rewrite E1 in E. simplify_eq.
      exists []. by rewrite Hv, Eq.
    - destruct (ch_recv_message c m1 q Eq) as (c1 & E1 & Hv). rewrite E1 in E. simplify_eq.
      exists [m1]. by rewrite Hv. }
  apply (typed_set_hub g1); [done..|]. eapply hub_typed_fades; [by eapply fades_set_chan|apply Hs].
Qed.

Lemma kept_spawn g t : task_of g t -> kept g (spawn t).
Proof.
  intros Ht. apply keeps_atomic. intros g1 s Hg Hs. exists g1. split; [|done].
  apply onward_mild; [done|apply mild_spawned|]. destruct Hs as [_ [H1 H2 H3 H4]].
  split; simpl; [done| |done|].
  - eapply hub_typed_fades; [|exact H2]. apply fades_same; simpl; [lia|done..].
  - intros id u [Hin|Hin]%elem_of_app; [by eapply H4|].
    apply list_elem_of_singleton in Hin. simplify_eq. by eapply task_of_grows.
Qed.

(** The clone of a sender goes to the channel of the client. *)
Lemma keeps_clone g c :
  owned g c ->
  keeps g (on_hub (clone_data_channel c)) (fun g' r => forall ch, r = Some ch -> channel_of g' !! ch = Some c).
Proof.
  intros Hc. apply keeps_on_hub; [apply fades_clone_data_channel|apply mild_clone|].
  intros g1 h Hg Hh ch. unfold clone_data_channel. destruct (client_data_channel c h) eqn:E; [|done].
  intros [= <-]. eapply hub_typed_slot; [done|by eapply owned_grows|done].
Qed.

Lemma kept_close_sender g ch : kept g (close_sender ch).
Proof. apply kept_fades; [apply fades_close_sender|apply mild_close_sender]. Qed.

Lemma kept_close_receiver g ch : kept g (close_receiver ch).
Proof. apply kept_fades; [apply fades_close_receiver|apply mild_close_receiver]. Qed.

Lemma kept_unregister_dc g tok : kept g (modify (with_hub (unregister_data_channel tok))).
Proof. apply kept_fades; [apply fades_unregister_data_channel|apply mild_unregister_data_channel]. Qed.

Lemma kept_abort g c : kept g (modify (with_hub (abort_tasks c))).
Proof. apply kept_fades; [apply fades_abort_tasks|apply mild_abort_tasks]. Qed.

Lemma kept_register_task g t c : kept g (modify (with_hub (register_task t c))).
Proof. apply kept_fades; [apply fades_register_task|apply mild_register_task]. Qed.

Lemma kept_drop_arc g c : kept g (drop_arc c).
Proof. apply kept_fades; [apply fades_drop_client|apply mild_drop_client]. Qed.
#[local] Hint Resolve kept_counters counters_ok_sub_ops counters_ok_pub counters_ok_sent
  kept_chan_recv kept_close_sender kept_close_receiver kept_unregister_dc kept_abort
  kept_register_task kept_drop_arc : kept.

(** *** What changes hands *)

(** A new channel, for its maker. *)
Lemma joint_new_channel g n :
  joint [] g (on_hub (new_channel n)) (fun o _ ch => o = [RChannel ch]).
Proof.
  intros g1 s Hg [Hok Hs] Ho. exists [RChannel (next_id (hub s))], g1. split; [|done].
  destruct (hub_typed_new _ _ _ g1 n (hub s) (ty_hub _ _ Hs)) as [Hh Hnone].
  destruct (guarantee_new_channel [] n s Hok ltac:(constructor)) as (Hok' & _ & Hr & Hother).
  assert (typed g1 (set_hub (new_channel n (hub s)).2 s)) as Ht by by apply (typed_set_hub g1); [|apply Hs|].
  change (handover [] g1 s [RChannel (next_id (hub s))] g1 (set_hub (new_channel n (hub s)).2 s)).
  split; [reflexivity|]. split; [by split|]. split.
  - apply Forall_singleton. split; [|exact Hnone]. exact (Forall_inv Hr).
  - intros r _ [Hr1 Hr2]. destruct (Hother r) as [? ?]; [apply not_elem_of_nil|done|]. done.
Qed.

(** It goes to the client that has the token, or is dropped. *)
Lemma joint_register_dc g tok ch :
  joint [RChannel ch] g (on_hub (register_data_channel tok ch))
    (fun o g' r => o = [] /\
       match r with
       | Ok (channel, c) => channel = ch /\ token c = tok /\ channel_of g' !! ch = Some c
       | Err _ => True
       end).
Proof.
  intros g1 s Hg [Hok Hs] [[Hfresh Hnone] _]%Forall_cons. simpl in Hfresh, Hnone.
  destruct (guarantee_register_dc [] tok ch s) as (Hok' & _ & _ & Hother);
    [apply not_elem_of_nil|done|by apply Forall_singleton|].
  destruct (register_data_channel tok ch (hub s)) as [r h] eqn:E. simpl in *.
  pose proof (hub_typed_register_dc _ _ _ g1 tok ch (hub s) r h Hnone (proj1 Hfresh)
    (ok_chans_fresh _ (proj2 (sok_hub _ Hok))) (ty_hub _ _ Hs) E) as Hh.
  destruct r as [[channel c]|e].
  - destruct Hh as (-> & Ht & Hh). exists [], (add_channel ch c g1).
    pose proof (grows_channel g1 ch c Hnone) as Hg1.
    split; [|by split; [|split_and!; [..|apply lookup_insert_eq]]].
    split; [done|]. split; [split; [done|by apply (typed_set_hub g1)]|]. split; [constructor|].
    intros r Hr [Hr1 Hr2]. destruct (Hother r Hr Hr1) as [Hr' Hn]. split; [split; [done|]|done].
    destruct r as [|ch']; [done|]. simpl. rewrite lookup_insert. case_decide; [|done]. subst.
    by destruct Hr; apply list_elem_of_singleton.
  - exists [], g1. split; [|done]. split; [done|].
    split; [split; [done|by apply (typed_set_hub g1)]|]. split; [constructor|].
    intros r Hr [Hr1 Hr2]. by destruct (Hother r Hr Hr1).
Qed.

(** A client belongs to its session. *)
Lemma joint_register g lg ad :
  joint [] g (register lg ad)
    (fun o _ r => match r with Ok c => login c = lg /\ o = [RClient c] | Err _ => o = [] end).
Proof.
  intros g1 s Hg [Hok Hs] _.
  destruct (register_client lg ad (hub s)) as [[r h]|] eqn:E; [|done].
  destruct (hub_typed_register _ _ _ _ _ _ _ _ _ E (ty_hub g1 s Hs)) as (g2 & Hg2 & Hch & Hh & Hlg).
  destruct (guarantee_register [] lg ad s r h Hok ltac:(constructor) E) as [(Hok' & _ & Ho & Hother) _].
  exists (match r with Ok c => [RClient c] | Err _ => [] end), g2.
  split; [|destruct r; [by split; [apply Hlg|]|done]].
  split; [done|]. split; [split; [done|by apply (typed_set_hub g1)]|]. split.
  - destruct r; [|constructor]. apply Forall_singleton. split; [|done]; exact (Forall_inv Ho).
  - intros r0 Hr [Hr1 Hr2]. destruct (Hother r0 Hr Hr1) as [Hr' Hn]. split; [|by destruct r].
    split; [done|]. by rewrite Hch.
Qed.

Lemma joint_unregister g c :
  joint [RClient c] g (modify (with_hub (unregister_client c))) (fun o _ _ => o = []).
Proof.
  intros g1 s Hg [Hok Hs] [[Hc _] _]%Forall_cons. exists [], g1. split; [|done].
  destruct (guarantee_unregister [] c s) as (Hok' & _ & _ & Hother);
    [apply not_elem_of_nil|done|by apply Forall_singleton|].
  split; [done|]. split; [split; [done|]|split; [constructor|]].
  - apply (typed_set_hub g1); [done..|]. eapply hub_typed_fades; [apply fades_unregister_client|apply Hs].
  - intros r Hr [Hr1 Hr2]. by destruct (Hother r Hr Hr1).
Qed.

(** What a session does with its client. *)
Definition holding {A} (own : list resource) (g : Owners) (p : prog Server A) : Prop :=
  joint own g p (fun o _ _ => o = own).

Lemma holding_kept {A} own g (p : prog Server A) : kept g p -> holding own g p.
Proof. intros Hp. eapply joint_mono; [|by apply joint_keeps]. by intros o g' a _ [-> _]. Qed.

Lemma holding_bind {A B} own g (m : prog Server A) (f : A -> prog Server B) :
  holding own g m -> (forall g' a, grows g g' -> holding own g' (f a)) -> holding own g (pbind f m).
Proof. intros Hm Hf. eapply joint_bind; [exact Hm|]. intros o g' a Hg ->. by apply Hf. Qed.

Lemma holding_qbind {A B E} own g (m : prog Server (result A E)) (f : A -> prog Server (result B E)) :
  holding own g m -> (forall g' a, grows g g' -> holding own g' (f a)) -> holding own g (qbind m f).
Proof. intros Hm Hf. apply holding_bind; [done|]. intros g' [a|e] Hg; [by apply Hf|done]. Qed.

Lemma holding_iterate {R} own g fuel (body : prog Server (option R)) :
  (forall g', holding own g' body) -> holding own g (iterate fuel body).
Proof.
  intros Hb. revert g; induction fuel as [|fuel IH]; intros g; [done|].
  apply holding_bind; [done|]. intros g' [x|] _; [done|apply IH].
Qed.

(** *** Delivery *)

Definition receives (g : Owners) (x : Queued) (c : ServerClient) : Prop :=
  owned g c /\ admissible (Some c) x.

Lemma receives_grows g g' x l :
  grows g g' -> Forall (receives g x) l -> Forall (receives g' x) l.
Proof.
  intros Hg Hl. eapply Forall_impl; [exact Hl|]. intros c [Hc Hx]. split; [|done].
  by eapply owned_grows.
Qed.

Lemma kept_push_one g x c : receives g x c -> kept g (push_one (frame_of x) c).
Proof.
  intros [Hc Hx]. unfold push_one. eapply kept_bind; [by apply keeps_clone|].
  intros g1 [ch|] _ Hch; [|done]. specialize (Hch ch eq_refl).
  apply kept_then; [auto with kept|intros g2 full Hg2].
  apply kept_then; [ |intros g3 _ _; by apply kept_then; [apply kept_close_sender|]].
  destruct full; [kept|]. apply kept_then; [apply kept_chan_send|done].
  intros g3 Hg3. by erewrite channels_grow; [|by transitivity g2|exact Hch].
Qed.

Lemma kept_push g subs p t d ts :
  Forall (receives g (Sent p t d ts)) subs -> kept g (push_to_subscribers subs p t d ts).
Proof.
  intros Hs. apply kept_then; [ |done].
  apply kept_for_each. intros g1 c Hg Hin. apply (receives_grows g g1) in Hs; [|done].
  rewrite Forall_forall in Hs. by apply (kept_push_one g1 (Sent p t d ts)), Hs.
Qed.

(** With the subscribers of a topic that may be sent. *)
Lemma kept_with_subscribers {X} g p t d ts (body : list ServerClient -> prog Server X) :
  well_typed depth (Sent p t d ts) -> P t ->
  (forall g1 subs, grows g g1 -> Forall (receives g1 (Sent p t d ts)) subs -> kept g1 (body subs)) ->
  kept g (with_subscribers t body).
Proof.
  intros Hx Ht Hb. unfold with_subscribers.
  apply (kept_bind _ _ _ _ _ (fun g1 subs => Forall (receives g1 (Sent p t d ts)) subs)).
  - apply keeps_on_hub; [intros h; apply fades_clone_clients|intros h; apply mild_clone_clients|].
    intros g1 h _ Hh. apply Forall_forall. intros c Hc.
    destruct (hub_typed_subscribers _ _ _ _ _ _ _ Hh Hc) as [Ho HR]. by split.
  - intros g1 subs Hg Hs. apply kept_then; [by apply Hb|intros g2 r _].
    apply kept_then; [|done]. unfold drop_subscribers. apply kept_then; [|done].
    apply kept_for_each. intros. kept.
Qed.

Lemma kept_deliver {X} g p t d ts (answer : prog Server X) :
  well_typed depth (Sent p t d ts) -> P t -> (forall g', kept g' answer) ->
  kept g (deliver None p t d ts answer).
Proof.
  intros Hx Ht Ha. unfold deliver. eapply kept_with_subscribers; [exact Hx|done|].
  intros g1 subs _ Hs. apply kept_then; [ |intros; kept].
  case_bool_decide; [done|by apply kept_push].
Qed.

(** *** Subscriptions *)

(** The registered client is the one with its digest. *)
Lemma typed_subscribe_topics g client acl topics s :
  grants_read (R client) acl -> sound g s -> registered client (hub s) ->
  typed g (subscribe_topics client acl topics s).2.
Proof.
  intros Hacl. revert s; induction topics as [|t ts IH]; intros s [Hok Hs] Hreg; [done|]. simpl.
  destruct (Acl.allow_read acl t) eqn:Ea; [|done]. simpl.
  assert (hub_typed g (subscribe (max_depth s) t client (hub s)).2) as Hh.
  { apply hub_typed_subscribe; [| |apply Hs]; [intros p u Hp Hu; by eapply Hacl|].
    by apply (ok_index _ (proj1 (sok_hub _ Hok))). }
  destruct (mild_set_hub _ s (mild_subscribe (max_depth s) t client (hub s)) Hok) as (Hok' & Hb & _).
  destruct (subscribe (max_depth s) t client (hub s)) as [[]h]; simpl in *;
    [|by apply (typed_set_hub g)].
  apply IH; [|simpl; unfold registered; by rewrite Hb].
  split; [|by apply (typed_same g (set_hub h s)); [apply (typed_set_hub g)|..]].
  by apply (mild_counters _ _ counters_ok_sub_ops Hok').
Qed.

Lemma typed_unsubscribe_topics g client topics s :
  typed g s -> typed g (unsubscribe_topics client topics s).2.
Proof.
  revert s; induction topics as [|t ts IH]; intros s Hs; [done|]. simpl.
  assert (hub_typed g (unsubscribe (max_depth s) t client (hub s)).2) as Hh.
  { eapply hub_typed_fades; [apply fades_unsubscribe|apply Hs]. }
  destruct (unsubscribe (max_depth s) t client (hub s)) as [[]h]; simpl in *;
    [apply IH; apply (typed_same g (set_hub h s)); [|done..]|]; by apply (typed_set_hub g).
Qed.

Lemma holding_subscribe_topics g client acl topics :
  grants_read (R client) acl ->
  holding [RClient client] g (atomic (subscribe_topics client acl topics)).
Proof.
  intros Hacl g1 s Hg Hs Ho. exists [RClient client], g1. split; [|done].
  apply onward_handover; [|done]. apply onward_mild; [done|apply mild_subscribe_topics|].
  apply typed_subscribe_topics; [done..|]. by apply Forall_singleton in Ho as [Ho _].
Qed.

Lemma kept_unsubscribe_topics g client topics : kept g (atomic (unsubscribe_topics client topics)).
Proof.
  apply kept_atomic. intros g1 s Hs.
  apply onward_mild; [done|apply mild_unsubscribe_topics|apply typed_unsubscribe_topics, Hs].
Qed.
#[local] Hint Resolve kept_unsubscribe_topics : kept.

(** *** The two places where a message enters *)

Lemma split_publication_Ok buf t d :
  split_publication buf = Ok (t, d) ->
  utf8 t /\ NUL ∉ t /\ (len buf = len t + len d + 1)%N.
Proof.
  unfold split_publication. destruct (position NUL buf) as [n|] eqn:E; [|done].
  apply position_Some in E as (p & r & -> & <- & Hn). cbv zeta.
  replace (p ++ NUL :: r) with ((p ++ [NUL]) ++ r) by by rewrite <- app_assoc.
  rewrite (take_app_length' (p ++ [NUL])), (drop_app_length' (p ++ [NUL]))
    by (rewrite length_app; simpl; lia).
  rewrite (take_app_length' p) by (rewrite length_app; simpl; lia).
  case_bool_decide; [done|].
  destruct (str_from_utf8 p) as [t'|] eqn:Eu; [|done]. apply str_from_utf8_Ok in Eu as [-> Hu].
  simpl. intros [= <- <-]. split_and!; [done..|]. rewrite !len_app, len_cons. simpl.
  unfold len. simpl. lia.
Qed.

Lemma keeps_depth g : keeps g (asks max_depth) (gives (eq depth)).
Proof.
  apply keeps_asks. intros g1 s _ [_ Hs]. symmetry. by eapply typed_depth.
Qed.

Lemma kept_op_publish g stream acl timeout op :
  grants P acl -> kept g (op_publish None stream acl timeout op).
Proof.
  intros Hacl. unfold op_publish.
  do 2 (apply kept_then; [auto with kept|intros ? ? _]).
  apply kept_qbind; [auto with kept|intros ? prio _]. cbv zeta.
  do 2 (apply kept_then; [auto with kept|intros ? ? _]).
  eapply kept_qbind_with; [apply keeps_frame|intros ? buf _ Hbuf].
  apply kept_then; [auto with kept|intros ? _ _].
  eapply (kept_qbind_with _ _ (fun td => split_publication buf = Ok td)).
  { unfold yields. simpl. by destruct (split_publication buf). }
  intros ? [tp d] _ (Hu & Hn & Hl)%split_publication_Ok. cbn [fst snd].
  eapply kept_bind; [apply keeps_depth|intros g1 ? _ <-].
  destruct (prepare_topic _ tp) as [r|e] eqn:Ep; [|kept].
  destruct (contains_invalid r) eqn:Ec; [done|]. destruct (Acl.allow_write acl r) eqn:Ea; [|kept].
  apply kept_deliver; [|by apply Hacl|intros; kept].
  eapply prepared_well_typed; [done..|]. by rewrite <- Hl.
Qed.

Lemma parse_udp_block_sizes block ack p t d :
  parse_udp_block block = Ok (ack, p, t, d) ->
  utf8 t /\ NUL ∉ t /\ (len t + len d + 1 <= len block)%N.
Proof.
  unfold parse_udp_block. destruct (splitn2 NUL block) as [buf rest] eqn:E.
  apply splitn2_spec in E as [Hn ->]. destruct buf as [|op [|prio [|b topic]]]; [done..|].
  assert (forall na : bool,
    (let? topic0 := tag na (str_from_utf8 (b :: topic)) in
     let? data := ok_or rest (invalid_data (bs "data missing"), na) in
     Ok (na, prio, topic0, data)) = Ok (ack, p, t, d) -> t = b :: topic /\ utf8 t /\ rest = Some d)
    as Hrest.
  { intros na. destruct (str_from_utf8 (b :: topic)) as [t'|] eqn:Eu; [|done].
    apply str_from_utf8_Ok in Eu as [-> Hu]. simpl. destruct rest; [|done]. simpl.
    intros ?. by simplify_eq. }
  intros H. assert (t = b :: topic /\ utf8 t /\ rest = Some d) as (-> & Hu & ->).
  { destruct (decide (op = OP_PUBLISH)); [by apply (Hrest true)|].
    destruct (decide (op = OP_PUBLISH_NO_ACK)); [by apply (Hrest false)|done]. }
  split; [done|]. split.
  - intros Hin. apply Hn. apply list_elem_of_further, list_elem_of_further. done.
  - rewrite len_app, !len_cons. lia.
Qed.

Lemma kept_udp_block g lg pw block ts :
  (len block < 2 ^ 32)%N -> kept g (process_udp_block None lg pw block ts).
Proof.
  intros Hb. unfold process_udp_block.
  eapply (kept_qbind_with _ _ (fun r => parse_udp_block block = Ok r)).
  { unfold yields. simpl. by destruct (parse_udp_block block). }
  intros g1 [[[ack p] tp] d] _ (Hu & Hn & Hl)%parse_udp_block_sizes.
  apply kept_qbind; [unfold udp_authenticate; kept|intros g2 _ _].
  eapply (kept_bind _ _ _ _ _ (gives (fun acl => forall a, acl = Some a -> grants P a))).
  { apply keeps_asks. intros g3 s _ [_ Hs] a Ha. by eapply typed_rules. }
  intros g3 acl _ Hacl. eapply (kept_qbind_with _ _ (fun a => acl = Some a)).
  { unfold yields. simpl. by destruct acl. }
  intros g4 a _ Ha. eapply kept_bind; [apply keeps_depth|intros g5 ? _ <-].
  eapply (kept_qbind_with _ _ (fun r => prepare_topic depth tp = Ok r)).
  { unfold yields. simpl. by destruct (prepare_topic _ tp). }
  intros g6 r _ Hp. destruct (contains_invalid r) eqn:Ec; [done|].
  destruct (Acl.allow_write a r) eqn:Ew; [|done].
  apply kept_deliver; [|by eapply Hacl|done].
  eapply prepared_well_typed; [done..|]. lia.
Qed.

Lemma kept_udp_packet g packet :
  (len packet < 2 ^ 32)%N -> kept g (process_udp_packet None packet).
Proof.
  intros Hlen. unfold process_udp_packet. apply kept_then; [auto with kept|intros g1 ts _].
  destruct (parse_udp_header packet) as [[[etp lg] [block|]]|e] eqn:Eh;
    [|by destruct (EncryptionType.need_decrypt etp)|done].
  apply parse_udp_header_len in Eh. destruct (EncryptionType.need_decrypt etp).
  - cbv zeta.
    eapply (kept_bind _ _ _ _ _ (gives (fun r => forall pt, r = Some (Ok pt) -> len pt <= len block)%N)).
    { apply keeps_asks. intros g2 s _ _ pt. apply auth_and_decr_length. }
    intros g2 [[pt|e]|] _ Hr; [|done..]. apply kept_then; [|done]. apply kept_udp_block.
    specialize (Hr pt eq_refl). lia.
  - destruct (splitn2 NUL block) as [pw rest] eqn:E.
    destruct (tag false (str_from_utf8 pw)); [|done]. destruct rest as [b|]; [|done].
    apply len_splitn2 in E. apply kept_then; [|done]. apply kept_udp_block. lia.
Qed.

Lemma kept_udp_listener g size ds :
  (size < 2 ^ 16)%N -> kept g (handle_udp_listener None size ds).
Proof.
  intros Hs. revert g; induction ds as [|d ds IH]; intros g; [done|]. cbn [handle_udp_listener].
  apply kept_then; [|intros g1 [r|] _; [by apply kept_then|done]].
  unfold handle_datagram. apply kept_then; [|done]. apply kept_udp_packet.
  unfold len. rewrite length_take. lia.
Qed.

(** *** Connections and tasks *)

(** The rules of a session. *)
Definition session_rules (c : ServerClient) (acl : Acl) : Prop :=
  grants P acl /\ grants_read (R c) acl.

Lemma holding_op_subscribe g stream c acl timeout op :
  grants_read (R c) acl -> holding [RClient c] g (op_subscribe stream c acl timeout op).
Proof.
  intros Hr. unfold op_subscribe.
  do 2 (apply holding_bind; [apply holding_kept; kept|intros ? ? _]).
  do 2 (apply holding_qbind; [apply holding_kept; kept|intros ? ? _]).
  apply holding_bind; [by apply holding_subscribe_topics|intros]. apply holding_kept. kept.
Qed.

Lemma holding_control_step g stream c acl timeout :
  session_rules c acl -> holding [RClient c] g (control_step None stream c acl timeout).
Proof.
  intros [Hw Hr]. unfold control_step.
  apply holding_bind; [apply holding_kept; kept|intros g1 op _].
  apply holding_qbind; [apply holding_kept; kept|intros g2 buf _]. cbv zeta.
  case_decide; [apply holding_kept; unfold op_nop; kept|].
  case_decide; [by apply holding_op_subscribe|]. apply holding_kept.
  case_decide; [unfold op_unsubscribe; kept|]. case_decide; [by apply kept_op_publish|].
  unfold op_publish_repl, op_bye. kept.
Qed.

Lemma joint_serve g fuel stream c acl timeout :
  session_rules c acl -> joins [RClient c] g (serve None fuel stream c acl timeout).
Proof.
  intros Hacl. unfold serve. eapply joint_bind.
  - apply holding_iterate. intros g1.
    apply holding_bind; [by apply holding_control_step|intros; apply holding_kept; kept].
  - intros o g1 [r|] _ ->; [|done]. eapply joint_bind; [apply joint_unregister|].
    intros o g2 _ _ ->. apply joins_kept. kept.
Qed.

(** The new channel goes to the client with the token. *)
Lemma joint_launch_data_stream g stream timeout :
  joint [] g (launch_data_stream stream timeout) (fun o _ _ => o = []).
Proof.
  unfold launch_data_stream. apply joint_then; [kept|intros g1 op _].
  apply joint_qthen; [kept|done|intros g2 buf _]. cbv zeta.
  apply joint_then; [kept|intros g3 t _].
  apply joint_qthen; [kept|done|intros g4 freq _].
  apply joint_then; [kept|intros g5 size _]. unfold bounded.
  eapply joint_bind; [destruct (size =? 0)%N; [exact I|apply joint_new_channel]|].
  intros o g6 ch _ ->. eapply joint_bind; [apply joint_register_dc|].
  intros o g7 [[channel client]|e] _ [-> Hr]; [|apply holding_kept; kept].
  destruct Hr as (-> & Ht & Hch). apply holding_kept.
  apply kept_then; [kept|intros g8 [[]|e] H8]; [|kept].
  apply kept_then; [by apply kept_spawn|intros g9 pinger_fut H9].
  apply kept_then; [kept|intros g10 _ H10].
  apply kept_then; [|intros; kept]. apply kept_spawn. exists client.
  split; [|done]. eapply channels_grow; [|exact Hch]. by do 2 (etrans; [eassumption|]).
Qed.

(** The session begins, or does not: the [Arc] that goes is not the registration. *)
Lemma keeps_send_token {X} g stream c (session : X) :
  keeps g (send_token stream c session)
    (fun _ r => match r with Ok (Some x) => x = session | _ => True end).
Proof.
  unfold send_token. apply keeps_then; [kept|intros g1 [[]|e] _; [done|]].
  apply keeps_then; [kept|done].
Qed.

(** Who comes over a UNIX socket may do everything. *)
Lemma joins_unix g fuel path timeout :
  (forall topic, P topic) -> (forall login topic, Q login topic) ->
  joins [] g (handle_unix_stream None fuel path timeout).
Proof.
  intros HP HQ. unfold handle_unix_stream.
  eapply (joint_bind _ _ _ _ _ _ (fun o _ r =>
    match r with Ok (Some (_, c)) => o = [RClient c] | _ => True end)).
  - unfold start_unix. apply joint_qthen; [unfold init_unix_stream; kept|done|intros g1 [stream st] _].
    case_decide.
    { eapply joint_bind; [apply joint_launch_data_stream|]. by intros o g2 [[]|e] _ _. }
    apply joint_qthen; [unfold read_frame; kept|done|intros g2 frame _].
    apply joint_qthen; [kept|done|intros g3 lg _].
    eapply joint_bind; [apply joint_register|intros o g4 [c|e] _ Hc; [|done]].
    destruct Hc as [_ ->]. eapply joint_mono; [|apply joint_keeps, keeps_send_token].
    intros o g5 [[[stream' c']|]|e] _ [-> E']; try done. by injection E' as -> ->.
  - intros o g1 [[[stream c]|]|e] _ Ho; [|done..]. subst. apply joint_serve.
    split; [by intros topic _|]. intros n t p u _ _ _. apply HQ.
Qed.

Lemma kept_task g fuel t : kept g (task_code fuel t).
Proof.
  destruct t as [ch interval|tok rx timeout interval un ad]; apply kept_forget.
  - assert (forall g, kept g (await (chan_send empty_message ch))).
    { intros g1. apply (kept_chan_send g1 Beacon). intros g2 _. by destruct (_ !! ch). }
    unfold pinger. apply kept_then; [apply kept_iterate; intros; kept|intros; kept].
  - assert (forall g stream last, kept g (handle_data_stream fuel stream rx timeout interval last)).
    { clear ad. intros g1 stream. revert g1.
      induction fuel as [|fuel IH]; intros g1 last; [done|].
      cbn [handle_data_stream]. unfold send_message. kept; apply IH. }
    unfold data_task. kept.
Qed.

Section machine.
Variable acceptor : option (prog Server (result unit bytes)).
(** The TLS handshake does not concern the state of the server. *)
Hypothesis acceptor_untouched : forall accept, acceptor = Some accept -> untouched accept.

Lemma keeps_check_login g ad login password :
  keeps g (check_login ad login password)
    (yields (fun acl => grants P acl /\ grants_read (Q login) acl)).
Proof.
  unfold check_login. apply keeps_qthen; [kept|intros g1 _ _].
  eapply (kept_bind _ _ _ _ _
    (gives (fun acl => forall a, acl = Some a -> grants P a /\ grants_read (Q login) a))).
  { apply keeps_asks. intros g2 s _ [_ Hs] a. by apply (typed_rules g2). }
  intros g2 [acl|] _ Hacl; [by apply Hacl|done].
Qed.

Lemma kept_comm_mode g allow mode : kept g (comm_mode acceptor allow mode).
Proof.
  unfold comm_mode. destruct acceptor as [accept|]; [|kept].
  pose proof (fun g => untouched_kept sound held g accept (acceptor_untouched accept eq_refl)). kept.
Qed.
#[local] Hint Resolve kept_comm_mode : kept.

(** The session of a connection starts with the rules of its login. *)
Lemma joint_start_tcp g nodelay allow ad timeout :
  joint [] g (start_tcp nodelay acceptor allow ad timeout)
    (fun o _ r => match r with
                  | Ok (Some (_, c, acl)) => o = [RClient c] /\ session_rules c acl
                  | _ => True
                  end).
Proof.
  unfold start_tcp.
  apply joint_qthen; [unfold init_tcp_stream; kept|done|intros g1 [stream st] _]. case_decide.
  { eapply joint_bind; [apply joint_launch_data_stream|]. by intros o g2 [[]|e] _ _. }
  apply joint_qthen; [unfold read_frame; kept|done|intros g2 frame _].
  apply joint_qthen; [kept|done|intros g3 lp _].
  eapply joint_after; [apply keeps_check_login|intros g4 [acl|e] _ Hr; [|done]]. destruct Hr as [Hw Hr].
  eapply joint_bind; [apply joint_register|intros o g5 [c|e] _ Hc; [|done]].
  destruct Hc as [Hlg ->]. eapply joint_mono; [|apply joint_keeps, keeps_send_token].
  intros o g6 [[[[stream' c'] acl']|]|e] _ [-> E']; try done. injection E' as -> -> ->.
  split; [done|]. split; [done|]. by rewrite Hlg.
Qed.

Lemma joins_tcp g nodelay allow fuel ad timeout :
  joins [] g (handle_tcp_stream None nodelay acceptor allow fuel ad timeout).
Proof.
  unfold handle_tcp_stream. eapply joint_bind; [apply joint_start_tcp|].
  intros o g1 [[[[stream c] acl]|]|e] _ Hr; [|done..]. destruct Hr as [-> Hr]. by apply joint_serve.
Qed.

Lemma joins_forget {A} own g (p : prog Server A) : joins own g p -> joins own g (forget p).
Proof. intros Hp. eapply joint_bind; [exact Hp|done]. Qed.

Lemma authorised_joins g p : entry None acceptor p -> authorised acceptor P Q p -> joins [] g p.
Proof.
  intros He Hp. assert (networked acceptor p -> joins [] g p) as Hn.
  { destruct 1; [apply joins_forget, joins_tcp|by apply joins_kept, kept_forget, kept_udp_listener|].
    by apply joins_kept, untouched_kept. }
  destruct Hp as [Hp|[HP HQ]]; [by apply Hn|].
  destruct He; [apply Hn, networked_tcp|by apply joins_forget, joins_unix|by apply Hn, networked_udp|].
  by apply Hn, networked_reader.
Qed.

Lemma typed_drop_task g t s : typed g s -> typed g (drop_task t s).
Proof.
  intros Hs. destruct t; (apply (typed_set_hub g); [done..|]);
    (eapply hub_typed_fades; [|apply Hs]); [apply fades_close_sender|apply fades_close_receiver].
Qed.

(** The machine is typed: its state, and every thread from there on. *)
Definition machine_typed (g : Owners) (c : Machine) : Prop :=
  exists owns, jointly sound held (map code (threads c)) g (server c) owns.

Lemma machine_sound g c : machine_typed g c -> sound g (server c).
Proof. intros [owns H]. apply H. Qed.

Lemma machine_typed_onward g ts st st' s s' :
  machine_typed g (mkMachine ts st s) -> mild s s' -> (typed g s -> typed g s') ->
  machine_typed g (mkMachine ts st' s').
Proof.
  intros Hc Hm Ht. pose proof (machine_sound _ _ Hc) as Hs. destruct Hc as [owns Hc]. exists owns.
  eapply jointly_onward; [exact Hc|]. apply onward_mild; [done..|apply Ht, Hs].
Qed.

Lemma machine_typed_spawn g ts st st' s t :
  machine_typed g (mkMachine ts st s) -> joins [] g (code t) ->
  machine_typed g (mkMachine (ts ++ [t]) st' s).
Proof.
  intros [owns Hc] Ht. exists (owns ++ [[]]). simpl. rewrite map_app. by apply jointly_spawn.
Qed.

Lemma machine_typed_step g c c' :
  step None acceptor c c' ->
  (forall p, threads c' = threads c ++ [mkThread None p] -> authorised acceptor P Q p) ->
  D (acl_db (server c')) -> machine_typed g c -> exists g', grows g g' /\ machine_typed g' c'.
Proof.
  destruct 1 as
    [i h p p' s s' ts st Hi Hp|p s ts st Hp|id t fuel s ts st _ _|i id t p s ts st Hi _ _ _
    |id t s ts st _ _ _|t s ts st|db s ts st|db s ts st|db s ts st];
    simpl; intros Hp' Ha Hc;
    try (exists g; split; [done|];
         (eapply machine_typed_onward;
            [exact Hc|by apply mild_same|intros Hs; by first [by apply (typed_same g s)|destruct Hs]])).
  - destruct Hc as [owns Hc].
    destruct (jointly_step _ _ _ _ _ _ i p p' s' Hc) as (g' & owns' & Hg & Hc'); [|done|].
    { simpl. by rewrite list_lookup_fmap, Hi. }
    exists g'. split; [done|]. exists owns'. simpl. by rewrite list_fmap_insert.
  - exists g. split; [done|]. eapply machine_typed_spawn; [exact Hc|]. by apply authorised_joins, Hp'.
  - exists g. split; [done|]. eapply machine_typed_spawn; [exact Hc|]. apply joins_kept, kept_task.
  - exists g. split; [done|].
    eapply (machine_typed_onward g _ st); [|apply mild_drop_task|apply typed_drop_task].
    destruct Hc as [owns Hc]. destruct (jointly_stop _ _ _ _ _ _ i p Hc) as [owns' Hc'].
    { simpl. by rewrite list_lookup_fmap, Hi. }
    exists owns'. simpl. by rewrite list_fmap_insert.
  - exists g. split; [done|].
    eapply machine_typed_onward; [exact Hc|apply mild_drop_task|apply typed_drop_task].
Qed.
End machine.
End frames.

(** ** Executions of the machine *)

Section executions.
Context {SMO : SubMapOps} {CHO : ChannelOps} {SHO : Sha256Ops} {BCO : BcryptOps} {AEO : AeadOps}.
Variable replication_push : option (byte -> bytes -> bytes -> N -> prog Server unit).
Variable acceptor : option (prog Server (result unit bytes)).

(** Threads that run alone. *)
Lemma reaches_psteps p q s s' i h ts st answers :
  psteps p s q s' -> ts !! i = Some (mkThread h p) ->
  reaches replication_push acceptor answers (mkMachine ts st s) ->
  reaches replication_push acceptor answers (mkMachine (<[i := mkThread h q]> ts) st s').
Proof. intros Hp Hi Hr. eapply reaches_steps; [exact Hr|by eapply psteps_steps]. Qed.

Lemma run_steps p (w w' : World Server) i h ts st answers :
  run p w = Some (tt, w') -> ts !! i = Some (mkThread h p) ->
  reaches replication_push acceptor answers (mkMachine ts st (shared w)) ->
  reaches replication_push acceptor answers
    (mkMachine (<[i := mkThread h (Ret tt)]> ts) st (shared w')).
Proof. intros Hrun. apply reaches_psteps. by apply run_psteps. Qed.

(** A new connection or listener that runs alone to its end. *)
Lemma run_accepted p (w w' : World Server) ts st answers :
  entry replication_push acceptor p -> run p w = Some (tt, w') ->
  reaches replication_push acceptor answers (mkMachine ts st (shared w)) ->
  reaches replication_push acceptor answers
    (mkMachine (ts ++ [mkThread None (Ret tt)]) st (shared w')).
Proof.
  intros Hp Hrun Hr.
  replace (ts ++ [mkThread None (Ret tt)])
    with (<[length ts := mkThread None (Ret tt)]> (ts ++ [mkThread None p])).
  - eapply run_steps; [exact Hrun| |].
    + rewrite lookup_app_r by lia. by rewrite Nat.sub_diag.
    + eapply reaches_step; [exact Hr|]. by apply step_accept.
  - by rewrite insert_app_r_alt, Nat.sub_diag by lia.
Qed.
End executions.

(** ** Properties *)

Section governed.
Context {SMO : SubMapOps} {CHO : ChannelOps} {SHO : Sha256Ops} {BCO : BcryptOps} {AEO : AeadOps}.
Variable acceptor : option (prog Server (result unit bytes)).
Variable P : bytes -> Prop.
Variable Q : bytes -> bytes -> Prop.

(** The machine while the rules, at the start and after each reload, are within [P] and [Q]; UNIX
    sockets, which are not under the rules, only when everything is. *)
Inductive governed (answers : list (result bytes bytes)) : Machine -> Prop :=
| governed_initial c :
    initial answers c -> rules_within P Q (acl_db (server c)) -> governed answers c
| governed_step c c' :
    governed answers c -> step None acceptor c c' ->
    (forall p, threads c' = threads c ++ [mkThread None p] -> authorised acceptor P Q p) ->
    rules_within P Q (acl_db (server c')) -> governed answers c'.

(** What such a machine does next. *)
Definition governed_move (c c' : Machine) : Prop :=
  step None acceptor c c' /\
  (forall p, threads c' = threads c ++ [mkThread None p] -> authorised acceptor P Q p) /\
  rules_within P Q (acl_db (server c')).
End governed.

(** Nothing is asked for when everything is permitted. *)
Lemma reaches_governed `{SubMapOps} `{ChannelOps} `{Sha256Ops} `{BcryptOps} `{AeadOps}
    acceptor answers c :
  reaches None acceptor answers c -> governed acceptor (fun _ => True) (fun _ _ => True) answers c.
Proof.
  induction 1 as [c Hc|c c' _ IH Hstep].
  - by apply governed_initial.
  - eapply governed_step; [exact IH|exact Hstep| |done]. intros p _. by right.
Qed.

Section properties.
Context {SMO : SubMapOps} {SML : SubMapLaws} {CHO : ChannelOps} {CHL : ChannelLaws}
  {SHO : Sha256Ops} {BCO : BcryptOps} {AEO : AeadOps} {AEL : AeadLaws}.
Variable acceptor : option (prog Server (result unit bytes)).
Hypothesis acceptor_untouched : forall accept, acceptor = Some accept -> untouched accept.
Variable P : bytes -> Prop.
Variable Q : bytes -> bytes -> Prop.

Lemma governed_typed answers c :
  governed acceptor P Q answers c -> exists L g, machine_typed L P Q (rules_within P Q) g c.
Proof.
  induction 1 as [c (Ht & Hh & Hc & Hsp & _) Ha|c c' _ (L & g & Hc) Hstep Hp Ha].
  - exists (limits (server c)), no_owners, []. rewrite Ht. apply jointly_empty.
    split; [split; [rewrite Hh; apply hub_ok_empty|rewrite Hc; by repeat split]|].
    split; [done| |done|].
    + rewrite Hh. apply hub_typed_empty.
    + intros id t. rewrite Hsp. by intros ?%not_elem_of_nil.
  - exists L. edestruct (machine_typed_step L P Q (rules_within P Q)) as (g' & _ & Hc'); [done..|].
    by exists g'.
Qed.

Lemma moves_typed L g c c' :
  rtc (governed_move acceptor P Q) c c' -> machine_typed L P Q (rules_within P Q) g c ->
  exists g', grows g g' /\ machine_typed L P Q (rules_within P Q) g' c'.
Proof.
  intros H. revert g; induction H as [c|c c1 c' (Hstep & Hp & Ha) _ IH]; intros g Hc; [by exists g|].
  edestruct (machine_typed_step L P Q (rules_within P Q)) as (g1 & Hg1 & Hc1); [done..|].
  destruct (IH g1 Hc1) as (g' & Hg' & Hc'). exists g'. split; [by etrans|done].
Qed.

(** The queue of any channel of a machine that runs. *)
Lemma typed_queued L g c ch q :
  machine_typed L P Q (rules_within P Q) g c -> chans (hub (server c)) !! ch = Some q ->
  exists l, ch_queue (ch_view q) = map frame_of l /\
    Forall (well_typed (max_depth (server c))) l /\ Forall (permitted P) l /\
    forall cl, channel_of g !! ch = Some cl -> Forall (permitted (Q (login cl))) l.
Proof.
  intros [_ Hs]%machine_sound Hq.
  destruct (ht_queues _ _ _ _ _ (ty_hub _ _ _ _ _ _ Hs) ch q Hq) as (l & E & Hl).
  exists l. rewrite (typed_depth _ _ _ _ _ _ Hs). unfold admissible in Hl.
  apply Forall_and in Hl as [Hl [Hl2 Hl3]%Forall_and]. do 3 (split; [done|]).
  intros cl Hcl. by rewrite Hcl in Hl3.
Qed.

Lemma governed_queued answers c ch q :
  governed acceptor P Q answers c -> chans (hub (server c)) !! ch = Some q ->
  exists l, ch_queue (ch_view q) = map frame_of l /\
    Forall (well_typed (max_depth (server c))) l /\ Forall (permitted P) l.
Proof.
  intros (L & g & Hc)%governed_typed Hq.
  destruct (typed_queued L g c ch q Hc Hq) as (l & H1 & H2 & H3 & _). by exists l.
Qed.

(** The owner of the channel in the slot of a registered client. *)
Lemma typed_owner L g c cl ch :
  machine_typed L P Q (rules_within P Q) g c -> registered cl (hub (server c)) ->
  client_data_channel cl (hub (server c)) = Some ch -> channel_of g !! ch = Some cl.
Proof.
  intros [_ Hs]%machine_sound Hcl Hch. pose proof (ty_hub _ _ _ _ _ _ Hs) as Hh.
  eapply hub_typed_slot; [exact Hh| |exact Hch]. by apply (ht_tokens _ _ _ _ _ Hh) in Hcl as [? _].
Qed.

(** A new thread, which leaves the rules alone. *)
Lemma governed_accept answers c p :
  governed acceptor P Q answers c -> entry None acceptor p -> authorised acceptor P Q p ->
  governed_move acceptor P Q c (mkMachine (threads c ++ [mkThread None p]) (started c) (server c)).
Proof.
  intros Hg He Hp. destruct c as [ts st s]. split; [by apply step_accept|]. split.
  - intros q Eq. simpl in Eq. apply app_inv_head in Eq. by injection Eq as <-.
  - by destruct Hg.
Qed.

Lemma governed_moves answers c c' :
  rtc (governed_move acceptor P Q) c c' -> governed acceptor P Q answers c ->
  governed acceptor P Q answers c'.
Proof.
  induction 1 as [c|c c1 c' (Hs & Hp & Ha) _ IH]; [done|]. intros Hg. apply IH.
  by eapply governed_step.
Qed.

(** Threads leave the rules alone. *)
Lemma governed_psteps answers i h p q s s' ts st :
  psteps p s q s' -> ts !! i = Some (mkThread h p) ->
  governed acceptor P Q answers (mkMachine ts st s) ->
  rtc (governed_move acceptor P Q) (mkMachine ts st s) (mkMachine (<[i := mkThread h q]> ts) st s').
Proof.
  unfold psteps. remember (p, s) as x eqn:Ex. remember (q, s') as y eqn:Ey. intros H.
  revert p s ts Ex; induction H as [x|x [p1 s1] y Hstep _ IH]; intros p s ts -> Hi Hg; simplify_eq.
  - by rewrite list_insert_id.
  - rewrite <- (list_insert_insert_eq ts i (mkThread h q) (mkThread h p1)).
    assert (governed_move acceptor P Q (mkMachine ts st s)
              (mkMachine (<[i := mkThread h p1]> ts) st s1)) as Hm.
    { split; [by eapply step_thread|]. split.
      - simpl. intros p2 E%(f_equal length). rewrite length_insert, length_app in E. simpl in E. lia.
      - destruct (governed_typed _ _ Hg) as (L & g & owns & Hc). simpl in Hc.
        destruct (jointly_step _ _ _ _ _ _ i p p1 s1 Hc) as (g1 & owns1 & _ & Hc1); [|done|].
        { by rewrite list_lookup_fmap, Hi. }
        apply (ty_rules _ _ _ _ _ _ (proj2 (jt_inv _ _ _ _ _ _ Hc1))). }
    eapply rtc_l; [exact Hm|]. apply (IH eq_refl p1 s1 _ eq_refl).
    + apply list_lookup_insert_eq. by eapply lookup_lt_Some.
    + eapply governed_moves; [by apply rtc_once|exact Hg].
Qed.
End properties.

Section claims.
Context {SMO : SubMapOps} {SML : SubMapLaws} {CHO : ChannelOps} {CHL : ChannelLaws}
  {SHO : Sha256Ops} {BCO : BcryptOps} {AEO : AeadOps} {AEL : AeadLaws}.
Context {OSO : OneshotOps} {OSL : OneshotLaws}.

(** C14: the type of the data channels. Whatever the tasks of a server without replication did, in
    any order and with any outcome of their reads and writes, a data channel holds nothing but
    beacons and messages, every message under a topic that is text without NULs, without wildcards,
    normalised and within the limit of depth, and of a size that the 32-bit length field can say. *)
Theorem queued_frames_typed acceptor answers c ch q :
  (forall accept, acceptor = Some accept -> untouched accept) ->
  reaches None acceptor answers c -> chans (hub (server c)) !! ch = Some q ->
  exists l, ch_queue (ch_view q) = map frame_of l /\
    Forall (well_typed (max_depth (server c))) l.
Proof.
  intros Ha Hr%reaches_governed Hq.
  destruct (governed_queued acceptor Ha _ _ answers c ch q Hr Hq) as (l & E & Hl & _). by exists l.
Qed.

(** C11: nothing is ever published without permission. As long as the access rules of a server without
    replication, those of the start and those of every reload, let nobody publish outside of a set
    of topics, and no UNIX socket is open, no data channel ever holds a message under another
    topic, whatever the connections, datagrams and tasks do, in any order and with any outcome of
    their reads and writes. *)
Theorem publications_permitted acceptor P Q answers c ch q :
  (forall accept, acceptor = Some accept -> untouched accept) ->
  governed acceptor P Q answers c -> chans (hub (server c)) !! ch = Some q ->
  exists l, ch_queue (ch_view q) = map frame_of l /\ Forall (permitted P) l.
Proof.
  intros Ha Hg Hq.
  destruct (governed_queued acceptor Ha _ _ answers c ch q Hg Hq) as (l & E & _ & Hl). by exists l.
Qed.

(** C13: nobody receives what he may not read. As long as the access rules of a server without
    replication, those of the start and those of every reload, admit for a login only subscriptions
    that stay within the topics [Q login], and no UNIX socket is open: once a registered client has
    a data channel, this channel never holds a message under a topic outside of those of the login
    of this client, now and ever after, even when the client is gone, whatever the connections,
    datagrams and tasks do, in any order and with any outcome of their reads and writes; and whoever
    sends from the channel is a data stream that presented the token of this client. *)
Theorem deliveries_permitted acceptor P Q answers c c' cl ch :
  (forall accept, acceptor = Some accept -> untouched accept) ->
  governed acceptor P Q answers c -> registered cl (hub (server c)) ->
  client_data_channel cl (hub (server c)) = Some ch -> rtc (governed_move acceptor P Q) c c' ->
  (forall q, chans (hub (server c')) !! ch = Some q ->
     exists l, ch_queue (ch_view q) = map frame_of l /\ Forall (permitted (Q (login cl))) l) /\
  (forall id tok timeout interval un ad,
     (id, DataTask tok ch timeout interval un ad) ∈ spawned (server c') ->
     tok = token cl /\ un = format_login (login cl) /\ ad = addr cl).
Proof.
  intros Ha Hg Hcl Hch Hm. destruct (governed_typed acceptor Ha P Q answers c Hg) as (L & g & Hc).
  pose proof (typed_owner P Q L g c cl ch Hc Hcl Hch) as Ho.
  destruct (moves_typed acceptor Ha P Q L g c c' Hm Hc) as (g' & Hg' & Hc').
  apply (channels_grow g g') in Ho; [|done]. split.
  - intros q Hq. destruct (typed_queued P Q L g' c' ch q Hc' Hq) as (l & E & _ & _ & Hl).
    exists l. split; [done|by apply Hl].
  - intros id tok t n un ad Hin. apply machine_sound in Hc' as [_ Hs].
    destruct (ty_tasks _ _ _ _ _ _ Hs _ _ Hin) as (cl' & Hcl' & H). rewrite Ho in Hcl'.
    by injection Hcl' as <-.
Qed.

(** C7: in any state that a server without replication reaches, whatever its connections and tasks
    did, what the data stream of a channel without senders writes is read back by the data stream
    of the client as exactly the messages of the channel, in order, as long as the client's own
    queue has room. *)
Theorem reachable_stream_delivery acceptor answers c ch q (stream cstream : SStream)
    (T interval last : N) (fuel cfuel : nat) (ws : World Server) (wc : World ClientState) :
  (forall accept, acceptor = Some accept -> untouched accept) ->
  reaches None acceptor answers c -> chans (hub (server c)) !! ch = Some q ->
  view_open (ch_view q) = false -> shared ws = server c -> wr (conn ws) = [] ->
  out (conn ws) = [] ->
  length (ch_queue (ch_view q)) < fuel -> length (ch_queue (ch_view q)) < cfuel ->
  view_open (ch_view (messages (shared wc))) = true ->
  (len (ch_queue (ch_view (messages (shared wc)))) + len (ch_queue (ch_view q))
     <= ch_cap (ch_view (messages (shared wc))))%N ->
  exists l ws', ch_queue (ch_view q) = map frame_of l /\
    run (handle_data_stream fuel stream ch T interval last) ws = Some (Some (Ok tt), ws') /\
    (inp (conn wc) = ready (concat (out (conn ws'))) ->
     exists e wc', run (run_data_stream cfuel cstream) wc = Some (Some e, wc') /\
       ch_queue (ch_view (messages (shared wc'))) =
         ch_queue (ch_view (messages (shared wc))) ++ omap message_of l).
Proof.
  intros Ha Hr Hq Hc Hs Hw Ho Hf Hcf Hopen Hroom.
  apply reaches_governed in Hr.
  destruct (governed_queued acceptor Ha _ _ answers c ch q Hr Hq) as (l & El & Hl & _).
  rewrite El, length_map in Hf, Hcf.
  assert (len (omap message_of l) <= len l)%N as Hm.
  { clear. unfold len. induction l as [|x l IH]; [done|]. cbn [omap list_omap].
    destruct (message_of x); simpl; lia. }
  destruct (message_stream_delivery stream cstream T interval last ch fuel cfuel l ws wc)
    as (ws' & Hrun & Hx); try done.
  - exists q. by rewrite Hs.
  - eapply Forall_impl; [exact Hl|]. by intros x [Hx _].
  - rewrite len_app. rewrite El in Hroom. unfold len in *. rewrite length_map in Hroom. lia.
  - by exists l, ws'.
Qed.
End claims.
