(* ===== verification/Runs.v ===== *)
(** * Executions

    Concrete executions of the machine of System.v: sessions, one after the other, on UNIX sockets
    and over TCP, with the messages they leave in the data channels. They instantiate the theorems on
    all executions: those of Frames.v and the refinement of the broker. *)

From S2P Require Import Prelude Utf8 Proto Io Commands Acl Topic Token Pubsub Reference PubsubSpec.
From S2P Require Import Passwords Keys Server ServerSpec Control ControlSpec Session SessionSpec Udp.
From S2P Require Import UdpSpec Broker Interleave System Client ClientSpec Delivery Queues Frames.

(** ** UNIX sockets *)

#[local] Existing Instance demo_bcrypt.

(** Connections, one after the other: a client subscribes and attaches a data stream with room for
    one message, and two other clients publish. *)
Definition frame_bytes (l : bytes) : bytes := to_le_bytes 4 (len l) ++ l.

Definition subscriber_input : bytes :=
  CONTROL_HEADER ++ [COMM_INSECURE] ++ frame_bytes (bs "a") ++ [OP_SUBSCRIBE]
    ++ frame_bytes (bs "room/+").

Definition stream_input : bytes :=
  DATA_HEADER ++ [COMM_INSECURE] ++ replicate 32 x01 ++ [x05].

Definition publisher_input : bytes :=
  CONTROL_HEADER ++ [COMM_INSECURE] ++ frame_bytes (bs "b") ++ [OP_PUBLISH; x07]
    ++ frame_bytes (bs "room//1" ++ NUL :: bs "on").

Definition demo_answers : list (result bytes bytes) :=
  (fun b => Ok (replicate 32 b)) <$> [x01; x02; x03; x04].

Definition demo_machine : Machine :=
  mkMachine [] ∅
    (mkServer (empty_hub demo_answers) Counters.default (mkDb {[ bs "_" := Acl.new_full ]} [])
       Passwords.default Keys.default (mkLimits 0 1 64) true 1024 1024 (1%Z, 2%Z) []).

Definition demo_unix : prog Server unit :=
  forget (handle_unix_stream None 1 (bs "/run/psrtd.sock") 5).

Definition on_connection (input : bytes) (s : Server) : World Server :=
  mkWorld 0 (mkConn (ready input) None [] []) (bs "deadline has elapsed") s.

Definition after (input : bytes) (s : Server) : Server :=
  match run demo_unix (on_connection input s) with Some (_, w) => shared w | None => s end.

Definition attached : Server := after stream_input (after subscriber_input (server demo_machine)).

Definition demo_published : Server := after publisher_input attached.

(** The second message does not fit: the client loses its channel, and its beacon task is gone. *)
Definition demo_overflow : Server := after publisher_input demo_published.

Definition demo_closed : Server := drop_task (Pinger 1 2500000000) demo_overflow.

Definition finished (n : nat) : list Thread := replicate n (mkThread None (Ret tt)).

(** A thread ended: its program is over. *)
Lemma after_reaches n st input s :
  (match run demo_unix (on_connection input s) with Some _ => true | None => false end) = true ->
  reaches None None demo_answers (mkMachine (finished n) st s) ->
  reaches None None demo_answers (mkMachine (finished (S n)) st (after input s)).
Proof.
  intros Hrun Hr. unfold after. destruct (run _ _) as [[[] w]|] eqn:E; [|done].
  unfold finished. rewrite replicate_S_end.
  by apply (run_accepted None None demo_unix (on_connection input s) w _ _ _ (entry_unix _ _ _ _ _)).
Qed.

Lemma reaches_attached : reaches None None demo_answers (mkMachine (finished 2) ∅ attached).
Proof.
  apply after_reaches; [vm_refl|]. apply after_reaches; [vm_refl|]. by apply reaches_initial.
Qed.

Lemma reaches_published :
  reaches None None demo_answers (mkMachine (finished 3) ∅ demo_published).
Proof. apply after_reaches; [vm_refl|apply reaches_attached]. Qed.

Lemma reaches_closed :
  reaches None None demo_answers (mkMachine (finished 4) ({[ 2 ]} ∪ ∅) demo_closed).
Proof.
  assert (spawned demo_overflow !! 0 = Some (2, Pinger 1 2500000000)) as Hs by vm_refl.
  assert (bool_decide (2 ∈ aborted (hub demo_overflow)) = true) as Ha by vm_refl.
  assert (reaches None None demo_answers (mkMachine (finished 4) ∅ demo_overflow)) as Hr
    by (apply after_reaches; [vm_refl|apply reaches_published]).
  eapply reaches_step; [exact Hr|]. unfold demo_closed. clear Hr.
  generalize demo_overflow Hs Ha. clear. intros s Hs Ha. apply bool_decide_eq_true_1 in Ha.
  apply step_cancel; [by eapply list_elem_of_lookup_2|apply not_elem_of_empty|done].
Qed.

Lemma queued_frames_typed_witness :
  exists c q, reaches None None demo_answers c /\ chans (hub (server c)) !! 1 = Some q /\
    ch_queue (ch_view q) = [message_frame x07 (bs "room/1") (bs "on") 1000000002] /\
    exists l, ch_queue (ch_view q) = map frame_of l /\
      Forall (well_typed (max_depth (server c))) l.
Proof.
  assert (match chans (hub demo_published) !! 1 with
          | Some q => bool_decide (mdata <$> ch_queue (ch_view q) = [Some (bs "on")]) &&
                      bool_decide (mframe <$> ch_queue (ch_view q) =
                                     [message_head x07 (bs "room/1") (bs "on")]) &&
                      bool_decide (timestamp <$> ch_queue (ch_view q) = [Some 1000000002%N])
          | None => false end = true) as H by vm_refl.
  pose proof reaches_published as Hr. exists (mkMachine (finished 3) ∅ demo_published).
  cbn [server]. generalize dependent demo_published. intros s H Hr.
  destruct (chans (hub s) !! 1) as [q|] eqn:E; [|done]. exists q.
  split; [exact Hr|]. split; [done|]. split.
  - apply andb_prop in H as [[H1 H2]%andb_prop H3]. apply bool_decide_eq_true_1 in H1, H2, H3.
    destruct (ch_queue (ch_view q)) as [|[ts f d] [|? ?]]; try discriminate.
    injection H1 as ->. injection H2 as ->. by injection H3 as ->.
  - by apply (queued_frames_typed None demo_answers (mkMachine (finished 3) ∅ s) 1).
Defined.

Lemma reachable_stream_delivery_witness :
  exists c ws' e wc', reaches None None demo_answers c /\
    run (handle_data_stream 2 (mkSStream 5) 1 5 0 0) (on_connection [] (server c)) =
      Some (Some (Ok tt), ws') /\
    run (run_data_stream 2 (mkSStream 5)) (client_world (concat (out (conn ws')))) =
      Some (Some e, wc') /\
    map topic (ch_queue (ch_view (messages (shared wc')))) = [bs "room/1"].
Proof.
  assert (match chans (hub demo_closed) !! 1 with
          | Some q => bool_decide (length (ch_queue (ch_view q)) = 1) && negb (view_open (ch_view q))
          | None => false end = true) as H by vm_refl.
  assert (match run (handle_data_stream 2 (mkSStream 5) 1 5 0 0) (on_connection [] demo_closed) with
          | Some (_, w) =>
              match run (run_data_stream 2 (mkSStream 5)) (client_world (concat (out (conn w)))) with
              | Some (_, w') =>
                  bool_decide (map topic (ch_queue (ch_view (messages (shared w')))) = [bs "room/1"])
              | None => false end
          | None => false end = true) as Hx by vm_refl.
  pose proof reaches_closed as Hr. exists (mkMachine (finished 4) ({[ 2 ]} ∪ ∅) demo_closed).
  cbn [server]. generalize dependent demo_closed. intros s H Hx Hr.
  destruct (chans (hub s) !! 1) as [q|] eqn:E; [|done]. apply andb_prop in H as [H1 H2].
  apply bool_decide_eq_true_1 in H1. apply negb_true_iff in H2.
  destruct (run (handle_data_stream 2 _ 1 5 0 0) (on_connection [] s)) as [[r ws']|] eqn:Er; [|done].
  destruct (reachable_stream_delivery None demo_answers _ 1 q (mkSStream 5) (mkSStream 5) 5 0 0 2 2
              (on_connection [] s) (client_world (concat (out (conn ws')))) ltac:(done) Hr E H2)
    as (l & ws1 & Hl & Hrun & Hc); [done|done|done|lia|lia|done| |].
  { unfold len. rewrite H1. vm_compute. discriminate. }
  rewrite Er in Hrun. injection Hrun as -> ->. destruct Hc as (e & wc' & Hc & _); [done|].
  rewrite Hc in Hx. exists ws1, e, wc'. split; [exact Hr|]. split; [done|]. split; [done|].
  by apply bool_decide_eq_true_1 in Hx.
Defined.

(** The publisher puts its message into the mailbox of the subscriber. *)
Lemma after_psteps input s :
  (match run demo_unix (on_connection input s) with Some _ => true | None => false end) = true ->
  psteps demo_unix s (Ret tt) (after input s).
Proof.
  unfold after. destruct (run demo_unix (on_connection input s)) as [[[] w]|] eqn:E; [|done].
  intros _. by apply run_psteps in E.
Qed.

Lemma publisher_runs :
  exists s', psteps demo_unix attached (Ret tt) s' /\
    boxes (broker_of (hub attached)) !! 1 = Some [] /\
    exists m, boxes (broker_of (hub s')) !! 1 = Some [m].
Proof.
  assert (match boxes (broker_of (hub attached)) !! 1 with Some [] => true | _ => false end = true)
    as H0 by vm_refl.
  assert (match boxes (broker_of (hub demo_published)) !! 1 with
          | Some [_] => true | _ => false end = true) as H1 by vm_refl.
  exists demo_published. split; [apply after_psteps; vm_refl|].
  generalize dependent demo_published. generalize dependent attached. intros s H0 s' H1.
  destruct (boxes (broker_of (hub s)) !! 1) as [[|? ?]|]; [|done..].
  destruct (boxes (broker_of (hub s')) !! 1) as [[|m [|? ?]]|]; try done. by eauto.
Qed.

Lemma server_refines_broker_witness :
  exists c c' m, reaches None None demo_answers c /\ rtc (step None None) c c' /\
    boxes (broker_of (hub (server c))) !! 1 = Some [] /\
    boxes (broker_of (hub (server c'))) !! 1 = Some [m] /\
    bsteps (broker_of (hub (server c))) (broker_of (hub (server c'))).
Proof.
  destruct publisher_runs as (s' & E & H0 & m & H1). pose proof reaches_attached as Hr.
  generalize dependent attached. intros s E H0 Hr.
  assert (reaches None None demo_answers (mkMachine (finished 2 ++ [mkThread None demo_unix]) ∅ s))
    as Hc by (eapply reaches_step; [exact Hr|]; apply step_accept, entry_unix).
  assert (rtc (step None None) (mkMachine (finished 2 ++ [mkThread None demo_unix]) ∅ s)
            (mkMachine (finished 3) ∅ s')) as Hs
    by apply (psteps_steps None None demo_unix (Ret tt) s s' 2 None
                (finished 2 ++ [mkThread None demo_unix]) ∅ E eq_refl).
  destruct (server_refines_broker None None demo_answers _ _ ltac:(done) ltac:(done) Hc Hs)
    as [Hb _].
  eexists _, _, m. split; [exact Hc|]. split; [exact Hs|]. split; [exact H0|].
  split; [exact H1|exact Hb].
Defined.

(** ** Under access rules *)

(** Anonymous clients may read what is one level below [room], and publish there and in [hall]. *)
Definition house_rules : Acl :=
  mkAcl false false (Some (PathMaskList.new {[mkPathMask (Some [bs "room"; bs "+"])]}))
    (Some (PathMaskList.new {[mkPathMask (Some [bs "room"; bs "#"]); mkPathMask (Some [bs "hall"])]})).

Definition ruled_machine : Machine :=
  mkMachine [] ∅
    (mkServer (empty_hub demo_answers) Counters.default (mkDb {[ bs "_" := house_rules ]} [])
       Passwords.default Keys.default (mkLimits 0 4 64) true 1024 1024 (1%Z, 2%Z) []).

(** As many commands as the session gets to handle. *)
Definition demo_tcp (fuel : nat) : prog Server unit :=
  forget (handle_tcp_stream None (Ok tt) None true fuel (bs "10.0.0.1:4") 5).

(** An anonymous login. *)
Definition login_input : bytes := CONTROL_HEADER ++ [COMM_INSECURE] ++ frame_bytes [NUL].

Definition publish_input (topic data : bytes) : bytes :=
  [OP_PUBLISH; x07] ++ frame_bytes (topic ++ NUL :: data).

(** One publication that the subscriber may read, one that it may not, and one that is refused. *)
Definition rude_input : bytes :=
  login_input ++ publish_input (bs "room//1") (bs "on") ++ publish_input (bs "hall") (bs "in")
    ++ publish_input (bs "cellar") (bs "off").

Definition after_tcp (fuel : nat) (input : bytes) (s : Server) : Server :=
  match run (demo_tcp fuel) (on_connection input s) with Some (_, w) => shared w | None => s end.

(** The subscriber has its channel; then the others publish. *)
Definition ruled_attached : Server :=
  after_tcp 1 stream_input
    (after_tcp 1 (login_input ++ [OP_SUBSCRIBE] ++ frame_bytes (bs "room/+"))
       (server ruled_machine)).

Definition ruled_published : Server := after_tcp 3 rude_input ruled_attached.

Definition publishable (topic : bytes) : Prop := Acl.allow_write house_rules topic = true.

Definition in_room (login topic : bytes) : Prop := hd [] (split_on slash topic) = bs "room".

Lemma mask_matches_literal c m t :
  c <> bs "#" -> c <> bs "+" -> mask_matches (c :: m) t -> exists t', t = c :: t' /\ mask_matches m t'.
Proof. intros Ha Hw H. inversion H; subst; try done. by eexists. Qed.

Lemma mask_matches_one c t : c <> bs "#" -> mask_matches [c] t -> exists x, t = [x].
Proof.
  intros Ha H. inversion H as [|m d t' |m d t' Hm|m d t' Hm]; subst; [done| |];
    inversion Hm; by eexists.
Qed.

Lemma hash_last_pair c x : c <> bs "#" -> hash_last [c; x].
Proof.
  unfold hash_last. generalize (bs "#"). intros b Hc [|[|i]] Hi; [|done|done].
  injection Hi as E. by destruct Hc.
Qed.

Lemma mqtt_first c x t :
  c <> bs "#" -> c <> bs "+" -> mqtt_matches [c; x] t -> hd [] t = c.
Proof.
  intros Ha Hw [Hm|(q & Hq & Hm)].
  - by apply mask_matches_literal in Hm as (r & -> & _).
  - pose proof (f_equal length Hq) as Hl. rewrite length_app in Hl. simpl in Hl.
    destruct q as [|d [|e q]]; simpl in Hl; try lia. injection Hq as -> _.
    by apply mask_matches_literal in Hm as (r & -> & _).
Qed.

(** The read rules keep a subscription in the room, even one to [room/#]. *)
Lemma house_rules_read login : grants_read (in_room login) house_rules.
Proof.
  intros n sent p t Ha Hp Hm. unfold in_room.
  assert (exists x, split_on slash sent = [bs "room"; x]) as [x Hx].
  { unfold Acl.allow_read, house_rules, PathMaskList.matches, PathMaskList.matches_split in Ha.
    cbn [read PathMaskList.new path_masks] in Ha. rewrite elements_singleton in Ha.
    cbn [existsb] in Ha. rewrite orb_false_r in Ha. unfold PathMask.matches_split in Ha.
    cbn [chunks] in Ha. apply match_chunks_spec, mask_matches_literal in Ha as (r & -> & Hr); [|done..].
    apply mask_matches_one in Hr as [x ->]; [by exists x|done]. }
  apply prepare_topic_levels in Hp. rewrite Hx in Hp. cbn in Hp.
  assert (plain_pattern p) as Hpl.
  { unfold plain_pattern. rewrite Hp. by apply hash_last_pair. }
  specialize (Hm Hpl). rewrite Hp in Hm. by apply mqtt_first in Hm.
Qed.

Lemma house_rules_within (f : bytes) :
  rules_within publishable in_room (mkDb {[ bs "_" := house_rules ]} f).
Proof.
  intros login acl H. unfold rules_of in H. generalize dependent (if bool_decide (login = []) then bs "_" else login).
  intros user H. change (({[ bs "_" := house_rules ]} : gmap bytes Acl) !! user = Some acl) in H.
  apply lookup_singleton_Some in H as [_ <-]. split; [by intros topic|apply house_rules_read].
Qed.

Lemma after_tcp_moves fuel n st input s :
  (match run (demo_tcp fuel) (on_connection input s) with Some _ => true | None => false end) = true ->
  governed None publishable in_room demo_answers (mkMachine (finished n) st s) ->
  rtc (governed_move None publishable in_room) (mkMachine (finished n) st s)
    (mkMachine (finished (S n)) st (after_tcp fuel input s)).
Proof.
  intros Hrun Hg. unfold after_tcp. destruct (run _ _) as [[[] w]|] eqn:E; [|done].
  pose proof (governed_accept None publishable in_room demo_answers _ (demo_tcp fuel) Hg
    (entry_tcp None None (Ok tt) true fuel (bs "10.0.0.1:4") 5)
    ltac:(left; apply networked_tcp)) as Hm.
  eapply rtc_l; [exact Hm|]. simpl.
  replace (finished (S n)) with
    (<[n := mkThread None (Ret tt)]> (finished n ++ [mkThread None (demo_tcp fuel)])).
  - eapply (governed_psteps None ltac:(done) _ _ _ _ _ _ _ s); [by apply run_psteps in E| |].
    + rewrite lookup_app_r; unfold finished; rewrite length_replicate; [|done].
      by rewrite Nat.sub_diag.
    + eapply governed_moves; [by apply rtc_once|exact Hg].
  - unfold finished. rewrite replicate_S_end.
    rewrite insert_app_r_alt by (by rewrite length_replicate).
    by rewrite length_replicate, Nat.sub_diag.
Qed.

Lemma after_tcp_governed fuel n st input s :
  (match run (demo_tcp fuel) (on_connection input s) with Some _ => true | None => false end) = true ->
  governed None publishable in_room demo_answers (mkMachine (finished n) st s) ->
  governed None publishable in_room demo_answers
    (mkMachine (finished (S n)) st (after_tcp fuel input s)).
Proof. intros Hrun Hg. eapply governed_moves; [by apply after_tcp_moves|exact Hg]. Qed.

Lemma ruled_attached_governed :
  governed None publishable in_room demo_answers (mkMachine (finished 2) ∅ ruled_attached).
Proof.
  do 2 (apply after_tcp_governed; [vm_refl|]). apply governed_initial; [done|apply house_rules_within].
Qed.

Lemma ruled_moves :
  rtc (governed_move None publishable in_room) (mkMachine (finished 2) ∅ ruled_attached)
    (mkMachine (finished 3) ∅ ruled_published).
Proof. apply after_tcp_moves; [vm_refl|apply ruled_attached_governed]. Qed.

Lemma ruled_governed :
  governed None publishable in_room demo_answers (mkMachine (finished 3) ∅ ruled_published).
Proof. eapply governed_moves; [apply ruled_moves|apply ruled_attached_governed]. Qed.

(** The mailbox of the subscriber holds the one message, and a data task sends from it. *)
Definition one_message (s : Server) : bool :=
  match chans (hub s) !! 1, spawned s with
  | Some q, [_; (3, DataTask tok 1 5 2500000000 un ad)] =>
      bool_decide (map mdata (ch_queue (ch_view q)) = [Some (bs "on")])
        && bool_decide (tok = replicate 32 x01)
  | _, _ => false
  end.

Lemma publications_permitted_witness :
  exists c q, governed None publishable in_room demo_answers c /\
    chans (hub (server c)) !! 1 = Some q /\ map mdata (ch_queue (ch_view q)) = [Some (bs "on")] /\
    exists l, ch_queue (ch_view q) = map frame_of l /\ Forall (permitted publishable) l.
Proof.
  assert (one_message ruled_published = true) as H by vm_refl.
  pose proof ruled_governed as Hg. exists (mkMachine (finished 3) ∅ ruled_published).
  cbn [server]. generalize dependent ruled_published. intros s H Hg. unfold one_message in H.
  destruct (chans (hub s) !! 1) as [q|] eqn:E; [|done]. exists q.
  split; [exact Hg|]. split; [done|]. split; [|
    by apply (publications_permitted None publishable in_room demo_answers
                (mkMachine (finished 3) ∅ s) 1)].
  repeat case_match; try done. apply andb_prop in H as [H _]. by apply bool_decide_eq_true_1 in H.
Defined.

(** The anonymous subscriber, and the channel that it has. *)
Definition attached_client (s : Server) : option ServerClient :=
  match clients_by_token (hub_db (hub s)) !! replicate 32 x01 with
  | Some cl =>
      if bool_decide (token cl = replicate 32 x01) && bool_decide (login cl = [])
         && bool_decide (client_data_channel cl (hub s) = Some 1) then Some cl else None
  | None => None
  end.

Lemma deliveries_permitted_witness :
  exists c c' cl q id t un ad, governed None publishable in_room demo_answers c /\
    registered cl (hub (server c)) /\ login cl = [] /\
    client_data_channel cl (hub (server c)) = Some 1 /\
    rtc (governed_move None publishable in_room) c c' /\
    chans (hub (server c')) !! 1 = Some q /\ map mdata (ch_queue (ch_view q)) = [Some (bs "on")] /\
    (id, DataTask (token cl) 1 5 t un ad) ∈ spawned (server c') /\ un = format_login [] /\
    exists l, ch_queue (ch_view q) = map frame_of l /\ Forall (permitted (in_room [])) l.
Proof.
  assert (one_message ruled_published = true) as H by vm_refl.
  assert (match attached_client ruled_attached with Some _ => true | None => false end = true) as Hc
    by vm_refl.
  pose proof ruled_attached_governed as Hg. pose proof ruled_moves as Hm.
  exists (mkMachine (finished 2) ∅ ruled_attached), (mkMachine (finished 3) ∅ ruled_published).
  cbn [server]. generalize dependent ruled_published. intros s' H Hm.
  generalize dependent ruled_attached. intros s Hc Hg Hm. unfold attached_client in Hc.
  destruct (clients_by_token _ !! _) as [cl|] eqn:Ecl; [|done]. exists cl.
  destruct (bool_decide (token cl = _) && _ && _) eqn:Eb; [|done].
  apply andb_prop in Eb as [[Et El]%andb_prop Ed]. apply bool_decide_eq_true_1 in Et, El, Ed.
  assert (registered cl (hub s)) as Hr by by unfold registered; rewrite Et.
  destruct (deliveries_permitted None publishable in_room demo_answers _ _ cl 1 ltac:(done) Hg Hr Ed Hm)
    as [Hq Ht]. simpl in Hq, Ht. rewrite El in *. unfold one_message in H.
  destruct (chans (hub s') !! 1) as [q|] eqn:E; [|done]. specialize (Hq q E).
  assert (exists id t un ad, (id, DataTask (replicate 32 x01) 1 5 t un ad) ∈ spawned s' /\
            map mdata (ch_queue (ch_view q)) = [Some (bs "on")]) as (id & t & un & ad & Hin & Hd).
  { repeat case_match; try done. apply andb_prop in H as [Hd Htok].
    apply bool_decide_eq_true_1 in Hd, Htok. subst. eexists _, _, _, _. split; [|exact Hd].
    apply list_elem_of_further, list_elem_of_here. }
  exists q, id, t, un, ad. destruct (Ht _ _ _ _ _ _ Hin) as (_ & Hun & _). rewrite Et.
  split_and!; try done.
Defined.
