(* ===== verification/ClientSystem.v ===== *)
(** * The tasks and the callers of a client together

    The client as a transition system, over the steps of Interleave.v: the tasks that [connect]
    spawned, any number of callers of its methods at the same time, and a consumer of the messages
    take their steps in any order; callers give up, [shutdown] aborts the tasks, the client is
    dropped.

    The invariant is about answers. The sender of a one-shot channel is in exactly one place, the
    caller that made it, the queue of commands, or the control task that executes its command, and
    with it goes the right to answer: a resource in the sense of Interleave.v. So an answer reaches
    the caller of the command it belongs to, there is at most one, and it is final. *)

From S2P Require Import Prelude Utf8 Proto Io Commands Pubsub Reference Interleave Client ClientSpec.

Section client_system.
Context {CHO : ChannelOps} {CHL : ChannelLaws} {OSO : OneshotOps} {OSL : OneshotLaws}.

(** ** The transition system *)

(** A thread: a task of the client, or a caller. *)
Record ClientThread : Type := mkClientThread {
  task_of : option ClientTask;
  ccode : prog ClientState unit;
}.

Record ClientMachine : Type := mkClientMachine {
  cthreads : list ClientThread;
  cstate : ClientState;
}.

(** The program of a task, over its connection. *)
Definition client_task_code (fuel : nat) (stream : SStream) (t : ClientTask) :
    prog ClientState unit :=
  match t with
  | ClientDataTask => forget (client_data_task fuel stream)
  | ClientControlTask _ beacon timeout => forget (control_task fuel stream beacon timeout)
  | ClientPinger beacon => forget (control_pinger fuel beacon)
  end.

(** A call of a method, with the display of the timer's error. *)
Inductive method : prog ClientState unit -> Prop :=
| method_command elapsed cmd timeout :
    method (forget (Client.exec_command elapsed cmd timeout))
| method_bye elapsed timeout : method (forget (Client.bye elapsed timeout))
| method_connected : method (forget Client.is_connected)
| method_take : method (forget Client.take_data_channel)
| method_shutdown : method (forget Client.shutdown).

(** The ends of channels that the closure of a task owns. *)
Definition drop_client_task (t : option ClientTask) (s : ClientState) : ClientState :=
  match t with
  | Some ClientDataTask => with_commands ch_drop_sender (with_messages ch_drop_sender s)
  | Some (ClientControlTask _ _ _) => with_commands ch_drop_receiver s
  | Some (ClientPinger _) => with_commands ch_drop_sender s
  | None => s
  end.

(** The commands that wait in the queue, by the channels of their answers. *)
Definition queued (s : ClientState) : list nat :=
  omap response_channel (ch_queue (ch_view (commands s))).

(** A thread that stops drops the sender that it holds: a caller that of a command not yet sent, the
    control task that of the command it executes. It is not known here which one, but none that is
    in the queue. *)
Definition drop_senders (held : list nat) (s : ClientState) : ClientState :=
  foldr (alter_oneshot os_drop_sender) s held.

(** Tasks stop when [shutdown] aborted them, callers whenever their future is dropped. *)
Definition may_stop (t : option ClientTask) (s : ClientState) : bool :=
  match t with Some _ => tasks_aborted s | None => true end.

Inductive cstep : ClientMachine -> ClientMachine -> Prop :=
| cstep_thread i t p p' s s' ts :
    ts !! i = Some (mkClientThread t p) -> pstep p s p' s' ->
    cstep (mkClientMachine ts s) (mkClientMachine (<[i := mkClientThread t p']> ts) s')
| cstep_call p s ts :
    method p -> cstep (mkClientMachine ts s) (mkClientMachine (ts ++ [mkClientThread None p]) s)
| cstep_stop i t p held s ts :
    ts !! i = Some (mkClientThread t p) -> at_await p = true -> may_stop t s = true ->
    Forall (fun i => i ∉ queued s) held ->
    cstep (mkClientMachine ts s)
      (mkClientMachine (<[i := mkClientThread None (Ret tt)]> ts)
         (drop_senders held (drop_client_task t s)))
| cstep_consume m q s ts :
    ch_recv (messages s) = Some (m, q) ->
    cstep (mkClientMachine ts s) (mkClientMachine ts (set_messages q s))
| cstep_close_messages s ts :
    cstep (mkClientMachine ts s) (mkClientMachine ts (with_messages ch_drop_receiver s))
| cstep_drop_client s ts :
    cstep (mkClientMachine ts s) (mkClientMachine ts (with_commands ch_drop_sender (abort_all s))).

(** What [connect] returns, with its tasks about to start. *)
Definition connected_client (c : Config) (m : ClientMachine) : Prop :=
  new_client c = Some (cstate m) /\
  Forall2 (fun t th => exists fuel stream,
             th = mkClientThread (Some t) (client_task_code fuel stream t))
    (tasks (cstate m)) (cthreads m).

Inductive creaches (c : Config) : ClientMachine -> Prop :=
| creaches_initial m : connected_client c m -> creaches c m
| creaches_step m m' : creaches c m -> cstep m m' -> creaches c m'.

(** ** The invariant *)

(** No answer was sent; its sender may be gone. *)
Definition unanswered (s : ClientState) (i : nat) : Prop :=
  exists o, oneshots s !! i = Some o /\ forall v, os_recv o <> Some (Some v).

Definition answered (s : ClientState) (i : nat) (v : result unit Error) : Prop :=
  exists o, oneshots s !! i = Some o /\ os_recv o = Some (Some v).

Record client_ok (s : ClientState) : Prop := {
  cok_nodup : NoDup (queued s);
  cok_queued : Forall (unanswered s) (queued s);
  cok_fresh i : is_Some (oneshots s !! i) -> i < next_oneshot s;
}.

(** The right to answer on a one-shot channel belongs to one program at a time. *)
Definition entitled (s : ClientState) (i : nat) : Prop := unanswered s i /\ i ∉ queued s.

(** An answer stays what it is. *)
Definition answers_stay (s s' : ClientState) : Prop :=
  forall i v, answered s i v -> answered s' i v.

#[local] Instance answers_stay_preorder : PreOrder answers_stay.
Proof. split; [by intros s i v|]. intros s1 s2 s3 H1 H2 i v H. by apply H2, H1. Qed.

#[local] Abbreviation safe := (safe client_ok entitled answers_stay).
#[local] Abbreviation neutral := (neutral client_ok entitled answers_stay).
#[local] Abbreviation gentle := (gentle client_ok entitled answers_stay).
#[local] Abbreviation guarantee := (guarantee client_ok entitled answers_stay).
#[local] Abbreviation ends_safely := (ends_safely client_ok entitled answers_stay).

Lemma answered_unanswered s i v : answered s i v -> unanswered s i -> False.
Proof. intros (o & Ho & Hv) (o' & Ho' & Hn). simplify_eq. by apply (Hn v). Qed.

(** *** Changes that concern nobody's rights *)

Lemma gentle_same_state s : gentle s s.
Proof. apply (gentle_refl client_ok entitled answers_stay). Qed.

Lemma gentle_both s1 s2 s3 : gentle s1 s2 -> gentle s2 s3 -> gentle s1 s3.
Proof. apply (gentle_trans client_ok entitled answers_stay). Qed.

(** The queue and the one-shot channels stay. *)
Lemma gentle_same s s' :
  queued s' = queued s -> oneshots s' = oneshots s -> next_oneshot s' = next_oneshot s ->
  gentle s s'.
Proof.
  intros Hq Ho Hn [H1 H2 H3]. split; [split|].
  - by rewrite Hq.
  - rewrite Hq. eapply Forall_impl; [exact H2|]. unfold unanswered. by rewrite Ho.
  - by rewrite Ho, Hn.
  - split; [intros i v; unfold answered; by rewrite Ho|].
    intros i. unfold entitled, unanswered. by rewrite Hq, Ho.
Qed.

Lemma gentle_commands f s :
  (forall c, ch_queue (ch_view (f c)) = ch_queue (ch_view c)) -> gentle s (with_commands f s).
Proof. intros Hf. apply gentle_same; [|done..]. unfold queued. simpl. by rewrite Hf. Qed.

Lemma gentle_drop_commands_sender s : gentle s (with_commands ch_drop_sender s).
Proof. apply gentle_commands. intros c. by rewrite ch_drop_sender_view. Qed.

Lemma gentle_drop_commands_receiver s : gentle s (with_commands ch_drop_receiver s).
Proof. apply gentle_commands. intros c. by rewrite ch_drop_receiver_view. Qed.

Lemma gentle_messages q s : gentle s (set_messages q s).
Proof. by apply gentle_same. Qed.

(** One-shot channels change, but answers do not appear and do not go. *)
Lemma gentle_alter f i s :
  (forall o v, os_recv (f o) = Some (Some v) <-> os_recv o = Some (Some v)) ->
  gentle s (alter_oneshot f i s).
Proof.
  intros Hf [H1 H2 H3].
  assert (forall j, unanswered s j -> unanswered (alter_oneshot f i s) j) as Hu.
  { intros j (o & Ho & Hn). unfold unanswered. simpl. rewrite lookup_alter.
    case_decide; subst; rewrite Ho; simpl; eexists; (split; [done|]); [|done].
    intros v. by rewrite Hf. }
  split; [split|].
  - done.
  - eapply Forall_impl; [exact H2|]. apply Hu.
  - intros j. simpl. rewrite lookup_alter. case_decide; [|apply H3]. subst.
    intros [o Ho]. apply H3. destruct (oneshots s !! j); [by eexists|done].
  - split.
    + intros j v (o & Ho & Hv). unfold answered. simpl. rewrite lookup_alter.
      case_decide; subst; rewrite Ho; simpl; eexists; (split; [done|]); [|done].
      by rewrite Hf.
    + intros j [Hj Hq]. by split; [apply Hu|].
Qed.

Lemma recv_drop_sender {M} (o : oneshot M) v :
  os_recv (os_drop_sender o) = Some (Some v) <-> os_recv o = Some (Some v).
Proof.
  destruct (os_recv o) as [r|] eqn:E.
  - by rewrite (os_recv_sent o r).
  - by rewrite os_recv_drop.
Qed.

Lemma gentle_drop_oneshot i s : gentle s (alter_oneshot os_drop_sender i s).
Proof. apply gentle_alter. intros. apply recv_drop_sender. Qed.

Lemma gentle_drop_command cmd s : gentle s (drop_command cmd s).
Proof. unfold drop_command. case_match; [apply gentle_drop_oneshot|apply gentle_same_state]. Qed.

Lemma gentle_drop_senders held s : gentle s (drop_senders held s).
Proof.
  induction held as [|i held IH]; [apply gentle_same_state|].
  eapply gentle_both; [apply IH|apply gentle_drop_oneshot].
Qed.

Lemma gentle_drop_task t s : gentle s (drop_client_task t s).
Proof.
  destruct t as [[]|]; simpl.
  - eapply gentle_both; [apply gentle_messages|apply gentle_drop_commands_sender].
  - apply gentle_drop_commands_receiver.
  - apply gentle_drop_commands_sender.
  - apply gentle_same_state.
Qed.

(** *** A right is spent, or gained *)

Lemma guarantee_spend own i s s' :
  i ∈ own -> client_ok s' -> answers_stay s s' -> Forall (entitled s) own ->
  (forall j, j <> i -> entitled s j -> entitled s' j) ->
  guarantee own s (filter (fun j => j <> i) own) s'.
Proof.
  intros Hi Hok Ha Ho Hr. split; [done|]. split; [done|]. split.
  - apply Forall_forall. intros r [Hne Hin]%list_elem_of_filter. apply Hr; [done|].
    rewrite Forall_forall in Ho. by apply Ho.
  - intros r Hin Hs. split; [apply Hr; [by intros ->|done]|].
    by intros [_ ?]%list_elem_of_filter.
Qed.

Lemma guarantee_gain own i s s' :
  client_ok s' -> answers_stay s s' -> Forall (entitled s) own -> ~ entitled s i -> entitled s' i ->
  (forall j, entitled s j -> entitled s' j) -> guarantee own s (i :: own) s'.
Proof.
  intros Hok Ha Ho Hn Hi Hr. split; [done|]. split; [done|]. split.
  - constructor; [done|]. eapply Forall_impl; [exact Ho|done].
  - intros r Hin Hs. split; [by apply Hr|]. apply not_elem_of_cons. split; [|done]. by intros ->.
Qed.

(** A new one-shot channel. *)
Lemma safe_new_oneshot own (Q : nat -> list nat -> Prop) :
  (forall i, Q i (i :: own)) -> safe own (atomic new_oneshot) Q.
Proof.
  intros HQ s [H1 H2 H3] Ho. eexists. split; [|apply HQ]. simpl.
  assert (oneshots s !! next_oneshot s = None) as Hnone.
  { apply eq_None_not_Some. intros Hs. apply H3 in Hs. lia. }
  set (s' := set_oneshots _ _ s).
  assert (forall j o, oneshots s !! j = Some o -> oneshots s' !! j = Some o) as Hkeep.
  { intros j o Hj. simpl. rewrite lookup_insert_ne; [done|]. congruence. }
  assert (forall r, entitled s r -> entitled s' r) as Hr.
  { intros j [(o & Hj & Hn) Hq]. split; [|done]. exists o. eauto. }
  apply guarantee_gain; [split| |done| |split|exact Hr].
  - done.
  - eapply Forall_impl; [exact H2|]. intros j (o & Hj & Hn). exists o. eauto.
  - intros j. simpl. rewrite lookup_insert. case_decide; [lia|]. intros Hj. apply H3 in Hj. lia.
  - intros j v (o & Hj & Hv). exists o. eauto.
  - intros [(o & Hj & _) _]. congruence.
  - exists os_channel. split; [simpl; apply lookup_insert_eq|]. intros v. by rewrite os_recv_channel.
  - intros Hin. rewrite Forall_forall in H2. destruct (H2 _ Hin) as (o & Hj & _). congruence.
Qed.

(** A command goes to the queue, or the queue is closed. *)
Lemma send_command_queue cmd s b s' :
  send_command cmd s = Some (b, s') ->
  ch_queue (ch_view (commands s')) =
    ch_queue (ch_view (commands s)) ++ (if b then [cmd] else []) /\
  oneshots s' = oneshots s /\ next_oneshot s' = next_oneshot s.
Proof.
  unfold send_command. destruct (ch_send cmd (commands s)) as [[b' q]|] eqn:E; [|done].
  intros [= <- <-]. split; [|done]. simpl. destruct (view_open (ch_view (commands s))) eqn:Ho.
  - destruct (view_full (ch_view (commands s))) eqn:Hf; [by rewrite ch_send_full in E|].
    destruct (ch_send_room cmd _ Ho Hf) as (q' & E' & Hv). rewrite E' in E. simplify_eq.
    by rewrite Hv.
  - destruct (ch_send_closed cmd _ Ho) as (q' & E' & Hv). rewrite E' in E. simplify_eq.
    by rewrite Hv, app_nil_r.
Qed.

Lemma gentle_send_plain cmd s b s' :
  send_command (mkCommand cmd None) s = Some (b, s') -> gentle s s'.
Proof.
  intros (Hq & Ho & Hn)%send_command_queue. apply gentle_same; [|done..].
  unfold queued. rewrite Hq, omap_app. destruct b; simpl; by rewrite app_nil_r.
Qed.

Lemma neutral_send_plain cmd : neutral (await (send_command (mkCommand cmd None))).
Proof. apply neutral_await. intros s b s'. apply gentle_send_plain. Qed.

(** With the command goes the right to answer it. *)
Lemma safe_try_send own i cmd :
  i ∈ own ->
  safe own (atomic (fun s => match send_command (mkCommand cmd (Some i)) s with
                             | Some (x, s') => (Some x, s') | None => (None, s) end))
    (fun r own' => r = None -> own' = own).
Proof.
  intros Hi s Hok Ho. destruct (send_command _ s) as [[b s']|] eqn:E; simpl;
    [|by exists own; split; [apply gentle_guarantee; [apply gentle_same_state|done..]|]].
  apply send_command_queue in E as (Hq & Hos & Hn).
  assert (queued s' = queued s ++ if b then [i] else []) as Hqs.
  { unfold queued. rewrite Hq, omap_app. by destruct b. }
  assert (unanswered s i /\ i ∉ queued s) as [Hu Hni].
  { rewrite Forall_forall in Ho. by apply (Ho i). }
  assert (forall j, unanswered s j -> unanswered s' j) as Hus.
  { intros j. unfold unanswered. by rewrite Hos. }
  exists (filter (fun j => j <> i) own). split; [|done].
  destruct Hok as [H1 H2 H3]. apply guarantee_spend; [done|split| |done|].
  - rewrite Hqs. apply NoDup_app. split; [done|]. split; [|destruct b; [apply NoDup_singleton|constructor]].
    intros j Hj. destruct b; [|apply not_elem_of_nil]. rewrite list_elem_of_singleton. by intros ->.
  - rewrite Hqs. apply Forall_app. split; [by eapply Forall_impl; [exact H2|]|].
    destruct b; [|constructor]. constructor; [by apply Hus|constructor].
  - intros j. rewrite Hos, Hn. apply H3.
  - intros j v. unfold answered. by rewrite Hos.
  - intros j Hne [Hj Hq']. split; [by apply Hus|]. rewrite Hqs, elem_of_app. intros [?|Hb]; [done|].
    destruct b; [|by apply not_elem_of_nil in Hb]. apply list_elem_of_singleton in Hb. congruence.
Qed.

(** A command is taken from the queue, and with it the right to answer it. *)
Definition may_answer (own : list nat) (cmd : Command) : Prop :=
  match response_channel cmd with Some i => i ∈ own | None => True end.

Lemma safe_recv_command own :
  safe own (await recv_command)
    (fun c own' => match c with Some cmd => may_answer own' cmd | None => True end).
Proof.
  intros s Hok Ho. unfold recv_command.
  destruct (ch_recv (commands s)) as [[c q]|] eqn:E; [|done].
  destruct (ch_queue (ch_view (commands s))) as [|cmd rest] eqn:Eq.
  - destruct (view_open (ch_view (commands s))) eqn:Hv; [by rewrite ch_recv_wait in E|].
    destruct (ch_recv_closed _ Eq Hv) as (q' & E' & Hq). rewrite E' in E. simplify_eq.
    exists own. split; [|done]. apply gentle_guarantee; [|done..].
    apply gentle_same; [|done..]. unfold queued. simpl. by rewrite Hq.
  - destruct (ch_recv_message _ cmd rest Eq) as (q' & E' & Hq). rewrite E' in E. simplify_eq.
    set (s' := set_commands q s).
    assert (queued s' = omap response_channel rest) as Hqs by (unfold queued; simpl; by rewrite Hq).
    assert (queued s = match response_channel cmd with
                       | Some i => i :: queued s' | None => queued s' end) as Hq0.
    { rewrite Hqs. unfold queued. by rewrite Eq. }
    destruct (response_channel cmd) as [i|] eqn:Er.
    + exists (i :: own). split; [|simpl; unfold may_answer; rewrite Er; apply elem_of_cons; auto].
      destruct Hok as [H1 H2 H3]. rewrite Hq0 in H1, H2. apply NoDup_cons in H1 as [Hi H1].
      apply Forall_cons in H2 as [Hu H2].
      apply guarantee_gain; [by split|by intros j v|done| |by split|].
      * intros [_ Hn]. apply Hn. rewrite Hq0. apply elem_of_cons. auto.
      * intros j [Hj Hn]. split; [done|]. intros Hin. apply Hn.
        rewrite Hq0. apply elem_of_cons. auto.
    + exists own. split; [|simpl; unfold may_answer; by rewrite Er].
      apply gentle_guarantee; [by apply gentle_same|done..].
Qed.

(** The answer. *)
Lemma safe_answer own cmd r :
  may_answer own cmd -> safe own (modify (answer cmd r)) (fun _ _ => True).
Proof.
  unfold may_answer, answer. intros Hi s Hok Ho. destruct (response_channel cmd) as [i|]; [|by
    exists own; split; [apply gentle_guarantee; [apply gentle_same_state|done..]|]].
  assert (unanswered s i /\ i ∉ queued s) as [Hu Hni].
  { rewrite Forall_forall in Ho. by apply (Ho i). }
  assert (forall j, j <> i ->
    oneshots (alter_oneshot (os_send r) i s) !! j = oneshots s !! j) as Hne.
  { intros j Hj. simpl. by rewrite lookup_alter_ne. }
  exists (filter (fun j => j <> i) own). split; [|done].
  destruct Hok as [H1 H2 H3]. apply guarantee_spend; [done|split| |done|].
  - done.
  - rewrite Forall_forall in H2 |- *. intros j Hj. unfold unanswered.
    rewrite Hne; [by apply H2|]. by intros ->.
  - intros j. simpl. rewrite lookup_alter. case_decide; [|apply H3]. subst.
    intros [o Ho']. apply H3. destruct (oneshots s !! j); [by eexists|done].
  - intros j v Hv. unfold answered. rewrite Hne; [done|]. intros ->.
    by eapply answered_unanswered.
  - intros j Hj [Huj Hq]. split; [|done]. unfold unanswered. by rewrite Hne.
Qed.

(** *** Programs *)

Lemma neutral_messages_await f :
  (forall s x s', f s = Some (x, s') -> exists q, s' = set_messages q s) ->
  neutral (await (X:=bool) f).
Proof.
  intros Hf. apply neutral_await. intros s x s' Hs. destruct (Hf s x s' Hs) as [q ->].
  apply gentle_messages.
Qed.

Lemma neutral_send_data m : neutral (await (send_data m)).
Proof.
  apply neutral_messages_await. intros s x s'. unfold send_data.
  destruct (ch_send m (messages s)) as [[b q]|]; [|done]. intros [= _ <-]. by exists q.
Qed.

Lemma neutral_connected b : neutral (modify (set_connected b)).
Proof. apply neutral_modify. intros s. by apply gentle_same. Qed.

Lemma neutral_drop_command cmd : neutral (modify (drop_command cmd)).
Proof. apply neutral_modify, gentle_drop_command. Qed.

Lemma neutral_commands_sender : neutral (modify (with_commands ch_drop_sender)).
Proof. apply neutral_modify, gentle_drop_commands_sender. Qed.

Lemma neutral_commands_receiver : neutral (modify (with_commands ch_drop_receiver)).
Proof. apply neutral_modify, gentle_drop_commands_receiver. Qed.

Lemma neutral_messages_sender : neutral (modify (with_messages ch_drop_sender)).
Proof. apply neutral_modify. intros s. apply gentle_messages. Qed.

Lemma neutral_shutdown : neutral Client.shutdown.
Proof. apply neutral_modify. intros s. by apply gentle_same. Qed.

Lemma neutral_take : neutral Client.take_data_channel.
Proof. apply neutral_atomic. intros s. by apply gentle_same. Qed.
Hint Resolve neutral_send_plain neutral_send_data neutral_connected neutral_drop_command
  neutral_commands_sender neutral_commands_receiver neutral_messages_sender neutral_shutdown
  neutral_take : neutral.

(** A program that ends without a promise, from any rights. *)
Definition free {A} (p : prog ClientState A) : Prop := forall own, safe own p (fun _ _ => True).

Lemma neutral_free {A} (p : prog ClientState A) : neutral p -> free p.
Proof. intros Hp own. eapply safe_mono; [|apply Hp]. done. Qed.

Lemma free_bind {A B} (m : prog ClientState A) (f : A -> prog ClientState B) :
  free m -> (forall a, free (f a)) -> free (pbind f m).
Proof. intros Hm Hf own. apply safe_bind. eapply safe_mono; [|apply Hm]. intros a o _. apply Hf. Qed.

(** A method: the command is sent with its sender, or both are dropped. *)
Lemma free_exec_command elapsed cmd t : free (Client.exec_command elapsed cmd t).
Proof.
  intros own. unfold Client.exec_command. apply safe_bind, safe_new_oneshot. intros i.
  apply safe_bind. unfold await_timeout at 1. cbv zeta. apply safe_bind.
  eapply safe_mono; [|apply safe_try_send, elem_of_cons; by left]. intros r own' Hr.
  assert (forall sent, free (match sent with
    | None => Ret (Err (from_elapsed elapsed))
    | Some false => Ret (Err (internal ERR_COMMUNCATION_LOST))
    | Some true =>
        r <-- await_timeout t (fun s =>
                match oneshots s !! i with
                | Some o => match os_recv o with Some v => Some (v, s) | None => None end
                | None => None
                end) ;;
        Ret (match r with
             | None => Err (from_elapsed elapsed)
             | Some None => Err (internal ERR_COMMUNCATION_LOST)
             | Some (Some v) => v
             end)
    end)) as Hrest.
  { intros sent. apply neutral_free. destruct sent as [[]|]; [|apply neutral_ret..].
    unfold await_timeout. cbv zeta. neutral;
      (apply neutral_atomic; intros s; destruct (oneshots s !! i) as [o|]; [destruct (os_recv o)|];
       apply gentle_same_state). }
  destruct r as [b|]; [apply Hrest|]. rewrite Hr by done.
  apply safe_neutral; [apply neutral_sleep|intros _].
  eapply safe_mono; [|apply safe_try_send, elem_of_cons; by left]. intros r own1 _. apply Hrest.
Qed.

Lemma method_free p : method p -> free p.
Proof.
  destruct 1 as [elapsed cmd t|elapsed t| | |];
    (apply free_bind; [|intros; apply neutral_free, neutral_ret]).
  - apply free_exec_command.
  - apply free_bind; [apply free_exec_command|]. intros [u|e]; apply neutral_free; neutral.
  - apply neutral_free. unfold Client.is_connected. neutral.
  - apply neutral_free, neutral_take.
  - apply neutral_free, neutral_shutdown.
Qed.

(** The control task answers a command at most once. *)
Lemma safe_handle_code own cmd code :
  may_answer own cmd -> safe own (handle_code cmd code) (fun _ _ => True).
Proof.
  intros Hc. unfold handle_code, handle_err. destruct (decide (code = RESPONSE_OK)).
  - apply safe_bind. eapply safe_mono; [|by apply safe_answer]. done.
  - cbv zeta. apply safe_bind. eapply safe_mono; [|by apply safe_answer]. done.
Qed.

Lemma safe_process_reply own cmd t op :
  may_answer own cmd -> safe own (process_reply cmd t op) (fun _ _ => True).
Proof.
  intros Hc. unfold process_reply. apply safe_neutral; [apply neutral_reduced|intros t'].
  apply safe_neutral_q; [apply neutral_read|done|intros b]. by apply safe_handle_code.
Qed.

Lemma safe_finish own cmd t op :
  may_answer own cmd -> safe own (finish_command cmd t op) (fun _ _ => True).
Proof.
  intros Hc. pose proof (fun t op => safe_process_reply own cmd t op Hc) as Hr.
  unfold finish_command. destruct (control_command cmd); try apply Hr.
  - apply safe_neutral; [apply neutral_reduced|intros t'].
    by apply safe_neutral_q; [apply neutral_write|done|intros []].
  - apply safe_neutral; [apply neutral_reduced|intros t'].
    apply safe_neutral_q; [apply neutral_read|done|intros b]. cbv zeta.
    destruct (decide (hd x00 b = RESPONSE_OK_WAITING)).
    + apply safe_neutral; [apply neutral_reduced|intros t1].
      apply safe_neutral_q; [apply neutral_write|done|intros []].
      apply safe_neutral; [apply neutral_reduced|intros t2].
      by apply safe_neutral_q; [apply neutral_write|done|intros []].
    + destruct (decide (hd x00 b = RESPONSE_NOT_REQUIRED)).
      * apply safe_bind. eapply safe_mono; [|by apply safe_answer]. done.
      * unfold handle_err. cbv zeta. apply safe_bind. eapply safe_mono; [|by apply safe_answer]. done.
Qed.

Lemma safe_execute own stream cmd t op :
  may_answer own cmd -> safe own (execute stream cmd t op) (fun _ _ => True).
Proof.
  intros Hc. unfold execute. apply safe_bind.
  assert (forall (r : result unit Error) own', safe own' (_ <-- modify (drop_command cmd) ;; Ret r)
            (fun _ _ => True)) as Hd.
  { intros r own'. apply safe_neutral; [apply neutral_drop_command|done]. }
  apply safe_neutral_q; [apply neutral_swrite|intros e; apply Hd|intros []].
  eapply safe_mono; [|by apply safe_finish]. intros r own' _. apply Hd.
Qed.

Lemma free_control_stream fuel stream beacon t op :
  free (run_control_stream fuel stream beacon t op).
Proof.
  revert op; induction fuel as [|fuel IH]; intros op own; [done|]. cbn [run_control_stream].
  apply safe_bind. eapply safe_mono; [|apply safe_recv_command].
  intros [cmd|] own' Hc; [|done]. apply safe_neutral; [apply neutral_now|intros n].
  destruct (_ && _)%bool.
  - apply safe_neutral; [apply neutral_drop_command|intros _]. apply IH.
  - apply safe_bind. eapply safe_mono; [|by apply safe_execute]. intros [u|e] own1 _; [apply IH|done].
Qed.

Lemma task_free fuel stream t : free (client_task_code fuel stream t).
Proof.
  destruct t as [|path beacon timeout|beacon];
    (apply free_bind; [|intros; apply neutral_free, neutral_ret]).
  - apply neutral_free. unfold client_data_task. apply neutral_bind; [|intros; neutral].
    apply neutral_iterate. unfold data_round. cbv zeta. neutral.
  - unfold control_task. apply free_bind; [apply neutral_free, neutral_now|intros n].
    apply free_bind; [apply free_control_stream|intros r]. apply neutral_free. neutral.
  - apply neutral_free. unfold control_pinger. apply neutral_bind; [|intros; neutral].
    apply neutral_iterate. neutral.
Qed.

(** *** The invariant of the system *)

Definition cmachine_ok (m : ClientMachine) (owns : list (list nat)) : Prop :=
  pool_ok client_ok entitled answers_stay (map ccode (cthreads m)) (cstate m) owns.

Lemma cmachine_step m m' owns :
  cstep m m' -> cmachine_ok m owns ->
  answers_stay (cstate m) (cstate m') /\ exists owns', cmachine_ok m' owns'.
Proof.
  intros Hstep Hm.
  assert (forall ts s s', cmachine_ok (mkClientMachine ts s) owns -> gentle s s' ->
    answers_stay s s' /\ exists owns', cmachine_ok (mkClientMachine ts s') owns') as Henv.
  { intros ts s s' Hc Hg. split; [apply Hg, Hc|]. exists owns. by eapply pool_ok_gentle. }
  destruct Hstep as [i t p p' s s' ts Hi Hp|p s ts Hp|i t p held s ts Hi _ _ _
    |m q s ts _|s ts|s ts].
  - destruct (pool_ok_step _ _ _ _ _ _ i p p' s' Hm) as (Ha & owns' & Hc'); [|done|].
    { simpl. by rewrite list_lookup_fmap, Hi. }
    split; [done|]. exists owns'. unfold cmachine_ok. simpl. by rewrite list_fmap_insert.
  - split; [done|]. eexists. unfold cmachine_ok. simpl. rewrite map_app.
    by apply pool_ok_spawn; [exact Hm|apply method_free].
  - apply Henv.
    + unfold cmachine_ok. simpl. rewrite list_fmap_insert. eapply pool_ok_stop; [exact Hm|].
      simpl. by rewrite list_lookup_fmap, Hi.
    + eapply gentle_both; [apply gentle_drop_task|apply gentle_drop_senders].
  - apply Henv; [exact Hm|apply gentle_messages].
  - apply Henv; [exact Hm|apply gentle_messages].
  - apply Henv; [exact Hm|]. eapply gentle_both; [|apply gentle_drop_commands_sender].
    by apply gentle_same.
Qed.

Lemma new_client_ok c s : new_client c = Some s -> client_ok s.
Proof.
  unfold new_client. destruct (queue_size c =? 0)%N; [done|]. intros [= <-].
  assert (queued (fresh_client c) = []) as Hq.
  { unfold queued, fresh_client. cbn [commands].
    destruct (need_data_stream c); by rewrite !ch_clone_sender_view, ch_bounded_view. }
  split; [rewrite Hq; constructor|rewrite Hq; constructor|].
  intros i [o Ho]. simpl in Ho. by rewrite lookup_empty in Ho.
Qed.

Lemma pool_ok_tasks s fs ts ths :
  pool_ok client_ok entitled answers_stay fs s (map (fun _ => []) fs) ->
  Forall2 (fun t th => exists fuel stream,
             th = mkClientThread (Some t) (client_task_code fuel stream t)) ts ths ->
  exists owns, pool_ok client_ok entitled answers_stay (fs ++ map ccode ths) s owns.
Proof.
  intros Hp Ht. revert fs Hp; induction Ht as [|t th ts ths (fuel & stream & ->) Ht IH]; intros fs Hp.
  - exists (map (fun _ => []) fs). by rewrite app_nil_r.
  - destruct (IH (fs ++ [client_task_code fuel stream t])) as [owns Ho].
    + rewrite map_app. apply pool_ok_spawn; [done|apply task_free].
    + exists owns. rewrite <- app_assoc in Ho. exact Ho.
Qed.

Lemma creaches_ok c m : creaches c m -> exists owns, cmachine_ok m owns.
Proof.
  induction 1 as [m [Hs Ht]|m m' _ [owns Hm] Hstep]; [|by eapply cmachine_step].
  apply (pool_ok_tasks (cstate m) [] _ _) in Ht; [done|].
  by eapply pool_ok_empty, new_client_ok.
Qed.

(** ** Properties *)

(** C4: answers under every interleaving of the client's tasks and of any number of callers of its
    methods, with callers that give up, a shutdown and tasks aborted in the middle. No two commands
    in the queue share the channel of their answer; the channel of a command in the queue has no
    answer; and an answer, once given, is final: nothing that happens afterwards changes it. *)
Theorem client_answers c m :
  creaches c m ->
  NoDup (queued (cstate m)) /\
  (forall i, i ∈ queued (cstate m) -> unanswered (cstate m) i) /\
  forall m', rtc cstep m m' -> forall i v, answered (cstate m) i v -> answered (cstate m') i v.
Proof.
  intros Hm. destruct (creaches_ok c m Hm) as [owns Ho].
  pose proof (pok_state _ _ _ _ _ _ Ho) as [H1 H2 _]. split; [done|].
  split; [by rewrite Forall_forall in H2|]. intros m' Hr i v Hv. clear Hm H1 H2.
  revert owns Ho Hv; induction Hr as [m|m m1 m' Hstep _ IH]; intros owns Ho Hv; [done|].
  destruct (cmachine_step m m1 owns Hstep Ho) as (Ha & owns1 & Ho1).
  eapply IH; [exact Ho1|by apply Ha].
Qed.

(** *** Executions *)

Lemma psteps_csteps i t p q s s' ts :
  psteps p s q s' -> ts !! i = Some (mkClientThread t p) ->
  rtc cstep (mkClientMachine ts s) (mkClientMachine (<[i := mkClientThread t q]> ts) s').
Proof.
  unfold psteps. remember (p, s) as x eqn:Ex. remember (q, s') as y eqn:Ey. intros H.
  revert p s ts Ex; induction H as [x|x [p1 s1] y Hstep _ IH]; intros p s ts -> Hi; simplify_eq.
  - by rewrite list_insert_id.
  - eapply rtc_l; [by eapply cstep_thread|]. simpl.
    rewrite <- (list_insert_insert_eq ts i (mkClientThread t q) (mkClientThread t p1)).
    apply (IH eq_refl p1 s1 _ eq_refl).
    apply list_lookup_insert_eq. by eapply lookup_lt_Some.
Qed.

Lemma creaches_rtc c m m' : creaches c m -> rtc cstep m m' -> creaches c m'.
Proof. intros Hm Hr. induction Hr; [done|]. apply IHHr. by eapply creaches_step. Qed.
End client_system.

(** ** A concrete run *)

(** A client without a data stream, one caller that subscribes, and a server that agrees. *)
Definition quiet_config : Config := Config.disable_data_stream (Config.new (bs "localhost:2873")).

Definition demo_task (t : ClientTask) : ClientThread :=
  mkClientThread (Some t) (client_task_code 1 (mkSStream 5) t).

Definition demo_control_task : ClientTask :=
  ClientControlTask (bs "localhost:2873") (client_beacon quiet_config) DEFAULT_TIMEOUT.

Definition demo_call : prog ClientState unit :=
  forget (Client.exec_command (bs "deadline has elapsed") (Subscribe (bs "a")) 5).

Definition client_connection (input : bytes) (s : ClientState) : World ClientState :=
  mkWorld 0 (mkConn (ready input) None [] []) (bs "deadline has elapsed") s.

(** The command is on its way. *)
Definition demo_sent : prog ClientState unit * World ClientState :=
  run_for 2 demo_call (client_connection [] (fresh_client quiet_config)).

Definition demo_answer : option (unit * World ClientState) :=
  run (ccode (demo_task demo_control_task)) (client_connection [RESPONSE_OK] (shared demo_sent.2)).

Definition demo_threads (control call : prog ClientState unit) : list ClientThread :=
  [mkClientThread (Some demo_control_task) control; demo_task (ClientPinger (client_beacon quiet_config));
   mkClientThread None call].

Lemma demo_answer_reached w :
  demo_answer = Some (tt, w) ->
  creaches quiet_config (mkClientMachine (demo_threads (Ret tt) demo_sent.1) (shared w)).
Proof.
  intros E. eapply creaches_rtc.
  - eapply creaches_step.
    + apply (creaches_initial quiet_config
               (mkClientMachine (map demo_task (tasks (fresh_client quiet_config)))
                  (fresh_client quiet_config))).
      split; [done|]. simpl. repeat constructor; by eexists 1, (mkSStream 5).
    + apply (cstep_call demo_call), method_command.
  - etrans.
    + apply (psteps_csteps 2 None demo_call demo_sent.1 _ (shared demo_sent.2)); [|done].
      apply (run_for_psteps 2 demo_call (client_connection [] (fresh_client quiet_config))).
    + apply (psteps_csteps 0 (Some demo_control_task) (ccode (demo_task demo_control_task)) (Ret tt)
               (shared demo_sent.2) (shared w)); [|done].
      by apply run_psteps in E.
Qed.

Lemma client_answers_witness :
  exists m m', creaches quiet_config m /\ rtc cstep m m' /\ tasks_aborted (cstate m') = true /\
    answered (cstate m') 0 (Ok tt) /\ NoDup (queued (cstate m)).
Proof.
  assert (match demo_answer with
          | Some (_, w) => match oneshots (shared w) !! 0 with
                           | Some o => bool_decide (os_recv o = Some (Some (Ok tt)))
                           | None => false end
          | None => false end = true) as H by vm_refl.
  destruct demo_answer as [[[] w]|] eqn:E; [|done]. apply demo_answer_reached in E.
  destruct (oneshots (shared w) !! 0) as [o|] eqn:Eo; [|done]. apply bool_decide_eq_true_1 in H.
  destruct (client_answers quiet_config _ E) as (Hn & _ & Ha).
  eexists _, (mkClientMachine (demo_threads (Ret tt) demo_sent.1)
                (with_commands ch_drop_sender (abort_all (shared w)))).
  assert (rtc cstep (mkClientMachine (demo_threads (Ret tt) demo_sent.1) (shared w))
            (mkClientMachine (demo_threads (Ret tt) demo_sent.1)
               (with_commands ch_drop_sender (abort_all (shared w))))) as Hr
    by apply rtc_once, cstep_drop_client.
  split; [exact E|]. split; [exact Hr|]. split; [done|]. split; [|exact Hn].
  apply (Ha _ Hr). by exists o.
Defined.
