(* ===== verification/Races.v ===== *)
(** * Interleavings that no task alone shows

    States that the machine of System.v reaches, each by a concrete schedule: a publisher that waits
    for the subscriber of somebody else, although a full queue is meant to be dropped; a data stream
    that starts when the session of its client is over, and is aborted; a client that stays registered
    although its connection is gone; and a message under the empty topic, which no client may
    publish. *)

From S2P Require Import Prelude Utf8 Proto Io Commands Acl Topic Token Pubsub Reference PubsubSpec.
From S2P Require Import Passwords Keys Server ServerSpec Control ControlSpec Session SessionSpec Udp.
From S2P Require Import UdpSpec Interleave System Receivers Progress Client ClientSpec Delivery Frames Runs.

#[local] Existing Instance demo_bcrypt.

(** A thread that goes on where it stopped, in the state that it finds. *)
Definition resume {A} (n : nat) (x : prog Server A * World Server) (s : Server) :
    prog Server A * World Server :=
  run_for n x.1 (set_shared s x.2).

(** One more thread of the machine, and how far it gets. *)
Lemma reaches_accepted n p input s x ts st answers :
  x = run_for n p (on_connection input s) -> entry None None p ->
  reaches None None answers (mkMachine ts st s) ->
  reaches None None answers (mkMachine (ts ++ [mkThread None x.1]) st (shared x.2)).
Proof.
  intros -> Hp Hr. set (x := run_for n p (on_connection input s)).
  replace (ts ++ [mkThread None x.1])
    with (<[length ts := mkThread None x.1]> (ts ++ [mkThread None p])).
  - eapply reaches_psteps; [apply (run_for_psteps n p (on_connection input s))| |].
    + rewrite lookup_app_r by lia. by rewrite Nat.sub_diag.
    + eapply reaches_step; [exact Hr|]. by apply step_accept.
  - by rewrite insert_app_r_alt, Nat.sub_diag by lia.
Qed.

Lemma reaches_resumed n i x y s ts st answers :
  y = resume n x s -> ts !! i = Some (mkThread None x.1) ->
  reaches None None answers (mkMachine ts st s) ->
  reaches None None answers (mkMachine (<[i := mkThread None y.1]> ts) st (shared y.2)).
Proof.
  intros -> Hi Hr. eapply reaches_psteps; [apply (run_for_psteps n x.1 (set_shared s x.2))|done|done].
Qed.

(** ** A publisher waits for a slow subscriber *)

(** The first publisher has seen room in the queue of the subscriber. *)
Definition first_publisher : prog Server unit * World Server :=
  run_for 24 demo_unix (on_connection publisher_input attached).

(** The second one takes it. *)
Definition second_publisher : prog Server unit * World Server :=
  run_for 40 demo_unix (on_connection publisher_input (shared first_publisher.2)).

Lemma reaches_waiting :
  reaches None None demo_answers
    (mkMachine (finished 2 ++ [mkThread None first_publisher.1] ++ [mkThread None second_publisher.1])
       ∅ (shared second_publisher.2)).
Proof.
  pose proof reaches_attached as Hr.
  apply (reaches_accepted 24 demo_unix publisher_input attached first_publisher) in Hr;
    [|reflexivity|apply entry_unix].
  apply (reaches_accepted 40 demo_unix publisher_input (shared first_publisher.2) second_publisher)
    in Hr; [|reflexivity|apply entry_unix].
  by rewrite <- app_assoc in Hr.
Qed.

(** [push_to_subscribers] asks whether the queue is full and then waits for room in it. When another
    publisher takes the last place in between, the task of the first one, its control stream with
    it, waits until the subscriber reads; the answer to its client waits too. *)
Theorem publisher_waits :
  exists c i p, reaches None None demo_answers c /\ threads c !! i = Some (mkThread None p) /\
    blocked p (server c) = true /\
    (forall q s', ~ pstep p (server c) q s') /\
    threads c !! S i = Some (mkThread None (Ret tt)).
Proof.
  assert (blocked first_publisher.1 (shared second_publisher.2) = true) as Hb by vm_refl.
  assert (match second_publisher.1 with Ret _ => true | _ => false end = true) as He by vm_refl.
  pose proof reaches_waiting as Hr.
  generalize dependent second_publisher. intros [q w] Hb He Hr.
  generalize dependent first_publisher. intros [p v] Hb Hr.
  eexists _, 2, p. split; [exact Hr|]. split; [done|]. split; [exact Hb|].
  split; [intros q' s'; by apply blocked_no_step|]. by destruct q as [[]| | | | | | |].
Qed.

(** The task of the data stream, which has not started, will end that wait. *)
Lemma publisher_progress_witness :
  exists F k c t, reaches_within None F demo_answers k c /\ k < F /\ threads c !! 2 = Some t /\
    blocked (code t) (server c) = true /\
    exists ch, stuffed ch (server c) /\
      (forall s', ~ stuffed ch s' -> blocked (code t) s' = false) /\
      ((exists id task, (id, task) ∈ spawned (server c) /\ data_task_of ch task /\ id ∉ started c /\
          forall fuel, 0 < fuel ->
            inevitably (relieved ({[id]} ∪ started c) ch) (task_code fuel task) (server c)) \/
       (exists j t', threads c !! j = Some t' /\ j <> 2 /\
          inevitably (relieved (started c) ch) (code t') (server c))).
Proof.
  assert (blocked first_publisher.1 (shared second_publisher.2) = true) as Hb by vm_refl.
  assert (get_data_queue_size (limits (shared second_publisher.2)) = 1%N) as Hn by vm_refl.
  assert (forall lg ad, match register_client lg ad (hub (shared second_publisher.2)) with
                        | Some _ => true | None => false end = true) as Hr by (intros; vm_refl).
  pose proof reaches_waiting as Hc.
  generalize dependent second_publisher. intros [q w] Hb Hn Hr Hc.
  generalize dependent first_publisher. intros [p v] Hb Hc. simpl in Hb, Hn, Hr.
  destruct (reaches_untasked None demo_answers _ Hc eq_refl) as [k Hk].
  eexists (S k), k, _, (mkThread None p). split; [exact (Hk (S k))|]. split; [lia|].
  split; [done|]. split; [exact Hb|].
  destruct (publisher_progress None (S k) demo_answers k _ 2 (mkThread None p) ltac:(done) (Hk (S k)))
    as [(id & task & ch & q' & Hh & _)|[(lg & ad & Hx & _)|H]];
    [lia|simpl; by rewrite Hn|done|exact Hb|done| |exact H].
  specialize (Hr lg ad). simpl in Hx. by rewrite Hx in Hr.
Defined.

(** ** A data stream that comes too late *)

(** A session of two operations: it subscribes, and it says goodbye. *)
Definition short_session : prog Server unit :=
  forget (handle_unix_stream None 2 (bs "/run/psrtd.sock") 5).

Definition session_so_far : prog Server unit * World Server :=
  run_for 18 short_session (on_connection (subscriber_input ++ [OP_BYE]) (server demo_machine)).

(** The data stream is registered, its tasks are not. *)
Definition stream_so_far : prog Server unit * World Server :=
  run_for 9 demo_unix (on_connection stream_input (shared session_so_far.2)).

Definition session_over : prog Server unit * World Server :=
  resume 40 session_so_far (shared stream_so_far.2).

Definition stream_started : prog Server unit * World Server :=
  resume 40 stream_so_far (shared session_over.2).

Lemma reaches_demo_machine : reaches None None demo_answers demo_machine.
Proof. by apply reaches_initial. Qed.

(** [launch_data_stream] registers the channel, answers, and hands over its tasks one by one. When
    the session of the client ends in between, [abort_tasks] finds no tasks; but the last [Arc] of the
    client is then that of [launch_data_stream], and its drop aborts the tasks that were handed over
    since, and takes the sender of the client along. *)
Theorem late_stream_aborted :
  exists c tok rx id timeout interval username addr,
    reaches None None demo_answers c /\
    threads c = [mkThread None (Ret tt); mkThread None (Ret tt)] /\
    (id, DataTask tok rx timeout interval username addr) ∈ spawned (server c) /\
    id ∈ aborted (hub (server c)) /\ clients_by_token (hub_db (hub (server c))) !! tok = None.
Proof.
  pose (tok := replicate 32 x01).
  assert (match session_over.1, stream_started.1 with Ret _, Ret _ => true | _, _ => false end =
            true) as He by vm_refl.
  assert (spawned (shared stream_started.2) !! 1 =
            Some (3, DataTask tok 1 5 2500000000 (bs "a") (bs "/run/psrtd.sock"))) as Hs by vm_refl.
  assert (bool_decide (3 ∈ aborted (hub (shared stream_started.2))) = true) as Ha by vm_refl.
  assert (match clients_by_token (hub_db (hub (shared stream_started.2))) !! tok with
          | None => true | Some _ => false end = true) as Ht by vm_refl.
  pose proof reaches_demo_machine as Hr.
  apply (reaches_accepted 18 short_session (subscriber_input ++ [OP_BYE]) (server demo_machine)
           session_so_far) in Hr; [|reflexivity|apply entry_unix].
  apply (reaches_accepted 9 demo_unix stream_input (shared session_so_far.2) stream_so_far) in Hr;
    [|reflexivity|apply entry_unix].
  assert (session_over = resume 40 session_so_far (shared stream_so_far.2)) as E1 by reflexivity.
  assert (stream_started = resume 40 stream_so_far (shared session_over.2)) as E2 by reflexivity.
  generalize dependent stream_started. intros st He Hs Ha Ht E2.
  generalize dependent session_over. intros so E1 He E2.
  generalize dependent stream_so_far. intros st0 Hr E1 E2.
  generalize dependent session_so_far. intros so0 Hr E1.
  apply (reaches_resumed 40 0 so0 so) in Hr; [|exact E1|reflexivity].
  apply (reaches_resumed 40 1 st0 st) in Hr; [|exact E2|reflexivity].
  eexists _, tok, 1, 3, 5%N, 2500000000%N, (bs "a"), (bs "/run/psrtd.sock").
  split; [exact Hr|].
  split; [by destruct so as [[[]| | | | | | |] ?], st as [[[]| | | | | | |] ?]|].
  split; [by eapply list_elem_of_lookup_2|]. split; [by apply bool_decide_eq_true_1 in Ha|].
  by destruct (_ !! tok).
Qed.

(** ** A client that is never unregistered *)

(** A connection that breaks after the greeting. *)
Definition broken_connection (input : bytes) (s : Server) : World Server :=
  mkWorld 0
    (mkConn (ready input) None [(0%N, None); (0%N, Some (mkIoError OtherIo (bs "Broken pipe")))] [])
    (bs "deadline has elapsed") s.

Definition leaked : Server :=
  match run demo_unix (broken_connection subscriber_input (server demo_machine)) with
  | Some (_, w) => shared w
  | None => server demo_machine
  end.

(** The [?] on the write of the token leaves [handle_unix_stream] between [register_client] and
    [unregister_client]: the only task that knows the client is over, no task is left, and the
    client is registered. *)
Theorem client_leaked :
  exists c client, reaches None None demo_answers c /\ threads c = finished 1 /\
    spawned (server c) = [] /\
    clients_by_token (hub_db (hub (server c))) !! token client = Some client.
Proof.
  assert (match clients_by_token (hub_db (hub leaked)) !! replicate 32 x01 with
          | Some client => bool_decide (token client = replicate 32 x01) | None => false end =
            true) as Hc by vm_refl.
  assert ((length (spawned leaked) =? 0)%nat = true) as Hs by vm_refl.
  assert (match run demo_unix (broken_connection subscriber_input (server demo_machine)) with
          | Some _ => true | None => false end = true) as Hrun by vm_refl.
  assert (reaches None None demo_answers (mkMachine (finished 1) ∅ leaked)) as Hr.
  { unfold leaked. destruct (run demo_unix _) as [[[] w]|] eqn:E; [|done].
    apply (run_accepted None None demo_unix (broken_connection subscriber_input (server demo_machine))
             w [] ∅ demo_answers (entry_unix _ _ _ _ _) E reaches_demo_machine). }
  generalize dependent leaked. intros s Hc Hs Hr.
  destruct (clients_by_token _ !! _) as [client|] eqn:E; [|done]. apply bool_decide_eq_true_1 in Hc.
  exists (mkMachine (finished 1) ∅ s), client. split; [exact Hr|]. split; [done|].
  cbn [server]. split; [by destruct (spawned s)|]. by rewrite Hc.
Qed.

(** ** A message under the empty topic *)

Definition root_subscriber_input : bytes :=
  CONTROL_HEADER ++ [COMM_INSECURE] ++ frame_bytes (bs "a") ++ [OP_SUBSCRIBE]
    ++ frame_bytes (bs "#").

Definition root_publisher_input : bytes :=
  CONTROL_HEADER ++ [COMM_INSECURE] ++ frame_bytes (bs "b") ++ [OP_PUBLISH; x07]
    ++ frame_bytes (bs "/" ++ NUL :: bs "on").

Definition empty_published : Server :=
  after root_publisher_input
    (after stream_input (after root_subscriber_input (server demo_machine))).

(** The control stream refuses a publication whose topic is empty before [prepare_topic] takes the
    slashes away: a publication to / is delivered under the empty topic. *)
Theorem empty_topic_delivered :
  exists c ch q, reaches None None demo_answers c /\ chans (hub (server c)) !! ch = Some q /\
    map mframe (ch_queue (ch_view q)) = [message_head x07 [] (bs "on")].
Proof.
  assert (match chans (hub empty_published) !! 1 with
          | Some q => bool_decide (map mframe (ch_queue (ch_view q)) = [message_head x07 [] (bs "on")])
          | None => false end = true) as H by vm_refl.
  assert (reaches None None demo_answers (mkMachine (finished 3) ∅ empty_published)) as Hr.
  { do 3 (apply after_reaches; [vm_refl|]). apply reaches_demo_machine. }
  generalize dependent empty_published. intros s H Hr.
  destruct (chans (hub s) !! 1) as [q|] eqn:E; [|done]. apply bool_decide_eq_true_1 in H.
  by exists (mkMachine (finished 3) ∅ s), 1, q.
Qed.
