(* ===== verification/ExecuteSpec.v ===== *)
(** * Every outcome of a command

    What [execute] does with a command, whatever the connection does: the time it takes, what the
    caller finds in its one-shot channel and whether the control stream goes on, which agree. *)

From S2P Require Import Prelude Utf8 Proto Io Commands Pubsub Client ClientSpec.

Section execute.
Context {CHO : ChannelOps} {OSO : OneshotOps} {OSL : OneshotLaws}.

(** The errors of a connection: the timer, the end of the stream, other failures. *)
Definition lost (e : Error) : Prop := kind e = Timeout \/ kind e = Eof \/ kind e = Io.

Lemma lost_io_fail e : lost (from_io_fail e).
Proof.
  destruct e as [d|[k d]]; [by left|]. unfold lost, from_io_fail, from_io_error. simpl.
  destruct k; auto.
Qed.

(** *** Reads and writes under what is left of the budget *)

Section budget.
Variables (t op deadline : N).
Hypothesis op_deadline : (op + t <= deadline)%N.

Lemma reduced_deadline n : (n <= deadline -> n + reduce_timeout t op n <= deadline)%N.
Proof. unfold reduce_timeout. destruct (N.ltb_spec t (n - op)); lia. Qed.

Definition kept (w w' : World ClientState) : Prop :=
  shared w' = shared w /\ (clock w' <= deadline)%N.

Lemma returns_read_budget {B} n (k : bytes -> prog ClientState (result B Error)) (w : World ClientState)
    (Q : result B Error -> World ClientState -> Prop) :
  (clock w <= deadline)%N ->
  (forall e w', kept w w' -> lost e -> Q (Err e) w') ->
  (forall l w', kept w w' -> returns (k l) w' Q) ->
  returns (tt <-- reduced t op ;; l <-? read_with_timeout n tt ;; k l) w Q.
Proof.
  intros Hd He Hk. apply returns_bind. eexists _, w. split; [apply run_reduced|].
  apply returns_qbind. eexists _, _. split; [apply run_read|].
  set (t' := reduce_timeout t op (clock w)).
  pose proof (read_exact_time n t' w) as [_ Ht]. pose proof (read_exact_frame n t' w) as [Hs _].
  pose proof (reduced_deadline (clock w) Hd).
  assert (kept w (read_exact n t' w).2) as Hkept by (split; [done|unfold t' in *; lia]).
  destruct (read_exact n t' w) as [[l|f] w1]; simpl in *; [by apply Hk|by apply He, lost_io_fail].
Qed.

Lemma returns_write {B} t' buf (k : unit -> prog ClientState (result B Error)) (w : World ClientState)
    (Q : result B Error -> World ClientState -> Prop) :
  (clock w + t' <= deadline)%N ->
  (forall e w', kept w w' -> lost e -> Q (Err e) w') ->
  (forall w', kept w w' -> returns (k tt) w' Q) ->
  returns (u <-? write_with_timeout buf t' ;; k u) w Q.
Proof.
  intros Hd He Hk. apply returns_qbind. eexists _, _. split; [apply run_write|].
  pose proof (write_all_time buf t' w) as [_ Ht].
  assert (shared (write_all buf t' w).2 = shared w) as Hs
    by (unfold write_all; repeat case_match; done).
  assert (kept w (write_all buf t' w).2) as Hkept by (split; [done|lia]).
  destruct (write_all buf t' w) as [[[]|f] w1]; simpl in *; [by apply Hk|by apply He, lost_io_fail].
Qed.

Lemma returns_write_reduced {B} buf (k : unit -> prog ClientState (result B Error))
    (w : World ClientState) (Q : result B Error -> World ClientState -> Prop) :
  (clock w <= deadline)%N ->
  (forall e w', kept w w' -> lost e -> Q (Err e) w') ->
  (forall w', kept w w' -> returns (k tt) w' Q) ->
  returns (tt <-- reduced t op ;; u <-? write_with_timeout buf tt ;; k u) w Q.
Proof.
  intros Hd He Hk. apply returns_bind. eexists _, w. split; [apply run_reduced|].
  apply returns_write; [by apply reduced_deadline|done|done].
Qed.

(** *** The answer *)

(** What a caller may be answered: success, a denial, or an error of the server. *)
Definition denied : Error := access (bs "Operation access denied").

Definition answerable (a : result unit Error) : Prop :=
  a = Ok tt \/ a = Err denied \/ exists m, a = Err (io m).

(** From the state [s]: the caller was answered [a] and the stream goes on unless the answer ends it;
    or nothing was answered and the stream is lost. *)
Definition settled (cmd : Command) (s : ClientState) (r : result unit Error) (w' : World ClientState) :
    Prop :=
  (clock w' <= deadline)%N /\
  ((exists a, shared w' = answer cmd a s /\ r = survives a /\ answerable a) \/
   (shared w' = s /\ exists e, r = Err e /\ lost e)).

Lemma settled_kept cmd w e w' : kept w w' -> lost e -> settled cmd (shared w) (Err e) w'.
Proof. intros [Hs Hd] He. split; [done|]. right. eauto. Qed.

Lemma kept_trans w1 w2 w3 : kept w1 w2 -> kept w2 w3 -> kept w1 w3.
Proof. intros [A _] [B C]. split; [congruence|done]. Qed.

Lemma settled_err cmd code w : (clock w <= deadline)%N ->
  returns (handle_err cmd code) w (settled cmd (shared w)).
Proof.
  intros Hd. unfold handle_err. eexists _, _. split; [reflexivity|]. split; [done|]. left.
  eexists (Err _). split; [done|]. split; [done|]. right. case_decide; [by left|right; by eexists].
Qed.

Lemma settled_code cmd code w : (clock w <= deadline)%N ->
  returns (handle_code cmd code) w (settled cmd (shared w)).
Proof.
  intros Hd. unfold handle_code. case_decide; [|by apply settled_err].
  apply returns_bind, returns_modify, returns_ret. split; [done|]. left. exists (Ok tt).
  split; [done|]. split; [done|by left].
Qed.

Lemma settled_reply cmd w : (clock w <= deadline)%N ->
  returns (process_reply cmd t op) w (settled cmd (shared w)).
Proof.
  intros Hd. unfold process_reply. apply returns_read_budget; [done|intros; by apply settled_kept|].
  intros l w' [Hs Hd']. rewrite <- Hs. by apply settled_code.
Qed.

Lemma settled_finish cmd w : (clock w <= deadline)%N ->
  returns (finish_command cmd t op) w (settled cmd (shared w)).
Proof.
  intros Hd. unfold finish_command.
  destruct (control_command cmd); try by apply settled_reply.
  - apply returns_write_reduced; [done|intros; by apply settled_kept|].
    intros w1 [Hs Hd1]. rewrite <- Hs. by apply settled_reply.
  - apply returns_read_budget; [done|intros; by apply settled_kept|]. intros l w1 [Hs Hd1].
    rewrite <- Hs. case_decide as Hw; [|case_decide as Hr].
    + apply returns_write_reduced; [done|intros; by apply settled_kept|]. intros w2 [Hs2 Hd2].
      rewrite <- Hs2. apply returns_write_reduced; [done|intros; by apply settled_kept|].
      intros w3 [Hs3 Hd3]. rewrite <- Hs3. by apply settled_reply.
    + apply returns_bind, returns_modify, returns_ret. split; [done|]. left. exists (Ok tt).
      split; [done|]. split; [done|by left].
    + by apply settled_err.
Qed.
End budget.

(** C30: every outcome of a command whose caller waits for the answer, whatever the server and the
    network do: [execute] ends within the budget, and the caller and the control stream agree. The
    caller was answered success, and the stream goes on; or it was denied access, and the stream goes
    on; or it got an I/O error from the server, and the stream ends with that error; or it was not
    answered and its channel is closed, and the stream ends with the failure of the connection: the
    timer, the end of the stream, or another I/O error. Nobody else's channel is touched. *)
Theorem execute_outcomes stream cmd i o t op (w : World ClientState) :
  response_channel cmd = Some i -> oneshots (shared w) !! i = Some o -> os_recv o = None ->
  exists r w' o', run (execute stream cmd t op) w = Some (r, w') /\
    (clock w' <= N.max (clock w + ss_timeout stream) (op + t))%N /\
    oneshots (shared w') !! i = Some o' /\
    (forall j, j <> i -> oneshots (shared w') !! j = oneshots (shared w) !! j) /\
    commands (shared w') = commands (shared w) /\ messages (shared w') = messages (shared w) /\
    connected (shared w') = connected (shared w) /\
    match os_recv o' with
    | None => False
    | Some (Some (Ok _)) => r = Ok tt
    | Some (Some (Err e)) => (e = denied /\ r = Ok tt) \/ (kind e = Io /\ r = Err e)
    | Some None => exists e, r = Err e /\ lost e
    end.
Proof.
  intros Hi Ho Hr. set (D := N.max (clock w + ss_timeout stream) (op + t)).
  assert (returns (_ <-? swrite stream (ControlCommand.as_bytes (control_command cmd)) ;;
                   finish_command cmd t op) w (settled D cmd (shared w))) as (r & w1 & Hrun & Hd & Hs).
  { apply (returns_write t op D ltac:(unfold D; lia)); [unfold D; lia|intros; by apply settled_kept|]. intros w1 [Hs Hd].
    rewrite <- Hs. apply settled_finish; [unfold D; lia|done]. }
  unfold execute. rewrite run_bind, Hrun.
  destruct Hs as [(a & Hs & -> & Ha)|(Hs & e & -> & He)].
  - destruct (answered cmd i o a (shared w) Hi Ho Hr) as (o' & Ho' & Hr').
    eexists _, _, o'. split; [reflexivity|]. simpl. rewrite Hs. split; [done|]. split; [done|].
    unfold drop_command, answer. rewrite Hi. simpl. split.
    { intros j Hj. by rewrite !lookup_alter_ne. }
    do 3 (split; [done|]). rewrite Hr'. destruct Ha as [->|[->|[m ->]]]; simpl; auto.
  - eexists _, _, (os_drop_sender o). split; [reflexivity|]. simpl. rewrite Hs. split; [done|].
    unfold drop_command. rewrite Hi. simpl. rewrite lookup_alter_eq, Ho. split; [done|].
    split; [intros j Hj; by rewrite lookup_alter_ne|]. do 3 (split; [done|]).
    rewrite os_recv_drop by done. eauto.
Qed.
End execute.

(** ** Witness *)

(** The stream ends before the answer to a publication. *)
Lemma execute_outcomes_witness :
  exists r w' o', run (execute (mkSStream 5) (mkCommand demo_publish (Some 0)) 5 0) (client_world []) =
      Some (r, w') /\
    (clock w' <= 5)%N /\ oneshots (shared w') !! 0 = Some o' /\ os_recv o' <> None.
Proof.
  destruct (execute_outcomes (mkSStream 5) (mkCommand demo_publish (Some 0)) 0 os_channel 5 0
    (client_world [])) as (r & w' & o' & Hr & Hc & Ho & _ & _ & _ & _ & Hx); [reflexivity..|].
  exists r, w', o'. split; [exact Hr|]. split; [exact Hc|]. split; [exact Ho|].
  intros E. by rewrite E in Hx.
Defined.
