(* ===== verification/Cli.v ===== *)
(** * The command line client: src/src/cli.rs

    The three modes of [psrt-cli] (one publication or a listener, the table of the most used topics,
    the benchmark) over the client of Client.v, with the tasks they spawn. The clients that were
    connected, the tasks, the switch of the sort order, the keys pressed and what was printed are one
    state; the sockets of each connection, the terminal, the sizes of the crate byte_unit and the
    number formats are parameters. A panic ends a program with [Err]. *)

From S2P Require Import Prelude Utf8 Sorting Proto Duration Io Commands Pubsub Client.

Definition ERR_TOPIC_NOT_SPECIFIED : bytes := bs "Topic not specified".

(** ** The statistics of a topic *)

Record TopicStat : Type := mkTopicStat {
  stat_topic : bytes;
  stat_count : N;
  stat_bytes : N;
}.

Module TopicStat.

Definition new (topic : bytes) : TopicStat := mkTopicStat topic 0 0.

Definition count (size : N) (s : TopicStat) : TopicStat :=
  mkTopicStat (stat_topic s) (wrap 64 (stat_count s + 1)) (wrap 128 (stat_bytes s + size)).

End TopicStat.

(** A message is counted under its topic. *)
Definition tally (stats : gmap bytes TopicStat) (message : Message) : gmap bytes TopicStat :=
  let topic := Proto.topic message in
  let size := len (data message) in
  match stats !! topic with
  | Some stat => <[topic := TopicStat.count size stat]> stats
  | None => <[topic := TopicStat.count size (TopicStat.new topic)]> stats
  end.

(** [SORT_MODE]: 0 sorts by count. The comparison is the reversed one of the code: descending. *)
Definition stat_le (sort_mode : N) (a b : TopicStat) : bool :=
  if (sort_mode =? 0)%N then (stat_count b <=? stat_count a)%N else (stat_bytes b <=? stat_bytes a)%N.

(** The rows of the table on a terminal of height [h]. *)
Definition top_stats (sort_mode h : N) (stats : gmap bytes TopicStat) : list TopicStat :=
  take (N.to_nat (h - 4)) (sort_by (stat_le sort_mode) (btree_values stats)).

Definition show_step : N := 10 ^ 9.

(** Whether the table is due: the first time, and a second after the last time. *)
Definition refresh_due (now : N) (last_refresh : option N) : bool :=
  match last_refresh with
  | Some t => negb (now - t <? show_step)%N
  | None => true
  end.

(** ** Topics and generated messages *)

Definition comma : byte := x2c.

Definition parse_topics (topic : option bytes) : option (list bytes) := split_on comma <$> topic.

(** [for i in 0..size { m.push(i as u8) }] *)
Definition generated (size : N) : bytes :=
  (fun i => byte_of_N (N.of_nat i)) <$> seq 0 (N.to_nat size).

Definition strip_prefix (p s : bytes) : option bytes :=
  if starts_with p s then Some (drop (length p) s) else None.

(** What is printed for a message. *)
Definition render (m : Message) : bytes :=
  Proto.topic m ++ x0a :: bs "---" ++ x0a :: x22 ::
    match data_as_str m with
    | Ok s => s
    | Err _ => show_hex_slice (data m)
    end ++ [x22].

(** ** Tables *)

Record Table : Type := mkTable {
  titles : list bytes;
  rows : list (list bytes);
}.

Definition prepare_stat_table : Table := mkTable [bs "topic"; bs "count"; bs "bytes"] [].

Definition add_row (r : list bytes) (t : Table) : Table := mkTable (titles t) (rows t ++ [r]).

(** [replace(',', "_")] *)
Definition underscores (s : bytes) : bytes := (fun b => if decide (b = comma) then x5f else b) <$> s.

Inductive Output : Type :=
| Text (s : bytes)
| Printed (t : Table).

(** The macro [cls!]. *)
Definition cls : Output := Text (x1b :: bs "[2J" ++ x1b :: bs "[1;1H").

(** ** The state *)

Inductive Panic : Type :=
| Expect (msg : bytes)
| Unwrap (e : Error)
| UnwrapNone
| UnwrapRecv
| AssertFailed
| JoinFailed
(** [async_channel::bounded(0)], in [connect]. *)
| ZeroCapacity.

(** A worker of the benchmark: its clients, and the client whose messages it reads. *)
Record BenchmarkWorker : Type := mkWorker {
  worker_id : bytes;
  worker_client : nat;
  worker_r_client : option nat;
  worker_data_channel : nat;
}.

(** The tasks and threads that the modes spawn, with the values their closures captured. *)
Inductive CliTask : Type :=
| ReadTask (w : BenchmarkWorker) (test_msg : bytes) (iterations : N)
| PublishTask (w : BenchmarkWorker) (test_topic test_msg : bytes) (iterations : N)
| SubscribeTask (w : BenchmarkWorker) (iterations : N)
| InterruptTask (client : nat) (farewell : Output)
| KeyThread.

(** The sockets of one connection: what Client.v needs to connect. *)
Record Dial : Type := mkDial {
  dial_net : Net unit;
  dial_data : Conn;
  dial_world : World unit;
}.

Record Cli `{ChannelOps} `{OneshotOps} : Type := mkCli {
  clients : nat -> ClientState;
  next_client : nat;
  dials : list Dial;
  cli_tasks : list CliTask;
  finished : gmap nat (result unit Panic);
  locked : gset nat;
  sort_mode : N;
  keys : list byte;
  interrupts : nat;
  terminal : option N;
  printed : list Output;
  exited : option N;
}.
Arguments mkCli {_ _} _ _ _ _ _ _ _ _ _ _ _ _.

Section cli.
Context {CHO : ChannelOps} {OSO : OneshotOps}.

Definition set_client (i : nat) (c : ClientState) (s : Cli) : Cli :=
  mkCli (fun j => if decide (j = i) then c else clients s j) (next_client s) (dials s) (cli_tasks s) (finished s) (locked s)
    (sort_mode s) (keys s) (interrupts s) (terminal s) (printed s) (exited s).

Definition set_dials (n : nat) (l : list Dial) (s : Cli) : Cli :=
  mkCli (clients s) n l (cli_tasks s) (finished s) (locked s) (sort_mode s) (keys s)
    (interrupts s) (terminal s) (printed s) (exited s).

Definition set_cli_tasks (l : list CliTask) (s : Cli) : Cli :=
  mkCli (clients s) (next_client s) (dials s) l (finished s) (locked s) (sort_mode s) (keys s)
    (interrupts s) (terminal s) (printed s) (exited s).

Definition set_finished (m : gmap nat (result unit Panic)) (s : Cli) : Cli :=
  mkCli (clients s) (next_client s) (dials s) (cli_tasks s) m (locked s) (sort_mode s) (keys s)
    (interrupts s) (terminal s) (printed s) (exited s).

Definition set_locked (l : gset nat) (s : Cli) : Cli :=
  mkCli (clients s) (next_client s) (dials s) (cli_tasks s) (finished s) l (sort_mode s) (keys s)
    (interrupts s) (terminal s) (printed s) (exited s).

Definition set_sort_mode (m : N) (s : Cli) : Cli :=
  mkCli (clients s) (next_client s) (dials s) (cli_tasks s) (finished s) (locked s) m (keys s)
    (interrupts s) (terminal s) (printed s) (exited s).

Definition set_keys (l : list byte) (s : Cli) : Cli :=
  mkCli (clients s) (next_client s) (dials s) (cli_tasks s) (finished s) (locked s) (sort_mode s) l
    (interrupts s) (terminal s) (printed s) (exited s).

Definition set_interrupts (n : nat) (s : Cli) : Cli :=
  mkCli (clients s) (next_client s) (dials s) (cli_tasks s) (finished s) (locked s) (sort_mode s)
    (keys s) n (terminal s) (printed s) (exited s).

Definition print (o : Output) (s : Cli) : Cli :=
  mkCli (clients s) (next_client s) (dials s) (cli_tasks s) (finished s) (locked s) (sort_mode s)
    (keys s) (interrupts s) (terminal s) (printed s ++ [o]) (exited s).

Definition exit (code : N) (s : Cli) : Cli :=
  mkCli (clients s) (next_client s) (dials s) (cli_tasks s) (finished s) (locked s) (sort_mode s)
    (keys s) (interrupts s) (terminal s) (printed s) (Some code).

(** ** Panics *)

Definition expect {A} (msg : bytes) (o : option A) : prog Cli (result A Panic) :=
  Ret (ok_or o (Expect msg)).

Definition unwrap_some {A} (o : option A) : prog Cli (result A Panic) := Ret (ok_or o UnwrapNone).

Definition unwrap {A} (p : prog Cli (result A Error)) : prog Cli (result A Panic) :=
  r <-- p ;; Ret (map_err Unwrap r).

Definition assert (p : prog Cli bool) : prog Cli (result unit Panic) :=
  b <-- p ;; Ret (if b : bool then Ok tt else Err AssertFailed).

(** [for _ in 0..n { body }] *)
Definition times (n : N) (body : N -> prog Cli (result unit Panic)) : prog Cli (result unit Panic) :=
  for_each (N.of_nat <$> seq 0 (N.to_nat n)) body.

(** ** Clients, channels and tasks *)

(** A method of the client [i]. *)
Definition on {A} (i : nat) (p : prog ClientState A) : prog Cli A :=
  zoom (fun s => clients s i) (set_client i) p.

Definition recv_message (s : ClientState) : option (option Message * ClientState) :=
  match ch_recv (messages s) with
  | Some (m, q) => Some (m, set_messages q s)
  | None => None
  end.

(** [data_channel.recv().await.unwrap()] on the channel of the client [i]. *)
Definition recv (i : nat) : prog Cli (result Message Panic) :=
  m <-- on i (await recv_message) ;; Ret (ok_or m UnwrapRecv).

(** [client.take_data_channel().unwrap()] *)
Definition take_data_channel (i : nat) : prog Cli (result unit Panic) :=
  b <-- on i Client.take_data_channel ;; Ret (if b : bool then Ok tt else Err UnwrapNone).

(** [Client::connect(&config).await.unwrap()], with the sockets given for it: the new client. *)
Definition connect (fuel : nat) (c : Config) : prog Cli (result nat Panic) :=
  await (fun s =>
    match dials s with
    | [] => None
    | d :: l =>
        match Client.connect (dial_net d) fuel c (dial_data d) (dial_world d) with
        | None => None
        | Some ConnectPanics => Some (Err ZeroCapacity, set_dials (next_client s) l s)
        | Some (Returned (Ok cl)) =>
            Some (Ok (next_client s), set_client (next_client s) cl (set_dials (S (next_client s)) l s))
        | Some (Returned (Err e)) => Some (Err (Unwrap e), set_dials (next_client s) l s)
        end
    end).

Definition spawn (t : CliTask) : prog Cli nat :=
  atomic (fun s => (length (cli_tasks s), set_cli_tasks (cli_tasks s ++ [t]) s)).

(** [f.await.unwrap()] *)
Definition join (id : nat) : prog Cli (result unit Panic) :=
  await (fun s => match finished s !! id with
                  | Some r => Some (map_err (fun _ => JoinFailed) r, s)
                  | None => None
                  end).

(** The lock of the data channel of a worker. *)
Definition lock (i : nat) : prog Cli unit :=
  await (fun s => if decide (i ∈ locked s) then None else Some (tt, set_locked ({[i]} ∪ locked s) s)).

Definition unlock (i : nat) : prog Cli unit := modify (fun s => set_locked (locked s ∖ {[i]}) s).

Variable timeout : N.
(** [Display] of the error of a timer. *)
Variable elapsed : bytes.

Definition subscribe (i : nat) (topic : bytes) : prog Cli (result unit Panic) :=
  unwrap (on i (Client.subscribe elapsed topic timeout)).

Definition unsubscribe (i : nat) (topic : bytes) : prog Cli (result unit Panic) :=
  unwrap (on i (Client.unsubscribe elapsed topic timeout)).

Definition subscribe_bulk (i : nat) (topics : list bytes) : prog Cli (result unit Panic) :=
  unwrap (on i (Client.subscribe_bulk elapsed topics timeout)).

Definition publish (i : nat) (topic message : bytes) : prog Cli (result unit Panic) :=
  unwrap (on i (Client.publish elapsed DEFAULT_PRIORITY topic message timeout)).

Definition bye (i : nat) : prog Cli (result unit Panic) :=
  unwrap (on i (Client.bye elapsed timeout)).

Definition is_connected (i : nat) : prog Cli bool := on i Client.is_connected.

(** ** The benchmark *)

(** [BenchmarkWorker::new], [is_connected] and [bye]. *)
Definition new_worker (id : bytes) (client : nat) (r_client : option nat) (data_channel : nat) :
    BenchmarkWorker := mkWorker id client r_client data_channel.

Definition worker_is_connected (w : BenchmarkWorker) : prog Cli bool :=
  match worker_r_client w with
  | None => is_connected (worker_client w)
  | Some r => b <-- is_connected r ;; if b : bool then is_connected (worker_client w) else Ret false
  end.

Definition worker_bye (w : BenchmarkWorker) : prog Cli (result unit Panic) :=
  _ <-? bye (worker_client w) ;;
  match worker_r_client w with
  | Some r => bye r
  | None => Ret (Ok tt)
  end.

Definition test_topic (w : BenchmarkWorker) (name : bytes) : bytes :=
  bs "benchmark/" ++ worker_id w ++ bs "/test/" ++ name.

Definition numbered_topic (w : BenchmarkWorker) (i : N) : bytes :=
  bs "benchmark/" ++ worker_id w ++ slash :: show_N i.

(** The tasks of the benchmark. A panic of the reader releases its lock. *)
Definition read_task (w : BenchmarkWorker) (test_msg : bytes) (iterations : N) :
    prog Cli (result unit Panic) :=
  _ <-- lock (worker_data_channel w) ;;
  r <-- times iterations (fun _ =>
          msg <-? recv (worker_data_channel w) ;;
          Ret (if decide (data msg = test_msg) then Ok tt else Err AssertFailed)) ;;
  _ <-- unlock (worker_data_channel w) ;;
  Ret r.

Definition publish_task (w : BenchmarkWorker) (topic test_msg : bytes) (iterations : N) :
    prog Cli (result unit Panic) :=
  times iterations (fun _ => publish (worker_client w) topic test_msg).

Definition subscribe_task (w : BenchmarkWorker) (iterations : N) : prog Cli (result unit Panic) :=
  times iterations (fun i => subscribe (worker_client w) (numbered_topic w i)).

(** [for x in l { .. futures.push(..) }]: the handles of the tasks spawned. *)
Fixpoint collect {X} (l : list X) (body : X -> prog Cli (result (list nat) Panic)) :
    prog Cli (result (list nat) Panic) :=
  match l with
  | [] => Ret (Ok [])
  | x :: l' => ids <-? body x ;; rest <-? collect l' body ;; Ret (Ok (ids ++ rest))
  end.

Definition start_message (name message : bytes) (iterations : N) (wait_read : bool)
    (w : BenchmarkWorker) : prog Cli (result (list nat) Panic) :=
  _ <-? assert (worker_is_connected w) ;;
  let topic := test_topic w name in
  readers <-? (if wait_read then
                 _ <-? subscribe (default (worker_client w) (worker_r_client w)) topic ;;
                 id <-- spawn (ReadTask w message iterations) ;;
                 Ret (Ok [id])
               else Ret (Ok [])) ;;
  id <-- spawn (PublishTask w topic message iterations) ;;
  Ret (Ok (readers ++ [id])).

Definition benchmark_message (name message : bytes) (workers : list BenchmarkWorker) (iterations : N)
    (wait_read : bool) : prog Cli (result unit Panic) :=
  futures <-? collect workers (start_message name message iterations wait_read) ;;
  _ <-? for_each futures join ;;
  for_each workers (fun w =>
    _ <-? assert (worker_is_connected w) ;;
    unsubscribe (worker_client w) (test_topic w name)).

(** [byte_unit::Byte::from_str] and [get_bytes]. *)
Variable byte_from_str : bytes -> option N.

Record MessageTest : Type := mkMessageTest {
  test_name : bytes;
  test_data : bytes;
  test_iterations : N;
}.

(** [MessageTest::new] *)
Definition new_test (name : bytes) (iterations : N) : option MessageTest :=
  (fun size => mkMessageTest name (generated size) iterations) <$> byte_from_str name.

Definition message_tests (iterations : N) : option (list MessageTest) :=
  mapM (fun t : string * N => new_test (bs t.1) t.2)
    [("10b", iterations); ("1kb", iterations); ("10kb", iterations);
     ("100kb", iterations / 10); ("1mb", iterations / 100)]%N.

(** The worker [i]: its client, and one to another node when the messages are to be read there. *)
Definition connect_worker (fuel : nat) (config : Config) (sub_node : option bytes) (i bi : N) :
    prog Cli (result BenchmarkWorker Panic) :=
  client <-? connect fuel config ;;
  ch <-? match sub_node with
         | Some p =>
             r_client <-? connect fuel (Config.update_path p config) ;;
             _ <-? take_data_channel r_client ;;
             Ret (Ok (r_client, Some r_client))
         | None => _ <-? take_data_channel client ;; Ret (Ok (client, None))
         end ;;
  _ <-? assert (is_connected client) ;;
  Ret (Ok (new_worker (show_N bi ++ slash :: show_N i) client ch.2 ch.1)).

(** The workers, with the random number of each. *)
Fixpoint connect_workers (fuel : nat) (config : Config) (sub_node : option bytes) (i : N)
    (rng : list N) : prog Cli (result (list BenchmarkWorker) Panic) :=
  match rng with
  | [] => Ret (Ok [])
  | bi :: rng =>
      w <-? connect_worker fuel config sub_node i bi ;;
      ws <-? connect_workers fuel config sub_node (i + 1) rng ;;
      Ret (Ok (w :: ws))
  end.

(** A stage in which every worker subscribes to its topics. *)
Definition subscribe_stage (workers : list BenchmarkWorker) (iterations : N) :
    prog Cli (result unit Panic) :=
  futures <-? collect workers (fun w =>
    _ <-? assert (worker_is_connected w) ;;
    id <-- spawn (SubscribeTask w iterations) ;;
    Ret (Ok [id])) ;;
  for_each futures join.

Definition benchmark (fuel : nat) (config : Config) (rng : list N) (iterations : N)
    (sub_node : option bytes) : prog Cli (result unit Panic) :=
  workers <-? connect_workers fuel config sub_node 0 rng ;;
  _ <-? subscribe_stage workers iterations ;;
  tests <-? unwrap_some (message_tests iterations) ;;
  _ <-? for_each tests (fun t =>
    _ <-? benchmark_message (bs "pub-" ++ test_name t) (test_data t) workers (test_iterations t) false ;;
    benchmark_message (bs "pub-read-" ++ test_name t) (test_data t) workers (test_iterations t) true) ;;
  (* the stage that is called unsubscribe *)
  _ <-? subscribe_stage workers iterations ;;
  for_each workers (fun w =>
    _ <-? worker_bye w ;;
    assert (b <-- worker_is_connected w ;; Ret (negb b))).

(** ** The table of topics *)

(** [u64::to_formatted_string(&Locale::en)] and the [Display] of [byte.get_appropriate_unit(false)]. *)
Variable to_formatted_string : N -> bytes.
Variable appropriate_unit : N -> bytes.

Definition stat_row (s : TopicStat) : list bytes :=
  [stat_topic s; underscores (to_formatted_string (stat_count s)); appropriate_unit (stat_bytes s)].

Definition stat_table (stats : list TopicStat) : Table :=
  fold_left (fun t s => add_row (stat_row s) t) stats prepare_stat_table.

Definition print_table (t : Table) : prog Cli unit :=
  _ <-- modify (print cls) ;; modify (print (Printed t)).

(** [last_refresh.elapsed() < show_step], when there was a refresh. *)
Definition due (last_refresh : option N) : prog Cli bool :=
  match last_refresh with
  | Some _ => n <-- now ;; Ret (refresh_due n last_refresh)
  | None => Ret true
  end.

(** A round of the loop: the message is counted and the table is printed when it is due. *)
Definition top_round (client : nat) (stats : gmap bytes TopicStat) (last_refresh : option N) :
    prog Cli (result (gmap bytes TopicStat * option N) Panic) :=
  message <-? recv client ;;
  let stats := tally stats message in
  b <-- due last_refresh ;;
  if b : bool then
    n <-- now ;;
    mode <-- asks sort_mode ;;
    h <-- asks terminal ;;
    h <-? unwrap_some h ;;
    _ <-- print_table (stat_table (top_stats mode h stats)) ;;
    Ret (Ok (stats, Some n))
  else Ret (Ok (stats, last_refresh)).

(** The loop ends with a panic, or not at all. *)
Fixpoint top_loop (fuel client : nat) (stats : gmap bytes TopicStat) (last_refresh : option N) :
    prog Cli (option Panic) :=
  match fuel with
  | O => Ret None
  | S fuel =>
      r <-- top_round client stats last_refresh ;;
      match r with
      | Err e => Ret (Some e)
      | Ok (stats, last_refresh) => top_loop fuel client stats last_refresh
      end
  end.

(** The thread that reads the keys: [s] switches the order. *)
Definition key_press : prog Cli (option unit) :=
  ch <-- await (fun s => match keys s with [] => None | k :: ks => Some (k, set_keys ks s) end) ;;
  if decide (ch = x73) then
    m <-- asks sort_mode ;;
    _ <-- modify (set_sort_mode (N.lxor m 1)) ;;
    Ret None
  else Ret None.

Definition key_thread (fuel : nat) : prog Cli (option unit) := iterate fuel key_press.

(** The task that waits for the interrupt signal, says goodbye and ends the process. *)
Definition interrupt_task (client : nat) (farewell : Output) : prog Cli (result unit Panic) :=
  _ <-- await (fun s => match interrupts s with O => None | S n => Some (tt, set_interrupts n s) end) ;;
  _ <-? bye client ;;
  _ <-- modify (print farewell) ;;
  _ <-- modify (exit 0) ;;
  Ret (Ok tt).

Definition top_mode (fuel : nat) (config : Config) (topic : option bytes) :
    prog Cli (option (result unit Panic)) :=
  r <-- (client <-? connect fuel config ;;
         _ <-? take_data_channel client ;;
         topics <-? expect ERR_TOPIC_NOT_SPECIFIED (parse_topics topic) ;;
         _ <-? subscribe_bulk client topics ;;
         Ret (Ok client)) ;;
  match r with
  | Err e => Ret (Some (Err e))
  | Ok client =>
      _ <-- spawn (InterruptTask client (Text (x1b :: bs "[2J"))) ;;
      _ <-- spawn KeyThread ;;
      _ <-- print_table (add_row [bs " "; bs " "; bs " "] prepare_stat_table) ;;
      e <-- top_loop fuel client ∅ None ;;
      Ret (Err <$> e)
  end.

(** ** One publication, or a listener *)

(** The message of the option [-m]. *)
Definition message_of_text (msg : bytes) : option bytes :=
  match strip_prefix (bs "==") msg with
  | Some message_size => generated <$> byte_from_str message_size
  | None => Some msg
  end.

Definition publish_mode (client : nat) (topic : option bytes) (msg : bytes) :
    prog Cli (result unit Panic) :=
  topic <-? expect ERR_TOPIC_NOT_SPECIFIED topic ;;
  m <-? unwrap_some (message_of_text msg) ;;
  _ <-? publish client topic m ;;
  bye client.

Definition listen_round (client : nat) : prog Cli (option Panic) :=
  r <-- recv client ;;
  match r with
  | Err e => Ret (Some e)
  | Ok m => _ <-- modify (print (Text (render m))) ;; Ret None
  end.

Definition listen_mode (fuel client : nat) (topic : option bytes) :
    prog Cli (option (result unit Panic)) :=
  r <-- (_ <-? take_data_channel client ;;
         topics <-? expect ERR_TOPIC_NOT_SPECIFIED (parse_topics topic) ;;
         subscribe_bulk client topics) ;;
  match r with
  | Err e => Ret (Some (Err e))
  | Ok _ =>
      _ <-- spawn (InterruptTask client (Text [])) ;;
      e <-- iterate fuel (listen_round client) ;;
      Ret (Err <$> e)
  end.

(** What a spawned task runs; its outcome is kept for [join]. *)
Definition cli_task_code (fuel : nat) (t : CliTask) : prog Cli (option (result unit Panic)) :=
  match t with
  | ReadTask w m n => r <-- read_task w m n ;; Ret (Some r)
  | PublishTask w topic m n => r <-- publish_task w topic m n ;; Ret (Some r)
  | SubscribeTask w n => r <-- subscribe_task w n ;; Ret (Some r)
  | InterruptTask client farewell => r <-- interrupt_task client farewell ;; Ret (Some r)
  | KeyThread => r <-- key_thread fuel ;; Ret (Ok <$> r)
  end.

Definition run_cli_task (fuel id : nat) (t : CliTask) : prog Cli unit :=
  r <-- cli_task_code fuel t ;;
  match r with
  | Some r => modify (fun s => set_finished (<[id := r]> (finished s)) s)
  | None => Ret tt
  end.
End cli.

(** ** The options and [main] *)

Record Opts : Type := mkOpts {
  opt_path : bytes;
  opt_user : option bytes;
  opt_password : option bytes;
  opt_top : bool;
  opt_topic : option bytes;
  opt_message : option bytes;
  opt_benchmark : bool;
  opt_benchmark_iterations : N;
  opt_benchmark_workers : N;
  opt_benchmark_cluster_sub : option bytes;
  (** In seconds. *)
  opt_timeout : f64;
  opt_tls : bool;
  opt_tls_ca : option bytes;
}.

Section main.
Context {CHO : ChannelOps} {OSO : OneshotOps}.
Variable read_to_string : bytes -> option bytes.
Variable elapsed : bytes.
Variable byte_from_str : bytes -> option N.
Variables to_formatted_string appropriate_unit : N -> bytes.

(** The configuration of the client, without the data stream when it only publishes; [None] is a
    panic: the file of the authorities cannot be read, or the timeout is not a duration. *)
Definition main_config (o : Opts) : option Config :=
  tls_ca ← match opt_tls_ca o with
           | Some cafile => Some <$> read_to_string cafile
           | None => Some None
           end;
  timeout ← from_secs_f64 (opt_timeout o);
  let queue_size := (if opt_benchmark o then 256000 else 4096)%N in
  let config :=
    Config.build (Config.set_tls_ca tls_ca (Config.set_tls (opt_tls o)
      (Config.set_socket_wait_timeout timeout (Config.set_timeout timeout
        (Config.set_queue_size queue_size
          (Config.set_auth (default [] (opt_user o)) (default [] (opt_password o))
            (Config.new (opt_path o)))))))) in
  Some (if negb (opt_benchmark o) && negb (opt_top o) && bool_decide (is_Some (opt_message o))
        then Config.disable_data_stream config else config).

(** [main]; [rng] are the random numbers of the workers. *)
Definition main (fuel : nat) (rng : list N) (o : Opts) : prog Cli (option (result unit Panic)) :=
  match main_config o with
  | None => Ret (Some (Err UnwrapNone))
  | Some config =>
      if opt_benchmark o then
        r <-- benchmark (Client.timeout config) elapsed byte_from_str fuel config
                (take (N.to_nat (opt_benchmark_workers o)) rng) (opt_benchmark_iterations o)
                (opt_benchmark_cluster_sub o) ;;
        Ret (Some r)
      else if opt_top o then
        top_mode (Client.timeout config) elapsed to_formatted_string appropriate_unit fuel config (opt_topic o)
      else
        r <-- connect fuel config ;;
        match r with
        | Err e => Ret (Some (Err e))
        | Ok client =>
            match opt_message o with
            | Some msg =>
                r <-- publish_mode (Client.timeout config) elapsed byte_from_str client (opt_topic o) msg ;;
                Ret (Some r)
            | None => listen_mode (Client.timeout config) elapsed fuel client (opt_topic o)
            end
        end
  end.
End main.
