(* ===== verification/CliSpec.v ===== *)
(** * What the command line client shows

    The table of the most used topics is the sorted statistics of the messages received; a listener
    prints every message once and in order; the messages that the options ask to generate have the
    size asked for. The loops run here alone, on a client whose channel holds the messages. *)

From stdpp Require Import sorting.
From S2P Require Import Prelude Utf8 Sorting Proto Io Commands Topic Pubsub Reference PubsubSpec.
From S2P Require Import Passwords Keys Server Control ControlSpec Session Client ClientSpec Delivery.
From S2P Require Import Cli.

(** ** Statistics *)

Definition on_topic (t : bytes) (ms : list Message) : list Message :=
  filter (fun m => Proto.topic m = t) ms.

Definition total_size (ms : list Message) : N := foldr (fun m n => len (data m) + n)%N 0%N ms.

(** The statistics of a topic after the messages [ms], on 64 and 128 bits. *)
Definition stat_of (ms : list Message) (t : bytes) : TopicStat :=
  mkTopicStat t (wrap 64 (len (on_topic t ms))) (wrap 128 (total_size (on_topic t ms))).

Lemma on_topic_app t ms m :
  on_topic t (ms ++ [m]) = on_topic t ms ++ (if decide (Proto.topic m = t) then [m] else []).
Proof. unfold on_topic. rewrite filter_app, filter_cons. by case_decide. Qed.

Lemma total_size_app ms ms' : total_size (ms ++ ms') = (total_size ms + total_size ms')%N.
Proof. induction ms as [|m ms IH]; simpl; [done|]. rewrite IH. lia. Qed.

Lemma stat_of_app ms m :
  stat_of (ms ++ [m]) (Proto.topic m) = TopicStat.count (len (data m)) (stat_of ms (Proto.topic m)).
Proof.
  unfold stat_of, TopicStat.count. simpl. rewrite on_topic_app, decide_True by done.
  rewrite total_size_app, len_app. simpl. rewrite !wrap_add_l, N.add_0_r. done.
Qed.

Lemma tally_spec ms t :
  fold_left tally ms ∅ !! t = if decide (on_topic t ms = []) then None else Some (stat_of ms t).
Proof.
  revert t; induction ms as [|m ms IH] using rev_ind; intros t; [done|].
  rewrite fold_left_app, on_topic_app. simpl. set (stats := fold_left tally ms ∅) in *.
  assert (tally stats m =
    <[Proto.topic m := TopicStat.count (len (data m)) (stat_of ms (Proto.topic m))]> stats) as ->.
  { unfold tally. rewrite IH. destruct (decide (on_topic _ ms = [])) as [E|]; [|done].
    unfold stat_of. by rewrite E. }
  rewrite lookup_insert. destruct (decide (Proto.topic m = t)) as [<-|Ht].
  - by rewrite decide_False, stat_of_app by (by destruct (on_topic _ ms)).
  - rewrite app_nil_r, IH. unfold stat_of. rewrite on_topic_app.
    destruct (decide (Proto.topic m = t)); [done|]. by rewrite app_nil_r.
Qed.

(** What the rows are sorted by: the count, or the bytes after the key [s]. *)
Definition metric (mode : N) (s : TopicStat) : N :=
  if (mode =? 0)%N then stat_count s else stat_bytes s.

(** The busier topic first, the names in order among equals. *)
Definition before (mode : N) (a b : TopicStat) : Prop :=
  (metric mode b < metric mode a)%N \/
  metric mode a = metric mode b /\ bytes_le (stat_topic a) (stat_topic b) = true.

Lemma stat_le_metric mode a b : stat_le mode a b = true <-> (metric mode b <= metric mode a)%N.
Proof. unfold stat_le, metric. destruct (mode =? 0)%N; apply N.leb_le. Qed.

#[export] Instance stat_le_preorder mode : TotalPreorder (stat_le mode).
Proof.
  split.
  - intros x y. rewrite !stat_le_metric. lia.
  - intros x y z. rewrite !stat_le_metric. lia.
Qed.

Section table.
Variables (mode h : N) (ms : list Message).

Let stats := fold_left tally ms ∅.
Let ranking := sort_by (stat_le mode) (btree_values stats).

Lemma stats_keys k v : stats !! k = Some v -> stat_topic v = k.
Proof. unfold stats. rewrite tally_spec. case_decide; [done|]. by intros [= <-]. Qed.

Lemma elem_of_ranking s :
  s ∈ ranking <-> exists m, m ∈ ms /\ s = stat_of ms (Proto.topic m).
Proof.
  unfold ranking. rewrite sort_by_perm, elem_of_btree_values. unfold stats.
  setoid_rewrite tally_spec. split.
  - intros [k H]. destruct (decide (on_topic k ms = [])) as [|E]; [done|]. injection H as <-.
    destruct (on_topic k ms) as [|m l] eqn:El; [done|].
    assert (m ∈ on_topic k ms) as Hm by (rewrite El; apply list_elem_of_here).
    apply list_elem_of_filter in Hm as [<- Hm]. eauto.
  - intros (m & Hm & ->). exists (Proto.topic m). rewrite decide_False; [done|].
    intros E. eapply not_elem_of_nil. rewrite <- E. by apply list_elem_of_filter.
Qed.

Lemma ranking_sorted : StronglySorted (before mode) ranking.
Proof.
  eapply sorted_weaken; [|apply sort_by_sorted; [apply _|];
    apply (btree_values_sorted stat_topic), stats_keys].
  intros a b [H1 H2]. rewrite !stat_le_metric in *. unfold before.
  destruct (N.lt_total (metric mode b) (metric mode a)) as [|[]]; [auto|auto with lia|lia].
Qed.

Lemma ranking_nodup : NoDup (stat_topic <$> ranking).
Proof. unfold ranking. rewrite sort_by_perm. apply btree_values_keys, stats_keys. Qed.

(** As many rows as there are topics. *)
Definition topics_of : gset bytes := list_to_set (Proto.topic <$> ms).

Lemma ranking_size : len ranking = N.of_nat (size topics_of).
Proof.
  unfold len, topics_of. f_equal.
  rewrite <- (length_fmap stat_topic), <- (size_list_to_set (C:=gset bytes)) by apply ranking_nodup.
  f_equal. apply set_eq. intros t. rewrite !elem_of_list_to_set, !list_elem_of_fmap.
  setoid_rewrite elem_of_ranking. split.
  - intros (s & -> & m & Hm & ->). by exists m.
  - intros (m & -> & Hm). exists (stat_of ms (Proto.topic m)). split; [done|]. eauto.
Qed.

Lemma top_stats_spec :
  let shown := top_stats mode h stats in
  NoDup (stat_topic <$> shown) /\ StronglySorted (before mode) shown /\
  len shown = N.min (h - 4) (N.of_nat (size topics_of)) /\
  (forall s, s ∈ shown -> exists m, m ∈ ms /\ s = stat_of ms (Proto.topic m)) /\
  (forall s m, s ∈ shown -> m ∈ ms -> stat_of ms (Proto.topic m) ∉ shown ->
     before mode s (stat_of ms (Proto.topic m))).
Proof.
  unfold top_stats. fold ranking. set (n := N.to_nat (h - 4)).
  pose proof ranking_nodup as Hn. destruct (sorted_take _ n _ ranking_sorted) as [Hs Hb].
  split_and!; [|done|..].
  - rewrite <- (take_drop n ranking), fmap_app in Hn. by apply NoDup_app in Hn as (? & _ & _).
  - rewrite <- ranking_size. unfold len. rewrite length_take. unfold n. lia.
  - intros s Hin. apply elem_of_ranking. rewrite <- (take_drop n ranking). apply elem_of_app. auto.
  - intros s m Hin Hm Hnot. apply Hb; [done|].
    assert (stat_of ms (Proto.topic m) ∈ ranking) as Hr by (apply elem_of_ranking; eauto).
    rewrite <- (take_drop n ranking) in Hr. apply elem_of_app in Hr as [|]; done.
Qed.
End table.

Lemma run_iterate_S {St R} n (body : prog St (option R)) w :
  run (iterate (S n) body) w =
    match run body w with
    | Some (Some x, w') => Some (Some x, w')
    | Some (None, w') => run (iterate n body) w'
    | None => None
    end.
Proof. cbn [iterate]. rewrite run_bind. by destruct (run body w) as [[[x|] w']|]. Qed.

Lemma length_generated size : len (generated size) = size.
Proof. unfold generated, len. rewrite length_fmap, length_seq. lia. Qed.

(** [-m ==size] generates the bytes 0, 1, .., 255, 0, .. *)
Lemma generated_lookup size i :
  (i < N.to_nat size)%nat -> generated size !! i = Some (byte_of_N (N.of_nat i)).
Proof. intros. unfold generated. rewrite list_lookup_fmap, lookup_seq_lt; [done|lia]. Qed.

(** ** The loops, on a client whose channel holds the messages *)

Section loops.
Context {CHO : ChannelOps} {CHL : ChannelLaws} {OSO : OneshotOps}.

(** The messages that wait at the client [i], and whether more may come. *)
Definition waiting (i : nat) (q : list Message) (open : bool) (s : Cli) : Prop :=
  ch_queue (ch_view (messages (clients s i))) = q /\
  view_open (ch_view (messages (clients s i))) = open.

(** Only the client [i] was touched. *)
Record others (i : nat) (s s' : Cli) : Prop := {
  ot_clients j : j <> i -> clients s' j = clients s j;
  ot_rest : (next_client s', dials s', cli_tasks s', finished s', locked s') =
            (next_client s, dials s, cli_tasks s, finished s, locked s);
  ot_screen : (sort_mode s', keys s', interrupts s', terminal s', printed s', exited s') =
              (sort_mode s, keys s, interrupts s, terminal s, printed s, exited s);
}.

#[export] Instance others_preorder i : PreOrder (others i).
Proof.
  split; [by split|]. intros s1 s2 s3 [A1 A2 A3] [B1 B2 B3]. split; [|congruence..].
  intros j Hj. by rewrite B1, A1.
Qed.

Lemma run_on {A} i (p : prog ClientState A) w a v :
  run p (focus (fun s => clients s i) w) = Some (a, v) ->
  exists w', run (on i p) w = Some (a, w') /\ focus (fun s => clients s i) w' = v /\
    others i (shared w) (shared w').
Proof.
  apply (run_zoom (fun s => clients s i) (set_client i) (others i)).
  - intros t s. simpl. by destruct (decide (i = i)).
  - intros t s. split; [|done..]. intros j Hj. simpl. by destruct (decide (j = i)).
Qed.

Lemma run_recv i m q open w :
  waiting i (m :: q) open (shared w) ->
  exists w', run (recv i) w = Some (Ok m, w') /\ waiting i q open (shared w') /\
    clock w' = clock w /\ others i (shared w) (shared w').
Proof.
  intros [Hq Ho]. destruct (ch_recv_message _ _ _ Hq) as (c & Hr & Hc).
  destruct (run_on i (await recv_message) w (Some m)
    (set_shared (set_messages c (clients (shared w) i)) (focus (fun s => clients s i) w)))
    as (w' & H1 & H2 & H3).
  { cbn [run await]. unfold recv_message. simpl. by rewrite Hr. }
  exists w'. unfold recv. rewrite run_bind, H1.
  assert (clients (shared w') i = set_messages c (clients (shared w) i)) as Hi
    by exact (f_equal shared H2).
  split; [done|]. split; [|split; [exact (f_equal clock H2)|done]].
  unfold waiting. rewrite Hi. simpl. rewrite Hc. split; [done|].
  rewrite <- Ho. done.
Qed.

Lemma run_message_closed i w :
  waiting i [] false (shared w) ->
  exists w', run (recv i) w = Some (Err UnwrapRecv, w') /\ others i (shared w) (shared w').
Proof.
  intros [Hq Ho]. destruct (ch_recv_closed _ Hq Ho) as (c & Hr & Hc).
  destruct (run_on i (await recv_message) w None
    (set_shared (set_messages c (clients (shared w) i)) (focus (fun s => clients s i) w)))
    as (w' & H1 & H2 & H3).
  { cbn [run await]. unfold recv_message. simpl. by rewrite Hr. }
  exists w'. unfold recv. by rewrite run_bind, H1.
Qed.

(** Printing leaves the clients alone. *)
Lemma waiting_print i q open o s : waiting i q open s -> waiting i q open (print o s).
Proof. done. Qed.

(** *** A listener *)

Lemma run_listen i q w :
  waiting i q false (shared w) ->
  exists w', run (iterate (S (length q)) (listen_round i)) w = Some (Some UnwrapRecv, w') /\
    printed (shared w') = printed (shared w) ++ ((fun m => Text (render m)) <$> q).
Proof.
  revert w; induction q as [|m q IH]; intros w Hw; cbn [length]; rewrite run_iterate_S;
    unfold listen_round at 1; rewrite run_bind.
  - destruct (run_message_closed i w Hw) as (w1 & -> & [_ _ Ho]).
    exists w1. cbn [run]. rewrite app_nil_r. split; [done|]. by injection Ho.
  - destruct (run_recv i m q false w Hw) as (w1 & -> & Hw1 & _ & [_ _ Ho]).
    cbn [run modify pbind].
    destruct (IH (set_shared (print (Text (render m)) (shared w1)) w1) Hw1) as (w' & H2 & H3).
    exists w'. split; [exact H2|]. rewrite H3. simpl. injection Ho as _ _ _ _ -> _.
    by rewrite <- app_assoc.
Qed.

(** *** The table *)

Section top.
Variables to_formatted_string appropriate_unit : N -> bytes.

Abbreviation row := (stat_row to_formatted_string appropriate_unit).
Abbreviation table := (stat_table to_formatted_string appropriate_unit).
Abbreviation round := (top_round to_formatted_string appropriate_unit).

Lemma stat_table_rows l : table l = mkTable (titles prepare_stat_table) (row <$> l).
Proof.
  unfold stat_table.
  assert (forall t, fold_left (fun t s => add_row (row s) t) l t =
    mkTable (titles t) (rows t ++ (row <$> l))) as ->; [|done].
  induction l as [|x l IH]; intros t; simpl.
  - rewrite app_nil_r. by destruct t.
  - rewrite IH. simpl. by rewrite <- app_assoc.
Qed.

(** What a round prints when the table is due. *)
Definition refreshed (ms : list Message) (s : Cli) (h : N) : list Output :=
  [cls; Printed (mkTable (titles prepare_stat_table)
                   (row <$> top_stats (sort_mode s) h (fold_left tally ms ∅)))].

Lemma run_top_round i m q open h ms last w :
  waiting i (m :: q) open (shared w) -> terminal (shared w) = Some h ->
  exists w', waiting i q open (shared w') /\ clock w' = clock w /\
    if refresh_due (clock w) last then
      run (round i (fold_left tally ms ∅) last) w =
        Some (Ok (fold_left tally (ms ++ [m]) ∅, Some (clock w)), w') /\
      printed (shared w') = printed (shared w) ++ refreshed (ms ++ [m]) (shared w) h
    else
      run (round i (fold_left tally ms ∅) last) w =
        Some (Ok (fold_left tally (ms ++ [m]) ∅, last), w') /\
      printed (shared w') = printed (shared w).
Proof.
  intros Hw Hh. destruct (run_recv i m q open w Hw) as (w1 & H1 & Hw1 & Hc & [_ _ Ho]).
  injection Ho as Hm _ _ Ht Hp _.
  assert (tally (fold_left tally ms ∅) m = fold_left tally (ms ++ [m]) ∅) as Et
    by (by rewrite fold_left_app).
  assert (run (due last) w1 = Some (refresh_due (clock w) last, w1)) as Hd.
  { unfold due. destruct last; [|done]. cbn [run now pbind]. by rewrite Hc. }
  unfold top_round. destruct (refresh_due (clock w) last).
  - exists (set_shared (print (Printed (table (top_stats (sort_mode (shared w1)) h
              (fold_left tally (ms ++ [m]) ∅)))) (print cls (shared w1))) w1).
    split; [exact Hw1|]. split; [done|]. split.
    + rewrite run_qbind, H1, run_bind, Hd. cbn [run now asks pbind]. rewrite Et. simpl.
      rewrite Ht, Hh. cbn. by rewrite Hc.
    + simpl. rewrite stat_table_rows, Hm, Hp, <- app_assoc. done.
  - exists w1. split; [done|]. split; [done|]. split; [|done].
    by rewrite run_qbind, H1, run_bind, Hd, Et.
Qed.

(** C33: a round of the mode top counts the message under its topic and, at the first message and
    when the last table is a second old, prints the table of the topics. Its rows are the counts and
    sizes of what was received on each topic, on 64 and 128 bits; no topic twice; in descending order
    of the count, or of the size after the key s, and of the names among equals; as many as fit; and
    the topics left out come after those shown. *)
Theorem top_table_spec i m q open h ms last (w : World Cli) :
  waiting i (m :: q) open (shared w) -> terminal (shared w) = Some h ->
  let mode := sort_mode (shared w) in
  let seen := ms ++ [m] in
  let shown := top_stats mode h (fold_left tally seen ∅) in
  let due := refresh_due (clock w) last in
  (exists w', run (round i (fold_left tally ms ∅) last) w =
      Some (Ok (fold_left tally seen ∅, if due then Some (clock w) else last), w') /\
    waiting i q open (shared w') /\
    printed (shared w') = printed (shared w) ++
      (if due then [cls; Printed (mkTable (titles prepare_stat_table) (row <$> shown))] else [])) /\
  (forall s, s ∈ shown -> exists m', m' ∈ seen /\ s = stat_of seen (Proto.topic m')) /\
  NoDup (stat_topic <$> shown) /\ StronglySorted (before mode) shown /\
  len shown = N.min (h - 4) (N.of_nat (size (topics_of seen))) /\
  (forall s m', s ∈ shown -> m' ∈ seen -> stat_of seen (Proto.topic m') ∉ shown ->
     before mode s (stat_of seen (Proto.topic m'))).
Proof.
  intros Hw Hh mode seen shown due.
  destruct (top_stats_spec mode h seen) as (H1 & H2 & H3 & H4 & H5).
  split; [|by split_and!].
  destruct (run_top_round i m q open h ms last w Hw Hh) as (w' & Hq & _ & Hr). exists w'.
  unfold due. destruct (refresh_due (clock w) last); destruct Hr as [-> ->]; [done|].
  by rewrite app_nil_r.
Qed.
End top.

(** C34: what the server writes for the queue of a data channel, messages and beacons in any order, the
    data task of a client takes from its stream until the stream ends, and a listener on that client
    prints: every message once, in order, with its topic and its body, and then it ends. *)
Theorem listener_shows_stream (stream : SStream) (fuel i : nat) (cap : N) (q : list Queued)
    (wc : World ClientState) (w : World Cli) :
  length q < fuel -> Forall deliverable q -> inp (conn wc) = ready (concat (map wire q)) ->
  ch_view (messages (shared wc)) = mkChanView cap [] 1 1 -> (len (omap message_of q) <= cap)%N ->
  exists e wc', run (client_data_task fuel stream) wc = Some (Some e, wc') /\
    connected (shared wc') = false /\
    (clients (shared w) i = shared wc' ->
     exists w', run (iterate (S (length (omap message_of q))) (listen_round i)) w =
         Some (Some UnwrapRecv, w') /\
       printed (shared w') =
         printed (shared w) ++ ((fun m => Text (render m)) <$> omap message_of q)).
Proof.
  intros Hf Hq Hi Hv Hcap.
  destruct (run_data_stream_view stream fuel q wc) as (e & w1 & Hr & Hv1);
    [done|done|done|by rewrite Hv|by rewrite Hv|].
  eexists e, _. split; [|split]; [unfold client_data_task; rewrite run_bind, Hr; reflexivity|done|].
  intros Hw. apply run_listen. unfold waiting. rewrite Hw. simpl.
  rewrite ch_drop_sender_view, Hv1, Hv. done.
Qed.
End loops.

(** ** Witnesses *)

(** A command line client with the given client. *)
Definition demo_cli (c : ClientState) : Cli :=
  mkCli (fun _ => c) 1 [] [] ∅ ∅ 0 [] 0 (Some 24%N) [] None.

Definition demo_message (t d : bytes) : Message := mkMessage x7f t d.

Definition cli_world (s : Cli) : World Cli := mkWorld 0 (mkConn [] None [] []) [] s.

(** A client that has received one message. *)
Definition demo_top : Cli :=
  demo_cli (set_messages (CHO:=ref_channel) (mkChanView 8 [demo_message (bs "a") (bs "3")] 1 1)
              (shared (client_world []))).

(** The second message of the topic a: two messages of three bytes. *)
Lemma top_table_spec_witness :
  exists w', run (top_round show_N show_N 0
      (fold_left tally [demo_message (bs "b") (bs "x"); demo_message (bs "a") (bs "12")] ∅) None)
      (cli_world demo_top) =
    Some (Ok (fold_left tally [demo_message (bs "b") (bs "x"); demo_message (bs "a") (bs "12");
                               demo_message (bs "a") (bs "3")] ∅, Some 0%N), w') /\
    printed (shared w') =
      [cls; Printed (mkTable [bs "topic"; bs "count"; bs "bytes"]
                       [[bs "a"; bs "2"; bs "3"]; [bs "b"; bs "1"; bs "1"]])].
Proof.
  destruct (top_table_spec show_N show_N 0 (demo_message (bs "a") (bs "3")) [] true 24
    [demo_message (bs "b") (bs "x"); demo_message (bs "a") (bs "12")] None
    (cli_world demo_top))
    as [(w' & Hr & _ & Hp) _]; [by split|done|].
  exists w'. split; [exact Hr|]. rewrite Hp. vm_compute. reflexivity.
Defined.

Lemma listener_shows_stream_witness :
  exists e wc' w', run (client_data_task 5 (mkSStream 5))
      (client_world (concat (map wire demo_queue))) = Some (Some e, wc') /\
    run (iterate 3 (listen_round 0)) (cli_world (demo_cli (shared wc'))) =
      Some (Some UnwrapRecv, w') /\
    printed (shared w') =
      [Text (bs "a" ++ x0a :: bs "---" ++ [x0a; x22; x31; x22]);
       Text (bs "b/c" ++ x0a :: bs "---" ++ [x0a; x22; x32; x32; x22])].
Proof.
  destruct (listener_shows_stream (mkSStream 5) 5 0 8 demo_queue
    (client_world (concat (map wire demo_queue)))
    (cli_world (demo_cli match run (client_data_task 5 (mkSStream 5))
                           (client_world (concat (map wire demo_queue))) with
                         | Some (_, wc') => shared wc' | None => shared (client_world []) end)))
    as (e & wc' & Hr & _ & Hx);
    [simpl; lia|apply demo_deliverable|reflexivity|reflexivity|vm_compute; discriminate|].
  rewrite Hr in Hx. destruct Hx as (w' & H1 & H2); [done|].
  exists e, wc', w'. split; [exact Hr|]. split; [exact H1|]. rewrite H2. vm_compute. reflexivity.
Defined.
