(* ===== verification/Http.v ===== *)
(** * The status pages: [get_status] and the module [stats] of src/src/server.rs

    The HTTP handler, from the request to the response, and who gets the pages. The HTTP and JSON
    libraries, base64 and the two static files are parameters. *)

From S2P Require Import Prelude Utf8 Proto Io Acl Topic Token Pubsub Reference PubsubSpec.
From S2P Require Import Passwords Keys Server Interleave.

(** The crate [base64]: [decode], with the [Display] of its error, and the encoding it inverts. *)
Class Base64Ops : Type := {
  base64_decode : bytes -> result bytes bytes;
  base64_encode : bytes -> bytes;
}.

Class Base64Laws `{Base64Ops} : Type := {
  base64_decode_encode b : base64_decode (base64_encode b) = Ok b;
}.

Inductive Method : Type :=
| GET
| OtherMethod (name : bytes).

(** The parts the handler looks at. The header [authorization] is absent ([None]), not text
    ([Some None]), or visible ASCII. *)
Record Request : Type := mkRequest {
  req_method : Method;
  req_path : bytes;
  authorization : option (option bytes);
}.

(** [ServerStatus], without the feature [cluster]. *)
Record ServerStatus : Type := mkServerStatus {
  time : N;
  uptime : N;
  data_queue_size : N;
  host : bytes;
  version : bytes;
  status_counters : Counters;
  clients : ServerClientDBStats;
}.

Record Response : Type := mkResponse {
  status : N;
  headers : list (bytes * bytes);
  body : bytes;
}.

Definition OK : N := 200.
Definition BAD_REQUEST : N := 400.
Definition UNAUTHORIZED : N := 401.
Definition NOT_FOUND : N := 404.
Definition METHOD_NOT_ALLOWED : N := 405.

(** [http_error!] and [response!]. *)
Definition http_error (status : N) : Response := mkResponse status [] [].
Definition response (code : N) (content : bytes) : Response := mkResponse code [] content.

(** [char::to_ascii_lowercase] on the ASCII text of a header. *)
Definition lower (b : byte) : byte :=
  if (65 <=? to_N b)%N && (to_N b <=? 90)%N then byte_of_N (to_N b + 32) else b.

Definition space : byte := x20.
Definition colon : byte := x3a.

Section http.
Context {SMO : SubMapOps} {CHO : ChannelOps} {BCO : BcryptOps} {B64 : Base64Ops}.

(** [UPTIME.elapsed().as_secs()] and [HOST_NAME]; [serde_json::to_vec]; the static files. *)
Variables (uptime_secs : N) (host_name : bytes).
Variable to_json : ServerStatus -> bytes.
Variables HTML_STATS JS_CHART_MIN : bytes.

Definition get_status : prog Server ServerStatus :=
  counters <-- asks counters ;;
  clients <-- asks (fun s => get_stats (hub s)) ;;
  n <-- asks server_now_ns ;;
  size <-- asks (fun s => get_data_queue_size (limits s)) ;;
  Ret (mkServerStatus (n / 1000) uptime_secs size host_name VERSION counters clients).

(** The credentials of the request, or the response to a header that has none it can read. *)
Definition parse_credentials (header : option (option bytes)) :
    result (option (bytes * bytes)) Response :=
  match header with
  | None => Ok None
  | Some None => Err (response BAD_REQUEST (bs "Unable to decode authorization header"))
  | Some (Some auth) =>
      let '(scheme, params) := splitn2 space auth in
      match params with
      | None => Err (response BAD_REQUEST (bs "Invalid authorization header"))
      | Some params =>
          if bool_decide (map lower scheme = bs "basic") then
            match base64_decode params with
            | Err e => Err (response BAD_REQUEST (bs "Unable to decode credentials: " ++ e))
            | Ok v =>
                match from_utf8 v with
                | Err e =>
                    Err (response BAD_REQUEST
                      (bs "Unable to parse credentials string: " ++ show_Utf8Error e))
                | Ok s =>
                    let '(username, password) := splitn2 colon s in
                    match password with
                    | Some password => Ok (Some (username, password))
                    | None =>
                        Err (response BAD_REQUEST
                          (bs "Basic authorization error: password not specified"))
                    end
                end
            end
          else Ok None
      end
  end.

(** Credentials must be those of an administrator; without them the anonymous rules decide. *)
Definition is_authorized (credentials : option (bytes * bytes)) : prog Server bool :=
  match credentials with
  | Some (login, password) =>
      valid <-- asks (fun s => authenticate s login password) ;;
      if valid : bool then
        acl <-- asks (fun s => get_acl s login) ;;
        Ret (match acl with Some acl => Acl.is_admin acl | None => false end)
      else Ret false
  | None =>
      acl <-- asks (fun s => get_acl s (bs "_")) ;;
      Ret (match acl with Some acl => Acl.is_admin acl | None => false end)
  end.

(** The page of a path. *)
Definition serve_page (path : bytes) : prog Server Response :=
  if decide (path = bs "/status") then
    status <-- get_status ;;
    Ret (mkResponse OK [(bs "content-type", bs "application/json")] (to_json status))
  else if decide (path = bs "/chart.min.js") then
    Ret (mkResponse OK [(bs "content-type", bs "application/javascript; charset=utf-8")]
           JS_CHART_MIN)
  else if decide (path = bs "/") then
    Ret (mkResponse OK [(bs "content-type", bs "text/html; charset=utf-8")] HTML_STATS)
  else Ret (http_error NOT_FOUND).

Definition www_authenticate : bytes := bs "Basic realm=" ++ [x22; x3f; x22].

Definition handler (req : Request) : prog Server Response :=
  match req_method req with
  | GET =>
      match parse_credentials (authorization req) with
      | Err r => Ret r
      | Ok credentials =>
          authorized <-- is_authorized credentials ;;
          if negb authorized then
            Ret (mkResponse UNAUTHORIZED [(bs "www-authenticate", www_authenticate)] [])
          else serve_page (req_path req)
      end
  | OtherMethod _ => Ret (http_error METHOD_NOT_ALLOWED)
  end.

(** A connection of the listener: the requests that hyper reads from it, one after the other. *)
Fixpoint serve_connection (reqs : list Request) : prog Server unit :=
  match reqs with
  | [] => Ret tt
  | req :: reqs' => _ <-- handler req ;; serve_connection reqs'
  end.

(** The tasks that the loop of [start] spawns: a connection, or an error that is logged, a round. *)
Definition stats_listener (l : list (result (list Request) IoError)) : list (prog Server unit) :=
  omap (fun r => match r with Ok reqs => Some (serve_connection reqs) | Err _ => None end) l.
End http.

(** ** Correctness *)

Section spec.
Context {SMO : SubMapOps} {SML : SubMapLaws} {CHO : ChannelOps} {CHL : ChannelLaws}
  {SHO : Sha256Ops} {BCO : BcryptOps} {B64 : Base64Ops} {B64L : Base64Laws}.
Variables (uptime_secs : N) (host_name : bytes).
Variable to_json : ServerStatus -> bytes.
Variables HTML_STATS JS_CHART_MIN : bytes.

(** Who is an administrator: valid credentials whose rules say so, or anybody when the anonymous
    rules do. *)
Definition administrator (s : Server) (credentials : option (bytes * bytes)) : Prop :=
  match credentials with
  | Some (login, password) =>
      authenticate s login password = true /\
      exists acl, get_acl s login = Some acl /\ Acl.is_admin acl = true
  | None => exists acl, get_acl s (bs "_") = Some acl /\ Acl.is_admin acl = true
  end.

(** The header that a browser sends for a login and a password. *)
Definition basic_header (login password : bytes) : option (option bytes) :=
  Some (Some (bs "Basic " ++ base64_encode (login ++ colon :: password))).

(** The status of the server [s]. *)
Definition status_of (s : Server) : ServerStatus :=
  mkServerStatus (server_now_ns s / 1000) uptime_secs (get_data_queue_size (limits s)) host_name
    VERSION (counters s) (get_stats (hub s)).

Lemma parse_basic_header login password :
  colon ∉ login -> utf8 (login ++ colon :: password) ->
  parse_credentials (basic_header login password) = Ok (Some (login, password)).
Proof.
  intros Hn Hu. unfold parse_credentials, basic_header.
  change (bs "Basic ") with (bs "Basic" ++ [space]). rewrite <- app_assoc. cbn [app].
  rewrite splitn2_app by (apply (bool_decide_unpack _); vm_compute; exact I).
  rewrite bool_decide_eq_true_2 by (vm_compute; reflexivity).
  rewrite base64_decode_encode, (proj2 (from_utf8_iff _) Hu). by rewrite splitn2_app.
Qed.

Lemma run_is_authorized credentials (w : World Server) : exists b,
  run (is_authorized credentials) w = Some (b, w) /\
  (b = true <-> administrator (shared w) credentials).
Proof.
  destruct w as [t cn d s]. destruct credentials as [[login password]|]; simpl.
  - destruct (authenticate s login password); simpl.
    + eexists. split; [done|]. destruct (get_acl s login) as [acl|]; naive_solver.
    + eexists. split; [done|]. naive_solver.
  - eexists. split; [done|]. destruct (get_acl s (bs "_")) as [acl|]; naive_solver.
Qed.

(** The pages only read the state, so they cannot disturb the server. *)
Lemma handler_untouched req :
  untouched (handler uptime_secs host_name to_json HTML_STATS JS_CHART_MIN req).
Proof.
  unfold untouched, handler, is_authorized, serve_page, get_status. effects.
Qed.

Lemma serve_connection_untouched reqs :
  untouched (serve_connection uptime_secs host_name to_json HTML_STATS JS_CHART_MIN reqs).
Proof.
  induction reqs as [|req reqs IH]; [done|]. apply effects_bind; [apply handler_untouched|done].
Qed.

Lemma run_serve_page path (w : World Server) : exists r,
  run (serve_page uptime_secs host_name to_json HTML_STATS JS_CHART_MIN path) w = Some (r, w) /\
  (path = bs "/status" -> status r = OK /\ body r = to_json (status_of (shared w))) /\
  (path = bs "/chart.min.js" -> status r = OK /\ body r = JS_CHART_MIN) /\
  (path = bs "/" -> status r = OK /\ body r = HTML_STATS) /\
  (path ∉ [bs "/status"; bs "/chart.min.js"; bs "/"] -> r = http_error NOT_FOUND).
Proof.
  destruct w as [t cn d s]. unfold serve_page.
  destruct (decide (path = bs "/status")) as [->|H1].
  { eexists. split; [done|]. split; [done|]. split; [done|]. split; [done|].
    intros []. by left. }
  destruct (decide (path = bs "/chart.min.js")) as [->|H2].
  { eexists. split; [done|]. split; [done|]. split; [done|]. split; [done|].
    intros []. right. by left. }
  destruct (decide (path = bs "/")) as [->|H3].
  { eexists. split; [done|]. split; [done|]. split; [done|]. split; [done|].
    intros []. right. right. by left. }
  by eexists.
Qed.

(** C29: the status pages. The handler always answers and changes nothing; whatever is not a GET is
    refused; a header it cannot read is a bad request, and the header of a browser is read as the
    login and the password it was made from; the pages, the counters of the server among them, go
    to administrators only, and every administrator gets the page of the path or learns that there
    is none. *)
Theorem stats_access (req : Request) (w : World Server) :
  (exists r, run (handler uptime_secs host_name to_json HTML_STATS JS_CHART_MIN req) w = Some (r, w) /\
    match req_method req with
    | OtherMethod _ => r = http_error METHOD_NOT_ALLOWED
    | GET =>
        match parse_credentials (authorization req) with
        | Err e => r = e /\ status r = BAD_REQUEST
        | Ok credentials =>
            (~ administrator (shared w) credentials -> status r = UNAUTHORIZED /\ body r = []) /\
            (administrator (shared w) credentials ->
              (req_path req = bs "/status" ->
                 status r = OK /\ body r = to_json (status_of (shared w))) /\
              (req_path req = bs "/chart.min.js" -> status r = OK /\ body r = JS_CHART_MIN) /\
              (req_path req = bs "/" -> status r = OK /\ body r = HTML_STATS) /\
              (req_path req ∉ [bs "/status"; bs "/chart.min.js"; bs "/"] ->
                 r = http_error NOT_FOUND))
        end
    end) /\
  forall login password, colon ∉ login -> utf8 (login ++ colon :: password) ->
    parse_credentials (basic_header login password) = Ok (Some (login, password)).
Proof.
  split; [|by apply parse_basic_header]. unfold handler. destruct (req_method req); [|by eexists].
  destruct (parse_credentials (authorization req)) as [credentials|e] eqn:E.
  - rewrite run_bind. destruct (run_is_authorized credentials w) as (b & -> & Hb).
    destruct b; cbn [negb].
    + destruct (run_serve_page (req_path req) w) as (r & Hr & H). exists r. split; [done|].
      split; [|done]. intros []. by apply Hb.
    + eexists. split; [done|]. split; [done|]. intros Ha. by apply Hb in Ha.
  - eexists. split; [done|]. split; [done|]. revert E. unfold parse_credentials.
    repeat case_match; intros; simplify_eq/=; done.
Qed.
End spec.

(** ** A concrete page *)

#[local] Existing Instance demo_bcrypt.

(** An encoding that changes nothing. *)
#[export] Instance ref_base64 : Base64Ops := {| base64_decode b := Ok b; base64_encode b := b |}.
#[export] Program Instance ref_base64_laws : Base64Laws.
Next Obligation. done. Qed.

(** A server on which everybody is an administrator. *)
Definition public_server : Server :=
  mkServer demo_hub Counters.default (mkDb {[ bs "_" := Acl.new_full ]} [])
    Passwords.default Keys.default (mkLimits 0 8 64) true 1024 1024 (1%Z, 2%Z) [].

Lemma stats_access_witness :
  exists r, run (handler 1 (bs "host") (fun _ => bs "{}") (bs "<html>") (bs "js")
                   (mkRequest GET (bs "/status") None))
      (mkWorld 0 (mkConn [] None [] []) [] public_server) =
      Some (r, mkWorld 0 (mkConn [] None [] []) [] public_server) /\
    status r = OK /\ body r = bs "{}".
Proof.
  destruct (stats_access 1 (bs "host") (fun _ => bs "{}") (bs "<html>") (bs "js")
              (mkRequest GET (bs "/status") None)
              (mkWorld 0 (mkConn [] None [] []) [] public_server)) as [(r & Hr & _ & H) _].
  exists r. split; [exact Hr|]. apply H; [|reflexivity].
  exists Acl.new_full. split; [vm_refl|vm_refl].
Defined.
