(* ===== verification/Launch.v ===== *)
(** * The configuration of the server: src/src/server.rs

    What start-up makes of the configuration file: the paths, the databases ([load_acl],
    [load_auth]), the statics that [launch] sets, the configurations of the other nodes, and the reload
    on the hang-up signal. The contents of files and the YAML parsers are parameters; a panic is
    [None]. *)

From Stdlib Require Floats.SpecFloat.
From S2P Require Import Prelude Utf8 Proto Duration Io Acl Topic Token Pubsub Passwords Keys Server.
From S2P Require Client.

(** 5.0 *)
Definition DEFAULT_TIMEOUT_SECS : f64 := SpecFloat.S754_finite false (5 * 2 ^ 50)%positive (-50).
Definition DEFAULT_STANDALONE_WORKERS : N := 1.

Inductive StringOrList : Type :=
| Single (s : bytes)
| Multiple (v : list bytes).

Module StringOrList.
Definition default : StringOrList := Multiple [].
Definition to_vec (l : StringOrList) : list bytes :=
  match l with
  | Single s => [s]
  | Multiple v => v
  end.
End StringOrList.

(** The sections of the configuration file. *)
Record ConfigCluster : Type := mkConfigCluster { cluster_config : bytes }.

Record ConfigAuth : Type := mkConfigAuth {
  cfg_allow_anonymous : bool;
  cfg_password_file : option bytes;
  cfg_key_file : option bytes;
  cfg_acl : bytes;
}.

Record ConfigProto : Type := mkConfigProto {
  bind : StringOrList;
  bind_udp : StringOrList;
  udp_frame_size : option N;
  proto_timeout : option f64;
  tls_pkcs12 : option bytes;
  tls_cert : option bytes;
  tls_key : option bytes;
  fips : bool;
  allow_no_tls : bool;
}.

Record ConfigServer : Type := mkConfigServer {
  workers : option N;
  cfg_latency_warn : N;
  data_queue : N;
  cfg_max_topic_depth : N;
  cfg_max_pub_size : N;
  cfg_max_topic_length : N;
  cfg_pid_file : option bytes;
  bind_stats : option bytes;
  license : option bytes;
}.

Record ServerConfig : Type := mkServerConfig {
  cfg_server : ConfigServer;
  cfg_proto : ConfigProto;
  cfg_auth : ConfigAuth;
  cfg_cluster : option ConfigCluster;
}.

(** ** Paths *)

(** [PathBuf::push] of a relative path. *)
Definition push_path (dir p : bytes) : bytes :=
  if bool_decide (dir = []) || ends_with [slash] dir then dir ++ p else dir ++ slash :: p.

Definition format_path (p cdir : bytes) : bytes :=
  if starts_with [slash] p || starts_with (bs ".") p then p else push_path cdir p.

(** ** Databases *)

Section files.
Context {SMO : SubMapOps} {CHO : ChannelOps} {HXO : HexOps} {AEO : AeadOps}.
Variable read_to_string : bytes -> result bytes IoError.
Variable parse_acls : bytes -> result (gmap bytes Acl) bytes.
Variable parse_keys : bytes -> result (gmap bytes bytes) bytes.
Variable parse_configs : bytes -> result (list Client.Config.Fields) bytes.

(** [reload_db!]: an error is only logged. *)
Definition reload_passwords (s : Server) : Server :=
  set_password_db (Passwords.reload read_to_string (password_db s)).1 s.

Definition reload_keys (s : Server) : Server :=
  set_key_db (Keys.reload read_to_string parse_keys (acl_db s) (key_db s)).1 s.

Definition load_auth (c : ConfigAuth) (cdir : bytes) (s : Server) : Server :=
  let s := match cfg_password_file c with
           | Some f =>
               reload_passwords
                 (set_password_db
                    (Passwords.set_password_file (format_path f cdir) (password_db s)) s)
           | None => s
           end in
  match cfg_key_file c with
  | Some f =>
      reload_keys (set_key_db (Keys.set_key_file (format_path f cdir) (key_db s)) s)
  | None => s
  end.

(** An error of the access lists is a panic. *)
Definition load_acl (c : ConfigAuth) (cdir : bytes) (s : Server) : option Server :=
  let '(db, r) := Db.reload read_to_string parse_acls
                    (Db.set_path (format_path (cfg_acl c) cdir) (acl_db s)) in
  match r with
  | Ok _ => Some (set_acl_db db s)
  | Err _ => None
  end.

(** The statics that [launch] sets. *)
Definition set_statics (c : ServerConfig) (s : Server) : Server :=
  let cs := cfg_server c in
  mkServer (hub s) (counters s) (acl_db s) (password_db s) (key_db s)
    (set_max_topic_depth (cfg_max_topic_depth cs)
       (set_data_queue_size (data_queue cs) (set_latency_warn (cfg_latency_warn cs) (limits s))))
    (cfg_allow_anonymous (cfg_auth c)) (cfg_max_pub_size cs) (cfg_max_topic_length cs)
    (wall s) (spawned s).

(** [launch], up to the start of the listeners; a standalone server loads its databases here. *)
Definition launch (c : ServerConfig) (cdir : bytes) (standalone : bool) (s : Server) :
    option Server :=
  let s := set_statics c s in
  if standalone then load_auth (cfg_auth c) cdir <$> load_acl (cfg_auth c) cdir s else Some s.

(** The handler of the hang-up signal: three reloads whose errors are only logged. *)
Definition hangup (s : Server) : Server :=
  reload_keys (reload_passwords
    (set_acl_db (Db.reload read_to_string parse_acls (acl_db s)).1 s)).

(** [prepare_replication_configs]: the nodes of the cluster file, with the certificates of their
    authorities loaded, and the queue size and timeout of this server. *)
Definition prepare_node (cdir : bytes) (timeout queue_size : N) (c : Client.Config) :
    option Client.Config :=
  c ← match Client.tls_ca c with
      | Some ca =>
          match read_to_string (format_path ca cdir) with
          | Ok pem => Some (Client.Config.update_tls_ca pem c)
          | Err _ => None
          end
      | None => Some c
      end;
  Some (Client.Config.set_timeout timeout (Client.Config.set_queue_size queue_size c)).

Definition prepare_replication_configs (config_cluster : option ConfigCluster) (cdir : bytes)
    (timeout queue_size : N) : option (option (list Client.Config)) :=
  match config_cluster with
  | None => Some None
  | Some c =>
      match read_to_string (format_path (cluster_config c) cdir) with
      | Err _ => None
      | Ok text =>
          match parse_configs text with
          | Err _ => None
          | Ok l =>
              cfgs ← mapM Client.Config.deserialize l;
              Some <$> mapM (prepare_node cdir timeout queue_size) cfgs
          end
      end
  end.

Definition load_license (license : option bytes) (cdir : bytes) : option (option bytes) :=
  match license with
  | None => Some None
  | Some f =>
      match read_to_string (format_path f cdir) with
      | Ok text => Some (Some text)
      | Err _ => None
      end
  end.
End files.

(** ** Correctness *)

Section spec.
Context {SMO : SubMapOps} {CHO : ChannelOps} {HXO : HexOps} {AEO : AeadOps}.
Variable read_to_string : bytes -> result bytes IoError.
Variable parse_acls : bytes -> result (gmap bytes Acl) bytes.
Variable parse_keys : bytes -> result (gmap bytes bytes) bytes.

(** The content of a file that is set, can be read and can be parsed. *)
Definition loaded {A} (parse : bytes -> result A bytes) (file : option bytes) : option A :=
  match file with
  | Some f =>
      match read_to_string f with
      | Ok text => match parse text with Ok a => Some a | Err _ => None end
      | Err _ => None
      end
  | None => None
  end.

(** C39: the reload on the hang-up signal. Every table whose file can be read and parsed is replaced
    by the content of the file and every other table stays; the keys are checked against the access
    lists as they are after the reload; the clients, their subscriptions and the limits are not
    touched. *)
Theorem hangup_spec (s : Server) :
  let s' := hangup read_to_string parse_acls parse_keys s in
  hub s' = hub s /\ counters s' = counters s /\ limits s' = limits s /\
  allow_anonymous s' = allow_anonymous s /\
  acls (acl_db s') = default (acls (acl_db s)) (loaded parse_acls (Some (path (acl_db s)))) /\
  match loaded (fun text => Ok (lines (trim text))) (password_file (password_db s)) with
  | Some l => forall login, passwords (password_db s') ≫= lookup login =
      last_entry login (omap Passwords.parse_line l)
  | None => password_db s' = password_db s
  end /\
  match loaded parse_keys (key_file (key_db s)) with
  | Some m => forall login, keys (key_db s') ≫= lookup login =
      match m !! login, Db.get_acl (acl_db s') login with
      | Some k, Some _ =>
          match Token.from_str k with Ok t => Some (mkKey (take 16 t) t) | Err _ => None end
      | _, _ => None
      end
  | None => key_db s' = key_db s
  end.
Proof.
  unfold hangup, reload_keys, reload_passwords. simpl. do 4 (split; [done|]). split_and!.
  - unfold Db.reload, loaded. destruct (read_to_string _) as [text|]; simpl; [|done].
    by destruct (parse_acls text).
  - unfold Passwords.reload, loaded. destruct (password_file _) as [f|] eqn:Ef; [|done].
    destruct (read_to_string f) as [data|]; simpl; [|done]. intros login.
    by rewrite load_lines_lookup, lookup_empty; unfold last_entry; destruct (list_find _ _) as [[]|].
  - set (db := (Db.reload _ _ _).1). unfold Keys.reload, loaded.
    destruct (key_file (key_db s)) as [f|] eqn:Ef; [|done].
    destruct (read_to_string f) as [data|]; simpl; [|done].
    destruct (parse_keys data) as [m|]; simpl; [|done]. intros login. rewrite map_lookup_imap.
    destruct (m !! login) as [k|]; [|done]. simpl. unfold Keys.load_key, Db.has_acl, Db.get_acl.
    destruct (Token.from_str k); by destruct (acls db !! login).
Qed.
End spec.
