(* ===== verification/Start.v ===== *)
(** * The process of the server: src/src/server.rs

    [main] of psrtd, from the options to the listeners, and its end: the lookup of the configuration
    file, the sockets ([Listeners::create]), the identity for TLS, [launch] and [launch_server], the
    handlers of the signals, [terminate] and [cleanup]. The state is what the process leaves in the
    file system (UNIX sockets, PID file), the statics that name them, the statics of the server and
    the handlers that were spawned. What the operating system, OpenSSL and the crates answer are
    parameters ([OsOps], [TlsOps]). *)

From S2P Require Import Prelude Utf8 Proto Duration Io Acl Topic Token Pubsub Passwords Keys Server Launch.
From S2P Require Client.

(** ** The world outside *)

Inductive Socket : Type :=
| Unix (path : bytes)
| Tcp (addr : bytes)
| Udp (addr : bytes).

Class OsOps : Type := {
  (** [read_to_string] and [read]. *)
  os_read : bytes -> result bytes IoError;
  (** Binding a socket, on a path that is free for a UNIX socket. *)
  os_bind : Socket -> result unit IoError;
  (** [metadata] and [set_permissions] of a UNIX socket. *)
  os_permissions : bytes -> result unit IoError;
  (** Whether [remove_file] removes the file, if it is there, and [write] can write it. *)
  os_removable : bytes -> bool;
  (** [tokio::fs::write]: a failure comes with what it left in the file, once it had opened it. *)
  os_write : bytes -> result unit (IoError * option bytes);
  (** [Path::canonicalize] and the parser of socket addresses. *)
  os_canonicalize : bytes -> option bytes;
  os_parse_addr : bytes -> option bytes;
  (** [std::process::id], [hostname::get] and the environment. *)
  os_pid : N;
  os_hostname : option bytes;
  os_env : bytes -> option bytes;
  os_syslog : bool;
  (** The result of [fork::daemon]: whether this is the process called the child. *)
  os_daemon_child : bool;
  (** [eva_common::services::enable_fips]. *)
  os_enable_fips : bool;
}.

(** The identities and acceptors of native_tls, and the keys of OpenSSL. *)
Class TlsOps : Type := {
  Identity : Type;
  Acceptor : Type;
  from_pkcs12 : bytes -> bytes -> option Identity;
  private_key_to_pkcs8 : bytes -> option bytes;
  from_pkcs8 : bytes -> bytes -> option Identity;
  new_acceptor : Identity -> result Acceptor bytes;
}.

(** The parsers of the configuration files. *)
Class ParserOps : Type := {
  parse_config : bytes -> option ServerConfig;
  parse_acls : bytes -> result (gmap bytes Acl) bytes;
  parse_keys : bytes -> result (gmap bytes bytes) bytes;
  parse_configs : bytes -> result (list Client.Config.Fields) bytes;
}.

(** ** The state *)

Inductive Signal : Type :=
| Interrupt
| Terminate
| Hangup.

(** What is in the file system: only what the process makes is of interest. *)
Inductive File : Type :=
| SocketFile
| Content (text : bytes).

(** [Listeners]: the sockets of each kind, in order. *)
Record Listeners : Type := mkListeners {
  tcp : list bytes;
  udp : list bytes;
  unix : list bytes;
}.

(** The tasks that start-up spawns. *)
Inductive Handler `{TlsOps} : Type :=
| UnixListener (path : bytes) (timeout : N)
| TcpListener (addr : bytes) (acceptor : option Acceptor) (timeout : N) (allow_no_tls : bool)
| UdpListener (addr : bytes) (frame_size : N)
| StatsServer (addr : bytes)
| TermHandler (kind : Signal) (allow_log : bool)
| HangupHandler.

Record Process `{SubMapOps} `{ChannelOps} `{TlsOps} : Type := mkProcess {
  files : gmap bytes File;
  UNIX_SOCKETS : gset bytes;
  PID_FILE : option bytes;
  HOST_NAME : option bytes;
  psrtd : Server;
  handlers : list Handler;
  pending : list Signal;
  exited : option N;
}.
Arguments mkProcess {_ _ _} _ _ _ _ _ _ _ _.

(** How a function ends when it does not end with its result: with an error, with a panic, or with
    the process. *)
Inductive Stop : Type :=
| Failed (e : Error)
| Panicked
| Exited.

(** ** Pure parts *)

Section pure.
Context {OSO : OsOps} {TLO : TlsOps} {PAO : ParserOps}.

Definition CONFIG_FILES : list bytes :=
  [bs "/etc/psrtd/config.yml"; bs "/usr/local/etc/psrtd/config.yml"].

(** The first of the files that is there, with its text. *)
Fixpoint first_config (l : list bytes) : option (bytes * bytes) :=
  match l with
  | [] => None
  | cfile :: l' =>
      match os_read cfile with
      | Ok v => Some (v, cfile)
      | Err e => match io_kind e with NotFound => first_config l' | _ => None end
      end
  end.

Definition find_config (config_file : option bytes) : option (bytes * bytes) :=
  match config_file with
  | Some cfile => match os_read cfile with Ok v => Some (v, cfile) | Err _ => None end
  | None => first_config CONFIG_FILES
  end.

(** The text before the last separator. *)
Fixpoint before_last (c : byte) (l : bytes) : option bytes :=
  match l with
  | [] => None
  | b :: l' =>
      match before_last c l' with
      | Some p => Some (b :: p)
      | None => if decide (b = c) then Some [] else None
      end
  end.

(** [Path::parent] of the path of a file. *)
Definition parent (p : bytes) : bytes :=
  match before_last slash p with
  | None => []
  | Some [] => [slash]
  | Some d => d
  end.

Definition config_dir (cfile : bytes) : option bytes :=
  let cfile := if starts_with (bs ".") cfile || starts_with [slash] cfile then cfile
               else bs "./" ++ cfile in
  os_canonicalize (parent cfile).

(** Where the log goes. *)
Inductive Logger : Type :=
| Console (trace : bool)
| Syslog.

Definition choose_logger (verbose daemonize log_syslog : bool) : Logger :=
  if verbose then Console true
  else if (negb daemonize || bool_decide (default (bs "0") (os_env (bs "DISABLE_SYSLOG")) = bs "1"))
          && negb log_syslog then Console false
  else if os_syslog then Syslog else Console false.

Definition read_file (f : bytes) : option bytes :=
  match os_read f with Ok v => Some v | Err _ => None end.

(** [None] is a panic. *)
Definition prepare_tls_identity (c : ConfigProto) (cdir : bytes) : option (option Identity) :=
  match tls_pkcs12 c with
  | Some f =>
      p12 ← read_file (format_path f cdir);
      Some <$> from_pkcs12 p12 []
  | None =>
      match tls_cert c with
      | Some f =>
          cert ← read_file (format_path f cdir);
          key_path ← tls_key c;
          key ← read_file (format_path key_path cdir);
          pkcs8 ← private_key_to_pkcs8 key;
          Some <$> from_pkcs8 cert pkcs8
      | None => Some None
      end
  end.

Record AdditinalConfigs : Type := mkAdditinalConfigs {
  tls_identity : option Identity;
  replication_configs : option (list Client.Config);
  ac_license : option bytes;
}.

(** [AdditinalConfigs::load] *)
Definition load (c : ServerConfig) (cdir : bytes) (timeout : N) : option AdditinalConfigs :=
  tls ← prepare_tls_identity (cfg_proto c) cdir;
  repl ← prepare_replication_configs os_read parse_configs (cfg_cluster c) cdir timeout
           (data_queue (cfg_server c));
  lic ← load_license os_read (license (cfg_server c)) cdir;
  Some (mkAdditinalConfigs tls repl lic).
End pure.

(** ** The steps of start-up and termination *)

Section process.
Context {SMO : SubMapOps} {CHO : ChannelOps} {HXO : HexOps} {AEO : AeadOps}.
Context {OSO : OsOps} {TLO : TlsOps} {PAO : ParserOps}.

Definition set_files (f : gmap bytes File) (p : Process) : Process :=
  mkProcess f (UNIX_SOCKETS p) (PID_FILE p) (HOST_NAME p) (psrtd p) (handlers p) (pending p) (exited p).

Definition set_unix_sockets (l : gset bytes) (p : Process) : Process :=
  mkProcess (files p) l (PID_FILE p) (HOST_NAME p) (psrtd p) (handlers p) (pending p) (exited p).

Definition set_pid_file (f : option bytes) (p : Process) : Process :=
  mkProcess (files p) (UNIX_SOCKETS p) f (HOST_NAME p) (psrtd p) (handlers p) (pending p) (exited p).

Definition set_host_name (h : bytes) (p : Process) : Process :=
  mkProcess (files p) (UNIX_SOCKETS p) (PID_FILE p) (Some h) (psrtd p) (handlers p) (pending p) (exited p).

Definition set_psrtd (s : Server) (p : Process) : Process :=
  mkProcess (files p) (UNIX_SOCKETS p) (PID_FILE p) (HOST_NAME p) s (handlers p) (pending p) (exited p).

Definition set_handlers (l : list Handler) (p : Process) : Process :=
  mkProcess (files p) (UNIX_SOCKETS p) (PID_FILE p) (HOST_NAME p) (psrtd p) l (pending p) (exited p).

Definition set_pending (l : list Signal) (p : Process) : Process :=
  mkProcess (files p) (UNIX_SOCKETS p) (PID_FILE p) (HOST_NAME p) (psrtd p) (handlers p) l (exited p).

Definition exit (code : N) (p : Process) : Process :=
  mkProcess (files p) (UNIX_SOCKETS p) (PID_FILE p) (HOST_NAME p) (psrtd p) (handlers p) (pending p)
    (Some code).

(** [let _ = remove_file(path)] *)
Definition remove_file (f : bytes) (p : Process) : Process :=
  if os_removable f then set_files (delete f (files p)) p else p.

Definition spawn (h : Handler) : prog Process unit :=
  modify (fun p => set_handlers (handlers p ++ [h]) p).

(** A panic unless there is a value. *)
Definition expect {A} (o : option A) : prog Process (result A Stop) := Ret (ok_or o Panicked).

(** The operator [?] on a result of the operating system. *)
Definition try_io {A} (r : result A IoError) : prog Process (result A Error) :=
  lift (map_err from_io_error r).

(** *** Sockets *)

(** [UnixListener::bind]: the path must be free. *)
Definition bind_unix (b : bytes) : prog Process (result unit Error) :=
  r <-- atomic (fun p =>
    match files p !! b, os_bind (Unix b) with
    | None, Ok _ => (Ok tt, set_files (<[b := SocketFile]> (files p)) p)
    | None, Err e => (Err e, p)
    | Some _, _ => (Err (mkIoError OtherIo (bs "Address already in use")), p)
    end) ;;
  try_io r.

Definition bind_one (cdir s_bind : bytes) (l : Listeners) : prog Process (result Listeners Error) :=
  if is_unix_socket s_bind then
    let b := format_path s_bind cdir in
    _ <-- modify (remove_file b) ;;
    _ <-? bind_unix b ;;
    _ <-? try_io (os_permissions b) ;;
    _ <-- modify (fun p => set_unix_sockets ({[b]} ∪ UNIX_SOCKETS p) p) ;;
    Ret (Ok (mkListeners (tcp l) (udp l) (unix l ++ [b])))
  else
    _ <-? try_io (os_bind (Tcp s_bind)) ;;
    Ret (Ok (mkListeners (tcp l ++ [s_bind]) (udp l) (unix l))).

Definition bind_datagram (b : bytes) (l : Listeners) : prog Process (result Listeners Error) :=
  _ <-? try_io (os_bind (Udp b)) ;;
  Ret (Ok (mkListeners (tcp l) (udp l ++ [b]) (unix l))).

Fixpoint for_fold {A B} (f : B -> A -> prog Process (result A Error)) (l : list B) (a : A) :
    prog Process (result A Error) :=
  match l with
  | [] => Ret (Ok a)
  | b :: l' => a <-? f b a ;; for_fold f l' a
  end.

(** [Listeners::create] *)
Definition create (c : ConfigProto) (cdir : bytes) : prog Process (result Listeners Error) :=
  l <-? for_fold (bind_one cdir) (StringOrList.to_vec (bind c)) (mkListeners [] [] []) ;;
  for_fold bind_datagram (StringOrList.to_vec (bind_udp c)) l.

(** *** The end *)

Definition cleanup (p : Process) : Process := foldr remove_file p (elements (UNIX_SOCKETS p)).

Definition terminate (allow_log : bool) : prog Process unit :=
  f <-- asks PID_FILE ;;
  _ <-- modify (fun p => match f with Some f => remove_file f p | None => p end) ;;
  _ <-- modify cleanup ;;
  modify (exit 0).

(** A signal of the given kind arrives. *)
Definition signal (kind : Signal) : prog Process unit :=
  await (fun p => match pending p with
                  | s :: l => match s, kind with
                              | Interrupt, Interrupt | Terminate, Terminate | Hangup, Hangup =>
                                  Some (tt, set_pending l p)
                              | _, _ => None
                              end
                  | [] => None
                  end).

(** [handle_term_signal!]; [bound] tells whether the signal could be bound to. *)
Definition handle_term_signal (bound : bool) (kind : Signal) (allow_log : bool) : prog Process unit :=
  if bound then _ <-- signal kind ;; terminate allow_log else Ret tt.

(** A round of the handler of the hang-up signal. *)
Definition handle_hangup (bound : bool) : prog Process (option unit) :=
  if bound then
    _ <-- signal Hangup ;;
    _ <-- modify (fun p => set_psrtd (hangup os_read parse_acls parse_keys (psrtd p)) p) ;;
    Ret None
  else Ret (Some tt).

(** *** The server *)

(** [stats::start]: the server of the status pages. *)
Definition start (path : bytes) : prog Process (result unit Stop) :=
  addr <-? expect (os_parse_addr path) ;;
  _ <-- spawn (StatsServer addr) ;;
  Ret (Ok tt).

(** [launch_server]; [Ok] is the endless loop at its end. *)
(** [tokio::fs::write(f, text).await?] *)
Definition write_file (f text : bytes) (p : Process) : result unit Stop * Process :=
  match os_write f with
  | Ok _ => (Ok tt, set_files (<[f := Content text]> (files p)) p)
  | Err (e, trace) =>
      (Err (Failed (from_io_error e)),
       match trace with
       | Some part => set_files (<[f := Content part]> (files p)) p
       | None => p
       end)
  end.

Definition launch_server (c : ServerConfig) (l : Listeners) (timeout : N)
    (identity : option Identity) (create_pid_file : bool) : prog Process (result unit Stop) :=
  acceptor <-? lift (match identity with
                     | Some i => map_err (fun e => Failed (from_tls_error e))
                                   (let? a := new_acceptor i in Ok (Some a))
                     | None => Ok None
                     end) ;;
  let frame_size := default DEFAULT_UDP_FRAME_SIZE (udp_frame_size (cfg_proto c)) in
  _ <-? (if create_pid_file then
           f <-? expect (cfg_pid_file (cfg_server c)) ;;
           _ <-- modify (set_pid_file (Some f)) ;;
           atomic (write_file f (show_N os_pid))
         else Ret (Ok tt)) ;;
  _ <-? for_each (unix l) (fun b => _ <-- spawn (UnixListener b timeout) ;; Ret (Ok tt)) ;;
  _ <-? for_each (tcp l) (fun a =>
    _ <-- spawn (TcpListener a acceptor timeout (allow_no_tls (cfg_proto c))) ;; Ret (Ok tt)) ;;
  for_each (udp l) (fun a => _ <-- spawn (UdpListener a frame_size) ;; Ret (Ok tt)).

(** The databases and statics, as Launch.v has them; [None] is a panic. *)
Definition launch_statics (c : ServerConfig) (cdir : bytes) (standalone : bool) :
    prog Process (result unit Stop) :=
  atomic (fun p =>
    match Launch.launch os_read parse_acls parse_keys c cdir standalone (psrtd p) with
    | Some s => (Ok tt, set_psrtd s p)
    | None => (Err Panicked, p)
    end).

Definition launch (c : ServerConfig) (ac : AdditinalConfigs) (l : Listeners) (cdir : bytes)
    (timeout : N) (standalone : bool) : prog Process (result unit Stop) :=
  _ <-? launch_statics c cdir standalone ;;
  _ <-- (if standalone then
           _ <-- spawn (TermHandler Interrupt false) ;;
           _ <-- spawn (TermHandler Terminate true) ;;
           spawn HangupHandler
         else Ret tt) ;;
  _ <-? (match bind_stats (cfg_server c) with
         | Some path => start path
         | None => Ret (Ok tt)
         end) ;;
  r <-- launch_server c l timeout (tls_identity ac) standalone ;;
  match r with
  | Err (Failed e) =>
      _ <-- modify cleanup ;;
      _ <-- modify (exit 1) ;;
      Ret (Err Exited)
  | r => Ret r
  end.

(** [None] is a panic. *)
Definition default_timeout (c : ServerConfig) : option N :=
  from_secs_f64 (default DEFAULT_TIMEOUT_SECS (proto_timeout (cfg_proto c))).

(** The end of [main]: the timeout and the body of [block_on]. *)
Definition standalone (c : ServerConfig) (cdir : bytes) : prog Process (result unit Stop) :=
  timeout <-? expect (default_timeout c) ;;
  ac <-? expect (load c cdir timeout) ;;
  r <-- create (cfg_proto c) cdir ;;
  l <-? lift (map_err (fun _ => Panicked) r) ;;
  launch c ac l cdir timeout true.

(** [main] after the logger: the configuration, the daemon, the server. *)
Definition main_standalone (config_file : option bytes) (daemonize : bool) :
    prog Process (result unit Stop) :=
  cfg <-? expect (find_config config_file) ;;
  cdir <-? expect (config_dir cfg.2) ;;
  config <-? expect (parse_config cfg.1) ;;
  _ <-? expect (if fips (cfg_proto config) && negb os_enable_fips then None else Some tt) ;;
  if daemonize && os_daemon_child then
    _ <-- modify (exit 0) ;;
    Ret (Err Exited)
  else standalone config cdir.

(** The name of the host, as [main] sets it first. *)
Definition name_host : prog Process unit :=
  modify (set_host_name (default (bs "unknown") os_hostname)).

(** [main] without the option [--eva-svc]. *)
Definition main (config_file : option bytes) (daemonize : bool) : prog Process (result unit Stop) :=
  _ <-- name_host ;;
  main_standalone config_file daemonize.
End process.
