(* ===== verification/StartSpec.v ===== *)
(** * The life of the server process

    What a start leaves behind: the handlers that run, the sockets and the PID file, the statics; and
    that termination, or a start that fails after its sockets were bound, takes the files away
    again. *)

From S2P Require Import Prelude Utf8 Proto Io Acl Topic Token Pubsub Reference Passwords Keys Server.
From S2P Require Import Launch Start.
From S2P Require Client.

Section spec.
Context {SMO : SubMapOps} {CHO : ChannelOps} {HXO : HexOps} {AEO : AeadOps}.
Context {OSO : OsOps} {TLO : TlsOps} {PAO : ParserOps}.

(** The UNIX sockets of a list of addresses. *)
Definition unix_paths (cdir : bytes) (l : list bytes) : list bytes :=
  (fun b => format_path b cdir) <$> filter (fun b => is_unix_socket b = true) l.

(** The sockets of a configuration, by kind and in its order. *)
Definition configured (c : ConfigProto) (cdir : bytes) : Listeners :=
  let l := StringOrList.to_vec (bind c) in
  mkListeners (filter (fun b => is_unix_socket b = false) l) (StringOrList.to_vec (bind_udp c))
    (unix_paths cdir l).

(** What a step keeps besides files and sockets. *)
Definition rest (p : Process) :=
  (PID_FILE p, HOST_NAME p, psrtd p, handlers p, pending p, exited p).

(** The sockets [l] were bound. *)
Record bound_sockets (l : list bytes) (p p' : Process) : Prop := {
  bs_files f : files p' !! f = if decide (f ∈ l) then Some SocketFile else files p !! f;
  bs_sockets : UNIX_SOCKETS p' = list_to_set l ∪ UNIX_SOCKETS p;
  bs_rest : rest p' = rest p;
}.

Lemma bound_sockets_nil p : bound_sockets [] p p.
Proof. split; [done| |done]. simpl. by rewrite (left_id_L ∅ (∪)). Qed.

Lemma bound_sockets_app l l' p p1 p2 :
  bound_sockets l p p1 -> bound_sockets l' p1 p2 -> bound_sockets (l ++ l') p p2.
Proof.
  intros [A1 A2 A3] [B1 B2 B3]. split; [| |congruence].
  - intros f. rewrite B1, A1. repeat case_decide; set_solver.
  - rewrite B2, A2, list_to_set_app_L. set_solver.
Qed.

(** Remove, bind, and enter into the list. *)
Lemma bound_sockets_one b p :
  bound_sockets [b] p
    (set_unix_sockets ({[b]} ∪ UNIX_SOCKETS p) (set_files (<[b := SocketFile]> (files p)) p)).
Proof.
  split; simpl; [|set_solver|done]. intros f. rewrite lookup_insert.
  repeat case_decide; set_solver.
Qed.

Lemma unix_paths_one cdir b :
  unix_paths cdir [b] = if is_unix_socket b then [format_path b cdir] else [].
Proof. unfold unix_paths. rewrite filter_cons. by destruct (is_unix_socket b). Qed.

Lemma tcp_one b :
  filter (fun b => is_unix_socket b = false) [b] = if is_unix_socket b then [] else [b].
Proof. rewrite filter_cons. by destruct (is_unix_socket b). Qed.

Lemma bind_one_spec cdir b a (w : World Process) :
  returns (bind_one cdir b a) w (fun r w' =>
    match r with
    | Ok l => bound_sockets (unix_paths cdir [b]) (shared w) (shared w') /\
        udp l = udp a /\ unix l = unix a ++ unix_paths cdir [b] /\
        tcp l = tcp a ++ filter (fun b => is_unix_socket b = false) [b]
    | Err _ => True
    end).
Proof.
  unfold bind_one, bind_unix, try_io, lift. rewrite unix_paths_one, tcp_one.
  destruct (is_unix_socket b).
  - apply returns_bind, returns_modify. apply returns_qbind, returns_bind, returns_atomic.
    set (p := format_path b cdir). cbn [shared set_shared].
    assert (forall s, files (remove_file p s) !! p = None ->
      files (remove_file p s) = delete p (files s) /\
      UNIX_SOCKETS (remove_file p s) = UNIX_SOCKETS s /\ rest (remove_file p s) = rest s) as Hrm.
    { intros s. unfold remove_file. destruct (os_removable p); simpl; [done|].
      intros H. by rewrite delete_id. }
    destruct (files (remove_file p (shared w)) !! p) eqn:E; cbn [map_err fst snd];
      [by apply returns_ret|].
    destruct (os_bind (Unix p)); cbn [map_err fst snd]; apply returns_ret; [|done].
    cbn [map_err]. destruct (Hrm _ E) as (H1 & H2 & H3).
    apply returns_qbind, returns_ret. destruct (os_permissions p); cbn [map_err]; [|done].
    apply returns_bind, returns_modify, returns_ret. simpl.
    rewrite app_nil_r. split; [|done].
    pose proof (bound_sockets_one p (shared w)) as [B1 B2 B3]. split; simpl.
    + intros f. rewrite H1, insert_delete_eq. apply B1.
    + by rewrite H2.
    + exact H3.
  - apply returns_qbind, returns_ret. destruct (os_bind (Tcp b)); cbn [map_err]; [|done].
    apply returns_ret. simpl. rewrite app_nil_r. split; [|done]. apply bound_sockets_nil.
Qed.

Lemma for_fold_bind cdir l a (w : World Process) :
  returns (for_fold (bind_one cdir) l a) w (fun r w' =>
    match r with
    | Ok r => bound_sockets (unix_paths cdir l) (shared w) (shared w') /\
        udp r = udp a /\ unix r = unix a ++ unix_paths cdir l /\
        tcp r = tcp a ++ filter (fun b => is_unix_socket b = false) l
    | Err _ => True
    end).
Proof.
  revert a w; induction l as [|b l IH]; intros a w; cbn [for_fold].
  - apply returns_ret. rewrite !app_nil_r. split; [apply bound_sockets_nil|done].
  - change (b :: l) with ([b] ++ l). unfold unix_paths in *. rewrite !filter_app, !fmap_app.
    apply returns_qbind. eapply returns_mono; [apply bind_one_spec|].
    intros [r|e] w1; [|done]. intros (B & H1 & H2 & H3).
    eapply returns_mono; [apply IH|]. intros [r'|e] w2; [|done]. intros (B' & H4 & H5 & H6).
    rewrite H4, H5, H6, H1, H2, H3, <- !app_assoc.
    split; [by eapply bound_sockets_app|done].
Qed.

Lemma for_fold_datagram l a (w : World Process) :
  returns (for_fold bind_datagram l a) w (fun r w' =>
    match r with
    | Ok r => shared w' = shared w /\ tcp r = tcp a /\ unix r = unix a /\ udp r = udp a ++ l
    | Err _ => True
    end).
Proof.
  revert a w; induction l as [|b l IH]; intros a w; cbn [for_fold].
  - apply returns_ret. by rewrite app_nil_r.
  - apply returns_qbind. unfold bind_datagram, try_io, lift.
    apply returns_qbind, returns_ret. destruct (os_bind (Udp b)); cbn [map_err]; [|done].
    apply returns_ret. eapply returns_mono; [apply IH|].
    intros [r|e] w2; [|done]. cbn [tcp unix udp]. rewrite <- app_assoc. done.
Qed.

(** The server listens on exactly the sockets of its configuration, or does not start. *)
Lemma create_spec c cdir (w : World Process) :
  returns (create c cdir) w (fun r w' =>
    match r with
    | Ok l => l = configured c cdir /\ bound_sockets (unix l) (shared w) (shared w')
    | Err _ => True
    end).
Proof.
  apply returns_qbind. eapply returns_mono; [apply for_fold_bind|].
  intros [l|e] w1; [|done]. intros (B & H1 & H2 & H3).
  eapply returns_mono; [apply for_fold_datagram|].
  intros [[lt lu lx]|e] w2; [|done]. cbn [tcp udp unix] in *. intros (-> & -> & -> & ->).
  unfold configured. by rewrite H1, H2, H3.
Qed.

(** ** Files that go away *)

(** The cases of [decide] that contradict each other. *)
Ltac absent := exfalso; set_unfold; subst; intuition congruence.

(** The files after removing those of [l]. *)
Definition without (l : gset bytes) (m : gmap bytes File) (f : bytes) : option File :=
  if decide (f ∈ l /\ os_removable f = true) then None else m !! f.

Lemma remove_files_spec l p :
  let p' := foldr remove_file p l in
  (forall f, files p' !! f = without (list_to_set l) (files p) f) /\
  UNIX_SOCKETS p' = UNIX_SOCKETS p /\ rest p' = rest p.
Proof.
  induction l as [|b l (IH1 & IH2 & IH3)]; cbn [foldr].
  { split; [|done]. intros f. unfold without. by rewrite decide_False by set_solver. }
  unfold remove_file at 1 3 5. destruct (os_removable b) eqn:E; (split; [|done]); intros f;
    simpl; [rewrite lookup_delete|]; rewrite IH1; unfold without; repeat case_decide; try done;
    absent.
Qed.

Lemma cleanup_spec p :
  (forall f, files (cleanup p) !! f = without (UNIX_SOCKETS p) (files p) f) /\ rest (cleanup p) = rest p.
Proof.
  unfold cleanup. destruct (remove_files_spec (elements (UNIX_SOCKETS p)) p) as (H1 & _ & H3).
  split; [|done]. intros f. rewrite H1. by rewrite list_to_set_elements_L.
Qed.

(** The files that a running server has made. *)
Definition own_files (p : Process) : gset bytes := UNIX_SOCKETS p ∪ from_option singleton ∅ (PID_FILE p).

Lemma terminate_spec allow_log (w : World Process) :
  returns (terminate allow_log) w (fun _ w' =>
    exited (shared w') = Some 0%N /\
    forall f, files (shared w') !! f = without (own_files (shared w)) (files (shared w)) f).
Proof.
  unfold terminate. apply returns_bind, returns_asks, returns_bind, returns_modify,
    returns_bind, returns_modify, returns_modify. cbn [shared set_shared]. split; [done|].
  intros f. cbn [exit files]. set (p := shared w). unfold own_files.
  destruct (cleanup_spec (match PID_FILE p with Some g => remove_file g p | None => p end)) as [-> _].
  destruct (PID_FILE p) as [g|]; simpl; [|by rewrite (right_id_L ∅ (∪))].
  unfold remove_file. destruct (os_removable g) eqn:E; unfold without; simpl;
    rewrite ?lookup_delete; repeat case_decide; try done; absent.
Qed.

(** ** The server that runs *)

Definition listener_handlers (c : ServerConfig) (l : Listeners) (timeout : N)
    (acceptor : option Acceptor) : list Handler :=
  ((fun b => UnixListener b timeout) <$> unix l) ++
  ((fun a => TcpListener a acceptor timeout (allow_no_tls (cfg_proto c))) <$> tcp l) ++
  ((fun a => UdpListener a (default DEFAULT_UDP_FRAME_SIZE (udp_frame_size (cfg_proto c)))) <$> udp l).

Definition signal_handlers (standalone : bool) : list Handler :=
  if standalone then [TermHandler Interrupt false; TermHandler Terminate true; HangupHandler] else [].

Definition stats_handlers (c : ServerConfig) : list Handler :=
  from_option (fun a => [StatsServer a]) [] (bind_stats (cfg_server c) ≫= os_parse_addr).

(** The acceptor of the identity: a server without identity has none. *)
Definition accepts_with (identity : option Identity) (acceptor : option Acceptor) : Prop :=
  match identity with
  | Some i => exists a, new_acceptor i = Ok a /\ acceptor = Some a
  | None => acceptor = None
  end.

(** The file of the process identifier, when one is to be written. *)
Definition with_pid_file (c : ServerConfig) (standalone : bool) (m : gmap bytes File)
    (pid : option bytes) (m' : gmap bytes File) (pid' : option bytes) : Prop :=
  if standalone then
    exists f, cfg_pid_file (cfg_server c) = Some f /\ pid' = Some f /\
      m' = <[f := Content (show_N os_pid)]> m
  else pid' = pid /\ m' = m.

(** What a failed write of that file may have left. *)
Definition partial_pid_file (c : ServerConfig) (standalone : bool) (m m' : gmap bytes File) : Prop :=
  m' = m \/ standalone = true /\
    exists f part, cfg_pid_file (cfg_server c) = Some f /\ m' = <[f := Content part]> m.

(** From [p], a server was launched on the listeners [l]. *)
Record launched (c : ServerConfig) (cdir : bytes) (l : Listeners) (timeout : N)
    (identity : option Identity) (standalone : bool) (p p' : Process) : Prop := {
  la_handlers : exists acceptor, accepts_with identity acceptor /\
    handlers p' = handlers p ++ signal_handlers standalone ++ stats_handlers c ++
      listener_handlers c l timeout acceptor;
  la_statics : Launch.launch os_read parse_acls parse_keys c cdir standalone (psrtd p) = Some (psrtd p');
  la_pid : with_pid_file c standalone (files p) (PID_FILE p) (files p') (PID_FILE p');
  la_sockets : UNIX_SOCKETS p' = UNIX_SOCKETS p;
  la_exited : exited p' = exited p;
}.

Lemma returns_spawn h (w : World Process) (Q : unit -> World Process -> Prop) :
  Q tt (set_shared (set_handlers (handlers (shared w) ++ [h]) (shared w)) w) -> returns (spawn h) w Q.
Proof. exact (returns_modify (fun p => set_handlers (handlers p ++ [h]) p) w Q). Qed.

Lemma returns_spawn_all {A} (h : A -> Handler) l (w : World Process)
    (Q : result unit Stop -> World Process -> Prop) :
  Q (Ok tt) (set_shared (set_handlers (handlers (shared w) ++ (h <$> l)) (shared w)) w) ->
  returns (for_each l (fun a => _ <-- spawn (h a) ;; Ret (Ok tt))) w Q.
Proof.
  revert w; induction l as [|a l IH]; intros w H; cbn [for_each].
  - apply returns_ret. simpl in H. rewrite app_nil_r in H. destruct w as [? ? ? []]. exact H.
  - apply returns_qbind, returns_bind, returns_spawn, returns_ret, IH.
    cbn [shared set_shared handlers set_handlers]. rewrite <- app_assoc. exact H.
Qed.

Lemma launch_server_spec c l timeout identity pid (w : World Process) :
  returns (launch_server c l timeout identity pid) w (fun r w' =>
    UNIX_SOCKETS (shared w') = UNIX_SOCKETS (shared w) /\
    match r with
    | Ok _ => exists acceptor, accepts_with identity acceptor /\
        handlers (shared w') = handlers (shared w) ++ listener_handlers c l timeout acceptor /\
        with_pid_file c pid (files (shared w)) (PID_FILE (shared w))
          (files (shared w')) (PID_FILE (shared w')) /\
        psrtd (shared w') = psrtd (shared w) /\ exited (shared w') = exited (shared w)
    | Err (Failed _) => partial_pid_file c pid (files (shared w)) (files (shared w'))
    | Err Panicked => True
    | Err Exited => False
    end).
Proof.
  unfold launch_server, lift, listener_handlers.
  set (acceptor := match identity with Some _ => _ | None => _ end).
  apply returns_qbind, returns_ret.
  destruct acceptor as [acc|e] eqn:Eacc; unfold acceptor in Eacc; cycle 1.
  { destruct identity as [i|]; [|done]. destruct (new_acceptor i); cbn in Eacc; [done|].
    injection Eacc as <-. split; [done|by left]. }
  assert (accepts_with identity acc) as Hacc.
  { unfold accepts_with. destruct identity as [i|]; [|by injection Eacc].
    destruct (new_acceptor i) as [a|]; cbn in Eacc; [|done]. injection Eacc as <-. eauto. }
  apply returns_qbind. unfold with_pid_file, expect. destruct pid.
  - apply returns_qbind, returns_ret. destruct (cfg_pid_file (cfg_server c)) as [f|] eqn:Ef; [|done].
    apply returns_bind, returns_modify, returns_atomic. unfold write_file.
    destruct (os_write f) as [[]|[e trace]]; cbn [fst snd]; cycle 1.
    { destruct trace as [part|]; (split; [done|]); [|by left]. right. split; [done|]. by exists f, part. }
    apply returns_qbind, returns_spawn_all, returns_qbind, returns_spawn_all, returns_spawn_all.
    split; [done|]. exists acc. split; [done|]. simpl. rewrite <- !app_assoc.
    split; [done|]. split; [|done]. by exists f.
  - apply returns_ret, returns_qbind, returns_spawn_all, returns_qbind, returns_spawn_all,
      returns_spawn_all.
    split; [done|]. exists acc. split; [done|]. simpl. by rewrite <- !app_assoc.
Qed.

Lemma launch_spec c ac l cdir timeout sa (w : World Process) :
  returns (launch c ac l cdir timeout sa) w (fun r w' =>
    match r with
    | Ok _ => launched c cdir l timeout (tls_identity ac) sa (shared w) (shared w')
    | Err Exited => exited (shared w') = Some 1%N /\ exists m,
        partial_pid_file c sa (files (shared w)) m /\
        forall f, files (shared w') !! f = without (UNIX_SOCKETS (shared w)) m f
    | Err Panicked => True
    | Err (Failed _) => False
    end).
Proof.
  apply returns_qbind, returns_atomic.
  destruct (Launch.launch _ _ _ _ _ _ _) as [srv|] eqn:Esrv; [|done]. cbn [fst snd].
  assert (forall w1 : World Process,
    shared w1 = set_handlers (handlers (shared w) ++ signal_handlers sa) (set_psrtd srv (shared w)) ->
    forall Q : result unit Stop -> World Process -> Prop,
    (forall w2, shared w2 = set_handlers (handlers (shared w) ++ signal_handlers sa ++ stats_handlers c)
                              (set_psrtd srv (shared w)) -> Q (Ok tt) w2) ->
    (forall w2, Q (Err Panicked) w2) ->
    returns (match bind_stats (cfg_server c) with
             | Some path => start path
             | None => Ret (Ok tt)
             end) w1 Q) as Hstats.
  { intros w1 E1 Q HQ Hp. unfold stats_handlers in HQ.
    destruct (bind_stats (cfg_server c)) as [path|]; simpl in HQ.
    - apply returns_qbind, returns_ret. destruct (os_parse_addr path) as [a|]; [|apply Hp].
      cbn [ok_or]. apply returns_bind, returns_spawn, returns_ret, HQ. simpl. rewrite E1. simpl.
      by rewrite <- app_assoc.
    - apply returns_ret, HQ. by rewrite app_nil_r. }
  assert (forall w2 : World Process,
    shared w2 = set_handlers (handlers (shared w) ++ signal_handlers sa ++ stats_handlers c)
                  (set_psrtd srv (shared w)) ->
    returns (r <-- launch_server c l timeout (tls_identity ac) sa ;;
             match r with
             | Err (Failed e) => _ <-- modify cleanup ;; _ <-- modify (exit 1) ;; Ret (Err Exited)
             | r => Ret r
             end) w2 (fun r w' =>
      match r with
      | Ok _ => launched c cdir l timeout (tls_identity ac) sa (shared w) (shared w')
      | Err Exited => exited (shared w') = Some 1%N /\ exists m,
          partial_pid_file c sa (files (shared w)) m /\
          forall f, files (shared w') !! f = without (UNIX_SOCKETS (shared w)) m f
      | Err Panicked => True
      | Err (Failed _) => False
      end)) as Hserver.
  { intros w2 E2. apply returns_bind. eapply returns_mono; [apply launch_server_spec|].
    rewrite E2. cbn [UNIX_SOCKETS files psrtd handlers PID_FILE exited set_handlers set_psrtd].
    intros [[]|[e| |]] w3; [| |by intros; apply returns_ret|by intros []].
    - intros (Hs & acc & Ha & Hh & Hp & Hsrv & He). apply returns_ret.
      split; [|by rewrite Hsrv|done..]. exists acc. split; [done|]. by rewrite Hh, <- !app_assoc.
    - intros [Hs Hf]. apply returns_bind, returns_modify, returns_bind, returns_modify, returns_ret.
      cbn [shared set_shared exit exited files]. split; [done|]. exists (files (shared w3)).
      split; [exact Hf|]. intros f. destruct (cleanup_spec (shared w3)) as [-> _]. by rewrite Hs. }
  apply returns_bind. destruct sa.
  - apply returns_bind, returns_spawn, returns_bind, returns_spawn, returns_spawn.
    apply returns_qbind, Hstats; [|exact Hserver|done].
    simpl. by rewrite <- !app_assoc.
  - apply returns_ret, returns_qbind, Hstats; [|exact Hserver|done].
    simpl. by rewrite app_nil_r.
Qed.

(** The files of the process, when they can be removed, are gone and all others as before. *)
Lemma without_own l p0 p1 p pid c :
  bound_sockets l p0 p1 -> UNIX_SOCKETS p0 = ∅ -> UNIX_SOCKETS p = UNIX_SOCKETS p1 ->
  with_pid_file c true (files p1) pid (files p) (PID_FILE p) ->
  (forall f, f ∈ own_files p -> os_removable f = true) ->
  forall f, without (own_files p) (files p) f = if decide (f ∈ own_files p) then None else files p0 !! f.
Proof.
  intros [B1 B2 _] H0 Hs (g & _ & Hg & Hf) Hr f. unfold without.
  destruct (decide (f ∈ own_files p)) as [Hin|Hout].
  { by rewrite decide_True by auto. }
  rewrite decide_False by naive_solver. unfold own_files in Hout. rewrite Hs, B2, H0, Hg in Hout.
  rewrite Hf, lookup_insert, B1. simpl in Hout. repeat case_decide; [absent|absent|done].
Qed.

Lemma standalone_spec c cdir (w : World Process) :
  UNIX_SOCKETS (shared w) = ∅ ->
  let l := configured (cfg_proto c) cdir in
  returns (standalone c cdir) w (fun r w' =>
    match r with
    | Ok _ => exists timeout identity p1, default_timeout c = Some timeout /\
        prepare_tls_identity (cfg_proto c) cdir = Some identity /\
        bound_sockets (unix l) (shared w) p1 /\
        launched c cdir l timeout identity true p1 (shared w')
    | Err Exited => exited (shared w') = Some 1%N /\
        forall f, f ∈ unix l -> os_removable f = true -> files (shared w') !! f = None
    | Err Panicked => True
    | Err (Failed _) => False
    end).
Proof.
  intros H0 l. apply returns_qbind, returns_ret.
  destruct (default_timeout c) as [timeout|]; [|done]. apply returns_qbind, returns_ret. unfold load. destruct (prepare_tls_identity _ _) as [identity|]; [|done].
  simpl. destruct (prepare_replication_configs _ _ _ _ _ _) as [repl|]; [|done].
  simpl. destruct (load_license _ _ _) as [lic|]; [|done].
  cbn [ok_or]. apply returns_bind. eapply returns_mono; [apply create_spec|].
  intros [l'|e] w1; [|intros _; apply returns_qbind, returns_ret; done].
  intros [-> B]. apply returns_qbind, returns_ret. cbn [map_err].
  eapply returns_mono; [apply launch_spec|]. intros [[]|[| |]] w2; [|done|done|].
  - intros L. by exists timeout, identity, (shared w1).
  - intros [He (m & _ & Hf)]. split; [done|]. intros f Hin Hr. rewrite Hf. unfold without.
    rewrite decide_True; [done|]. split; [|done]. destruct B as [_ -> _].
    apply elem_of_union_l, elem_of_list_to_set, Hin.
Qed.

Lemma main_spec config_file text cfile cdir c (w : World Process) :
  find_config config_file = Some (text, cfile) -> config_dir cfile = Some cdir ->
  parse_config text = Some c -> fips (cfg_proto c) && negb os_enable_fips = false ->
  UNIX_SOCKETS (shared w) = ∅ ->
  let l := configured (cfg_proto c) cdir in
  returns (main config_file false) w (fun r w' =>
    match r with
    | Ok _ => exists timeout identity p1, default_timeout c = Some timeout /\
        prepare_tls_identity (cfg_proto c) cdir = Some identity /\
        bound_sockets (unix l) (set_host_name (default (bs "unknown") os_hostname) (shared w)) p1 /\
        launched c cdir l timeout identity true p1 (shared w')
    | Err Exited => exited (shared w') = Some 1%N /\
        forall f, f ∈ unix l -> os_removable f = true -> files (shared w') !! f = None
    | Err Panicked => True
    | Err (Failed _) => False
    end).
Proof.
  intros Hfind Hdir Hparse Hfips H0 l.
  apply returns_bind, returns_modify. unfold main_standalone, expect. rewrite Hfind.
  apply returns_qbind, returns_ret. cbn [ok_or fst snd]. rewrite Hdir.
  apply returns_qbind, returns_ret. cbn [ok_or]. rewrite Hparse.
  apply returns_qbind, returns_ret. cbn [ok_or]. rewrite Hfips.
  apply returns_qbind, returns_ret. apply (standalone_spec c cdir (set_shared _ w)), H0.
Qed.

(** C31: the life of a server. Started with a configuration that is found and parsed, the process
    either runs exactly the listeners of its configuration, in order, with TLS exactly when it has an
    identity, the handlers of the three signals and the status pages, on databases and limits as
    configured, with its UNIX sockets and its PID file in the file system; and then the termination
    ends it with the code 0 and leaves the file system without its own files and as it was before
    otherwise. Or it fails after its sockets were bound and ends with the code 1 and without its
    sockets. Or it panics; no error escapes. *)
Theorem server_lifecycle config_file text cfile cdir c (w : World Process) :
  find_config config_file = Some (text, cfile) -> config_dir cfile = Some cdir ->
  parse_config text = Some c -> fips (cfg_proto c) && negb os_enable_fips = false ->
  UNIX_SOCKETS (shared w) = ∅ ->
  let l := configured (cfg_proto c) cdir in
  exists r w', run (main config_file false) w = Some (r, w') /\
    match r with
    | Ok _ =>
        (exists timeout identity p1, default_timeout c = Some timeout /\
        prepare_tls_identity (cfg_proto c) cdir = Some identity /\
           bound_sockets (unix l) (set_host_name (default (bs "unknown") os_hostname) (shared w)) p1 /\
           launched c cdir l timeout identity true p1 (shared w')) /\
        forall allow_log, exists w'', run (terminate allow_log) w' = Some (tt, w'') /\
          exited (shared w'') = Some 0%N /\
          ((forall f, f ∈ own_files (shared w') -> os_removable f = true) ->
           forall f, files (shared w'') !! f =
             if decide (f ∈ own_files (shared w')) then None else files (shared w) !! f)
    | Err Exited => exited (shared w') = Some 1%N /\
        forall f, f ∈ unix l -> os_removable f = true -> files (shared w') !! f = None
    | Err Panicked => True
    | Err (Failed _) => False
    end.
Proof.
  intros Hfind Hdir Hparse Hfips H0 l.
  destruct (main_spec config_file text cfile cdir c w) as (r & w' & Hr & HQ); [done..|].
  exists r, w'. split; [done|]. destruct r as [[]|[| |]]; try done.
  split; [done|]. destruct HQ as (timeout & identity & p1 & _ & _ & B & L). intros log.
  destruct (terminate_spec log w') as ([] & w2 & H1 & H2 & H3). exists w2.
  split; [done|]. split; [done|]. intros Hrem f. rewrite H3.
  destruct L. by eapply (without_own _ _ _ _ _ _ B).
Qed.
End spec.

(** ** Witnesses *)

(** A machine with the configuration in /etc/psrtd, where everything succeeds. *)
Definition demo_os : OsOps := {|
  os_read f :=
    if decide (f = bs "/etc/psrtd/config.yml") then Ok (bs "config")
    else if decide (f = bs "/etc/psrtd/acl.yml") then Ok (bs "acl")
    else Err (mkIoError NotFound (bs "No such file or directory"));
  os_bind _ := Ok tt;
  os_permissions _ := Ok tt;
  os_removable _ := true;
  os_write _ := Ok tt;
  os_canonicalize p := Some p;
  os_parse_addr p := Some p;
  os_pid := 77;
  os_hostname := Some (bs "node");
  os_env _ := None;
  os_syslog := true;
  os_daemon_child := false;
  os_enable_fips := true;
|}.

Definition demo_tls : TlsOps := {|
  Identity := bytes;
  Acceptor := bytes;
  from_pkcs12 p12 _ := Some p12;
  private_key_to_pkcs8 key := Some key;
  from_pkcs8 cert _ := Some cert;
  new_acceptor i := Ok i;
|}.

Definition demo_server_config : ServerConfig :=
  mkServerConfig
    (mkConfigServer None 0 8 64 1024 1024 (Some (bs "/run/psrtd.pid")) (Some (bs "127.0.0.1:8880")) None)
    (mkConfigProto (Multiple [bs "psrtd.sock"; bs "0.0.0.0:2873"]) (Single (bs "0.0.0.0:2873"))
       None None None None None false true)
    (mkConfigAuth true None None (bs "acl.yml")) None.

Definition demo_parser : ParserOps := {|
  parse_config _ := Some demo_server_config;
  parse_acls _ := Ok ∅;
  parse_keys _ := Ok ∅;
  parse_configs _ := Ok [];
|}.

#[local] Existing Instance demo_os.
#[local] Existing Instance demo_tls.
#[local] Existing Instance demo_parser.

(** A process before its start, with an old socket in the file system. *)
Definition demo_process : World Process :=
  mkWorld 0 (mkConn [] None [] []) []
    (mkProcess {[ bs "/etc/psrtd/psrtd.sock" := SocketFile; bs "/tmp/x" := Content [] ]} ∅ None None
       (mkServer (mkHub (mkServerClientDB sm_new ∅) ∅ ∅ ∅ 0 []) Counters.default (mkDb ∅ [])
          Passwords.default Keys.default (mkLimits 0 8 64) false 0 0 (1%Z, 2%Z) []) [] [] None).

Definition demo_paths : gset bytes := {[ bs "/etc/psrtd/psrtd.sock"; bs "/run/psrtd.pid" ]}.

Lemma server_lifecycle_witness :
  exists w' w'', run (main None false) demo_process = Some (Ok tt, w') /\
    handlers (shared w') =
      [TermHandler Interrupt false; TermHandler Terminate true; HangupHandler;
       StatsServer (bs "127.0.0.1:8880"); UnixListener (bs "/etc/psrtd/psrtd.sock") (5 * 10 ^ 9);
       TcpListener (bs "0.0.0.0:2873") None (5 * 10 ^ 9) true;
       UdpListener (bs "0.0.0.0:2873") 4096] /\
    run (terminate true) w' = Some (tt, w'') /\
    files (shared w'') !! bs "/etc/psrtd/psrtd.sock" = None /\
    files (shared w'') !! bs "/tmp/x" = Some (Content []).
Proof.
  destruct (server_lifecycle None (bs "config") (bs "/etc/psrtd/config.yml") (bs "/etc/psrtd")
    demo_server_config demo_process) as (r & w' & Hr & Q); [reflexivity..|].
  assert (match run (main None false) demo_process with Some (Ok _, _) => true | _ => false end = true)
    as Hok by vm_refl.
  rewrite Hr in Hok. destruct r as [[]|]; [|done].
  destruct Q as [(t & id & p1 & Ht & Hid & [B1 B2 B3] & [(acc & Ha & Hh) L2 (g & Hg & Hg' & Lf) L4 L5]) Hterm].
  injection Ht as <-. injection Hid as <-. simpl in Ha. subst acc. injection Hg as <-.
  rewrite (f_equal (fun x => x.1.1.2) B3 : handlers p1 = []) in Hh.
  destruct (Hterm true) as (w'' & H1 & _ & H2).
  assert (own_files (shared w') = demo_paths) as Hown.
  { unfold own_files. rewrite L4, B2, Hg'. reflexivity. }
  exists w', w''. split; [done|]. split; [rewrite Hh; reflexivity|]. split; [exact H1|].
  split; (rewrite H2 by done; rewrite Hown; vm_refl).
Defined.
