(* ===== verification/Psrtd.v ===== *)
(** * The whole of psrtd

    From the options of the process to the mailboxes of the clients. [main] (Start.v) leaves a
    process with handlers: the loops of the listeners, of which this file has those that accept
    connections, and the handler of the hang-up signal. What they let happen is an execution of the
    machine of System.v, so the theorems on all executions are theorems on every server that [main]
    has started. *)

From S2P Require Import Prelude Utf8 Proto Io Commands Client ClientSpec Delivery.
From S2P Require Import Acl Topic Token Pubsub Reference PubsubSpec Passwords Keys Server ServerSpec.
From S2P Require Import Control ControlSpec Session SessionSpec Udp UdpSpec Broker Interleave System.
From S2P Require Import Queues Frames Runs Launch Start StartSpec.
From S2P Require Http.

(** ** The listeners *)

(** A round of a loop that accepts connections: a connection, with the outcome of its
    [set_nodelay] and the number of commands that it lives for, or an error. *)
Inductive Incoming : Type :=
| Accepted (nodelay : result unit IoError) (addr : bytes) (fuel : nat)
| AcceptError (e : IoError).

Section listeners.
Context {SMO : SubMapOps} {CHO : ChannelOps} {SHO : Sha256Ops} {BCO : BcryptOps} {AEO : AeadOps}.
Context {TLO : TlsOps} {B64 : Http.Base64Ops}.
Variable replication_push : option (byte -> bytes -> bytes -> N -> prog Server unit).

(** The tasks that [handle_unix_listener] spawns; an error is logged. *)
Fixpoint handle_unix_listener (path : bytes) (timeout : N) (l : list Incoming) :
    list (prog Server unit) :=
  match l with
  | [] => []
  | Accepted _ _ fuel :: l' =>
      forget (handle_unix_stream replication_push fuel path timeout)
        :: handle_unix_listener path timeout l'
  | AcceptError _ :: l' => handle_unix_listener path timeout l'
  end.

Fixpoint handle_tcp_listener (acceptor : option (prog Server (result unit bytes))) (timeout : N)
    (allow_no_tls : bool) (l : list Incoming) : list (prog Server unit) :=
  match l with
  | [] => []
  | Accepted nodelay addr fuel :: l' =>
      forget (handle_tcp_stream replication_push nodelay acceptor allow_no_tls fuel addr timeout)
        :: handle_tcp_listener acceptor timeout allow_no_tls l'
  | AcceptError _ :: l' => handle_tcp_listener acceptor timeout allow_no_tls l'
  end.

(** [a.accept(client_stream)] of an acceptor. *)
Variable handshake : Acceptor -> prog Server (result unit bytes).

(** What a handler of the process lets run; the uptime of the status pages is that of the moment. *)
Definition arrives (h : Handler) (p : prog Server unit) : Prop :=
  match h with
  | UnixListener path timeout => exists l, p ∈ handle_unix_listener path timeout l
  | TcpListener _ acceptor timeout allow_no_tls =>
      exists l, p ∈ handle_tcp_listener (handshake <$> acceptor) timeout allow_no_tls l
  | UdpListener _ size => exists ds, p = forget (handle_udp_listener replication_push size ds)
  | StatsServer _ =>
      exists uptime host to_json html js l, p ∈ Http.stats_listener uptime host to_json html js l
  | TermHandler _ _ | HangupHandler => False
  end.

Lemma elem_of_unix_listener p path timeout l :
  p ∈ handle_unix_listener path timeout l ->
  exists fuel, p = forget (handle_unix_stream replication_push fuel path timeout).
Proof.
  induction l as [|[nd ad fuel|e] l IH]; simpl; [by intros ?%elem_of_nil| |done].
  intros [->|Hp]%elem_of_cons; [by eexists|by apply IH].
Qed.

Lemma elem_of_tcp_listener p acceptor timeout allow l :
  p ∈ handle_tcp_listener acceptor timeout allow l ->
  exists nodelay addr fuel,
    p = forget (handle_tcp_stream replication_push nodelay acceptor allow fuel addr timeout).
Proof.
  induction l as [|[nd ad fuel|e] l IH]; simpl; [by intros ?%elem_of_nil| |done].
  intros [->|Hp]%elem_of_cons; [by do 3 eexists|by apply IH].
Qed.
End listeners.

(** ** A server that was started *)

Section serving.
Context {SMO : SubMapOps} {CHO : ChannelOps} {SHO : Sha256Ops} {BCO : BcryptOps} {AEO : AeadOps}.
Context {TLO : TlsOps} {PAO : ParserOps} {B64 : Http.Base64Ops}.
Variable handshake : Acceptor -> prog Server (result unit bytes).
Variable acceptor : option Acceptor.
(** What the file of the access rules contains while the server runs. *)
Variable seen : bytes -> Prop.

(** The handler of the hang-up signal reads that file. *)
Definition reloads (s s' : Server) : Prop :=
  exists read, (forall f text, read f = Ok text -> seen text) /\
    acl_db s' = (Db.reload read parse_acls (acl_db s)).1.

(** The executions of a started process: its server alone, then what its handlers let happen. *)
Inductive serving (p : Process) : Machine -> Prop :=
| serving_started : serving p (mkMachine [] ∅ (psrtd p))
| serving_step c c' :
    serving p c -> step None (handshake <$> acceptor) c c' ->
    (forall q, threads c' = threads c ++ [mkThread None q] ->
       exists h, h ∈ handlers p /\ arrives None handshake h q) ->
    acl_db (server c') = acl_db (server c) \/ reloads (server c) (server c') -> serving p c'.
End serving.

Section psrtd.
Context {SMO : SubMapOps} {SML : SubMapLaws} {CHO : ChannelOps} {CHL : ChannelLaws}
  {SHO : Sha256Ops} {BCO : BcryptOps} {AEO : AeadOps} {AEL : AeadLaws} {HXO : HexOps}.
Context {OSO : OsOps} {TLO : TlsOps} {PAO : ParserOps} {B64 : Http.Base64Ops}.
Variable handshake : Acceptor -> prog Server (result unit bytes).
Variable P : bytes -> Prop.
Variable Q : bytes -> bytes -> Prop.

(** The statics of a process that has not started yet. *)
Definition blank (answers : list (result bytes bytes)) (s : Server) : Prop :=
  hub s = empty_hub answers /\ counters s = Counters.default /\ spawned s = [].

Lemma load_auth_rest c cdir s :
  let s' := load_auth os_read parse_keys c cdir s in
  hub s' = hub s /\ counters s' = counters s /\ spawned s' = spawned s /\ acl_db s' = acl_db s.
Proof. unfold load_auth. by destruct (cfg_password_file c), (cfg_key_file c). Qed.

(** [launch] loads the access rules into an otherwise empty server. *)
Lemma launch_blank answers c cdir s s' :
  Launch.launch os_read parse_acls parse_keys c cdir true s = Some s' -> blank answers s ->
  blank answers s' /\ exists f text m, os_read f = Ok text /\ parse_acls text = Ok m /\
    acl_db s' = mkDb m f.
Proof.
  unfold Launch.launch, load_acl, Db.reload. cbv zeta. cbn [path Db.set_path].
  set (f := format_path _ _). destruct (os_read f) as [text|e] eqn:Ef; [|done]. cbn [map_err].
  destruct (parse_acls text) as [m|e] eqn:Em; [|done]. cbn [map_err]. simpl. intros [= <-] (H1 & H2 & H3).
  unfold blank.
  destruct (load_auth_rest (cfg_auth c) cdir (set_acl_db (mkDb m f) (set_statics c s)))
    as (-> & -> & -> & ->).
  split; [done|]. by exists f, text, m.
Qed.

Lemma accepts_with_inj identity a1 a2 : accepts_with identity a1 -> accepts_with identity a2 -> a1 = a2.
Proof.
  destruct identity; simpl; [|by intros -> ->]. intros (b1 & H1 & ->) (b2 & H2 & ->). congruence.
Qed.

(** The handlers of a server without UNIX sockets let in only what is under the rules. *)
Lemma listeners_networked c l timeout acceptor h p :
  unix l = [] -> (default DEFAULT_UDP_FRAME_SIZE (udp_frame_size (cfg_proto c)) < 2 ^ 16)%N ->
  h ∈ signal_handlers true ++ stats_handlers c ++ listener_handlers c l timeout acceptor ->
  arrives None handshake h p -> networked (handshake <$> acceptor) p.
Proof.
  intros Hu Hsize Hin. unfold listener_handlers in Hin. rewrite Hu in Hin. simpl in Hin.
  rewrite !elem_of_cons, !elem_of_app, !list_elem_of_fmap in Hin.
  destruct Hin as [->|[->|[->|[Hin|[(a & -> & _)|(a & -> & _)]]]]]; try done.
  - unfold stats_handlers in Hin. destruct (_ ≫= _); simpl in Hin; [|by apply elem_of_nil in Hin].
    apply list_elem_of_singleton in Hin. subst. intros (up & host & js & html & ch & ls & Hp).
    apply list_elem_of_omap in Hp as ([reqs|] & _ & Hp); [|done]. injection Hp as <-.
    apply networked_reader, Http.serve_connection_untouched.
  - intros (ls & (nd & ad & fuel & ->)%elem_of_tcp_listener). apply networked_tcp.
  - intros (ds & ->). by apply networked_udp.
Qed.

(** What [main] leaves: the handlers of the configuration, on rules that it has read. *)
Lemma main_serves answers config_file text cfile cdir c (w w' : World Process) identity acceptor :
  find_config config_file = Some (text, cfile) -> config_dir cfile = Some cdir ->
  parse_config text = Some c -> fips (cfg_proto c) && negb os_enable_fips = false ->
  UNIX_SOCKETS (shared w) = ∅ -> handlers (shared w) = [] -> blank answers (psrtd (shared w)) ->
  prepare_tls_identity (cfg_proto c) cdir = Some identity -> accepts_with identity acceptor ->
  run (main config_file false) w = Some (Ok tt, w') ->
  (exists timeout, default_timeout c = Some timeout /\
    handlers (shared w') = signal_handlers true ++ stats_handlers c ++
      listener_handlers c (configured (cfg_proto c) cdir) timeout acceptor) /\
  blank answers (psrtd (shared w')) /\
  exists f text m, os_read f = Ok text /\ parse_acls text = Ok m /\
    acl_db (psrtd (shared w')) = mkDb m f.
Proof.
  intros Hfind Hdir Hparse Hfips H0 Hh0 Hblank Htls Hacc Hrun.
  destruct (main_spec config_file text cfile cdir c w) as (r & w1 & Hr & HQ); [done..|].
  rewrite Hrun in Hr. simplify_eq.
  destruct HQ as (timeout & identity' & p1 & Ht & Htls' & [_ _ Hrest] & [(acceptor' & Hacc' & Hh) Hl _ _ _]).
  injection Hrest as _ _ Hs Hhs1 _ _. simplify_eq.
  rewrite (accepts_with_inj _ _ _ Hacc Hacc'), Hh, Hhs1. simpl. rewrite Hh0, app_nil_l.
  split; [by exists timeout|]. rewrite Hs in Hl. by eapply launch_blank.
Qed.

(** An execution of a started server is an execution under its rules. *)
Lemma serving_governed answers acceptor seen p c :
  blank answers (psrtd p) -> rules_within P Q (acl_db (psrtd p)) ->
  (forall h q, h ∈ handlers p -> arrives None handshake h q -> networked (handshake <$> acceptor) q) ->
  (forall text m f, seen text -> parse_acls text = Ok m -> rules_within P Q (mkDb m f)) ->
  serving handshake acceptor seen p c -> governed (handshake <$> acceptor) P Q answers c.
Proof.
  intros (Hh & Hc & Hsp) Ha Hn Hseen. induction 1 as [|c c' _ IH Hstep Hp Hdb].
  - by apply governed_initial.
  - eapply governed_step; [exact IH|exact Hstep| |].
    + intros q (h & Hin & Hq)%Hp. left. by eapply Hn.
    + assert (rules_within P Q (acl_db (server c))) as Hw by by destruct IH.
      destruct Hdb as [->|(rd & Hrd & ->)]; [done|]. unfold Db.reload.
      destruct (rd _) as [text|e] eqn:Et; [|done]. cbn [map_err].
      destruct (parse_acls text) as [m|e] eqn:Em; [|done]. cbn [map_err fst].
      apply (Hseen text); [by eapply Hrd|done].
Qed.

(** *** Threads that run alone *)

(** A thread of a started server, none of whose effects changes the access rules. *)
Lemma serving_psteps acceptor seen p L A g i h q r s s' ts st :
  machine_typed L P Q (eq A) g (mkMachine ts st s) -> psteps q s r s' ->
  ts !! i = Some (mkThread h q) -> serving handshake acceptor seen p (mkMachine ts st s) ->
  serving handshake acceptor seen p (mkMachine (<[i := mkThread h r]> ts) st s').
Proof.
  unfold psteps. remember (q, s) as x eqn:Ex. remember (r, s') as y eqn:Ey. intros Hc H. revert Hc.
  revert g q s ts Ex; induction H as [x|x [q1 s1] y Hstep _ IH];
    intros g q s ts -> Hc Hi Hg; simplify_eq.
  - by rewrite list_insert_id.
  - rewrite <- (list_insert_insert_eq ts i (mkThread h r) (mkThread h q1)).
    pose proof (machine_sound _ _ _ _ _ _ Hc) as [_ Hs]. destruct Hc as [owns Hc].
    destruct (jointly_step _ _ _ _ _ _ i q q1 s1 Hc) as (g1 & owns1 & _ & Hc1); [|done|].
    { simpl. by rewrite list_lookup_fmap, Hi. }
    assert (machine_typed L P Q (eq A) g1 (mkMachine (<[i := mkThread h q1]> ts) st s1)) as Ht1.
    { exists owns1. simpl. by rewrite list_fmap_insert. }
    apply (IH eq_refl g1 q1 s1 _ eq_refl Ht1);
      [apply list_lookup_insert_eq; by eapply lookup_lt_Some|].
    eapply serving_step; [exact Hg|by eapply step_thread| |].
    + simpl. intros q2 E%(f_equal length). rewrite length_insert, length_app in E. simpl in E. lia.
    + left. pose proof (machine_sound _ _ _ _ _ _ Ht1) as [_ Hs1].
      pose proof (ty_rules _ _ _ _ _ _ Hs). pose proof (ty_rules _ _ _ _ _ _ Hs1).
      simpl in *. congruence.
Qed.

(** Nobody holds anything when all threads are over. *)
Lemma finished_typed L D g n st s :
  sound L P Q D g s -> machine_typed L P Q D g (mkMachine (replicate n (mkThread None (Ret tt))) st s).
Proof.
  intros Hs. induction n as [|n IH]; [by exists []; apply jointly_empty|].
  rewrite replicate_S_end. eapply machine_typed_spawn; [exact IH|done].
Qed.

(** A TCP connection that is handled to its end before anything else happens. *)
Lemma serving_tcp acceptor seen p addr timeout allow nodelay fuel ad n st (w w' : World Server) c :
  c = mkMachine (replicate n (mkThread None (Ret tt))) st (shared w) ->
  TcpListener addr acceptor timeout allow ∈ handlers p -> (forall a, untouched (handshake a)) ->
  (exists L g, machine_typed L P Q (rules_within P Q) g c) -> serving handshake acceptor seen p c ->
  run (forget (handle_tcp_stream None nodelay (handshake <$> acceptor) allow fuel ad timeout)) w =
    Some (tt, w') ->
  serving handshake acceptor seen p
    (mkMachine (replicate (S n) (mkThread None (Ret tt))) st (shared w')).
Proof.
  intros -> Hin Hu (L & g & [Hok Hs]%machine_sound) Hserv Hrun%run_psteps. simpl in Hok, Hs.
  set (q := forget _) in Hrun. set (ts := replicate n (mkThread None (Ret tt))).
  assert (serving handshake acceptor seen p (mkMachine (ts ++ [mkThread None q]) st (shared w)))
    as Hacc.
  { eapply serving_step; [exact Hserv|apply step_accept, entry_tcp| |by left].
    intros q' Eq. simpl in Eq. apply app_inv_head in Eq. injection Eq as <-.
    eexists. split; [exact Hin|]. exists [Accepted nodelay ad fuel]. apply list_elem_of_here. }
  replace (replicate (S n) _) with (<[n := mkThread None (Ret tt)]> (ts ++ [mkThread None q])).
  - eapply (serving_psteps acceptor seen p L (acl_db (shared w)) g); [|exact Hrun| |exact Hacc].
    + apply (machine_typed_spawn _ _ _ _ _ _ st); [apply finished_typed; split; [done|by destruct Hs]|].
      apply joins_forget, joins_tcp; [by intros db <-; apply (ty_rules _ _ _ _ _ _ Hs)|].
      intros accept (a & _ & ->)%fmap_Some. apply Hu.
    + unfold ts. rewrite lookup_app_r; rewrite length_replicate; [by rewrite Nat.sub_diag|done].
  - unfold ts. rewrite replicate_S_end, insert_app_r_alt by by rewrite length_replicate.
    by rewrite length_replicate, Nat.sub_diag.
Qed.

(** C12: the access rules of a whole server. Started by [main] without UNIX sockets, with an ACL file
    that, whatever its content at the start and at each reload, lets nobody publish outside of the
    topics [P] and each login subscribe only within [Q login], the server never holds a message for
    a subscriber under a topic outside of [P]; the data channel of a registered client never holds
    one under a topic outside of those of its login; and whatever data stream sends from a channel,
    this holds of the login under which it runs; whatever comes over the sockets of the server and
    in whatever order its tasks run. *)
Theorem psrtd_permissions answers config_file text cfile cdir c (w w' : World Process)
    identity acceptor (seen : bytes -> Prop) m ch q :
  find_config config_file = Some (text, cfile) -> config_dir cfile = Some cdir ->
  parse_config text = Some c -> fips (cfg_proto c) && negb os_enable_fips = false ->
  UNIX_SOCKETS (shared w) = ∅ -> handlers (shared w) = [] -> blank answers (psrtd (shared w)) ->
  unix (configured (cfg_proto c) cdir) = [] ->
  (default DEFAULT_UDP_FRAME_SIZE (udp_frame_size (cfg_proto c)) < 2 ^ 16)%N ->
  (forall a, untouched (handshake a)) ->
  (forall f text, os_read f = Ok text -> seen text) ->
  (forall text m f, seen text -> parse_acls text = Ok m -> rules_within P Q (mkDb m f)) ->
  prepare_tls_identity (cfg_proto c) cdir = Some identity -> accepts_with identity acceptor ->
  run (main config_file false) w = Some (Ok tt, w') ->
  serving handshake acceptor seen (shared w') m -> chans (hub (server m)) !! ch = Some q ->
  exists l, ch_queue (ch_view q) = map frame_of l /\ Forall (permitted P) l /\
    (forall cl, registered cl (hub (server m)) -> client_data_channel cl (hub (server m)) = Some ch ->
       Forall (permitted (Q (login cl))) l) /\
    (forall id tok timeout interval un ad,
       (id, DataTask tok ch timeout interval un ad) ∈ spawned (server m) ->
       exists lg, un = format_login lg /\ Forall (permitted (Q lg)) l).
Proof.
  intros Hfind Hdir Hparse Hfips H0 Hh0 Hblank Hunix Hsize Hhs Hread Hseen Htls Hacc Hrun Hserv Hq.
  destruct (main_serves answers config_file text cfile cdir c w w' identity acceptor)
    as ((timeout & _ & Hh) & Hb & f & t & db & Hf & Hm & Ha); [done..|].
  assert (governed (handshake <$> acceptor) P Q answers m) as Hg.
  { eapply serving_governed; [exact Hb| | |exact Hseen|exact Hserv].
    - rewrite Ha. apply (Hseen t); [by eapply Hread|done].
    - intros h p. rewrite Hh. by apply listeners_networked. }
  assert (forall accept, handshake <$> acceptor = Some accept -> untouched accept) as Hu.
  { intros accept (a & _ & ->)%fmap_Some. apply Hhs. }
  destruct (governed_typed _ Hu P Q answers m Hg) as (L & g & Hm').
  destruct (typed_queued P Q L g m ch q Hm' Hq) as (l & E & _ & Hp & Hx).
  exists l. split; [done|]. split; [done|]. split.
  - intros cl Hcl Hch. by eapply Hx, typed_owner.
  - intros id tok t' n un ad Hin. pose proof (machine_sound _ _ _ _ _ _ Hm') as [_ Hs].
    destruct (ty_tasks _ _ _ _ _ _ Hs _ _ Hin) as (cl & Hcl & _ & Hun & _).
    exists (login cl). split; [done|by apply Hx].
Qed.
End psrtd.

(** ** A concrete server *)

#[local] Existing Instance demo_bcrypt.
#[local] Existing Instance demo_os.
#[local] Existing Instance demo_tls.

(** A server that listens on TCP and UDP, with the access rules of Runs.v. *)
Definition house_config : ServerConfig :=
  mkServerConfig (mkConfigServer None 0 8 64 1024 1024 (Some (bs "/run/psrtd.pid")) None None)
    (mkConfigProto (Single (bs "0.0.0.0:2873")) (Single (bs "0.0.0.0:2873"))
       None None None None None false true)
    (mkConfigAuth true None None (bs "acl.yml")) None.

Definition house_parser : ParserOps := {|
  parse_config _ := Some house_config;
  parse_acls text := if decide (text = bs "acl") then Ok {[ bs "_" := house_rules ]} else Err [];
  parse_keys _ := Ok ∅;
  parse_configs _ := Ok [];
|}.
#[local] Existing Instance house_parser.
#[local] Existing Instance Http.ref_base64.

Definition house_process : World Process :=
  mkWorld 0 (mkConn [] None [] []) []
    (mkProcess ∅ ∅ None None
       (mkServer (empty_hub demo_answers) Counters.default (mkDb ∅ []) Passwords.default Keys.default
          (mkLimits 0 8 64) false 0 0 (1%Z, 2%Z) []) [] [] None).

Definition house_started : Process :=
  match run (main None false) house_process with
  | Some (Ok _, w) => shared w
  | _ => shared house_process
  end.

Lemma house_main : exists w', run (main None false) house_process = Some (Ok tt, w') /\
  shared w' = house_started.
Proof.
  unfold house_started.
  assert (match run (main None false) house_process with Some (Ok _, _) => true | _ => false end = true)
    as H by vm_refl.
  destruct (run (main None false) house_process) as [[[[]|] w']|]; [|done..]. by exists w'.
Qed.

Definition no_tls (a : Acceptor) : prog Server (result unit bytes) := Ret (Ok tt).

Lemma house_parsed (text : bytes) (m : gmap bytes Acl) (f : bytes) :
  parse_acls text = Ok m -> rules_within publishable in_room (mkDb m f).
Proof. simpl. case_decide; [|done]. intros [= <-]. apply house_rules_within. Qed.

Definition house_timeout : N := 5 * 10 ^ 9.

(** A connection to the listener of this server. *)
Definition house_tcp (fuel : nat) : prog Server unit :=
  forget (handle_tcp_stream None (Ok tt) (no_tls <$> None) true fuel (bs "10.0.0.1:4")
            house_timeout).

Definition house_session (fuel : nat) (input : bytes) (s : Server) : Server :=
  match run (house_tcp fuel) (on_connection input s) with Some (_, w) => shared w | None => s end.

(** The three sessions of Runs.v. *)
Definition house_published : Server :=
  house_session 3 rude_input
    (house_session 1 stream_input
       (house_session 1 (login_input ++ [OP_SUBSCRIBE] ++ frame_bytes (bs "room/+"))
          (psrtd house_started))).

Lemma house_launched :
  handlers house_started = signal_handlers true ++ stats_handlers house_config ++
    listener_handlers house_config (configured (cfg_proto house_config) (bs "/etc/psrtd"))
      house_timeout None /\
  blank demo_answers (psrtd house_started) /\
  exists f text m, os_read f = Ok text /\ parse_acls text = Ok m /\
    acl_db (psrtd house_started) = mkDb m f.
Proof.
  destruct house_main as (w' & Hrun & <-).
  destruct (main_serves demo_answers None (bs "config") (bs "/etc/psrtd/config.yml")
              (bs "/etc/psrtd") house_config house_process w' None None)
    as ((timeout & Ht & Hh) & H); [done..|].
  assert (default_timeout house_config = Some house_timeout) as Ht' by vm_refl.
  rewrite Ht' in Ht. injection Ht as <-. by split.
Qed.

(** What the file may contain: anything that is read as the rules of the house, or not at all. *)
Definition house_seen (text : bytes) : Prop := True.

Lemma house_governed c :
  serving no_tls None house_seen house_started c ->
  governed (no_tls <$> None) publishable in_room demo_answers c.
Proof.
  destruct house_launched as (Hh & Hb & f & text & m & _ & Hm & Ha). intros Hc.
  eapply (serving_governed no_tls publishable in_room); [exact Hb| | |intros ? ? ? _; apply house_parsed|exact Hc].
  - rewrite Ha. by eapply house_parsed.
  - intros h q. rewrite Hh. by apply listeners_networked.
Qed.

Lemma house_session_serving fuel n st input s :
  (match run (house_tcp fuel) (on_connection input s) with Some _ => true | None => false end) = true ->
  serving no_tls None house_seen house_started (mkMachine (finished n) st s) ->
  serving no_tls None house_seen house_started
    (mkMachine (finished (S n)) st (house_session fuel input s)).
Proof.
  intros Hrun Hg. unfold house_session.
  destruct (run (house_tcp fuel) _) as [[[] w]|] eqn:E; [|done].
  eapply (serving_tcp no_tls publishable in_room None house_seen _ (bs "0.0.0.0:2873")
            house_timeout true (Ok tt) fuel (bs "10.0.0.1:4") n st
            (on_connection input s) w);
    [reflexivity| |done| |exact Hg|exact E].
  - destruct house_launched as (-> & _). apply list_elem_of_lookup_2 with 3. reflexivity.
  - by apply (governed_typed (no_tls <$> None)) with demo_answers; [|apply house_governed].
Qed.

Lemma house_serving :
  serving no_tls None house_seen house_started (mkMachine (finished 3) ∅ house_published).
Proof. do 3 (apply house_session_serving; [vm_refl|]). apply serving_started. Qed.

(** The mailbox of the subscriber holds the one message that it may read. *)
Definition house_message (s : Server) : bool :=
  match chans (hub s) !! 1, spawned s with
  | Some q, [_; (3, DataTask tok 1 _ _ un ad)] =>
      bool_decide (map mdata (ch_queue (ch_view q)) = [Some (bs "on")])
        && bool_decide (tok = replicate 32 x01)
  | _, _ => false
  end.

Lemma psrtd_permissions_witness :
  exists w' c q, run (main None false) house_process = Some (Ok tt, w') /\
    serving no_tls None house_seen (shared w') c /\ chans (hub (server c)) !! 1 = Some q /\
    map mdata (ch_queue (ch_view q)) = [Some (bs "on")] /\
    (exists id tok timeout interval un ad,
       (id, DataTask tok 1 timeout interval un ad) ∈ spawned (server c)) /\
    exists l, ch_queue (ch_view q) = map frame_of l /\ Forall (permitted publishable) l /\
      (forall cl, registered cl (hub (server c)) -> client_data_channel cl (hub (server c)) = Some 1 ->
         Forall (permitted (in_room (login cl))) l) /\
      (forall id tok timeout interval un ad,
         (id, DataTask tok 1 timeout interval un ad) ∈ spawned (server c) ->
         exists lg, un = format_login lg /\ Forall (permitted (in_room lg)) l).
Proof.
  assert (house_message house_published = true) as H by vm_refl.
  pose proof house_serving as Hs. destruct house_main as (w' & Hrun & Hw). rewrite <- Hw in Hs.
  exists w', (mkMachine (finished 3) ∅ house_published). cbn [server].
  generalize dependent house_published. intros s H Hs. unfold house_message in H.
  destruct (chans (hub s) !! 1) as [q|] eqn:E; [|done]. exists q.
  split; [exact Hrun|]. split; [exact Hs|]. split; [done|]. split; [|split].
  - repeat case_match; try done. apply andb_prop in H as [H _]. by apply bool_decide_eq_true_1 in H.
  - repeat case_match; try done. eexists _, _, _, _, _, _. apply list_elem_of_further, list_elem_of_here.
  - by apply (psrtd_permissions no_tls publishable in_room demo_answers None (bs "config")
                (bs "/etc/psrtd/config.yml") (bs "/etc/psrtd") house_config house_process w' None None
                house_seen (mkMachine (finished 3) ∅ s) 1 q);
      try done; intros text m f _; apply house_parsed.
Defined.
