(* ===== verification/Eva.v ===== *)
(** * The EVA ICS service: src/src/eva_svc.rs

    The remote calls that the service answers, and its start: the same server as that of psrtd,
    without the handlers of signals and the PID file, on databases that are loaded before the
    privileges are dropped. The SDK is an interface ([EvaOps]). *)

From S2P Require Import Prelude Utf8 Proto Duration Io Acl Topic Token Pubsub Passwords Keys Server.
From S2P Require Import Launch Start StartSpec.
From S2P Require Client.

Definition AUTHOR : bytes := bs "Bohemia Automation".
Definition DESCRIPTION : bytes := bs "PSRT server".

(** What the SDK provides: errors, the packing of values, the description of a service, the answer
    to the calls that every service has. *)
Class EvaOps : Type := {
  EvaError : Type;
  RpcError : Type;
  ServiceInfo : Type;
  rpc_params : RpcError;
  rpc_from_error : EvaError -> RpcError;
  err_invalid_data : bytes -> EvaError;
  err_failed : Error -> EvaError;
  pack_counters : Counters -> result bytes EvaError;
  pack_stats : ServerClientDBStats -> result bytes EvaError;
  info_new : bytes -> bytes -> bytes -> ServiceInfo;
  add_method : bytes -> ServiceInfo -> ServiceInfo;
  svc_handle_default_rpc : bytes -> ServiceInfo -> result (option bytes) RpcError;
  (** The code with which [poc] ends the process. *)
  poc_code : N;
}.

(** A remote call: the method, when it is text, and the payload. *)
Record RpcEvent `{EvaOps} : Type := mkRpcEvent {
  parse_method : result bytes RpcError;
  payload : bytes;
}.
Arguments mkRpcEvent {_} _ _.

(** What the launcher gives to the service, and how its requests to the launcher end. *)
Record Initial `{EvaOps} : Type := mkInitial {
  take_config : option (result ServerConfig EvaError);
  eva_dir : bytes;
  initial_timeout : N;
  init_rpc : result unit EvaError;
  svc_init_logs : result unit EvaError;
  drop_privileges : result unit EvaError;
  svc_mark_ready : result unit EvaError;
  svc_mark_terminating : result unit EvaError;
}.

Arguments mkInitial {_} _ _ _ _ _ _ _ _.

Section eva.
Context {SMO : SubMapOps} {CHO : ChannelOps} {HXO : HexOps} {AEO : AeadOps}.
Context {OSO : OsOps} {TLO : TlsOps} {PAO : ParserOps} {EVO : EvaOps}.

(** ** Remote calls *)

Definition info : ServiceInfo :=
  add_method (bs "stats.clients") (add_method (bs "stats.counters") (info_new AUTHOR VERSION DESCRIPTION)).

(** [Ok(Some(pack(&s)?))] *)
Definition packed (r : result bytes EvaError) : result (option bytes) RpcError :=
  match r with
  | Ok b => Ok (Some b)
  | Err e => Err (rpc_from_error e)
  end.

(** [Handlers::handle_call] *)
Definition handle_call (event : RpcEvent) : prog Server (result (option bytes) RpcError) :=
  method <-? lift (parse_method event) ;;
  if decide (method = bs "stats.counters") then
    if decide (payload event = []) then
      s <-- asks counters ;; Ret (packed (pack_counters s))
    else Ret (Err rpc_params)
  else if decide (method = bs "stats.clients") then
    if decide (payload event = []) then
      s <-- asks (fun s => get_stats (hub s)) ;; Ret (packed (pack_stats s))
    else Ret (Err rpc_params)
  else Ret (svc_handle_default_rpc method info).

(** ** Start *)

(** How the service ends before it runs: an error for the launcher, a panic, the process. *)
Inductive EvaStop : Type :=
| EvaFailed (e : EvaError)
| EvaPanicked
| EvaExited.

Definition try_eva {A} (r : result A EvaError) : prog Process (result A EvaStop) :=
  lift (map_err EvaFailed r).

(** The databases, loaded here; [None] is a panic. *)
Definition load_databases (c : ServerConfig) (cdir : bytes) : prog Process (result unit EvaStop) :=
  atomic (fun p =>
    match load_acl os_read parse_acls (cfg_auth c) cdir (psrtd p) with
    | Some s => (Ok tt, set_psrtd (load_auth os_read parse_keys (cfg_auth c) cdir s) p)
    | None => (Err EvaPanicked, p)
    end).

(** What the task of the server captures. *)
Record Prepared : Type := mkPrepared {
  pr_config : ServerConfig;
  pr_ac : AdditinalConfigs;
  pr_listeners : Listeners;
  pr_timeout : N;
}.

(** The timeout of the configuration, or that of the launcher; [None] is a panic. *)
Definition eva_timeout (i : Initial) (c : ServerConfig) : option N :=
  match proto_timeout (cfg_proto c) with
  | Some secs => from_secs_f64 secs
  | None => Some (initial_timeout i)
  end.

(** [main] up to the drop of the privileges. *)
Definition prepare (i : Initial) : prog Process (result Prepared EvaStop) :=
  config <-? try_eva match take_config i with
                     | Some r => r
                     | None => Err (err_invalid_data (bs "config not specified"))
                     end ;;
  _ <-? try_eva (init_rpc i) ;;
  _ <-? try_eva (svc_init_logs i) ;;
  timeout <-? lift (ok_or (eva_timeout i config) EvaPanicked) ;;
  ac <-? lift (ok_or (load config (eva_dir i) timeout) EvaPanicked) ;;
  r <-- create (cfg_proto config) (eva_dir i) ;;
  l <-? try_eva (map_err err_failed r) ;;
  _ <-? load_databases config (eva_dir i) ;;
  _ <-? try_eva (drop_privileges i) ;;
  Ret (Ok (mkPrepared config ac l timeout)).

(** The spawned task and the one that watches it: when it ends, the process does. *)
Definition server_task (i : Initial) (p : Prepared) : prog Process (result unit EvaStop) :=
  r <-- launch (pr_config p) (pr_ac p) (pr_listeners p) (eva_dir i) (pr_timeout p) false ;;
  match r with
  | Ok _ => Ret (Ok tt)
  | Err Exited => Ret (Err EvaExited)
  | Err _ => _ <-- modify (exit poc_code) ;; Ret (Err EvaExited)
  end.

(** The rest of [main]: it blocks until the launcher asks to terminate. *)
Definition finish (i : Initial) : prog Process (result unit EvaStop) :=
  _ <-? try_eva (svc_mark_ready i) ;;
  _ <-- signal Terminate ;;
  _ <-? try_eva (svc_mark_terminating i) ;;
  _ <-- modify (exit 0) ;;
  Ret (Err EvaExited).

(** [main], with the spawned task run up to its endless loop before the service is ready; the two
    share no state. *)
Definition eva_start (i : Initial) : prog Process (result unit EvaStop) :=
  p <-? prepare i ;;
  server_task i p.

Definition eva_main (i : Initial) : prog Process (result unit EvaStop) :=
  _ <-? eva_start i ;;
  finish i.
End eva.

(** ** Correctness *)

Section spec.
Context {SMO : SubMapOps} {CHO : ChannelOps} {HXO : HexOps} {AEO : AeadOps}.
Context {OSO : OsOps} {TLO : TlsOps} {PAO : ParserOps} {EVO : EvaOps}.

(** A remote call answers at once, and changes nothing. *)
Lemma run_handle_call ev (w : World Server) :
  run (handle_call ev) w =
    Some (let? method := parse_method ev in
          if decide (method = bs "stats.counters") then
            if decide (payload ev = []) then packed (pack_counters (counters (shared w))) else Err rpc_params
          else if decide (method = bs "stats.clients") then
            if decide (payload ev = []) then packed (pack_stats (get_stats (hub (shared w))))
            else Err rpc_params
          else svc_handle_default_rpc method info, w).
Proof.
  unfold handle_call. rewrite run_qbind. cbn [run lift].
  destruct (parse_method ev) as [m|e]; [|done]. cbn [rbind].
  repeat case_decide; rewrite ?run_bind; cbn [run asks set_shared]; by destruct w.
Qed.

(** The databases and the statics do not depend on each other. *)
Lemma launch_after_load c cdir s s1 :
  load_acl os_read parse_acls (cfg_auth c) cdir s = Some s1 ->
  Launch.launch os_read parse_acls parse_keys c cdir false
    (load_auth os_read parse_keys (cfg_auth c) cdir s1) =
  Launch.launch os_read parse_acls parse_keys c cdir true s.
Proof.
  unfold Launch.launch, load_acl. simpl.
  destruct (Db.reload _ _ _) as [db r]. destruct r; [|done]. intros [= <-]. simpl. f_equal.
  unfold load_auth. by destruct (cfg_password_file _), (cfg_key_file _).
Qed.

Lemma eva_start_spec i c (w : World Process) :
  take_config i = Some (Ok c) -> UNIX_SOCKETS (shared w) = ∅ ->
  let l := configured (cfg_proto c) (eva_dir i) in
  returns (eva_start i) w (fun r w' =>
    match r with
    | Ok _ => exists timeout identity p1 s1, eva_timeout i c = Some timeout /\
        prepare_tls_identity (cfg_proto c) (eva_dir i) = Some identity /\
        bound_sockets (unix l) (shared w) p1 /\
        load_acl os_read parse_acls (cfg_auth c) (eva_dir i) (psrtd p1) = Some s1 /\
        launched c (eva_dir i) l timeout identity false
           (set_psrtd (load_auth os_read parse_keys (cfg_auth c) (eva_dir i) s1) p1) (shared w')
    | Err EvaExited => is_Some (exited (shared w'))
    | Err _ => True
    end).
Proof.
  intros Hc H0 l.
  apply returns_qbind. unfold prepare, try_eva, lift. rewrite Hc.
  apply returns_qbind, returns_ret. cbn [map_err].
  apply returns_qbind, returns_ret. destruct (init_rpc i); cbn [map_err]; [|done].
  apply returns_qbind, returns_ret. destruct (svc_init_logs i); cbn [map_err]; [|done].
  apply returns_qbind, returns_ret. destruct (eva_timeout i c) as [timeout|]; [|done].
  apply returns_qbind, returns_ret. unfold load.
  destruct (prepare_tls_identity _ _) as [identity|]; [|done].
  simpl. destruct (prepare_replication_configs _ _ _ _ _ _) as [repl|]; [|done].
  simpl. destruct (load_license _ _ _) as [lic|]; [|done]. cbn [ok_or].
  apply returns_bind. eapply returns_mono; [apply create_spec|].
  intros [l'|e] w1; [|intros _; apply returns_qbind, returns_ret; done].
  intros [-> B]. apply returns_qbind, returns_ret. cbn [map_err].
  apply returns_qbind, returns_atomic. destruct (load_acl _ _ _ _ _) as [s1|] eqn:E1; [|done].
  cbn [fst snd]. apply returns_qbind, returns_ret. destruct (drop_privileges i); cbn [map_err]; [|done].
  apply returns_ret, returns_bind. cbn [pr_config pr_ac pr_listeners pr_timeout].
  eapply returns_mono; [apply launch_spec|]. intros [[]|[]] w2.
  - intros L. apply returns_ret. by exists timeout, identity, (shared w1), s1.
  - done.
  - intros _. by apply returns_bind, returns_modify, returns_ret.
  - intros [He _]. apply returns_ret. by exists 1%N.
Qed.

(** The service does not return: it waits, or it ends with an error or with the process. *)
Lemma finish_ends i (w w' : World Process) r :
  run (finish i) w = Some (r, w') ->
  match r with
  | Ok _ => False
  | Err EvaExited => exited (shared w') = Some 0%N
  | Err _ => True
  end.
Proof.
  unfold finish, try_eva, lift. rewrite run_qbind. cbn [run].
  destruct (svc_mark_ready i); cbn [map_err]; [|by intros [= <- <-]].
  rewrite run_bind. cbn [run signal await].
  destruct (pending (shared w)) as [|[] q]; try done.
  rewrite run_qbind. cbn [run]. destruct (svc_mark_terminating i); cbn [map_err run]; [|by intros [= <- <-]].
  rewrite run_bind. cbn [run modify]. by intros [= <- <-].
Qed.

(** C32: the server that the EVA ICS service runs is the server that psrtd runs: with the same
    configuration, directory and timeout, from the same state of the machine, both listen on the same
    sockets with the same handlers and have the same databases, limits and switches. psrtd has the
    handlers of the signals and its PID file besides; and the service, when the launcher ends it,
    leaves its UNIX sockets in the file system. *)
Theorem eva_runs_psrtd i c (w wp we : World Process) :
  take_config i = Some (Ok c) -> UNIX_SOCKETS (shared w) = ∅ -> handlers (shared w) = [] ->
  eva_timeout i c = default_timeout c ->
  run (standalone c (eva_dir i)) w = Some (Ok tt, wp) -> run (eva_start i) w = Some (Ok tt, we) ->
  let p := shared wp in let e := shared we in
  psrtd p = psrtd e /\ UNIX_SOCKETS p = UNIX_SOCKETS e /\
  handlers p = signal_handlers true ++ handlers e /\ PID_FILE e = PID_FILE (shared w) /\
  (forall f, PID_FILE p <> Some f -> files p !! f = files e !! f) /\
  forall r wf, run (finish i) we = Some (r, wf) ->
    forall f, f ∈ UNIX_SOCKETS e -> files (shared wf) !! f = Some SocketFile.
Proof.
  intros Hc H0 Hh HT Hp He p e.
  destruct (standalone_spec c (eva_dir i) w H0) as (rp & wp' & Hp' & Qp).
  rewrite Hp in Hp'. injection Hp' as <- <-. destruct Qp as (t & id & p1 & Ht & Hid & [B1 B2 B3] & [L1 L2 L3 L4 L5]).
  destruct (eva_start_spec i c w Hc H0) as (re & we' & He' & Qe).
  rewrite He in He'. injection He' as <- <-.
  destruct Qe as (t' & id' & e1 & s1 & Ht' & Hid' & [C1 C2 C3] & Hs1 & [M1 M2 M3 M4 M5]).
  rewrite HT, Ht in Ht'. simplify_eq. fold p in L1, L2, L3, L4, L5. fold e in M1, M2, M3, M4, M5.
  cbn [psrtd set_psrtd handlers files PID_FILE UNIX_SOCKETS] in M1, M2, M3, M4, M5.
  unfold rest in B3, C3. simplify_eq.
  assert (psrtd p1 = psrtd e1) as Epsr by congruence.
  rewrite <- Epsr in Hs1. rewrite (launch_after_load _ _ _ _ Hs1) in M2.
  destruct L1 as (a & Ha & ->), M1 as (a' & Ha' & ->). destruct M3 as [M3 M6].
  destruct L3 as (g & _ & Hg & Lf).
  assert (a = a') as <-.
  { unfold accepts_with in Ha, Ha'. destruct id as [j|]; [|congruence].
    destruct Ha as (x & Hx & ->), Ha' as (y & Hy & ->). congruence. }
  assert (forall f, f ∈ UNIX_SOCKETS e -> files e !! f = Some SocketFile) as Hsock.
  { intros f Hf. rewrite M4, C2, H0, (right_id_L ∅ (∪)), elem_of_list_to_set in Hf.
    by rewrite M6, C1, decide_True. }
  split_and!.
  - congruence.
  - congruence.
  - assert (handlers p1 = []) as -> by congruence. assert (handlers e1 = []) as -> by congruence. done.
  - congruence.
  - intros f Hf. rewrite Lf, lookup_insert_ne by congruence. by rewrite M6, B1, C1.
  - intros r wf Hr f Hf. rewrite <- (Hsock f Hf). f_equal. clear - Hr.
    unfold finish, try_eva, lift in Hr. rewrite run_qbind in Hr. cbn [run] in Hr.
    destruct (svc_mark_ready i); cbn [map_err] in Hr; [|by injection Hr as _ <-].
    rewrite run_bind in Hr. cbn [run signal await] in Hr.
    destruct (pending (shared we)) as [|[] q]; [done|done| |done].
    rewrite run_qbind in Hr. cbn [run] in Hr.
    destruct (svc_mark_terminating i); cbn [map_err run] in Hr; [|by injection Hr as _ <-].
    rewrite run_bind in Hr. cbn [run modify] in Hr. by injection Hr as _ <-.
Qed.
End spec.

(** ** Witness *)

#[local] Existing Instance demo_os.
#[local] Existing Instance demo_tls.
#[local] Existing Instance demo_parser.

Definition demo_eva : EvaOps := {|
  EvaError := bytes;
  RpcError := bytes;
  ServiceInfo := list bytes;
  rpc_params := bs "invalid parameters";
  rpc_from_error e := e;
  err_invalid_data m := m;
  err_failed e := show_Error e;
  pack_counters _ := Ok [];
  pack_stats _ := Ok [];
  info_new author version description := [author; version; description];
  add_method m i := i ++ [m];
  svc_handle_default_rpc m _ := Err (bs "no such method");
  poc_code := 1;
|}.

#[local] Existing Instance demo_eva.

Definition demo_initial : Initial :=
  mkInitial (Some (Ok demo_server_config)) (bs "/etc/psrtd") (5 * 10 ^ 9) (Ok tt) (Ok tt) (Ok tt)
    (Ok tt) (Ok tt).

Lemma eva_runs_psrtd_witness :
  exists wp we, run (standalone demo_server_config (bs "/etc/psrtd")) demo_process = Some (Ok tt, wp) /\
    run (eva_start demo_initial) demo_process = Some (Ok tt, we) /\
    psrtd (shared wp) = psrtd (shared we) /\
    handlers (shared wp) = signal_handlers true ++ handlers (shared we).
Proof.
  destruct (run (standalone demo_server_config (bs "/etc/psrtd")) demo_process)
    as [[[[]|] wp]|] eqn:Ep.
  2, 3: exfalso; cut (match run (standalone demo_server_config (bs "/etc/psrtd")) demo_process with
    Some (Ok _, _) => true | _ => false end = true); [by rewrite Ep|vm_refl].
  destruct (run (eva_start demo_initial) demo_process) as [[[[]|] we]|] eqn:Ee.
  2, 3: exfalso; cut (match run (eva_start demo_initial) demo_process with
    Some (Ok _, _) => true | _ => false end = true); [by rewrite Ee|vm_refl].
  exists wp, we. split; [done|]. split; [done|].
  destruct (eva_runs_psrtd demo_initial demo_server_config demo_process wp we)
    as (H1 & _ & H3 & _); [reflexivity..|exact Ep|exact Ee|]. by split.
Defined.
