(* ===== verification/Main.v ===== *)
(** * The entry point of psrtd: src/src/server.rs

    The options of the command line, the logger of the console, and [main]: the same process becomes
    the standalone server of Start.v or the EVA ICS service of Eva.v. The parser of the command line,
    the launcher of services and the colours of the terminal are parameters. *)

From S2P Require Import Prelude Utf8 Proto Io Acl Topic Token Pubsub Passwords Keys Server.
From S2P Require Import Launch Start StartSpec Eva.

Record Opts : Type := mkOpts {
  config_file : option bytes;
  verbose : bool;
  log_syslog : bool;
  daemonize : bool;
  eva_svc : bool;
}.

(** ** The logger of the console *)

(** The levels of the crate log. *)
Inductive Level : Type :=
| Error'
| Warn
| Info
| Debug
| Trace.

(** The crate colored: a piece of text in a style. *)
Class ColoredOps : Type := {
  black : bytes -> bytes;
  dimmed : bytes -> bytes;
  yellow : bytes -> bytes;
  bold : bytes -> bytes;
  red : bytes -> bytes;
  normal : bytes -> bytes;
}.

Section logger.
Context {OSO : OsOps} {CLO : ColoredOps}.

(** [SimpleLogger]: whether the lines begin with the time. *)
Record SimpleLogger : Type := mkSimpleLogger { log_time : bool }.

Definition new_logger : SimpleLogger := mkSimpleLogger true.

(** systemd adds the time itself. *)
Definition init_logger (l : SimpleLogger) : SimpleLogger :=
  mkSimpleLogger (bool_decide (os_env (bs "INVOCATION_ID") = None)).

(** The line that [log] prints at a time. *)
Definition log_line (l : SimpleLogger) (now : bytes) (level : Level) (args : bytes) : bytes :=
  let s := if log_time l then now ++ bs "  " ++ args else args in
  match level with
  | Trace => dimmed (black s)
  | Debug => dimmed s
  | Warn => bold (yellow s)
  | Error' => red s
  | Info => normal s
  end.

(** Where the log of a standalone server goes, and the lowest level of it. *)
Definition log_filter (l : Logger) : Level :=
  match l with
  | Console true => Trace
  | Console false | Syslog => Info
  end.

Definition logger_of (o : Opts) : Logger := choose_logger (verbose o) (daemonize o) (log_syslog o).
End logger.

(** ** [main] *)

Section main.
Context {SMO : SubMapOps} {CHO : ChannelOps} {HXO : HexOps} {AEO : AeadOps}.
Context {OSO : OsOps} {TLO : TlsOps} {PAO : ParserOps} {EVO : EvaOps}.

(** [eva_sdk::service::svc_launch]: what it gives to the service, or its error. *)
Variable svc_launch : result Initial EvaError.

(** [svc_launch(eva_svc::main).unwrap()] *)
Definition launch_service : prog Process (result unit Stop) :=
  i <-? expect (match svc_launch with Ok i => Some i | Err _ => None end) ;;
  r <-- eva_main i ;;
  Ret (match r with
       | Ok _ => Ok tt
       | Err EvaExited => Err Exited
       | Err _ => Err Panicked
       end).

Definition psrtd_main (o : Opts) : prog Process (result unit Stop) :=
  _ <-- name_host ;;
  if eva_svc o then launch_service else main_standalone (config_file o) (daemonize o).

(** ** Correctness *)

(** Without --eva-svc the process is that of the theorems on [Start.main]. *)
Lemma psrtd_main_standalone o :
  eva_svc o = false -> psrtd_main o = Start.main (config_file o) (daemonize o).
Proof. unfold psrtd_main. by intros ->. Qed.

(** With it all other arguments are ignored. *)
Lemma psrtd_main_service o o' :
  eva_svc o = true -> eva_svc o' = true -> psrtd_main o = psrtd_main o'.
Proof. unfold psrtd_main. by intros -> ->. Qed.

Lemma eva_main_ends i (w w' : World Process) r :
  UNIX_SOCKETS (shared w) = ∅ -> run (eva_main i) w = Some (r, w') ->
  match r with
  | Ok _ => False
  | Err EvaExited => is_Some (exited (shared w'))
  | Err _ => True
  end.
Proof.
  intros H0. unfold eva_main. rewrite run_qbind.
  destruct (take_config i) as [[c|e]|] eqn:Hc.
  - destruct (eva_start_spec i c w Hc H0) as (rs & w1 & -> & HQ).
    destruct rs as [[]|[| |]]; [idtac|by intros [= <- <-]..].
    intros Hf. apply finish_ends in Hf.
    by destruct r as [|[]].
  - unfold eva_start, prepare, try_eva, lift. rewrite Hc, !run_qbind. cbn. by intros [= <- <-].
  - unfold eva_start, prepare, try_eva, lift. rewrite Hc, !run_qbind. cbn. by intros [= <- <-].
Qed.

(** How the process ends, when it does: as a standalone server in its endless loop, with a panic, or
    with [process::exit]; no error escapes from [main]. *)
Theorem psrtd_main_ends o (w w' : World Process) r :
  UNIX_SOCKETS (shared w) = ∅ -> run (psrtd_main o) w = Some (r, w') ->
  match r with
  | Ok _ => eva_svc o = false
  | Err Panicked => True
  | Err Exited => is_Some (exited (shared w'))
  | Err (Failed _) => False
  end.
Proof.
  intros H0. unfold psrtd_main. rewrite run_bind. cbn [run name_host modify].
  set (w1 := set_shared _ w). change (UNIX_SOCKETS (shared w1) = ∅) in H0.
  generalize dependent w1. intros w1 H0. destruct (eva_svc o).
  - unfold launch_service, expect, lift. rewrite run_qbind. cbn [run].
    destruct svc_launch as [i|]; cbn [ok_or]; [|by intros [= <- <-]].
    rewrite run_bind. destruct (run (eva_main i) w1) as [[re we]|] eqn:Er; [|done].
    cbn [run]. intros [= <- <-]. apply eva_main_ends in Er; [|done].
    by destruct re as [|[]].
  - unfold main_standalone, expect. rewrite run_qbind. cbn [run].
    destruct (find_config _) as [[cfg cfile]|]; cbn [ok_or]; [|by intros [= <- <-]].
    rewrite run_qbind. cbn [run fst snd].
    destruct (config_dir cfile) as [cdir|]; cbn [ok_or]; [|by intros [= <- <-]].
    rewrite run_qbind. cbn [run]. destruct (parse_config cfg) as [c|]; cbn [ok_or]; [|by intros [= <- <-]].
    rewrite run_qbind. cbn [run]. destruct (_ && _); cbn [ok_or]; [by intros [= <- <-]|].
    destruct (_ && _).
    + rewrite run_bind. cbn [run modify]. intros [= <- <-]. by exists 0%N.
    + intros Hr. destruct (standalone_spec c cdir w1 H0) as (r' & w2 & Hr' & HQ).
      rewrite Hr in Hr'. injection Hr' as <- <-. destruct r as [[]|[| |]]; try done.
      destruct HQ as [He _]. by exists 1%N.
Qed.
End main.
