(* ===== verification/Examples.v ===== *)
(** * The sample programs

    src/examples/udp_aes.rs builds an encrypted datagram by hand, with another crate for AES-GCM
    than the client library: it is the datagram that the library builds. udp_client.rs publishes
    four times over the client of Udp.v, pubsub.rs publishes to itself over that of Client.v, with a
    task of its own that prints what arrives. *)

From S2P Require Import Prelude Utf8 Proto Io Commands Client ClientSpec Delivery Cli CliSpec.
From S2P Require Import Acl Token Pubsub Keys Server Udp UdpSpec.

Section udp_aes.
Context {AEO : AeadOps}.
(** [Aes256Gcm::new(key).encrypt(nonce, data)] of the crate [aes_gcm]: the text with its tag. *)
Variable seal : bytes -> bytes -> bytes -> result bytes bytes.

(** [main] of udp_aes.rs up to the packet that it sends; the key is a constant there, the nonce 12
    random bytes. [None]: the [expect] fails. *)
Definition udp_aes_packet (aes_key nonce : bytes) : option bytes :=
  let packet := CONTROL_HEADER ++ to_le_bytes 2 PROTOCOL_VERSION in
  let packet := packet ++ [AUTH_KEY_AES256_GCM] in
  let packet := packet ++ bs "user1" in
  let packet := packet ++ [x00] in
  let data := [OP_PUBLISH_NO_ACK; DEFAULT_PRIORITY] in
  let data := data ++ bs "mytopic" in
  let data := data ++ [x00] in
  let data := data ++ bs "hello" in
  match seal aes_key nonce data with
  | Err _ => None
  | Ok enc_block => Some (packet ++ nonce ++ enc_block)
  end.

(** The two crates compute the same function. *)
Hypothesis same_cipher : forall key nonce data,
  seal key nonce data =
    match encrypt_aead aes_256_gcm key nonce data with
    | Ok (encrypted, digest) => Ok (encrypted ++ digest)
    | Err e => Err e
    end.

(** The packet of the sample is the one that the client library sends for the same publication. *)
Theorem udp_aes_packet_spec (aes_key nonce : bytes) :
  udp_aes_packet aes_key nonce =
    match UdpClient.build_packet
            (UdpClient.with_encryption_auth (bs "user1") aes_key UdpClient.connect)
            (bs "mytopic") (bs "hello") false (Ok nonce) with
    | Ok packet => Some packet
    | Err _ => None
    end.
Proof.
  unfold udp_aes_packet, UdpClient.build_packet. cbn [udp_encrypt UdpClient.with_encryption_auth].
  rewrite same_cipher. cbn [map_err rbind udp_password udp_login UdpClient.with_encryption_auth].
  change (((([OP_PUBLISH_NO_ACK; DEFAULT_PRIORITY] ++ bs "mytopic") ++ [x00]) ++ bs "hello"))
    with (UdpClient.message_block false (bs "mytopic") (bs "hello")).
  by destruct (encrypt_aead _ _ _ _) as [[ct tag]|e].
Qed.
End udp_aes.

(** ** src/examples/udp_client.rs *)

(** How [main] ends when it does not succeed. *)
Inductive SampleError : Type :=
| Failure (e : Error)
| ConnectFailure (e : IoError)
| Elapsed
| Panicked.

(** What the network does for one publication: the random bytes for it, the outcome of the [send],
    and what arrives within a second. *)
Record Exchange : Type := mkExchange {
  ex_nonce : result bytes bytes;
  ex_sent : result unit IoError;
  ex_events : list (result (bytes * bool) IoError);
}.

Section udp_client.
Context {AEO : AeadOps} {HXO : HexOps}.

(** [client.publish(topic, message).await] and, under a timeout of a second,
    [client.publish_confirmed(topic, message)]. *)
Definition publish_sample (c : UdpClient) (message : bytes) (x : Exchange) :
    result unit SampleError :=
  match UdpClient.publish c (bs "mytopic") message (ex_nonce x) (ex_sent x) (ex_events x) with
  | Some r => map_err Failure r
  | None => Err Elapsed
  end.

Definition confirm_sample (c : UdpClient) (message : bytes) (x : Exchange) :
    result unit SampleError :=
  match UdpClient.publish_confirmed c (bs "mytopic") message (ex_nonce x) (ex_sent x)
          (ex_events x) with
  | Some r => map_err Failure r
  | None => Err Elapsed
  end.

Definition sample_key : bytes :=
  bs "26fd38045707792a9bc50f3761a58987c4a9362cf60389f341c28e37b1125d93".

(** [main]: two connections, each with the outcome of its [connect], and two publications on each. *)
Definition udp_client_main (connect1 connect2 : result unit IoError) (x1 x2 x3 x4 : Exchange) :
    result unit SampleError :=
  let? _ := map_err ConnectFailure connect1 in
  let client := UdpClient.with_auth (bs "user1") (bs "xxx") UdpClient.connect in
  let? _ := publish_sample client (bs "hello") x1 in
  let? _ := confirm_sample client (bs "hello confirmed") x2 in
  let? key := map_err (fun _ => Panicked) (hex_decode sample_key) in
  let? _ := map_err (fun _ => Panicked) connect2 in
  let client := UdpClient.with_encryption_auth (bs "user1") key UdpClient.connect in
  let? _ := map_err (fun _ => Panicked) (publish_sample client (bs "hello secure") x3) in
  confirm_sample client (bs "hello secure confirmed") x4.

(** A network that sends everything; what arrives comes from other hosts but for the answers of the
    server. *)
Definition delivers (x : Exchange) : Prop := ex_sent x = Ok tt /\ is_ok (ex_nonce x) = true.

Definition acknowledges (code : byte) (x : Exchange) : Prop :=
  exists foreign rest, ex_events x = foreign ++ Ok (ack_packet code, true) :: rest /\
    Forall (fun e => exists d, e = Ok (d, false)) foreign.

Lemma wait_ack_code code x :
  acknowledges code x ->
  UdpClient.wait_ack (ex_events x) =
    Some (if decide (code = RESPONSE_OK) then Ok tt
          else Err (io (bs "Server response error " ++ show_hex (to_N code)))).
Proof.
  intros (foreign & rest & -> & Hf). induction Hf as [|e l (d & ->) _ IH]; [|done].
  exact (f_equal Some (process_ack_packet code)).
Qed.

(** [build_packet] fails only where a crate does. *)
Lemma plain_packet login password topic message ack nonce :
  is_ok (UdpClient.build_packet (UdpClient.with_auth login password UdpClient.connect)
           topic message ack nonce) = true.
Proof. done. Qed.

Lemma sealed_packet login key topic message ack nonce :
  (forall n data, is_ok (encrypt_aead aes_256_gcm key n data) = true) -> is_ok nonce = true ->
  is_ok (UdpClient.build_packet (UdpClient.with_encryption_auth login key UdpClient.connect)
           topic message ack nonce) = true.
Proof.
  intros Hk Hn. unfold UdpClient.build_packet. destruct nonce as [n|]; [|done]. simpl.
  specialize (Hk n (UdpClient.message_block ack topic message)).
  by destruct (encrypt_aead _ _ _ _) as [[ct tag]|e].
Qed.

Lemma published_sent c message x :
  is_ok (UdpClient.build_packet c (bs "mytopic") message false (ex_nonce x)) = true ->
  delivers x -> publish_sample c message x = Ok tt.
Proof.
  intros Hp [Hs _]. unfold publish_sample, UdpClient.publish, UdpClient.publish_impl.
  rewrite Hs. by destruct (UdpClient.build_packet _ _ _ _ _).
Qed.

(** What the answer of the server makes of a confirmed publication. *)
Definition outcome (code : byte) : result unit SampleError :=
  if decide (code = RESPONSE_OK) then Ok tt
  else Err (Failure (io (bs "Server response error " ++ show_hex (to_N code)))).

Lemma confirmed_sent c message x code :
  is_ok (UdpClient.build_packet c (bs "mytopic") message true (ex_nonce x)) = true ->
  delivers x -> acknowledges code x -> confirm_sample c message x = outcome code.
Proof.
  intros Hp [Hs _] Ha. unfold confirm_sample, UdpClient.publish_confirmed, UdpClient.publish_impl, outcome.
  rewrite Hs. destruct (UdpClient.build_packet _ _ _ _ _); [|done].
  rewrite (wait_ack_code _ _ Ha). by case_decide.
Qed.

(** On a network that delivers, the sample ends as the server answers its two confirmed
    publications: the second one is tried only when the first was taken. *)
Theorem udp_client_main_spec (key : bytes) (x1 x2 x3 x4 : Exchange) code2 code4 :
  hex_decode sample_key = Ok key ->
  (forall n data, is_ok (encrypt_aead aes_256_gcm key n data) = true) ->
  delivers x1 -> delivers x2 -> delivers x3 -> delivers x4 ->
  acknowledges code2 x2 -> acknowledges code4 x4 ->
  udp_client_main (Ok tt) (Ok tt) x1 x2 x3 x4 = (let? _ := outcome code2 in outcome code4).
Proof.
  intros Hkey Hk H1 H2 H3 H4 Ha2 Ha4. unfold udp_client_main. cbn [map_err rbind].
  rewrite (published_sent _ _ x1), (confirmed_sent _ _ x2 code2) by (done || apply plain_packet).
  destruct (outcome code2); [|done]. rewrite Hkey. cbn [map_err rbind].
  rewrite (published_sent _ _ x3), (confirmed_sent _ _ x4 code4) by
    (done || (apply sealed_packet; [done|by destruct H3, H4])). done.
Qed.
End udp_client.

(** ** src/examples/pubsub.rs *)

(** The client, what it needs to connect, the task that receives ([None]: not spawned; else its
    outcome when it ended) and what was printed. *)
Record Sample `{ChannelOps} `{OneshotOps} : Type := mkSample {
  sample_client : ClientState;
  sample_dial : Dial;
  receiver_fut : option (option (result unit Utf8Error));
  sample_output : list bytes;
}.
Arguments mkSample {_ _} _ _ _ _.

Section pubsub.
Context {CHO : ChannelOps} {OSO : OneshotOps}.
Variable elapsed : bytes.

Definition set_sample_client (c : ClientState) (s : Sample) : Sample :=
  mkSample c (sample_dial s) (receiver_fut s) (sample_output s).

Definition set_receiver (r : option (result unit Utf8Error)) (s : Sample) : Sample :=
  mkSample (sample_client s) (sample_dial s) (Some r) (sample_output s).

Definition println (line : bytes) (s : Sample) : Sample :=
  mkSample (sample_client s) (sample_dial s) (receiver_fut s) (sample_output s ++ [line]).

(** A method of the client. *)
Definition call {A} (p : prog ClientState A) : prog Sample A :=
  zoom sample_client set_sample_client p.

Definition received (m : Message) (text : bytes) : bytes :=
  bs "topic: " ++ Proto.topic m ++ bs ", data: " ++ text.

(** A round of [while let Ok(message) = data_channel.recv().await]. *)
Definition receive_round : prog Sample (option (result unit Utf8Error)) :=
  m <-- call (await recv_message) ;;
  match m with
  | None => Ret (Some (Ok tt))
  | Some m =>
      match data_as_str m with
      | Err e => Ret (Some (Err e))
      | Ok text => _ <-- modify (println (received m text)) ;; Ret None
      end
  end.

(** The spawned task; its outcome is kept for the [await]. *)
Definition receive_task (fuel : nat) : prog Sample unit :=
  r <-- iterate fuel receive_round ;;
  match r with
  | Some r => modify (set_receiver (Some r))
  | None => Ret tt
  end.

Definition sample_config : Config :=
  Config.build (Config.set_timeout (5 * 10 ^ 9) (Config.new (bs "localhost:2873"))).

Definition sample_connect (fuel : nat) : prog Sample (result unit Panic) :=
  await (fun s =>
    let d := sample_dial s in
    match Client.connect (dial_net d) fuel sample_config (dial_data d) (dial_world d) with
    | None => None
    | Some ConnectPanics => Some (Err ZeroCapacity, s)
    | Some (Returned (Ok cl)) => Some (Ok tt, set_sample_client cl s)
    | Some (Returned (Err _)) => Some (Err (Expect (bs "Failed to connect")), s)
    end).

Definition sample_topic : bytes := bs "test/topic1".

(** The body of the [for] loop. *)
Definition publish_round (timeout : N) : prog Sample (result unit Panic) :=
  b <-- call Client.is_connected ;;
  if b : bool then
    r <-- call (Client.publish elapsed DEFAULT_PRIORITY sample_topic (bs "hello") timeout) ;;
    _ <-? Ret (map_err Unwrap r) ;;
    _ <-- sleep (10 ^ 9) ;;
    Ret (Ok tt)
  else Ret (Err AssertFailed).

Definition join_receiver : prog Sample (result unit Panic) :=
  await (fun s => match receiver_fut s with
                  | Some (Some r) => Some (map_err (fun _ => JoinFailed) r, s)
                  | _ => None
                  end).

(** [main]; [fuel] is for the loop that waits for the socket. *)
Definition pubsub_main (fuel : nat) : prog Sample (result unit Panic) :=
  let timeout := timeout sample_config in
  _ <-? sample_connect fuel ;;
  r <-- call (Client.subscribe elapsed sample_topic timeout) ;;
  _ <-? Ret (map_err Unwrap r) ;;
  b <-- call Client.take_data_channel ;;
  if b : bool then
    _ <-- modify (set_receiver None) ;;
    _ <-? for_each (seq 0 3) (fun _ => publish_round timeout) ;;
    r <-- call (Client.bye elapsed timeout) ;;
    _ <-? Ret (map_err Unwrap r) ;;
    join_receiver
  else Ret (Err UnwrapNone).

(** ** What the sample prints *)

Context {CHL : ChannelLaws}.

(** The lines for a queue of messages, up to the first that is not text, and how the task ends. *)
Fixpoint lines_of (q : list Message) : list bytes * result unit Utf8Error :=
  match q with
  | [] => ([], Ok tt)
  | m :: q' =>
      match data_as_str m with
      | Ok text => (received m text :: (lines_of q').1, (lines_of q').2)
      | Err e => ([], Err e)
      end
  end.

Definition kept_output (s s' : Sample) : Prop :=
  sample_output s' = sample_output s /\ receiver_fut s' = receiver_fut s.

#[local] Instance kept_output_preorder : PreOrder kept_output.
Proof. split; [by split|]. intros s1 s2 s3 [] []. split; congruence. Qed.

Lemma run_call {A} (p : prog ClientState A) w a v :
  run p (focus sample_client w) = Some (a, v) ->
  exists w', run (call p) w = Some (a, w') /\ focus sample_client w' = v /\
    kept_output (shared w) (shared w').
Proof. by apply (run_zoom sample_client set_sample_client kept_output). Qed.

Lemma run_receive m q w :
  ch_queue (ch_view (messages (sample_client (shared w)))) = m :: q ->
  exists w', run (call (await recv_message)) w = Some (Some m, w') /\
    ch_queue (ch_view (messages (sample_client (shared w')))) = q /\
    view_open (ch_view (messages (sample_client (shared w')))) =
      view_open (ch_view (messages (sample_client (shared w)))) /\
    kept_output (shared w) (shared w').
Proof.
  intros Hq. destruct (ch_recv_message _ _ _ Hq) as (c & Hr & Hc).
  destruct (run_call (await recv_message) w (Some m)
    (set_shared (set_messages c (sample_client (shared w))) (focus sample_client w)))
    as (w' & H1 & H2 & H3).
  { cbn [run await]. unfold recv_message. simpl. by rewrite Hr. }
  exists w'. apply (f_equal shared) in H2. simpl in H2. rewrite H2. simpl. by rewrite Hc.
Qed.

(** When no more messages come, the task has printed every message in order, or it panicked at the
    first body that is not UTF-8, after those before it: then [receiver_fut.await.unwrap()] of
    [main] panics too. *)
Theorem receive_task_spec (q : list Message) (w : World Sample) :
  ch_queue (ch_view (messages (sample_client (shared w)))) = q ->
  view_open (ch_view (messages (sample_client (shared w)))) = false ->
  exists w', run (receive_task (S (length q))) w = Some (tt, w') /\
    sample_output (shared w') = sample_output (shared w) ++ (lines_of q).1 /\
    receiver_fut (shared w') = Some (Some (lines_of q).2).
Proof.
  intros Hq Ho. unfold receive_task. revert w Hq Ho; induction q as [|m q IH]; intros w Hq Ho;
    cbn [length]; rewrite run_bind, run_iterate_S; unfold receive_round at 1; rewrite run_bind.
  - destruct (ch_recv_closed _ Hq Ho) as (c & Hr & _).
    destruct (run_call (await recv_message) w None
      (set_shared (set_messages c (sample_client (shared w))) (focus sample_client w)))
      as (w' & -> & _ & H3 & _).
    { cbn [run await]. unfold recv_message. simpl. by rewrite Hr. }
    eexists. split; [reflexivity|]. simpl. by rewrite H3, app_nil_r.
  - destruct (run_receive m q w Hq) as (w1 & -> & Hq1 & Ho1 & H1 & H2). simpl.
    destruct (data_as_str m) as [text|e].
    + cbn [run modify pbind].
      destruct (IH (set_shared (println (received m text) (shared w1)) w1) Hq1 ltac:(by rewrite <- Ho))
        as (w' & Hw & Hp & Hf). rewrite run_bind in Hw.
      exists w'. split; [exact Hw|]. rewrite Hp, Hf. simpl. by rewrite H1, <- app_assoc.
    + eexists. split; [reflexivity|]. simpl. by rewrite H1, app_nil_r.
Qed.
End pubsub.
